(* ===== verification/_CoqProject ===== *)
-Q . S2P
Prelude.v
GoStrings.v
GoConv.v
Sha256.v
GoUrl.v
GoJson.v
GoFloat.v
GoUnmarshal.v
GoUtf8.v
GoMime.v
GoMultipart.v
GoFlag.v
Types.v
Prog.v
Interp.v
Config.v
ConfigFacts.v
Payee.v
Backend.v
Tokenizer.v
ResponseWriter.v
Env.v
Module.v
ChatCompletions.v
Multipart.v
MultipartFacts.v
Embeddings.v
ImagesGenerations.v
ImagesEdits.v
AudioSpeech.v
AudioTranscriptions.v
Local.v
Middleware.v
Session.v
Contract.v
Slot.v
Stack.v
Semaphore.v
Liveness.v
Mux.v
Handlers.v
Main.v
Worker.v
Listener.v
Lifecycle.v
Lint.v
Catalog.v
Daemon.v
Relay.v
Streaming.v
Metrics.v
Registry.v
Labels.v
Tariff.v
Gate.v
