(* ===== verification/Prelude.v ===== *)
(** Verification of openai-worker-node, a Go worker that sells OpenAI-shaped
    inference for payment tickets: a request carries a payment, the worker has a
    local payment daemon check it, debits an estimate, relays the request to an
    inference backend and debits what the answer cost above the estimate.

    * The parts of the program and their files

    The development follows the packages of src/.  A definition has the name of
    the Go function it translates (a method [T.F] is [T_F]).

    - Prelude: errors with their wrapping chain ([error], [errors_Is],
      [status_Code]), results [res] for Go's pair of a value and an error,
      64-bit integers ([wrap64]).
    - GoStrings, GoConv, GoUrl, GoJson, GoFloat, GoUnmarshal, Sha256: what the
      source uses of the Go standard library, executable: strings and runes,
      strconv, big.Int text, hex, base64, headers and readers, net/url, the JSON
      scanner and encoder, decimal to binary64 conversion, struct decoding,
      SHA-256.
    - GoMime, GoMultipart, GoFlag: media types and quoted-printable, the reader of
      mime/multipart over a body in memory, the parser of package flag.
    - GoUtf8: [utf8.ValidString], and that decoding JSON yields valid strings only.
    - Types: internal/types, the label constants of metrics/recorder.go, the
      data of payeedaemon/types.go, and the calls of the three provider
      interfaces with the types of their answers.
    - Prog and Interp: effectful code.  A Go function that calls an interface,
      writes to the response or touches the semaphore is a [prog], a tree of
      effects with typed answers; a trace [Tr p t a] lists the effects with the
      answers the environment gave, so a theorem over all traces holds whatever
      the daemon, the backend, the client and the clock answer.  [safe] is the
      logic of trace monitors, [sim] proves that every trace is a run of a step
      relation.  [interp] plugs the implementation of an interface into its
      client; [interp_Tr] splits a trace of the composition.
    - Config, ConfigFacts: internal/config (config.go, parse.go, verify.go).
    - Payee: internal/providers/payeedaemon (the metered decorator, the gRPC
      client over calls of the generated stub, the fake).
    - Backend: internal/providers/backendhttp (the metered decorator, the fetch
      client over [http.Client], the fake).
    - Tokenizer: internal/providers/tokenizer (word count, tiktoken over its
      cache and any fallback, the metered decorator).
    - Metrics, Registry: internal/providers/metrics/prometheus.go and
      testhelpers.go; Registry has the vectors [NewPrometheus] registers, with
      their labels and buckets, and what a recorder call does on them, panics
      included.
    - ResponseWriter: the status writer of runtime/http/middleware.go, with the codes
      net/http panics on, the plain writer of net/http and the functions written
      against either ([writeJSONError]); the class [ResponseWriter] is their
      interface, [sw_step] what is on the wire.
    - Module: service/modules/module.go, as a record of operations; the class
      [ModuleLaws] is what a module promises the middleware, [TokenizerLaws] what
      a tokenizer promises a module.
    - ChatCompletions, Embeddings, ImagesGenerations, ImagesEdits, AudioSpeech,
      AudioTranscriptions, Multipart, MultipartFacts: the modules of
      internal/service/modules, each with its [ModuleLaws] instance, and
      multipartutil; Local: what a module does beside calling the backend.
    - Middleware: runtime/http/middleware.go and workid.go, the handler of a paid
      route, with its deferred functions.
    - Mux: runtime/http/mux.go, the registration of routes with its panics, and
      the dispatch of [http.ServeMux].
    - Handlers: runtime/http/handlers.go, the routes that are not paid.
    - Main: cmd/openai-worker-node/main.go up to the start of the server: flags
      ([parse_flags]), configuration, daemon, catalog, modules, mux; the root
      handler that wires the production clients; the uptime goroutine.
    - Listener, Lifecycle: runtime/metrics/listener.go, runtime/http/server.go
      and the end of [run]: the goroutines, channels and the select as step
      relations [lstep] and [pstep].
    - Lint: lint/payment-middleware-check, over the syntax trees of the Go parser.
    - Env: a concrete environment (the fakes), for the witnesses.

    * What is proved

    - Session: every behaviour of the middleware is a run of the session state
      machine [session_step]; from it, [Serve] is reached only after payment, the
      debits are the estimate and the excess and nothing else, and a session is
      closed exactly once for an accepted payment.
    - Contract: a request that is not served is answered once, with the status
      and code of the check that refused it.
    - Slot, Semaphore, Liveness: a request holds one slot from its first to its
      last action and is counted once, with the model it named, the bucket of its
      answer and its duration; any number of interleaved requests stay within the
      capacity; of requests some of which hang for good, the others finish and give
      their slots back, so those that hang cost their own slots and no more.
    - Stack: the middleware composed with any lawful module (the backend is
      called only after payment, the recorded status is the one on the wire) and
      with the gRPC client (a negative balance is never seen).
    - Mux, Handlers: which routes a mux has, after any sequence of registrations, and
      where a request of any method and clean path goes ([dispatched]: its route, GET
      for HEAD, 405 with the allowed methods, 404);
      the answers of the unpaid routes on every branch, and that the published
      offerings are the routed ones.
    - Worker: the worker as a whole: startup is refused unless configuration, daemon
      catalog and modules agree, and never panics; what its routes dispatch to.
    - Gate: a request at a started worker reaches a backend only behind a session, a
      payment and the debit of the estimate that the daemon accepted, it does so once,
      and the session is settled behind it.
    - Catalog: the price of every session a worker opens is one the daemon offered
      when the worker started.
    - Tariff: the price table of the worker ([tariff_for]) as pure functions of the
      request and the backend's answer, and that the debits over gRPC follow it.
    - Daemon: the gRPC calls of a request follow one of the scripts of a session.
    - Relay, Streaming: the answer of a backend exchange is the answer of the client,
      buffered or as a stream, from the HTTP transport to the response writer.
    - Registry, Labels: a recorder call panics exactly on a label that is not valid
      UTF-8; a worker makes no such call on a path whose model is JSON, and one on
      the two paths with forms can be provoked ([form_model_panics]).
    - Lifecycle, Listener: the exit code is decided by the signal and the
      shutdown; behind a signal every run leaves the process.
    - Payee, Backend: the metered decorators are transparent and record each call
      once.
    - Lint: the exit code of the lint for every tree of files.
    - The module files: the estimates and billed units as exact functions of the
      request or answer, with the ranges in which the 64-bit arithmetic is exact
      and examples of what happens outside; the byte-exact relay of a stream.
    - ConfigFacts, Tokenizer, Metrics: validation and routing; that the cache of the
      tokenizer fixes the first answer of the library for each model, failures
      included; the cardinality cap in sequence and interleaved.
    - MultipartFacts: the form field found in a body is the one written into it,
      through the MIME header, boundary search and limits; what a body cut short
      reads as.

    * Modelling choices

    - A program is a finite tree: the loops of the source run over the data they
      were given (lines of a stream, messages, parts), so no fuel bounds them.
      Fuel appears in the scanners of texts (JSON, MIME headers, multipart lines,
      where a pass consumes a byte and the fuel is the length of the text) and in
      number formatting (the number of digits).
    - An [int] is a 64-bit [Z] with [wrap64] at each operation that can wrap; a
      [big.Int] is a [Z]; a [time.Duration] is nanoseconds.
    - Two calls of a handler can panic, and net/http recovers.  [WriteHeader] panics on
      a status below 100, which a backend can send: the [Serve] that relays it ends in
      [ServePanic], and the deferred functions run ([statusWriter_WriteHeader],
      [WriteHeader_then]).  A recorder call panics on a label that is not valid UTF-8:
      that is not a behaviour of the program, and Labels shows where it cannot happen.
      The panics of registration are values of [may_panic].
    - An effect of a trace is one that was answered, and a trace ends with a result.  A
      call may also never be answered (the HTTP client has no timeout): what a program
      did until then is the beginning of a trace that goes on with that call
      ([Stack.hangs_begins]), so a theorem about what comes before an event holds for
      it; and Liveness is about schedules in which some requests hang.
    - tiktoken-go fetches its tables when it is asked for an encoding, so each question
      to it has an answer of its own ([count_call]); the whole-process theorems take one
      answer per model, which is what the cache makes of them.
    - [EHttpDo] is one call of [http.Client.Do].  The client follows redirects itself, so
      a backend can have the request sent on to a URL of its choice; the URL of the
      theorems is the one the worker hands over.  The transport does not deliver
      informational statuses.
    - Parameters, since their code is not under src/: the yaml decoder, the file
      system, the encodings of tiktoken-go and its answers, the Go parser, the handler of the
      Prometheus registry, the conversion of a float outside the range of int64,
      the daemon behind the gRPC stub, the HTTP transport.
    - net/http's Server is its documented behaviour in [lstep] and [pstep]
      (Serve returns ErrServerClosed behind a Shutdown, another error before);
      http.ServeMux is modelled for plain routes (a method and a literal path without
      escapes or a slash at the end, [plain_route]) and request paths that are already
      clean ([clean_path]).

    * Not modelled

    Generated protobuf code; the Go runtime and process collectors and the
    exposition format of the Prometheus client; the texts of log lines; the
    redirect http.ServeMux sends for a path that is not clean. *)
From stdpp Require Export base gmap strings list.
From Stdlib Require Export ZArith Lia.
From Stdlib Require Import Ascii String.

#[global] Open Scope Z_scope.

Declare Scope go_scope.
Delimit Scope go_scope with go.
Open Scope go_scope.

(** * Values of Go functions that return [(T, error)] *)

(** The gRPC status codes. *)
Inductive grpc_code :=
| CodeOK | CodeCanceled | CodeUnknown | CodeInvalidArgument | CodeDeadlineExceeded | CodeNotFound
| CodeAlreadyExists | CodePermissionDenied | CodeResourceExhausted | CodeFailedPrecondition
| CodeAborted | CodeOutOfRange | CodeUnimplemented | CodeInternal | CodeUnavailable | CodeDataLoss
| CodeUnauthenticated.

#[export] Instance grpc_code_eq_dec : EqDecision grpc_code.
Proof. solve_decision. Defined.

Definition grpc_code_name (c : grpc_code) : string :=
  match c with
  | CodeOK => "OK" | CodeCanceled => "Canceled" | CodeUnknown => "Unknown"
  | CodeInvalidArgument => "InvalidArgument" | CodeDeadlineExceeded => "DeadlineExceeded"
  | CodeNotFound => "NotFound" | CodeAlreadyExists => "AlreadyExists"
  | CodePermissionDenied => "PermissionDenied" | CodeResourceExhausted => "ResourceExhausted"
  | CodeFailedPrecondition => "FailedPrecondition" | CodeAborted => "Aborted"
  | CodeOutOfRange => "OutOfRange" | CodeUnimplemented => "Unimplemented"
  | CodeInternal => "Internal" | CodeUnavailable => "Unavailable" | CodeDataLoss => "DataLoss"
  | CodeUnauthenticated => "Unauthenticated"
  end.

(** A Go [error] value: a leaf built by [errors.New], a sentinel of the
    standard library, a gRPC status error, an error value of a library whose
    text the model does not reproduce, or a [%w] wrapper. *)
Inductive error :=
| ErrText (msg : string)
| ErrEOF
| ErrCanceled
| ErrDeadlineExceeded
| ErrStatus (code : grpc_code) (msg : string)
| ErrLib (lib msg : string)
| ErrWrap (prefix : string) (inner : error).

#[export] Instance error_eq_dec : EqDecision error.
Proof. solve_decision. Defined.

(** [err.Error()]. *)
Fixpoint Error (e : error) : string :=
  match e with
  | ErrText m => m
  | ErrEOF => "EOF"
  | ErrCanceled => "context canceled"
  | ErrDeadlineExceeded => "context deadline exceeded"
  | ErrStatus c m => "rpc error: code = " +:+ grpc_code_name c +:+ " desc = " +:+ m
  | ErrLib _ m => m
  | ErrWrap p e' => p +:+ ": " +:+ Error e'
  end.

(** [errors.Is(err, target)]: the error or one it wraps. *)
Fixpoint errors_Is (e target : error) : bool :=
  bool_decide (e = target) || match e with ErrWrap _ e' => errors_Is e' target | _ => false end.

(** [status.Code(err)]: the code of the status error found by unwrapping. *)
Fixpoint status_Code (e : error) : grpc_code :=
  match e with
  | ErrStatus c _ => c
  | ErrWrap _ e' => status_Code e'
  | _ => CodeUnknown
  end.

Inductive res (A : Type) :=
| Ok (a : A)
| Err (e : error).
Arguments Ok {A} a.
Arguments Err {A} e.

#[export] Instance res_eq_dec `{EqDecision A} : EqDecision (res A).
Proof. solve_decision. Defined.

#[export] Instance res_ret : MRet res := fun A a => Ok a.
#[export] Instance res_bind : MBind res := fun A B f m =>
  match m with Ok a => f a | Err e => Err e end.
#[export] Instance res_fmap : FMap res := fun A B f m =>
  match m with Ok a => Ok (f a) | Err e => Err e end.

Definition is_ok {A} (r : res A) : bool := match r with Ok _ => true | Err _ => false end.
Definition is_err {A} (r : res A) : bool := negb (is_ok r).

(** [fmt.Errorf(prefix + ": %w", err)] applied to the error of a result. *)
Definition wrap_err {A} (prefix : string) (r : res A) : res A :=
  match r with Ok a => Ok a | Err e => Err (ErrWrap prefix e) end.

Lemma res_bind_Ok {A B} (m : res A) (f : A -> res B) b :
  m ≫= f = Ok b <-> exists a, m = Ok a /\ f a = Ok b.
Proof. destruct m; simpl; naive_solver. Qed.

Lemma res_bind_Err {A B} (m : res A) (f : A -> res B) e :
  m ≫= f = Err e <-> m = Err e \/ exists a, m = Ok a /\ f a = Err e.
Proof. destruct m; simpl; naive_solver. Qed.

Lemma wrap_err_Ok {A} p (r : res A) a : wrap_err p r = Ok a <-> r = Ok a.
Proof. destruct r; simpl; naive_solver. Qed.

(** * Fixed-width integers: [int] and [int64] are 64 bits wide *)

Definition int64_min : Z := - 2 ^ 63.
Definition int64_max : Z := 2 ^ 63 - 1.

Definition in_int64 (z : Z) : Prop := int64_min <= z <= int64_max.
#[export] Instance in_int64_dec z : Decision (in_int64 z).
Proof. unfold in_int64. apply _. Defined.

(** Two's-complement wrap-around of a mathematical integer. *)
Definition wrap64 (z : Z) : Z := (z + 2 ^ 63) mod 2 ^ 64 - 2 ^ 63.

Lemma wrap64_id z : in_int64 z -> wrap64 z = z.
Proof.
  unfold in_int64, int64_min, int64_max, wrap64. intros H.
  rewrite Z.mod_small; lia.
Qed.

Lemma wrap64_range z : in_int64 (wrap64 z).
Proof.
  unfold in_int64, int64_min, int64_max, wrap64.
  pose proof (Z.mod_pos_bound (z + 2 ^ 63) (2 ^ 64)). lia.
Qed.

Lemma wrap64_eq_mod a b : a mod 2 ^ 64 = b mod 2 ^ 64 -> wrap64 a = wrap64 b.
Proof.
  unfold wrap64. intros H.
  rewrite <- (Zplus_mod_idemp_l a), H, Zplus_mod_idemp_l. done.
Qed.

Lemma wrap64_mod z : wrap64 z mod 2 ^ 64 = z mod 2 ^ 64.
Proof.
  unfold wrap64. rewrite Zminus_mod, Zmod_mod, <- Zminus_mod. f_equal. lia.
Qed.

Lemma wrap64_mul_l a b : wrap64 (wrap64 a * b) = wrap64 (a * b).
Proof.
  apply wrap64_eq_mod. rewrite <- Zmult_mod_idemp_l, wrap64_mod, Zmult_mod_idemp_l. done.
Qed.

Lemma wrap64_add_l a b : wrap64 (wrap64 a + b) = wrap64 (a + b).
Proof.
  apply wrap64_eq_mod. rewrite <- Zplus_mod_idemp_l, wrap64_mod, Zplus_mod_idemp_l. done.
Qed.

Create HintDb go discriminated.
#[export] Hint Resolve wrap64_range : go.
#[export] Hint Rewrite @wrap64_mul_l @wrap64_add_l : go.

(** * Tactics of the development *)

(** Case analysis on every [match] and [if] of the goal, closing the branches
    that compute. *)
Ltac split_matches :=
  repeat (case_match; simplify_eq/=; try done).

(** Open every existential hypothesis. *)
Ltac destruct_exis := repeat match goal with H : exists _, _ |- _ => destruct H as [? H] end.

(** Unfold the bounds of [int64] and decide the arithmetic. *)
Ltac int64_lia := unfold in_int64, int64_min, int64_max in *; lia.

(** * Generic list lemmas *)

Lemma Forall_app_snoc {A} (P : A -> Prop) l x : Forall P l -> P x -> Forall P (l ++ [x]).
Proof. intros. apply Forall_app. auto. Qed.
