(* ===== verification/GoStrings.v ===== *)
(** The part of Go's [strings], [bytes], [unicode/utf8], [strconv],
    [encoding/hex], [encoding/base64], [math/big] and [net/http.Header] the
    worker relies on, as executable functions on byte strings.  A Go [string]
    and a Go [[]byte] are both a Rocq [string], whose characters are bytes. *)
From stdpp Require Import base gmap strings list.
From Stdlib Require Import ZArith Lia Ascii String.
From S2P Require Import Prelude.

(** * Bytes *)

Definition byte_z (c : ascii) : Z := Z.of_N (N_of_ascii c).
Definition z_byte (z : Z) : ascii := ascii_of_N (Z.to_N (z mod 256)).

Definition str1 (c : ascii) : string := String c EmptyString.
Definition NL : ascii := "010"%char.
Definition CR : ascii := "013"%char.
Definition DQUOTE : ascii := "034"%char.
Definition nl : string := str1 NL.
Definition crlf : string := String CR nl.

(** [len(s)]. *)
Definition slen (s : string) : Z := Z.of_nat (String.length s).

Definition str_nil (s : string) : bool := match s with EmptyString => true | _ => false end.

Fixpoint str_filter (f : ascii -> bool) (s : string) : string :=
  match s with
  | EmptyString => EmptyString
  | String c s' => if f c then String c (str_filter f s') else str_filter f s'
  end.

Fixpoint str_map (f : ascii -> ascii) (s : string) : string :=
  match s with EmptyString => EmptyString | String c s' => String (f c) (str_map f s') end.

Fixpoint str_forall (f : ascii -> bool) (s : string) : bool :=
  match s with EmptyString => true | String c s' => f c && str_forall f s' end.

Fixpoint str_concat (l : list string) : string :=
  match l with [] => EmptyString | s :: l' => s +:+ str_concat l' end.

(** [s[n:]] and [s[:n]] with [n <= len s]. *)
Fixpoint str_drop (n : nat) (s : string) : string :=
  match n, s with
  | O, _ => s
  | S n', String _ s' => str_drop n' s'
  | S _, EmptyString => EmptyString
  end.

Fixpoint str_take (n : nat) (s : string) : string :=
  match n, s with
  | S n', String c s' => String c (str_take n' s')
  | _, _ => EmptyString
  end.

(** * unicode/utf8 *)

Definition RuneError : Z := 0xFFFD.

Definition in_range (lo hi z : Z) : bool := (lo <=? z) && (z <=? hi).
Definition is_cont (z : Z) : bool := in_range 0x80 0xBF z.

(** The bytes allowed after the lead byte [b0] of a 3- or 4-byte sequence. *)
Definition second_ok (b0 b1 : Z) : bool :=
  if b0 =? 0xE0 then in_range 0xA0 0xBF b1
  else if b0 =? 0xED then in_range 0x80 0x9F b1
  else if b0 =? 0xF0 then in_range 0x90 0xBF b1
  else if b0 =? 0xF4 then in_range 0x80 0x8F b1
  else is_cont b1.

(** [utf8.DecodeRuneInString]: the first rune of a non-empty string and its
    width; an invalid sequence is [(RuneError, 1)]. *)
Definition decode_rune (s : string) : Z * nat :=
  match s with
  | EmptyString => (RuneError, 0%nat)
  | String c0 s1 =>
      let b0 := byte_z c0 in
      if b0 <? 0x80 then (b0, 1%nat)
      else if in_range 0xC2 0xDF b0 then
        match s1 with
        | String c1 _ =>
            let b1 := byte_z c1 in
            if is_cont b1 then (Z.lor (Z.shiftl (Z.land b0 0x1F) 6) (Z.land b1 0x3F), 2%nat)
            else (RuneError, 1%nat)
        | _ => (RuneError, 1%nat)
        end
      else if in_range 0xE0 0xEF b0 then
        match s1 with
        | String c1 (String c2 _) =>
            let b1 := byte_z c1 in let b2 := byte_z c2 in
            if second_ok b0 b1 && is_cont b2
            then (Z.lor (Z.shiftl (Z.land b0 0x0F) 12)
                    (Z.lor (Z.shiftl (Z.land b1 0x3F) 6) (Z.land b2 0x3F)), 3%nat)
            else (RuneError, 1%nat)
        | _ => (RuneError, 1%nat)
        end
      else if in_range 0xF0 0xF4 b0 then
        match s1 with
        | String c1 (String c2 (String c3 _)) =>
            let b1 := byte_z c1 in let b2 := byte_z c2 in let b3 := byte_z c3 in
            if second_ok b0 b1 && is_cont b2 && is_cont b3
            then (Z.lor (Z.shiftl (Z.land b0 0x07) 18)
                    (Z.lor (Z.shiftl (Z.land b1 0x3F) 12)
                       (Z.lor (Z.shiftl (Z.land b2 0x3F) 6) (Z.land b3 0x3F))), 4%nat)
            else (RuneError, 1%nat)
        | _ => (RuneError, 1%nat)
        end
      else (RuneError, 1%nat)
  end.

(** The runes of a string with the bytes of each, as [for _, r := range s]
    visits them.  [skip] counts the continuation bytes of the current rune. *)
Fixpoint rune_segs_from (skip : nat) (s : string) : list (Z * string) :=
  match s with
  | EmptyString => []
  | String _ s' =>
      match skip with
      | S n => rune_segs_from n s'
      | O => let '(r, w) := decode_rune s in
             (r, str_take w s) :: rune_segs_from (Nat.pred w) s'
      end
  end.
Definition rune_segs : string -> list (Z * string) := rune_segs_from 0.
Definition runes (s : string) : list Z := fst <$> rune_segs s.

(** [utf8.RuneCountInString]. *)
Definition RuneCountInString (s : string) : Z := Z.of_nat (length (runes s)).

(** [utf8.EncodeRune] for a valid rune. *)
Definition encode_rune (r : Z) : string :=
  let cont z := z_byte (Z.lor 0x80 (Z.land z 0x3F)) in
  if r <? 0x80 then str1 (z_byte r)
  else if r <? 0x800 then
    String (z_byte (Z.lor 0xC0 (Z.shiftr r 6))) (str1 (cont r))
  else if r <? 0x10000 then
    String (z_byte (Z.lor 0xE0 (Z.shiftr r 12)))
      (String (cont (Z.shiftr r 6)) (str1 (cont r)))
  else
    String (z_byte (Z.lor 0xF0 (Z.shiftr r 18)))
      (String (cont (Z.shiftr r 12)) (String (cont (Z.shiftr r 6)) (str1 (cont r)))).

(** * strings *)

Fixpoint HasPrefix (s pre : string) : bool :=
  match pre, s with
  | EmptyString, _ => true
  | String a pre', String b s' => Ascii.eqb a b && HasPrefix s' pre'
  | String _ _, EmptyString => false
  end.

Fixpoint Contains (s sub : string) : bool :=
  HasPrefix s sub ||
  match s with EmptyString => false | String _ s' => Contains s' sub end.

(** The position of the first byte [c], if any ([bytes.IndexByte]). *)
Fixpoint IndexByte (s : string) (c : ascii) : option nat :=
  match s with
  | EmptyString => None
  | String a s' => if Ascii.eqb a c then Some 0%nat else S <$> IndexByte s' c
  end.

(** [strings.Split(s, sep)] for a one-byte separator. *)
Fixpoint Split (s : string) (sep : ascii) : list string :=
  match s with
  | EmptyString => [EmptyString]
  | String a s' =>
      if Ascii.eqb a sep then EmptyString :: Split s' sep
      else match Split s' sep with
           | [] => [str1 a]
           | p :: ps => String a p :: ps
           end
  end.

Fixpoint Join (l : list string) (sep : string) : string :=
  match l with
  | [] => EmptyString
  | [s] => s
  | s :: l' => s +:+ sep +:+ Join l' sep
  end.

(** [strings.TrimRight(s, cutset)] for a one-byte cutset. *)
Fixpoint TrimRight (s : string) (c : ascii) : string :=
  match s with
  | EmptyString => EmptyString
  | String a s' =>
      match TrimRight s' c with
      | EmptyString => if Ascii.eqb a c then EmptyString else str1 a
      | t => String a t
      end
  end.

(** [unicode.IsSpace]. *)
Definition is_space_rune (r : Z) : bool :=
  existsb (Z.eqb r)
    [0x20; 0x09; 0x0A; 0x0B; 0x0C; 0x0D; 0x85; 0xA0; 0x1680; 0x2028; 0x2029; 0x202F; 0x205F; 0x3000]
  || in_range 0x2000 0x200A r.

Fixpoint drop_while {A} (f : A -> bool) (l : list A) : list A :=
  match l with [] => [] | x :: l' => if f x then drop_while f l' else l end.

(** [strings.TrimSpace]. *)
Definition TrimSpace (s : string) : string :=
  let sp := fun seg : Z * string => is_space_rune (fst seg) in
  str_concat (snd <$> rev (drop_while sp (rev (drop_while sp (rune_segs s))))).

(** [strings.ToLower] on the ASCII letters and on the two non-ASCII runes whose
    lower case is ASCII (U+0130 and U+212A); other bytes are left alone, which
    no caller in this program can observe. *)
Definition lower_ascii (c : ascii) : ascii :=
  let z := byte_z c in if in_range 65 90 z then z_byte (z + 32) else c.
Definition lower_seg (seg : Z * string) : string :=
  let '(r, b) := seg in
  if r =? 0x130 then "i" else if r =? 0x212A then "k" else str_map lower_ascii b.
Definition ToLower (s : string) : string := str_concat (lower_seg <$> rune_segs s).

(** * Lemmas on concatenation *)

Lemma str_app_cons c s t : String c s +:+ t = String c (s +:+ t).
Proof. reflexivity. Qed.
Lemma str_app_nil_l s : "" +:+ s = s.
Proof. reflexivity. Qed.
Lemma str_app_nil_r s : s +:+ "" = s.
Proof. induction s as [|c s IH]; [done|]. by rewrite str_app_cons, IH. Qed.
Lemma str_app_assoc s t u : (s +:+ t) +:+ u = s +:+ (t +:+ u).
Proof. induction s as [|c s IH]; [done|]. by rewrite !str_app_cons, IH. Qed.
Lemma str_length_app s t : String.length (s +:+ t) = (String.length s + String.length t)%nat.
Proof. induction s as [|c s IH]; [done|]. rewrite str_app_cons. simpl. by rewrite IH. Qed.

(** * ASCII strings *)

Definition is_ascii (c : ascii) : bool := byte_z c <? 128.

Lemma rune_segs_ascii_cons c s :
  is_ascii c = true -> rune_segs (String c s) = (byte_z c, str1 c) :: rune_segs s.
Proof.
  intros Hc. unfold rune_segs. cbn [rune_segs_from decode_rune]. unfold is_ascii in Hc. rewrite Hc.
  cbn [str_take Nat.pred]. reflexivity.
Qed.

Lemma ToLower_ascii_cons c s :
  is_ascii c = true -> lower_ascii c = c -> ToLower (String c s) = String c (ToLower s).
Proof.
  intros Hc Hl. unfold ToLower. rewrite rune_segs_ascii_cons by done.
  cbn [fmap list_fmap str_concat lower_seg]. unfold is_ascii in Hc. apply Z.ltb_lt in Hc.
  destruct (Z.eqb_spec (byte_z c) 304); [lia|]. destruct (Z.eqb_spec (byte_z c) 8490); [lia|].
  cbn [str1 str_map]. by rewrite Hl.
Qed.

(** Trimming does nothing to a string of ASCII characters that are not spaces. *)
Lemma rune_segs_ascii s :
  str_forall is_ascii s = true -> str_concat (snd <$> rune_segs s) = s.
Proof.
  induction s as [|c s IH]; [done|]. cbn [str_forall]. intros [Hc Hs]%andb_true_iff.
  rewrite rune_segs_ascii_cons by done. cbn [fmap list_fmap snd str_concat].
  by rewrite IH.
Qed.
Lemma drop_while_none {A} (f : A -> bool) l : Forall (fun x => f x = false) l -> drop_while f l = l.
Proof. destruct 1 as [|x l Hx]; simpl; [done|]. by rewrite Hx. Qed.

Lemma TrimSpace_id s :
  str_forall (fun c => is_ascii c && negb (is_space_rune (byte_z c))) s = true -> TrimSpace s = s.
Proof.
  intros Hs. unfold TrimSpace.
  assert (Ha : str_forall is_ascii s = true).
  { clear -Hs. induction s as [|c s IH]; simpl in *; [done|].
    apply andb_true_iff in Hs as [[-> _]%andb_true_iff Hs]. auto. }
  assert (Hf : Forall (fun seg : Z * string => is_space_rune (fst seg) = false) (rune_segs s)).
  { clear Ha. induction s as [|c s IH]; [constructor|]. cbn [str_forall] in Hs.
    apply andb_true_iff in Hs as [[Hc Hsp]%andb_true_iff Hs].
    rewrite rune_segs_ascii_cons by done. constructor; [|auto]. by apply negb_true_iff in Hsp. }
  rewrite (drop_while_none _ (rune_segs s)) by done.
  rewrite drop_while_none by (by apply Forall_rev).
  rewrite rev_involutive. by apply rune_segs_ascii.
Qed.

(** The first byte [c] behind a prefix without one. *)
Lemma IndexByte_app s c t :
  IndexByte s c = None -> IndexByte (s +:+ String c t) c = Some (String.length s).
Proof.
  induction s as [|a s IH]; simpl; [by rewrite Ascii.eqb_refl|].
  destruct (Ascii.eqb a c) eqn:Ha; [done|]. intros H.
  rewrite IH; [done|]. by destruct (IndexByte s c).
Qed.
(** Splitting at a separator the pieces do not hold. *)
Lemma Split_none s sep : IndexByte s sep = None -> Split s sep = [s].
Proof.
  induction s as [|c s IH]; [done|]. simpl. destruct (Ascii.eqb c sep); [done|].
  intros H. rewrite IH; [done|]. by destruct (IndexByte s sep).
Qed.
Lemma Split_app s sep t : IndexByte s sep = None -> Split (s +:+ String sep t) sep = s :: Split t sep.
Proof.
  induction s as [|c s IH]; intros H.
  - rewrite str_app_nil_l. cbn [Split]. by rewrite Ascii.eqb_refl.
  - rewrite str_app_cons. simpl in *. destruct (Ascii.eqb c sep); [done|].
    rewrite IH; [done|]. by destruct (IndexByte s sep).
Qed.
