(* ===== verification/GoConv.v ===== *)
(** Number and text conversions of Go's standard library used by the worker:
    [strconv.Atoi], [big.Int.SetString(s, 10)], decimal rendering, [%q],
    [big.Int.SetBytes]/[Bytes], [encoding/hex], [encoding/base64] and
    [http.Header.Get]. *)
From stdpp Require Import base gmap strings list.
From Stdlib Require Import ZArith Lia Ascii String.
From S2P Require Import Prelude.
From S2P Require Import GoStrings.

(** * Decimal numbers *)

Definition is_digit (c : ascii) : bool := in_range 48 57 (byte_z c).
Definition digit_val (c : ascii) : Z := byte_z c - 48.
Definition digit_char (d : Z) : ascii := z_byte (48 + d).

Fixpoint digits_val (acc : Z) (s : string) : Z :=
  match s with EmptyString => acc | String c s' => digits_val (acc * 10 + digit_val c) s' end.

(** A non-empty run of decimal digits. *)
Definition parse_nat (s : string) : option Z :=
  if str_nil s || negb (str_forall is_digit s) then None else Some (digits_val 0 s).

(** The grammar [strconv.Atoi] and [big.Int.SetString(_, 10)] share: an
    optional sign, then digits; no underscores in base 10. *)
Definition parse_signed (s : string) : option Z :=
  match s with
  | String "+" s' => parse_nat s'
  | String "-" s' => Z.opp <$> parse_nat s'
  | _ => parse_nat s
  end.

(** [new(big.Int).SetString(s, 10)]. *)
Definition BigSetString (s : string) : option Z := parse_signed s.

(** [strconv.Atoi]: the same grammar, refused outside the range of [int]. *)
Definition Atoi (s : string) : res Z :=
  match parse_signed s with
  | None => Err (ErrLib "strconv" ("strconv.Atoi: parsing " +:+ s +:+ ": invalid syntax"))
  | Some z => if decide (in_int64 z) then Ok z
              else Err (ErrLib "strconv" ("strconv.Atoi: parsing " +:+ s +:+ ": value out of range"))
  end.

(** Decimal digits of a natural number; [fuel] bounds the number of digits. *)
Fixpoint dec_digits (fuel : nat) (z : Z) (acc : string) : string :=
  match fuel with
  | O => acc
  | S f => let acc' := String (digit_char (z mod 10)) acc in
           if z <? 10 then acc' else dec_digits f (z / 10) acc'
  end.

(** [Z.log2 z + 1] bits need at most that many decimal digits. *)
Definition dec_fuel (z : Z) : nat := S (Z.to_nat (Z.log2 z)).
Definition dec_nat (z : Z) : string := dec_digits (dec_fuel z) z EmptyString.

(** [%d], [strconv.Itoa], [big.Int.String]. *)
Definition FormatInt (z : Z) : string :=
  if z <? 0 then String "-" (dec_nat (- z)) else dec_nat z.

(** [%q] on the ASCII range; non-ASCII bytes are copied. *)
Definition hex_digit (d : Z) : ascii :=
  if d <? 10 then z_byte (48 + d) else z_byte (87 + d).
Definition quote_char (c : ascii) : string :=
  let z := byte_z c in
  if Ascii.eqb c DQUOTE then String "\" (str1 c)
  else if Ascii.eqb c "\" then "\\"
  else if z =? 7 then "\a" else if z =? 8 then "\b" else if z =? 9 then "\t"
  else if z =? 10 then "\n" else if z =? 11 then "\v" else if z =? 12 then "\f"
  else if z =? 13 then "\r"
  else if (z <? 32) || (z =? 127)
       then "\x" +:+ String (hex_digit (z / 16)) (str1 (hex_digit (z mod 16)))
  else str1 c.
Fixpoint quote_body (s : string) : string :=
  match s with EmptyString => EmptyString | String c s' => quote_char c +:+ quote_body s' end.
Definition Quote (s : string) : string := str1 DQUOTE +:+ quote_body s +:+ str1 DQUOTE.

(** * encoding/hex *)

Fixpoint hex_encode (s : string) : string :=
  match s with
  | EmptyString => EmptyString
  | String c s' => let z := byte_z c in
      String (hex_digit (z / 16)) (String (hex_digit (z mod 16)) (hex_encode s'))
  end.

Definition hex_val (c : ascii) : option Z :=
  let z := byte_z c in
  if in_range 48 57 z then Some (z - 48)
  else if in_range 97 102 z then Some (z - 87)
  else if in_range 65 70 z then Some (z - 55)
  else None.

Fixpoint hex_decode (s : string) : option string :=
  match s with
  | EmptyString => Some EmptyString
  | String a (String b s') =>
      x ← hex_val a; y ← hex_val b; t ← hex_decode s'; Some (String (z_byte (16 * x + y)) t)
  | String _ EmptyString => None
  end.

(** * math/big byte conversions (unsigned, big endian) *)

Fixpoint big_of_bytes (acc : Z) (s : string) : Z :=
  match s with EmptyString => acc | String c s' => big_of_bytes (acc * 256 + byte_z c) s' end.
(** [new(big.Int).SetBytes(b)]. *)
Definition BigSetBytes (s : string) : Z := big_of_bytes 0 s.

Fixpoint bytes_of_big (fuel : nat) (z : Z) (acc : string) : string :=
  match fuel with
  | O => acc
  | S f => if z <=? 0 then acc else bytes_of_big f (z / 256) (String (z_byte z) acc)
  end.
(** [x.Bytes()]: the absolute value, with no leading zero byte. *)
Definition BigBytes (z : Z) : string := bytes_of_big (dec_fuel (Z.abs z)) (Z.abs z) EmptyString.

(** * encoding/base64.StdEncoding *)

Definition b64_val (c : ascii) : option Z :=
  let z := byte_z c in
  if in_range 65 90 z then Some (z - 65)
  else if in_range 97 122 z then Some (z - 71)
  else if in_range 48 57 z then Some (z + 4)
  else if z =? 43 then Some 62
  else if z =? 47 then Some 63
  else None.

Fixpoint b64_groups (s : string) : option string :=
  match s with
  | EmptyString => Some EmptyString
  | String a (String b (String c (String d s'))) =>
      x ← b64_val a; y ← b64_val b;
      let b0 := z_byte (Z.lor (Z.shiftl x 2) (Z.shiftr y 4)) in
      if Ascii.eqb c "=" then
        if Ascii.eqb d "=" && str_nil s' then Some (str1 b0) else None
      else
        z ← b64_val c;
        let b1 := z_byte (Z.lor (Z.shiftl (Z.land y 15) 4) (Z.shiftr z 2)) in
        if Ascii.eqb d "=" then
          if str_nil s' then Some (String b0 (str1 b1)) else None
        else
          w ← b64_val d;
          let b2 := z_byte (Z.lor (Z.shiftl (Z.land z 3) 6) w) in
          t ← b64_groups s'; Some (String b0 (String b1 (String b2 t)))
  | _ => None
  end.

(** [base64.StdEncoding.DecodeString]: line breaks are skipped, padding is
    required, the unused trailing bits are not checked. *)
Definition base64_decode (s : string) : option string :=
  b64_groups (str_filter (fun c => negb (Ascii.eqb c NL || Ascii.eqb c CR)) s).

(** * net/http headers *)

Definition token_char (c : ascii) : bool :=
  let z := byte_z c in
  in_range 48 57 z || in_range 65 90 z || in_range 97 122 z
  || existsb (Z.eqb z) [33; 35; 36; 37; 38; 39; 42; 43; 45; 46; 94; 95; 96; 124; 126].
Definition upper_ascii (c : ascii) : ascii :=
  let z := byte_z c in if in_range 97 122 z then z_byte (z - 32) else c.
Fixpoint canon_from (up : bool) (s : string) : string :=
  match s with
  | EmptyString => EmptyString
  | String c s' => String (if up then upper_ascii c else lower_ascii c)
                          (canon_from (Ascii.eqb c "-") s')
  end.
(** [textproto.CanonicalMIMEHeaderKey]. *)
Definition CanonicalHeaderKey (k : string) : string :=
  if str_forall token_char k then canon_from true k else k.

(** An [http.Header]: its canonical keys with their values, in order. *)
Abbreviation header := (list (string * string)).

(** [h.Get(k)]: the first value of the canonical key, or the empty string. *)
Definition Header_Get (h : header) (k : string) : string :=
  match list_find (fun kv => fst kv = CanonicalHeaderKey k) h with
  | Some (_, (_, v)) => v
  | None => EmptyString
  end.

(** * Lemmas *)

Lemma byte_z_range c : 0 <= byte_z c < 256.
Proof. unfold byte_z. pose proof (N_ascii_bounded c). lia. Qed.

Lemma z_byte_byte_z c : z_byte (byte_z c) = c.
Proof.
  unfold z_byte. rewrite Z.mod_small by apply byte_z_range.
  unfold byte_z. rewrite N2Z.id. apply ascii_N_embedding.
Qed.

Lemma byte_z_z_byte z : 0 <= z < 256 -> byte_z (z_byte z) = z.
Proof.
  intros H. unfold z_byte, byte_z. rewrite Z.mod_small by lia.
  rewrite N_ascii_embedding by lia. lia.
Qed.

Lemma big_of_bytes_ge acc s : 0 <= acc -> acc <= big_of_bytes acc s.
Proof.
  revert acc. induction s as [|c s IH]; simpl; intros acc H; [lia|].
  pose proof (byte_z_range c). specialize (IH (acc * 256 + byte_z c)). lia.
Qed.

(** [SetBytes] reads an unsigned number. *)
Lemma BigSetBytes_nonneg s : 0 <= BigSetBytes s.
Proof. apply big_of_bytes_ge. lia. Qed.

Lemma hex_val_digit d : 0 <= d < 16 -> hex_val (hex_digit d) = Some d.
Proof.
  intros H.
  assert (Hd : d = 0 \/ d = 1 \/ d = 2 \/ d = 3 \/ d = 4 \/ d = 5 \/ d = 6 \/ d = 7 \/ d = 8
    \/ d = 9 \/ d = 10 \/ d = 11 \/ d = 12 \/ d = 13 \/ d = 14 \/ d = 15) by lia.
  destruct_or?; subst; reflexivity.
Qed.

Lemma hex_decode_encode s : hex_decode (hex_encode s) = Some s.
Proof.
  induction s as [|c s IH]; [reflexivity|]. simpl.
  pose proof (byte_z_range c).
  rewrite !hex_val_digit by (split; [apply Z.div_pos; lia | apply Z.div_lt_upper_bound; lia]
    || (apply Z.mod_pos_bound; lia)).
  simpl. rewrite IH. simpl. do 2 f_equal.
  rewrite <- Z.div_mod by lia. apply z_byte_byte_z.
Qed.

#[export] Hint Resolve BigSetBytes_nonneg byte_z_range : go.

Example base64_decode_ex : base64_decode "aGVsbG8=" = Some "hello". Proof. reflexivity. Qed.
Example format_ex : FormatInt (-1203) = "-1203". Proof. reflexivity. Qed.
Example quote_ex : Quote "a" = str1 DQUOTE +:+ "a" +:+ str1 DQUOTE. Proof. reflexivity. Qed.
Example header_ex :
  Header_Get [("Livepeer-Payment", "x")] "livepeer-payment" = "x". Proof. reflexivity. Qed.

(** * Rendering and reading decimals *)

Lemma dec_digits_val fuel z acc :
  0 <= z < 10 ^ Z.of_nat fuel -> digits_val 0 (dec_digits fuel z acc) = digits_val z acc.
Proof.
  revert z acc. induction fuel as [|fuel IH]; intros z acc Hz.
  - simpl in *. by replace z with 0 by lia.
  - cbn [dec_digits]. rewrite Nat2Z.inj_succ, Z.pow_succ_r in Hz by lia.
    pose proof (Z.mod_pos_bound z 10). pose proof (Z.div_mod z 10).
    assert (Hd : digit_val (digit_char (z mod 10)) = z mod 10).
    { unfold digit_val, digit_char. rewrite byte_z_z_byte by lia. lia. }
    destruct (Z.ltb_spec z 10).
    + cbn [digits_val]. rewrite Hd. f_equal. lia.
    + rewrite IH by (split; [apply Z.div_pos; lia|apply Z.div_lt_upper_bound; lia]).
      cbn [digits_val]. rewrite Hd. f_equal. lia.
Qed.

Lemma digit_char_digit d : 0 <= d < 10 -> is_digit (digit_char d) = true.
Proof.
  intros Hd. unfold is_digit, digit_char, in_range. rewrite byte_z_z_byte by lia.
  apply andb_true_iff. split; apply Z.leb_le; lia.
Qed.

Lemma dec_digits_forall fuel z acc :
  0 <= z -> str_forall is_digit acc = true -> str_forall is_digit (dec_digits fuel z acc) = true.
Proof.
  revert z acc. induction fuel as [|fuel IH]; intros z acc Hz Ha; [done|]. cbn [dec_digits].
  assert (str_forall is_digit (String (digit_char (z mod 10)) acc) = true).
  { cbn [str_forall]. by rewrite digit_char_digit by (apply Z.mod_pos_bound; lia). }
  destruct (z <? 10); [done|]. apply IH; [apply Z.div_pos; lia|done].
Qed.

Lemma dec_digits_cons fuel z acc : (0 < fuel)%nat -> exists c t, dec_digits fuel z acc = String c t.
Proof.
  revert z acc. induction fuel as [|fuel IH]; intros z acc Hf; [lia|]. cbn [dec_digits].
  destruct (z <? 10); [by eexists _, _|]. destruct fuel; [by eexists _, _|]. apply IH. lia.
Qed.

Lemma dec_fuel_enough z : 0 <= z -> z < 10 ^ Z.of_nat (dec_fuel z).
Proof.
  intros Hz. unfold dec_fuel. rewrite Nat2Z.inj_succ, Z2Nat.id by apply Z.log2_nonneg.
  destruct (Z.eq_dec z 0) as [->|]; [simpl; lia|].
  apply Z.lt_le_trans with (2 ^ Z.succ (Z.log2 z)); [apply Z.log2_spec; lia|].
  apply Z.pow_le_mono_l. pose proof (Z.log2_nonneg z). lia.
Qed.

Lemma dec_nat_digits z : 0 <= z -> str_forall is_digit (dec_nat z) = true.
Proof. intros. by apply dec_digits_forall. Qed.

Lemma parse_nat_dec_nat z : 0 <= z -> parse_nat (dec_nat z) = Some z.
Proof.
  intros Hz. unfold parse_nat. rewrite dec_nat_digits by done.
  destruct (dec_digits_cons (dec_fuel z) z "") as (c & t & E); [unfold dec_fuel; lia|].
  unfold dec_nat. rewrite E. cbn [str_nil negb orb]. rewrite <- E, dec_digits_val; [done|].
  split; [done|]. by apply dec_fuel_enough.
Qed.

(** A digit is none of the characters the grammars give a meaning to. *)
Lemma digit_not c d : is_digit c = true -> is_digit d = false -> Ascii.eqb c d = false.
Proof. intros Hc Hd. destruct (Ascii.eqb_spec c d); [by subst; congruence|done]. Qed.

Lemma parse_signed_digits s : str_forall is_digit s = true -> parse_signed s = parse_nat s.
Proof.
  destruct s as [|c s]; [done|]. cbn [str_forall]. intros [Hc _]%andb_true_iff.
  pose proof (digit_not c "+" Hc eq_refl). pose proof (digit_not c "-" Hc eq_refl).
  unfold parse_signed. by destruct c as [[] [] [] [] [] [] [] []].
Qed.

(** [FormatInt] and [SetString] are inverse. *)
Lemma BigSetString_FormatInt z : BigSetString (FormatInt z) = Some z.
Proof.
  unfold BigSetString, FormatInt. destruct (Z.ltb_spec z 0).
  - cbn [parse_signed]. rewrite parse_nat_dec_nat by lia. simpl. f_equal. lia.
  - by rewrite parse_signed_digits, parse_nat_dec_nat by auto using dec_nat_digits.
Qed.

Lemma Atoi_dec_nat z : 0 <= z <= int64_max -> Atoi (dec_nat z) = Ok z.
Proof.
  intros Hz. unfold Atoi.
  rewrite parse_signed_digits, parse_nat_dec_nat by (apply dec_nat_digits; lia) || lia.
  rewrite decide_True by int64_lia. done.
Qed.

Lemma digits_TrimSpace s : str_forall is_digit s = true -> TrimSpace s = s.
Proof.
  intros Hs. apply TrimSpace_id. induction s as [|c s IH]; [done|]. cbn [str_forall] in *.
  apply andb_true_iff in Hs as [Hc Hs]. rewrite IH by done. rewrite andb_true_r.
  by destruct c as [[] [] [] [] [] [] [] []].
Qed.
Lemma digits_ToLower_app s t :
  str_forall is_digit s = true -> ToLower (s +:+ t) = s +:+ ToLower t.
Proof.
  intros Hs. induction s as [|c s IH]; [done|]. cbn [str_forall] in Hs.
  apply andb_true_iff in Hs as [Hc Hs]. rewrite !str_app_cons, ToLower_ascii_cons; [by rewrite IH|..];
    by destruct c as [[] [] [] [] [] [] [] []].
Qed.
Lemma digits_IndexByte s c : str_forall is_digit s = true -> is_digit c = false -> IndexByte s c = None.
Proof.
  intros Hs Hc. induction s as [|a s IH]; [done|]. cbn [str_forall] in Hs.
  apply andb_true_iff in Hs as [Ha Hs]. simpl. by rewrite digit_not, IH.
Qed.
