(* ===== verification/Sha256.v ===== *)
(** [crypto/sha256.Sum256] as an executable function (FIPS 180-4), used by
    [deriveWorkID].  Words are 32-bit values kept as [Z] modulo [2 ^ 32]. *)
From stdpp Require Import base gmap strings list.
From Stdlib Require Import ZArith Lia Ascii String.
From S2P Require Import Prelude.
From S2P Require Import GoStrings.
From S2P Require Import GoConv.

Definition w32 (z : Z) : Z := z mod 2 ^ 32.
Definition add32 (a b : Z) : Z := w32 (a + b).
Definition rotr (n x : Z) : Z := Z.lor (Z.shiftr x n) (w32 (Z.shiftl x (32 - n))).
Definition not32 (x : Z) : Z := Z.lxor x 0xFFFFFFFF.

Definition Ch (x y z : Z) : Z := Z.lxor (Z.land x y) (Z.land (not32 x) z).
Definition Maj (x y z : Z) : Z := Z.lxor (Z.land x y) (Z.lxor (Z.land x z) (Z.land y z)).
Definition bsig0 (x : Z) : Z := Z.lxor (rotr 2 x) (Z.lxor (rotr 13 x) (rotr 22 x)).
Definition bsig1 (x : Z) : Z := Z.lxor (rotr 6 x) (Z.lxor (rotr 11 x) (rotr 25 x)).
Definition ssig0 (x : Z) : Z := Z.lxor (rotr 7 x) (Z.lxor (rotr 18 x) (Z.shiftr x 3)).
Definition ssig1 (x : Z) : Z := Z.lxor (rotr 17 x) (Z.lxor (rotr 19 x) (Z.shiftr x 10)).

(** The largest [r] below [2 ^ n] with [r ^ 3 <= z], bit by bit. *)
Fixpoint cube_root (n : nat) (r z : Z) : Z :=
  match n with
  | O => r
  | S n' =>
      let r' := r + 2 ^ Z.of_nat n' in
      cube_root n' (if r' ^ 3 <=? z then r' else r) z
  end.

Definition is_prime (n : Z) : bool :=
  forallb (fun d => negb (n mod Z.of_nat d =? 0)) (seq 2 (Z.to_nat (Z.sqrt n) - 1)).
Definition primes_below (n : nat) : list Z := List.filter is_prime (Z.of_nat <$> seq 2 (n - 2)).

(** The round constants: the first 32 bits of the fractional parts of the cube
    roots of the first 64 primes. *)
Definition sha_K : list Z :=
  Eval vm_compute in ((fun p => w32 (cube_root 36 0 (p * 2 ^ 96))) <$> take 64 (primes_below 312)).

(** The initial value: the same of the square roots of the first 8 primes. *)
Definition sha_H0 : list Z :=
  Eval vm_compute in ((fun p => w32 (Z.sqrt (p * 2 ^ 64))) <$> take 8 (primes_below 20)).

(** The bytes of [z], most significant first, on [n] bytes. *)
Fixpoint be_bytes (n : nat) (z : Z) : list Z :=
  match n with O => [] | S n' => be_bytes n' (z / 256) ++ [z mod 256] end.

Definition sha_pad (msg : list Z) : list Z :=
  let len := Z.of_nat (length msg) in
  let zeros := Z.to_nat ((55 - len) mod 64) in
  msg ++ [0x80] ++ repeat 0 zeros ++ be_bytes 8 (8 * len).

Fixpoint be_words (l : list Z) : list Z :=
  match l with
  | a :: b :: c :: d :: l' => (((a * 256 + b) * 256 + c) * 256 + d) :: be_words l'
  | _ => []
  end.

(** The message schedule, newest word first: [n] further words. *)
Fixpoint sha_schedule (n : nat) (w : list Z) : list Z :=
  match n with
  | O => w
  | S n' =>
      let t := w32 (ssig1 (nth 1 w 0) + nth 6 w 0 + ssig0 (nth 14 w 0) + nth 15 w 0) in
      sha_schedule n' (t :: w)
  end.

Definition sha_round (st : list Z) (kw : Z * Z) : list Z :=
  match st with
  | [a; b; c; d; e; f; g; h] =>
      let t1 := h + bsig1 e + Ch e f g + fst kw + snd kw in
      let t2 := bsig0 a + Maj a b c in
      [w32 (t1 + t2); a; b; c; add32 d t1; e; f; g]
  | _ => st
  end.

Definition sha_block (st : list Z) (block : list Z) : list Z :=
  let w := rev (sha_schedule 48 (rev (be_words block))) in
  zip_with add32 st (fold_left sha_round (combine sha_K w) st).

(** All the 64-byte blocks of the padded message. *)
Fixpoint sha_blocks (fuel : nat) (st : list Z) (bytes : list Z) : list Z :=
  match fuel with
  | O => st
  | S f => match bytes with
           | [] => st
           | _ => sha_blocks f (sha_block st (take 64 bytes)) (drop 64 bytes)
           end
  end.

Definition string_of_bytes (l : list Z) : string := string_of_list_ascii (z_byte <$> l).

(** [sha256.Sum256(b)] as 32 bytes. *)
Definition Sum256 (b : string) : string :=
  let msg := sha_pad (byte_z <$> list_ascii_of_string b) in
  string_of_bytes (mjoin (be_bytes 4 <$> sha_blocks (S (length msg / 64)) sha_H0 msg)).

Example sum256_abc : hex_encode (Sum256 "abc")
  = "ba7816bf8f01cfea414140de5dae2223b00361a396177a9cb410ff61f20015ad".
Proof. vm_compute. reflexivity. Qed.

Example sum256_empty : hex_encode (Sum256 "")
  = "e3b0c44298fc1c149afbf4c8996fb92427ae41e4649b934ca495991b7852b855".
Proof. vm_compute. reflexivity. Qed.

(** * The digest always has 32 bytes *)

Lemma length_be_bytes n z : length (be_bytes n z) = n.
Proof. revert z. induction n; simpl; intros; [done|]. rewrite length_app, IHn. simpl. lia. Qed.

Lemma sha_round_length st kw : length (sha_round st kw) = length st.
Proof. do 9 (destruct st as [|? st]; [done|]). done. Qed.

Lemma sha_rounds_length l st : length (fold_left sha_round l st) = length st.
Proof.
  revert st. induction l as [|x l IH]; simpl; intros st; [done|].
  rewrite IH. apply sha_round_length.
Qed.

Lemma sha_blocks_length f st bytes : length (sha_blocks f st bytes) = length st.
Proof.
  revert st bytes. induction f as [|f IH]; intros st bytes; simpl; [done|].
  destruct bytes; [done|]. rewrite IH. unfold sha_block.
  rewrite length_zip_with, sha_rounds_length. lia.
Qed.

Lemma length_mjoin_be_bytes n (ws : list Z) :
  length (mjoin (be_bytes n <$> ws)) = (n * length ws)%nat.
Proof.
  induction ws as [|w ws IH]; csimpl; [lia|].
  rewrite length_app, length_be_bytes, IH. lia.
Qed.

Lemma length_string_of_bytes l : String.length (string_of_bytes l) = length l.
Proof. unfold string_of_bytes. induction l; simpl; auto. Qed.

Lemma Sum256_length b : String.length (Sum256 b) = 32%nat.
Proof.
  unfold Sum256. rewrite length_string_of_bytes, length_mjoin_be_bytes, sha_blocks_length. done.
Qed.

Lemma hex_encode_length s : String.length (hex_encode s) = (2 * String.length s)%nat.
Proof. induction s as [|c s IH]; simpl; [done|]. rewrite IH. lia. Qed.

#[export] Hint Rewrite Sum256_length hex_encode_length : go.
