(* ===== verification/GoUrl.v ===== *)
(** When [net/url.Parse] fails: the checks of the standard library's parser on
    the scheme, the authority (userinfo, IP literals, port), the path and the
    fragment, as a predicate on the raw text. *)
From stdpp Require Import base gmap strings list.
From Stdlib Require Import ZArith Ascii String.
From S2P Require Import Prelude.
From S2P Require Import GoStrings.
From S2P Require Import GoConv.

Definition in_set (cs : string) (c : ascii) : bool := existsb (Ascii.eqb c) (list_ascii_of_string cs).
Definition is_alpha (c : ascii) : bool :=
  in_range 97 122 (byte_z c) || in_range 65 90 (byte_z c).
Definition is_alnum (c : ascii) : bool := is_alpha c || is_digit c.

(** [strings.Cut(s, c)]: before and after the first [c]. *)
Definition Cut (s : string) (c : ascii) : string * option string :=
  match IndexByte s c with
  | Some i => (str_take i s, Some (str_drop (S i) s))
  | None => (s, None)
  end.

(** [strings.LastIndex(s, c)] for a one-byte separator. *)
Fixpoint LastIndex (s : string) (c : ascii) : option nat :=
  match s with
  | EmptyString => None
  | String a s' => match LastIndex s' c with
                   | Some i => Some (S i)
                   | None => if Ascii.eqb a c then Some 0%nat else None
                   end
  end.

Fixpoint IndexStr (s sub : string) : option nat :=
  if HasPrefix s sub then Some 0%nat
  else match s with EmptyString => None | String _ s' => S <$> IndexStr s' sub end.

(** [getScheme]: [None] for a leading colon, else (scheme, rest); [seen] tells
    whether a character was read. *)
Fixpoint get_scheme_from (seen : bool) (acc : string) (whole s : string) : option (string * string) :=
  match s with
  | EmptyString => Some (EmptyString, whole)
  | String c s' =>
      if is_alpha c then get_scheme_from true (acc +:+ str1 c) whole s'
      else if is_digit c || in_set "+-." c then
        if seen then get_scheme_from true (acc +:+ str1 c) whole s' else Some (EmptyString, whole)
      else if Ascii.eqb c ":" then if seen then Some (acc, s') else None
      else Some (EmptyString, whole)
  end.
Definition get_scheme (s : string) : option (string * string) := get_scheme_from false EmptyString s s.

Inductive encoding := encodePath | encodeHost | encodeZone.

(** Characters [shouldEscape(c, encodeHost)] leaves alone. *)
Definition host_char (c : ascii) : bool :=
  is_alnum c || in_set "-_.~!$&'()*+,;=:[]<>" c || Ascii.eqb c DQUOTE.

(** Whether [unescape(s, mode)] succeeds. *)
Fixpoint unescape_ok (mode : encoding) (s : string) : bool :=
  match s with
  | EmptyString => true
  | String "%" s1 =>
      match s1 with
      | String a (String b s') =>
          match hex_val a, hex_val b with
          | Some x, Some y =>
              let is25 := Ascii.eqb a "2" && Ascii.eqb b "5" in
              let v := 16 * x + y in
              (match mode with
               | encodePath => true
               | encodeHost => is25 || (8 <=? x)
               | encodeZone => is25 || (v =? 32) || host_char (z_byte v)
               end) && unescape_ok mode s'
          | _, _ => false
          end
      | _ => false
      end
  | String c s' =>
      (match mode with encodePath => true | _ => (128 <=? byte_z c) || host_char c end)
      && unescape_ok mode s'
  end.

Definition valid_optional_port (s : string) : bool :=
  match s with
  | EmptyString => true
  | String c s' => Ascii.eqb c ":" && str_forall is_digit s'
  end.

Definition parse_host_ok (host : string) : bool :=
  if HasPrefix host "[" then
    match LastIndex host "]" with
    | None => false
    | Some i =>
        valid_optional_port (str_drop (S i) host) &&
        match IndexStr (str_take i host) "%25" with
        | Some z => unescape_ok encodeHost (str_take z host)
                    && unescape_ok encodeZone (str_drop z (str_take i host))
                    && unescape_ok encodeHost (str_drop i host)
        | None => unescape_ok encodeHost host
        end
    end
  else
    (match LastIndex host ":" with
     | Some i => valid_optional_port (str_drop i host)
     | None => true
     end) && unescape_ok encodeHost host.

Definition userinfo_char (c : ascii) : bool := is_alnum c || in_set "-._:~!$&'()*+,;=%@" c.

Definition parse_authority_ok (a : string) : bool :=
  match LastIndex a "@" with
  | None => parse_host_ok a
  | Some i => parse_host_ok (str_drop (S i) a) && str_forall userinfo_char (str_take i a)
              && unescape_ok encodePath (str_take i a)
  end.

Definition has_ctl (s : string) : bool :=
  negb (str_forall (fun c => (32 <=? byte_z c) && negb (byte_z c =? 127)) s).

(** The part of the URL before the fragment. *)
Definition parse_ok (raw : string) : bool :=
  if has_ctl raw then false
  else if String.eqb raw "*" then true
  else match get_scheme raw with
  | None => false
  | Some (scheme, rest0) =>
      let rest := fst (Cut rest0 "?") in
      if negb (HasPrefix rest "/") && negb (str_nil scheme) then true
      else if negb (HasPrefix rest "/") && Contains (fst (Cut rest "/")) ":" then false
      else
        let has_authority :=
          (negb (str_nil scheme) || negb (HasPrefix rest "///")) && HasPrefix rest "//" in
        let auth := fst (Cut (str_drop 2 rest) "/") in
        let path := if has_authority then str_drop (2 + String.length auth) rest else rest in
        (if has_authority then parse_authority_ok auth else true) && unescape_ok encodePath path
  end.

(** [url.Parse(raw)] returns a nil error. *)
Definition url_parse_ok (raw : string) : bool :=
  let '(u, frag) := Cut raw "#" in
  parse_ok u && match frag with Some f => unescape_ok encodePath f | None => true end.

Definition url_Parse (raw : string) : res unit :=
  if url_parse_ok raw then Ok tt else Err (ErrLib "net/url" ("parse " +:+ Quote raw)).

Example url_ok : url_parse_ok "http://10.0.0.1:8080/base?x=%zz" = true. Proof. reflexivity. Qed.
Example url_ip6 : url_parse_ok "http://[fe80::1%25en0]:80/" = true. Proof. reflexivity. Qed.
Example url_bad_port : url_parse_ok "http://host:80a/" = false. Proof. reflexivity. Qed.
Example url_bad_escape : url_parse_ok "http://host/%zz" = false. Proof. reflexivity. Qed.
Example url_no_scheme : url_parse_ok ":80" = false. Proof. reflexivity. Qed.
Example url_colon_segment : url_parse_ok "10.0.0.1:8080/x" = false. Proof. reflexivity. Qed.
