(* ===== verification/GoJson.v ===== *)
(** [encoding/json] as the worker uses it: the RFC 8259 grammar with Go's
    nesting limit and UTF-8 repair, [float64] conversion of number literals,
    [Unmarshal] into struct fields (case-insensitive keys, [null] rules,
    merging of repeated keys) and into [any], and [Marshal] of an [any]. *)
From stdpp Require Import base gmap strings list.
From Stdlib Require Import ZArith Lia Ascii String.
From S2P Require Import Prelude.
From S2P Require Import GoStrings.
From S2P Require Import GoConv.

(** * Syntax *)

Inductive json :=
| JNull
| JBool (b : bool)
| JNum (lit : string)
| JStr (s : string)
| JArr (l : list json)
| JObj (l : list (string * json)).

Definition is_ws (c : ascii) : bool := existsb (Ascii.eqb c) [" "%char; "009"%char; NL; CR].
Fixpoint skip_ws (s : string) : string :=
  match s with String c s' => if is_ws c then skip_ws s' else s | _ => s end.

(** Leading digits of a string and what follows them. *)
Fixpoint span_digits (s : string) : string * string :=
  match s with
  | String c s' => if is_digit c then let '(d, r) := span_digits s' in (String c d, r)
                   else (EmptyString, s)
  | EmptyString => (EmptyString, EmptyString)
  end.

(** [0 | [1-9][0-9]*]. *)
Definition scan_int (s : string) : option (string * string) :=
  match s with
  | String "0" s' => Some ("0", s')
  | _ => let '(d, r) := span_digits s in if str_nil d then None else Some (d, r)
  end.
Definition scan_frac (s : string) : option (string * string) :=
  match s with
  | String "." s' => let '(d, r) := span_digits s' in
                     if str_nil d then None else Some (String "." d, r)
  | _ => Some (EmptyString, s)
  end.
Definition scan_exp (s : string) : option (string * string) :=
  match s with
  | String c s' =>
      if Ascii.eqb c "e" || Ascii.eqb c "E" then
        let '(sg, s'') := match s' with
                          | String "+" t => ("+", t) | String "-" t => ("-", t)
                          | _ => (EmptyString, s') end in
        let '(d, r) := span_digits s'' in
        if str_nil d then None else Some (String c (sg +:+ d), r)
      else Some (EmptyString, s)
  | EmptyString => Some (EmptyString, s)
  end.
Definition scan_number (s : string) : option (string * string) :=
  let '(sg, s0) := match s with String "-" t => ("-", t) | _ => (EmptyString, s) end in
  '(i, s1) ← scan_int s0; '(f, s2) ← scan_frac s1; '(e, s3) ← scan_exp s2;
  Some (sg +:+ i +:+ f +:+ e, s3).

(** Four hexadecimal digits of a [\u] escape. *)
Definition scan_u4 (s : string) : option (Z * string) :=
  match s with
  | String a (String b (String c (String d r))) =>
      w ← hex_val a; x ← hex_val b; y ← hex_val c; z ← hex_val d;
      Some (((w * 16 + x) * 16 + y) * 16 + z, r)
  | _ => None
  end.

Definition is_surrogate (r : Z) : bool := in_range 0xD800 0xDFFF r.
(** [utf16.DecodeRune]. *)
Definition decode_surrogates (r1 r2 : Z) : option Z :=
  if in_range 0xD800 0xDBFF r1 && in_range 0xDC00 0xDFFF r2
  then Some ((r1 - 0xD800) * 1024 + (r2 - 0xDC00) + 0x10000) else None.

(** A [\uXXXX] escape: a surrogate pair is joined, a lone half becomes U+FFFD. *)
Definition scan_unicode (s : string) : option (Z * string) :=
  '(r1, rest) ← scan_u4 s;
  if is_surrogate r1 then
    match rest with
    | String "\" (String "u" rest') =>
        match scan_u4 rest' with
        | Some (r2, rest'') =>
            match decode_surrogates r1 r2 with
            | Some r => Some (r, rest'')
            | None => Some (RuneError, rest)
            end
        | None => None
        end
    | _ => Some (RuneError, rest)
    end
  else Some (r1, rest).

Definition simple_escape (c : ascii) : option ascii :=
  if Ascii.eqb c DQUOTE then Some DQUOTE
  else if Ascii.eqb c "\" then Some "\"%char
  else if Ascii.eqb c "/" then Some "/"%char
  else if Ascii.eqb c "b" then Some "008"%char
  else if Ascii.eqb c "f" then Some "012"%char
  else if Ascii.eqb c "n" then Some NL
  else if Ascii.eqb c "r" then Some CR
  else if Ascii.eqb c "t" then Some "009"%char
  else None.

(** The body of a string literal after its opening quote, unquoted. *)
Fixpoint scan_string (fuel : nat) (s : string) : option (string * string) :=
  match fuel with
  | O => None
  | S f =>
    match s with
    | EmptyString => None
    | String c s' =>
      if Ascii.eqb c DQUOTE then Some (EmptyString, s')
      else if Ascii.eqb c "\" then
        match s' with
        | String "u" s'' =>
            '(r, rest) ← scan_unicode s''; '(t, r') ← scan_string f rest;
            Some (encode_rune r +:+ t, r')
        | String e s'' =>
            x ← simple_escape e; '(t, r') ← scan_string f s''; Some (String x t, r')
        | EmptyString => None
        end
      else if byte_z c <? 32 then None
      else if byte_z c <? 128 then '(t, r') ← scan_string f s'; Some (String c t, r')
      else let '(r, w) := decode_rune s in
           '(t, r') ← scan_string f (str_drop w s); Some (encode_rune r +:+ t, r')
    end
  end.

Definition maxNestingDepth : Z := 10000.

(** A value, the rest of an array after [\[] and the rest of an object after
    [{]; each returns what it parsed and the unread input. *)
Fixpoint parse_value (fuel : nat) (depth : Z) (s : string) : option (json * string) :=
  match fuel with
  | O => None
  | S f =>
    let s := skip_ws s in
    if HasPrefix s "null" then Some (JNull, str_drop 4 s)
    else if HasPrefix s "true" then Some (JBool true, str_drop 4 s)
    else if HasPrefix s "false" then Some (JBool false, str_drop 5 s)
    else match s with
    | String c s' =>
        if Ascii.eqb c DQUOTE then '(t, r) ← scan_string (S (String.length s')) s'; Some (JStr t, r)
        else if Ascii.eqb c "[" then
          if maxNestingDepth <=? depth then None
          else match skip_ws s' with
               | String "]" r => Some (JArr [], r)
               | _ => '(l, r) ← parse_elems f (depth + 1) s'; Some (JArr l, r)
               end
        else if Ascii.eqb c "{" then
          if maxNestingDepth <=? depth then None
          else match skip_ws s' with
               | String "}" r => Some (JObj [], r)
               | _ => '(l, r) ← parse_members f (depth + 1) s'; Some (JObj l, r)
               end
        else '(lit, r) ← scan_number s; Some (JNum lit, r)
    | EmptyString => None
    end
  end
with parse_elems (fuel : nat) (depth : Z) (s : string) : option (list json * string) :=
  match fuel with
  | O => None
  | S f =>
    '(v, r) ← parse_value f depth s;
    match skip_ws r with
    | String "," r' => '(vs, r'') ← parse_elems f depth r'; Some (v :: vs, r'')
    | String "]" r' => Some ([v], r')
    | _ => None
    end
  end
with parse_members (fuel : nat) (depth : Z) (s : string) : option (list (string * json) * string) :=
  match fuel with
  | O => None
  | S f =>
    match skip_ws s with
    | String q s' =>
        if Ascii.eqb q DQUOTE then
          '(k, r) ← scan_string (S (String.length s')) s';
          match skip_ws r with
          | String ":" r1 =>
              '(v, r2) ← parse_value f depth r1;
              match skip_ws r2 with
              | String "," r3 => '(kvs, r4) ← parse_members f depth r3; Some ((k, v) :: kvs, r4)
              | String "}" r3 => Some ([(k, v)], r3)
              | _ => None
              end
          | _ => None
          end
        else None
    | EmptyString => None
    end
  end.

(** Every nested call of the parser either reads a byte or hands over to a call
    that does, so twice the input length bounds the nesting of calls. *)
Definition json_fuel (s : string) : nat := (2 * String.length s + 4)%nat.

(** A document followed by the unread input. *)
Definition parse_prefix (s : string) : option (json * string) := parse_value (json_fuel s) 0 s.

(** A whole document: nothing but white space may follow the value. *)
Definition parse_json (s : string) : option json :=
  '(v, r) ← parse_prefix s; if str_nil (skip_ws r) then Some v else None.
