(* ===== verification/GoFloat.v ===== *)
(** [float64] values as [± m * 2 ^ e] with [0 <= m <= 2 ^ 53]: the correctly
    rounded conversion of a JSON number literal ([strconv.ParseFloat]),
    [math.Ceil], and the shortest decimal rendering [encoding/json] prints. *)
From stdpp Require Import base gmap strings list.
From Stdlib Require Import ZArith Lia Ascii String.
From S2P Require Import Prelude.
From S2P Require Import GoStrings.
From S2P Require Import GoConv.
From S2P Require Import GoJson.

Record float64 := Float { f_neg : bool; f_mant : Z; f_exp : Z }.

(** A literal as [± mantissa * 10 ^ exponent]. *)
Record decimal := Dec { d_neg : bool; d_mant : Z; d_exp : Z }.

Definition dec_of_lit (lit : string) : decimal :=
  let '(neg, s0) := match lit with String "-" t => (true, t) | _ => (false, lit) end in
  let '(i, s1) := span_digits s0 in
  let '(fr, s2) := match s1 with String "." t => span_digits t | _ => (EmptyString, s1) end in
  let ex := match s2 with
            | String _ t => default 0 (parse_signed t)
            | EmptyString => 0
            end in
  Dec neg (digits_val 0 (i +:+ fr)) (ex - slen fr).

(** Round half to even of [n / d]. *)
Definition div_even (n d : Z) : Z :=
  let q := n / d in let r := n mod d in
  if 2 * r <? d then q else if d <? 2 * r then q + 1 else if Z.even q then q else q + 1.

(** The nearest float64 of the positive rational [n / d]; [None] on overflow. *)
Definition float_of_ratio (neg : bool) (n d : Z) : option float64 :=
  let q0 := Z.log2 n - Z.log2 d - 52 in
  let scaled q := if 0 <=? q then (n, d * 2 ^ q) else (n * 2 ^ (- q), d) in
  let '(n0, d0) := scaled q0 in
  let q1 := if n0 / d0 <? 2 ^ 52 then q0 - 1 else q0 in
  let q := Z.max q1 (-1074) in
  let '(n1, d1) := scaled q in
  let m := div_even n1 d1 in
  if 1024 <? q + Z.log2 m + 1 then None else Some (Float neg m q).

(** [strconv.ParseFloat(lit, 64)] of a JSON literal; [None] is [ErrRange]. *)
Definition ParseFloat (lit : string) : option float64 :=
  let '(Dec neg m e) := dec_of_lit lit in
  if m =? 0 then Some (Float neg 0 0)
  else if 400 <? e + Z.log2 m / 4 then None
  else if e + Z.log2 m <? -1200 then Some (Float neg 0 0)
  else if 0 <=? e then float_of_ratio neg (m * 10 ^ e) 1
  else float_of_ratio neg m (10 ^ (- e)).

(** [v <= 0]. *)
Definition float_nonpos (f : float64) : bool := f_neg f || (f_mant f =? 0).

(** [math.Ceil] of a non-negative value, as an integer. *)
Definition float_ceil (f : float64) : Z :=
  if 0 <=? f_exp f then f_mant f * 2 ^ f_exp f
  else - ((- f_mant f) / 2 ^ (- f_exp f)).

(** Same value (not same representation). *)
Definition float_eqb (a b : float64) : bool :=
  let e := Z.min (f_exp a) (f_exp b) in
  f_mant a * 2 ^ (f_exp a - e) =? f_mant b * 2 ^ (f_exp b - e).

(** The [n]-digit decimals next to [f], tested for reading back as [f]:
    [digits * 10 ^ x]. *)
Definition digits_candidate (f : float64) (x : Z) : option Z :=
  let num := if 0 <=? f_exp f then f_mant f * 2 ^ f_exp f else f_mant f in
  let den := if 0 <=? f_exp f then 1 else 2 ^ (- f_exp f) in
  let n := if 0 <=? x then num else num * 10 ^ (- x) in
  let d := if 0 <=? x then den * 10 ^ x else den in
  let back k := match (if 0 <=? x then float_of_ratio false (k * 10 ^ x) 1
                       else float_of_ratio false k (10 ^ (- x))) with
                | Some g => float_eqb f g | None => false end in
  let near := div_even n d in
  let other := if near * d <=? n then near + 1 else near - 1 in
  if (0 <? near) && back near then Some near
  else if (0 <? other) && back other then Some other else None.

(** The decimal exponent of the leading digit of a positive value. *)
Definition dec_exponent (f : float64) : Z :=
  let guess := (Z.log2 (f_mant f) + f_exp f) * 30103 / 100000 in
  let ge k := let e := f_exp f in
    if 0 <=? k then (if 0 <=? e then 10 ^ k <=? f_mant f * 2 ^ e else 10 ^ k * 2 ^ (- e) <=? f_mant f)
    else (if 0 <=? e then true else 2 ^ (- e) <=? f_mant f * 10 ^ (- k)) in
  if ge (guess + 1) then guess + 1 else if ge guess then guess else guess - 1.

Fixpoint shortest_from (fuel : nat) (n : Z) (f : float64) : Z * Z :=
  let x := dec_exponent f - n + 1 in
  match digits_candidate f x with
  | Some k => (k, x)
  | None => match fuel with O => (0, 0) | S fu => shortest_from fu (n + 1) f end
  end.

Fixpoint strip_zeros (fuel : nat) (k x : Z) : Z * Z :=
  match fuel with
  | O => (k, x)
  | S f => if (k mod 10 =? 0) && negb (k =? 0) then strip_zeros f (k / 10) (x + 1) else (k, x)
  end.

Definition zeros (n : Z) : string := str_concat (repeat "0" (Z.to_nat n)).

(** The rendering of a [float64] by [encoding/json]: [%f] between 1e-6 and
    1e21, [%e] (with a two-digit exponent cleaned up) outside.  Seventeen
    digits always suffice. *)
Definition float_json (f : float64) : string :=
  let sign := if f_neg f then "-" else "" in
  if f_mant f =? 0 then sign +:+ "0" else
  let '(k0, x0) := shortest_from 17 1 f in
  let '(k, x) := strip_zeros 20 k0 x0 in
  let ds := dec_nat k in
  let nd := slen ds in
  let e := x + nd - 1 in
  if (e <? -6) || (21 <=? e) then
    let frac := if nd =? 1 then EmptyString else String "." (str_drop 1 ds) in
    sign +:+ str_take 1 ds +:+ frac +:+ (if e <? 0 then "e-" else "e+")
      +:+ (if (0 <? e) && (e <? 10) then "0" else "") +:+ dec_nat (Z.abs e)
  else if 0 <=? x then sign +:+ ds +:+ zeros x
  else if 0 <=? e then
    sign +:+ str_take (Z.to_nat (e + 1)) ds +:+ "." +:+ str_drop (Z.to_nat (e + 1)) ds
  else sign +:+ "0." +:+ zeros (- e - 1) +:+ ds.

Definition float_text (lit : string) : option string := float_json <$> ParseFloat lit.

Example float_text_int : float_text "1250000" = Some "1250000". Proof. vm_compute. reflexivity. Qed.
Example float_text_tenth : float_text "0.1" = Some "0.1". Proof. vm_compute. reflexivity. Qed.
Example float_text_big : float_text "123456789012345678901234" = Some "1.2345678901234569e+23".
Proof. vm_compute. reflexivity. Qed.
Example float_text_small : float_text "1.5e-7" = Some "1.5e-7". Proof. vm_compute. reflexivity. Qed.
Example float_text_neg : float_text "-12.75" = Some "-12.75". Proof. vm_compute. reflexivity. Qed.
Example float_text_thirds : float_text "0.30000000000000004" = Some "0.30000000000000004".
Proof. vm_compute. reflexivity. Qed.
Example float_text_range : float_text "1e400" = None. Proof. vm_compute. reflexivity. Qed.
Example float_text_min : float_text "5e-324" = Some "5e-324". Proof. vm_compute. reflexivity. Qed.
Example float_ceil_ex : float_ceil <$> ParseFloat "12.01" = Some 13. Proof. vm_compute. reflexivity. Qed.

(** [float_ceil] is the least integer not below [m * 2 ^ e]. *)
Lemma float_ceil_spec f :
  0 <= f_mant f -> f_exp f < 0 ->
  (float_ceil f - 1) * 2 ^ (- f_exp f) < f_mant f <= float_ceil f * 2 ^ (- f_exp f).
Proof.
  intros Hm He. unfold float_ceil.
  destruct (Z.leb_spec 0 (f_exp f)); [lia|].
  assert (0 < 2 ^ (- f_exp f)) by (apply Z.pow_pos_nonneg; lia).
  pose proof (Z.div_mod (- f_mant f) (2 ^ (- f_exp f))).
  pose proof (Z.mod_pos_bound (- f_mant f) (2 ^ (- f_exp f))). nia.
Qed.

(** The value of a float is at most the integer [n]. *)
Definition float_le_int (f : float64) (n : Z) : Prop :=
  f_mant f * 2 ^ Z.max 0 (f_exp f) <= n * 2 ^ Z.max 0 (- f_exp f).
(** The ceiling is the least integer not below the value. *)
Lemma float_ceil_least f n : 0 <= f_mant f -> float_ceil f <= n <-> float_le_int f n.
Proof.
  intros Hm. unfold float_le_int. destruct (Z.leb_spec 0 (f_exp f)) as [He|He].
  - unfold float_ceil. rewrite (proj2 (Z.leb_le _ _)) by done.
    rewrite (Z.max_r 0 (f_exp f)), (Z.max_l 0 (- f_exp f)) by lia. by rewrite Z.pow_0_r, Z.mul_1_r.
  - destruct (float_ceil_spec f Hm He) as [H1 H2]. rewrite (Z.max_l 0 (f_exp f)), (Z.max_r 0 (- f_exp f)) by lia.
    rewrite Z.pow_0_r, Z.mul_1_r. assert (0 < 2 ^ (- f_exp f)) by (apply Z.pow_pos_nonneg; lia). nia.
Qed.
