(* ===== verification/GoUnmarshal.v ===== *)
(** [json.Unmarshal] into Go values, [json.Decoder] with
    [DisallowUnknownFields], and [json.Marshal] of an [any].  A decoder takes
    the value already stored at its target, because Go merges repeated keys
    into it; only whether decoding failed is kept of an error. *)
From stdpp Require Import base gmap strings list.
From Stdlib Require Import ZArith Lia Ascii String.
From S2P Require Import Prelude.
From S2P Require Import GoStrings.
From S2P Require Import GoConv.
From S2P Require Import GoJson.
From S2P Require Import GoFloat.

Definition err_syntax : error := ErrLib "encoding/json" "invalid character or unexpected end of JSON input".
Definition err_type : error := ErrLib "encoding/json" "json: cannot unmarshal value into Go struct field".
Definition err_unknown : error := ErrLib "encoding/json" "json: unknown field".

Definition decoder (A : Type) : Type := A -> json -> res A.

Definition dec_string : decoder string := fun old j =>
  match j with JNull => Ok old | JStr s => Ok s | _ => Err err_type end.

Definition dec_bool : decoder bool := fun old j =>
  match j with JNull => Ok old | JBool b => Ok b | _ => Err err_type end.

(** An [int] or [int64] field: the literal must be an integer in range. *)
Definition dec_int : decoder Z := fun old j =>
  match j with
  | JNull => Ok old
  | JNum lit => match parse_signed lit with
                | Some z => if decide (in_int64 z) then Ok z else Err err_type
                | None => Err err_type
                end
  | _ => Err err_type
  end.

(** A pointer field: [null] resets it, a value is decoded into a fresh target. *)
Definition dec_ptr {A} (zero : A) (d : decoder A) : decoder (option A) := fun old j =>
  match j with JNull => Ok None | _ => Some <$> d (default zero old) j end.

Fixpoint dec_elems {A} (zero : A) (d : decoder A) (old : list A) (l : list json) : res (list A) :=
  match l with
  | [] => Ok []
  | j :: l' => x ← d (default zero (head old)) j; xs ← dec_elems zero d (tail old) l'; Ok (x :: xs)
  end.
(** A slice field: the elements already there are decoded over. *)
Definition dec_slice {A} (zero : A) (d : decoder A) : decoder (list A) := fun old j =>
  match j with
  | JNull => Ok []
  | JArr l => dec_elems zero d old l
  | _ => Err err_type
  end.

(** * Structs *)

(** Case folding of a key when it is compared with an ASCII field name: the
    non-ASCII runes that fold into ASCII are U+017F and U+212A. *)
Definition fold_rune (r : Z) : Z :=
  if in_range 97 122 r then r - 32 else if r =? 0x17F then 83 else if r =? 0x212A then 75 else r.
Definition fold_name (s : string) : list Z := fold_rune <$> runes s.

(** The fields of a struct type: the name of its tag and how it is decoded. *)
Abbreviation fields A := (list (string * decoder A)).

(** A field by its getter and setter. *)
Definition field {A B} (name : string) (get : A -> B) (set : B -> A -> A) (d : decoder B)
  : string * decoder A := (name, fun old j => (fun x => set x old) <$> d (get old) j).

Definition field_for {A} (fs : fields A) (key : string) : option (decoder A) :=
  match list_find (fun f => fst f = key) fs with
  | Some (_, (_, d)) => Some d
  | None =>
      match list_find (fun f => fold_name (fst f) = fold_name key) fs with
      | Some (_, (_, d)) => Some d
      | None => None
      end
  end.

Fixpoint dec_members {A} (strict : bool) (fs : fields A) (old : A) (l : list (string * json)) : res A :=
  match l with
  | [] => Ok old
  | (k, j) :: l' =>
      match field_for fs k with
      | Some d => x ← d old j; dec_members strict fs x l'
      | None => if strict then Err err_unknown else dec_members strict fs old l'
      end
  end.
Definition dec_struct_with {A} (strict : bool) (fs : fields A) : decoder A := fun old j =>
  match j with
  | JNull => Ok old
  | JObj l => dec_members strict fs old l
  | _ => Err err_type
  end.
Definition dec_struct {A} : fields A -> decoder A := dec_struct_with false.

(** [json.Unmarshal(data, &v)] for a zero [v]. *)
Definition Unmarshal {A} (d : decoder A) (zero : A) (data : string) : res A :=
  match parse_json data with Some j => d zero j | None => Err err_syntax end.

(** * Values of type [any] *)

Inductive any :=
| ANil
| ABool (b : bool)
| AFloat (f : float64)
| AString (s : string)
| AArr (l : list any)
| AMap (m : list (string * any)).

(** Insertion into the sorted, duplicate-free list that stands for a Go map. *)
Fixpoint map_put {V} (k : string) (v : V) (m : list (string * V)) : list (string * V) :=
  match m with
  | [] => [(k, v)]
  | (k', v') :: m' =>
      match String.compare k k' with
      | Lt => (k, v) :: m
      | Eq => (k, v) :: m'
      | Gt => (k', v') :: map_put k v m'
      end
  end.
Definition map_get {V} (k : string) (m : list (string * V)) : option V :=
  match list_find (fun kv => fst kv = k) m with Some (_, (_, v)) => Some v | None => None end.

(** Decoding into an empty interface; a number out of the range of [float64]
    is an error. *)
Fixpoint any_of_json (j : json) : option any :=
  match j with
  | JNull => Some ANil
  | JBool b => Some (ABool b)
  | JNum lit => AFloat <$> ParseFloat lit
  | JStr s => Some (AString s)
  | JArr l =>
      AArr <$> (fix go l := match l with
                            | [] => Some []
                            | x :: l' => v ← any_of_json x; vs ← go l'; Some (v :: vs)
                            end) l
  | JObj l =>
      AMap <$> (fix go m l := match l with
                              | [] => Some m
                              | (k, x) :: l' => v ← any_of_json x; go (map_put k v m) l'
                              end) [] l
  end.
Definition dec_any : decoder any := fun _ j =>
  match any_of_json j with Some a => Ok a | None => Err err_type end.

(** * Marshal *)

Definition u_escape (z : Z) : string :=
  "\u" +:+ String (hex_digit (z / 4096 mod 16)) (String (hex_digit (z / 256 mod 16))
    (String (hex_digit (z / 16 mod 16)) (str1 (hex_digit (z mod 16))))).

(** String escaping of [encoding/json], HTML characters included. *)
Definition marshal_seg (seg : Z * string) : string :=
  let '(r, b) := seg in
  if r =? 34 then String "\" (str1 DQUOTE)
  else if r =? 92 then "\\"
  else if r =? 8 then "\b" else if r =? 12 then "\f" else if r =? 10 then "\n"
  else if r =? 13 then "\r" else if r =? 9 then "\t"
  else if (r <? 32) || (r =? 60) || (r =? 62) || (r =? 38) || (r =? 0x2028) || (r =? 0x2029)
       then u_escape r
  else if (r =? RuneError) && (slen b =? 1) then "\ufffd"
  else b.
Definition marshal_string (s : string) : string :=
  str1 DQUOTE +:+ str_concat (marshal_seg <$> rune_segs s) +:+ str1 DQUOTE.

(** [json.Marshal] of a decoded [any] (it cannot fail on such a value). *)
Fixpoint Marshal (a : any) : string :=
  match a with
  | ANil => "null"
  | ABool b => if b then "true" else "false"
  | AFloat f => float_json f
  | AString s => marshal_string s
  | AArr l => "[" +:+ Join (Marshal <$> l) "," +:+ "]"
  | AMap m => "{" +:+ Join ((fun kv => marshal_string (fst kv) +:+ ":" +:+ Marshal (snd kv)) <$> m) ","
              +:+ "}"
  end.

(** A JSON object from its members, each with the text of its value: a struct in
    the order of its fields, a map in the order of its keys. *)
Definition json_members (l : list (string * string)) : string :=
  "{" +:+ Join ((fun kv => marshal_string (fst kv) +:+ ":" +:+ snd kv) <$> l) "," +:+ "}".
Definition json_elements (l : list string) : string := "[" +:+ Join l "," +:+ "]".

(** * json.Decoder *)

(** The bytes a reader delivers and the error it ends with ([ErrEOF] when the
    body is complete). *)
Record reader := Reader { rd_data : string; rd_end : error }.

(** [dec.Decode(&v)]: the next document of the stream, decoded with unknown
    fields refused, and the reader left behind it.  White space alone is
    [io.EOF]; input that ends inside a value is an error. *)
Definition Decode_strict {A} (fs : fields A) (zero : A) (r : reader) : res A * reader :=
  if str_nil (skip_ws (rd_data r)) then (Err (rd_end r), r)
  else match parse_prefix (rd_data r) with
       | Some (j, rest) => (dec_struct_with true fs zero j, Reader rest (rd_end r))
       | None => (Err err_syntax, r)
       end.

(** [io.ReadAll(r)]. *)
Definition ReadAll (r : reader) : res string :=
  match rd_end r with ErrEOF => Ok (rd_data r) | e => Err e end.

(** [http.MaxBytesReader(w, r, n)]: at most [n] bytes, then an error. *)
Definition err_too_large : error := ErrLib "net/http" "http: request body too large".
Definition MaxBytesReader (r : reader) (n : Z) : reader :=
  if slen (rd_data r) <=? n then r else Reader (str_take (Z.to_nat n) (rd_data r)) err_too_large.

(** [io.LimitReader(r, n)]: at most [n] bytes, then [io.EOF]. *)
Definition LimitReader (r : reader) (n : Z) : reader :=
  if slen (rd_data r) <? n then r else Reader (str_take (Z.to_nat n) (rd_data r)) ErrEOF.

Definition dq (s : string) : string := str1 DQUOTE +:+ s +:+ str1 DQUOTE.

Example unmarshal_any :
  Marshal <$> Unmarshal dec_any ANil ("{" +:+ dq "b" +:+ ":[1,2.50,null], " +:+ dq "a<" +:+ " :true}")
  = Ok ("{" +:+ dq "a\u003c" +:+ ":true," +:+ dq "b" +:+ ":[1,2.5,null]}").
Proof. vm_compute. reflexivity. Qed.
