(* ===== verification/GoUtf8.v ===== *)
(** [unicode/utf8]: [ValidString], and that what [encoding/json] decodes is
    always valid UTF-8: strings of a document, and the struct fields read from it. *)
From stdpp Require Import base gmap strings list.
From Stdlib Require Import ZArith Lia Ascii String.
From S2P Require Import Prelude.
From S2P Require Import GoStrings.
From S2P Require Import GoConv.
From S2P Require Import GoJson.
From S2P Require Import GoUnmarshal.

(** [utf8.ValidString]: no rune decodes as an invalid byte. *)
Definition ValidString (s : string) : bool :=
  forallb (fun seg => negb ((fst seg =? RuneError) && (String.length (snd seg) =? 1)%nat)) (rune_segs s).

(** * Arithmetic of the encoding *)

Lemma lor_shiftl a b n : 0 <= n -> 0 <= b < 2 ^ n -> Z.lor (Z.shiftl a n) b = a * 2 ^ n + b.
Proof.
  intros Hn Hb. rewrite <- Z.shiftl_mul_pow2 by done.
  enough (Z.land (Z.shiftl a n) b = 0) by (pose proof (Z.add_lor_land (Z.shiftl a n) b); lia).
  apply Z.bits_inj'. intros i Hi. rewrite Z.land_spec, Z.bits_0.
  destruct (Z.ltb_spec i n); [by rewrite Z.shiftl_spec_low|].
  rewrite <- (Z.mod_small b (2 ^ n)) by done. by rewrite Z.mod_pow2_bits_high, andb_false_r by lia.
Qed.
Lemma low6 z : Z.land z 0x3F = z mod 64.
Proof. exact (Z.land_ones z 6 ltac:(lia)). Qed.
Lemma cont_val z : Z.lor 0x80 (Z.land z 0x3F) = 128 + z mod 64.
Proof. rewrite low6. apply (lor_shiftl 2 _ 6); [lia|]. apply Z.mod_pos_bound. lia. Qed.

Lemma byte_z_cont z : byte_z (z_byte (Z.lor 0x80 (Z.land z 0x3F))) = 128 + z mod 64.
Proof. rewrite cont_val. apply byte_z_z_byte. pose proof (Z.mod_pos_bound z 64). lia. Qed.
Lemma shr_val r n : 0 <= n -> Z.shiftr r n = r / 2 ^ n.
Proof. apply Z.shiftr_div_pow2. Qed.

(** A Unicode scalar value. *)
Definition scalar (r : Z) : Prop := 0 <= r < 0xD800 \/ 0xE000 <= r < 0x110000.

Ltac in_ranges :=
  unfold is_cont, in_range; rewrite ?andb_true_iff, ?Z.leb_le; repeat split; Z.to_euclidean_division_equations; lia.
Lemma cont_ok z : is_cont (128 + z mod 64) = true.
Proof. in_ranges. Qed.
Ltac out_of_range :=
  unfold in_range; rewrite andb_false_iff, !Z.leb_gt; first [left; Z.to_euclidean_division_equations; lia | right; Z.to_euclidean_division_equations; lia].
(** An encoded scalar is decoded as one, whatever follows. *)
Lemma encode_rune_spec r t :
  scalar r -> exists v, decode_rune (encode_rune r +:+ t) = (v, String.length (encode_rune r)) /\
    (v = RuneError -> String.length (encode_rune r) <> 1%nat).
Proof.
  intros Hr. unfold encode_rune, str1. destruct (Z.ltb_spec r 0x80).
  { exists r. unfold scalar in Hr. cbn [String.length]. rewrite str_app_cons.
    cbn [decode_rune]. rewrite byte_z_z_byte by lia. rewrite (proj2 (Z.ltb_lt _ _)) by done.
    split; [done|]. unfold RuneError. lia. }
  destruct (Z.ltb_spec r 0x800); [|destruct (Z.ltb_spec r 0x10000)].
  - rewrite shr_val by lia. change 0xC0 with (Z.shiftl 3 6). rewrite lor_shiftl by (Z.to_euclidean_division_equations; lia).
    rewrite !str_app_cons. cbn [decode_rune String.length]. rewrite byte_z_cont, byte_z_z_byte by (Z.to_euclidean_division_equations; lia).
    rewrite (proj2 (Z.ltb_ge _ _)) by (Z.to_euclidean_division_equations; lia).
    replace (in_range _ _ _) with true by (symmetry; in_ranges).
    rewrite !cont_ok. by eexists.
  - rewrite !shr_val by lia. change 0xE0 with (Z.shiftl 14 4) at 1. rewrite lor_shiftl by (Z.to_euclidean_division_equations; lia).
    rewrite !str_app_cons. cbn [decode_rune String.length]. rewrite !byte_z_cont, byte_z_z_byte by (Z.to_euclidean_division_equations; lia).
    rewrite (proj2 (Z.ltb_ge _ _)) by (Z.to_euclidean_division_equations; lia).
    replace (in_range 0xC2 _ _) with false by (symmetry; out_of_range).
    replace (in_range 0xE0 _ _) with true by (symmetry; in_ranges).
    replace (second_ok _ _) with true; [rewrite !cont_ok; by eexists|].
    symmetry. unfold second_ok, scalar in *.
    repeat match goal with |- (if ?a =? ?b then _ else _) = true => destruct (Z.eqb_spec a b) end; in_ranges.
  - rewrite !shr_val by lia. change 0xF0 with (Z.shiftl 30 3) at 1. rewrite lor_shiftl by (unfold scalar in *; Z.to_euclidean_division_equations; lia).
    rewrite !str_app_cons. cbn [decode_rune String.length].
    rewrite !byte_z_cont, byte_z_z_byte by (unfold scalar in *; Z.to_euclidean_division_equations; lia).
    rewrite (proj2 (Z.ltb_ge _ _)) by (Z.to_euclidean_division_equations; lia).
    replace (in_range 0xC2 _ _) with false by (symmetry; out_of_range).
    replace (in_range 0xE0 _ _) with false by (symmetry; out_of_range).
    replace (in_range 0xF0 _ _) with true by (symmetry; unfold scalar in *; in_ranges).
    replace (second_ok _ _) with true; [rewrite !cont_ok; by eexists|].
    symmetry. unfold second_ok, scalar in *.
    repeat match goal with |- (if ?a =? ?b then _ else _) = true => destruct (Z.eqb_spec a b) end; in_ranges.
Qed.

(** * Decoded runes are scalars *)

Lemma low5 z : Z.land z 0x1F = z mod 32.
Proof. exact (Z.land_ones z 5 ltac:(lia)). Qed.
Lemma low4 z : Z.land z 0x0F = z mod 16.
Proof. exact (Z.land_ones z 4 ltac:(lia)). Qed.
Lemma low3 z : Z.land z 0x07 = z mod 8.
Proof. exact (Z.land_ones z 3 ltac:(lia)). Qed.
Lemma low6_range z : 0 <= z mod 64 < 64.
Proof. apply Z.mod_pos_bound. lia. Qed.

Lemma scalar_error : scalar RuneError.
Proof. unfold scalar, RuneError. lia. Qed.

Lemma decode_rune_scalar s : scalar (fst (decode_rune s)).
Proof.
  destruct s as [|c s]; [apply scalar_error|]. cbn [decode_rune]. pose proof (byte_z_range c) as Hc.
  destruct (Z.ltb_spec (byte_z c) 0x80); [unfold scalar; simpl; lia|].
  destruct (in_range 0xC2 0xDF (byte_z c)) eqn:E2; [|destruct (in_range 0xE0 0xEF (byte_z c)) eqn:E3; [|destruct (in_range 0xF0 0xF4 (byte_z c)) eqn:E4; [|apply scalar_error]]].
  all: unfold in_range in *; rewrite ?andb_true_iff, ?Z.leb_le in *.
  - destruct s as [|c1 s]; [apply scalar_error|]. destruct (is_cont (byte_z c1)); [|apply scalar_error].
    cbn [fst]. rewrite low5, low6, lor_shiftl by (pose proof (low6_range (byte_z c1)); lia).
    pose proof (low6_range (byte_z c1)). unfold scalar. left. Z.to_euclidean_division_equations; lia.
  - destruct s as [|c1 [|c2 s]]; try apply scalar_error. destruct (second_ok _ _ && _) eqn:Hok; [|apply scalar_error].
    apply andb_true_iff in Hok as [Hs _]. cbn [fst]. rewrite low4, !low6.
    pose proof (low6_range (byte_z c1)) as H1. pose proof (low6_range (byte_z c2)) as H2.
    rewrite (lor_shiftl (byte_z c1 mod 64) _ 6), lor_shiftl by lia.
    unfold second_ok, is_cont, in_range in Hs. unfold scalar.
    repeat match type of Hs with (if ?a =? ?b then _ else _) = true => destruct (Z.eqb_spec a b) end;
      rewrite andb_true_iff, !Z.leb_le in Hs; Z.to_euclidean_division_equations; lia.
  - destruct s as [|c1 [|c2 [|c3 s]]]; try apply scalar_error. destruct (second_ok _ _ && _ && _) eqn:Hok; [|apply scalar_error].
    apply andb_true_iff in Hok as [Hok _]. apply andb_true_iff in Hok as [Hs _]. cbn [fst]. rewrite low3, !low6.
    pose proof (low6_range (byte_z c1)) as H1. pose proof (low6_range (byte_z c2)) as H2. pose proof (low6_range (byte_z c3)) as H3.
    rewrite (lor_shiftl (byte_z c2 mod 64) _ 6), (lor_shiftl (byte_z c1 mod 64) _ 12), lor_shiftl by lia.
    unfold second_ok, is_cont, in_range in Hs. unfold scalar. right.
    repeat match type of Hs with (if ?a =? ?b then _ else _) = true => destruct (Z.eqb_spec a b) end;
      rewrite andb_true_iff, !Z.leb_le in Hs; Z.to_euclidean_division_equations; lia.
Qed.

(** * Valid strings *)

Lemma rune_segs_from_drop k s : rune_segs_from k s = rune_segs (str_drop k s).
Proof.
  revert k. induction s as [|c s IH]; intros [|k]; try done. cbn [rune_segs_from str_drop]. apply IH.
Qed.
Lemma str_take_len x t : str_take (String.length x) (x +:+ t) = x.
Proof. induction x as [|c x IH]; [by destruct t|]. rewrite str_app_cons. cbn [String.length str_take]. by rewrite IH. Qed.
Lemma str_drop_len x t : str_drop (String.length x) (x +:+ t) = t.
Proof. induction x as [|c x IH]; [by destruct t|]. exact IH. Qed.

(** A rune at the front. *)
Lemma rune_segs_app x t v :
  x <> "" -> decode_rune (x +:+ t) = (v, String.length x) -> rune_segs (x +:+ t) = (v, x) :: rune_segs t.
Proof.
  destruct x as [|c x]; [done|]. intros _ H. rewrite str_app_cons in *. unfold rune_segs. cbn [rune_segs_from].
  rewrite H. cbn [String.length Nat.pred]. rewrite rune_segs_from_drop, str_drop_len.
  change (String c (x +:+ t)) with (String c x +:+ t). by rewrite (str_take_len (String c x)).
Qed.

Lemma ValidString_rune r t : scalar r -> ValidString (encode_rune r +:+ t) = ValidString t.
Proof.
  intros Hr. destruct (encode_rune_spec r t Hr) as (v & Hv & Hne). unfold ValidString.
  rewrite (rune_segs_app _ _ v); [|by unfold encode_rune, str1; repeat case_match|done]. cbn [forallb fst snd].
  destruct (Z.eqb_spec v RuneError) as [->|]; [|done].
  by rewrite (proj2 (Nat.eqb_neq _ _)) by auto.
Qed.
Lemma ValidString_ascii c t : byte_z c < 128 -> ValidString (String c t) = ValidString t.
Proof.
  intros Hc. unfold ValidString. rewrite rune_segs_ascii_cons by by apply Z.ltb_lt. cbn [forallb fst snd].
  destruct (Z.eqb_spec (byte_z c) RuneError) as [E|]; [unfold RuneError in E; lia|done].
Qed.

(** A string literal of a document decodes to valid UTF-8. *)
Lemma hex_val_range c x : hex_val c = Some x -> 0 <= x < 16.
Proof.
  unfold hex_val, in_range. intros H. repeat case_match; simplify_eq; rewrite ?andb_true_iff, ?Z.leb_le in *; lia.
Qed.
Lemma scan_u4_range s r rest : scan_u4 s = Some (r, rest) -> 0 <= r < 0x10000.
Proof.
  unfold scan_u4. destruct s as [|a [|b [|c [|d s]]]]; try done. intros H.
  destruct (hex_val a) as [w|] eqn:Ea; [|done]. destruct (hex_val b) as [x|] eqn:Eb; [|done].
  destruct (hex_val c) as [y|] eqn:Ec; [|done]. destruct (hex_val d) as [z|] eqn:Ed; [|done].
  cbn [mbind option_bind] in H. injection H as <- _.
  apply hex_val_range in Ea, Eb, Ec, Ed. lia.
Qed.
Lemma scan_unicode_scalar s r rest : scan_unicode s = Some (r, rest) -> scalar r.
Proof.
  unfold scan_unicode. destruct (scan_u4 s) as [[r1 rest1]|] eqn:E1; [|done]. cbn [mbind option_bind].
  apply scan_u4_range in E1. destruct (is_surrogate r1) eqn:Es.
  - assert (He : forall q, Some (RuneError, q) = Some (r, rest) -> scalar r) by (intros q [= <- _]; apply scalar_error).
    destruct rest1 as [|c1 [|c2 rest1]]; intros H; try (by apply He in H); repeat case_match; simplify_eq; try apply scalar_error.
    unfold decode_surrogates, in_range in *. case_match; simplify_eq.
    rewrite !andb_true_iff, !Z.leb_le in *. unfold scalar. lia.
  - intros [= <- _]. unfold is_surrogate, in_range in Es. apply andb_false_iff in Es. rewrite !Z.leb_gt in Es.
    unfold scalar. lia.
Qed.

Lemma simple_escape_ascii c x : simple_escape c = Some x -> byte_z x < 128.
Proof. unfold simple_escape. intros H. repeat case_match; simplify_eq; vm_compute; done. Qed.

Lemma scan_string_valid fuel s t rest : scan_string fuel s = Some (t, rest) -> ValidString t = true.
Proof.
  revert s t rest. induction fuel as [|fuel IH]; intros s t rest; [done|]. cbn [scan_string].
  destruct s as [|c s]; [done|]. destruct (Ascii.eqb c DQUOTE); [by intros [= <- _]|].
  destruct (Ascii.eqb c "\").
  - destruct s as [|e s]; [done|]. intros H.
    assert (Hesc : (x ← simple_escape e; '(t, r') ← scan_string fuel s; Some (String x t, r')) = Some (t, rest) ->
      ValidString t = true).
    { destruct (simple_escape e) as [x|] eqn:Ex; [|done]. cbn [mbind option_bind].
      destruct (scan_string fuel s) as [[t' r']|] eqn:E; [|done]. intros [= <- _].
      rewrite ValidString_ascii by by eapply simple_escape_ascii. by eapply IH. }
    destruct (Ascii.eqb_spec e "u") as [->|Hu]; [|apply Hesc; by destruct e as [[] [] [] [] [] [] [] []]].
    destruct (scan_unicode s) as [[r rest1]|] eqn:Eu; [|done]. cbn [mbind option_bind] in H.
    destruct (scan_string fuel rest1) as [[t' r']|] eqn:E; [|done]. injection H as <- _.
    rewrite ValidString_rune by by eapply scan_unicode_scalar. by eapply IH.
  - destruct (byte_z c <? 32); [done|]. destruct (Z.ltb_spec (byte_z c) 128).
    + destruct (scan_string fuel s) as [[t' r']|] eqn:E; [|done]. intros [= <- _].
      rewrite ValidString_ascii by done. by eapply IH.
    + pose proof (decode_rune_scalar (String c s)) as Hr. destruct (decode_rune (String c s)) as [r w].
      destruct (scan_string fuel (str_drop w (String c s))) as [[t' r']|] eqn:E; [|done]. intros [= <- _].
      rewrite ValidString_rune by done. by eapply IH.
Qed.

(** * Documents *)

(** Every string value in a document is valid. *)
Fixpoint json_utf8 (j : json) : bool :=
  match j with
  | JStr s => ValidString s
  | JArr l => forallb json_utf8 l
  | JObj l => forallb (fun kv => json_utf8 (snd kv)) l
  | _ => true
  end.

Lemma parse_valid fuel :
  (forall d s j r, parse_value fuel d s = Some (j, r) -> json_utf8 j = true) /\
  (forall d s l r, parse_elems fuel d s = Some (l, r) -> forallb json_utf8 l = true) /\
  (forall d s l r, parse_members fuel d s = Some (l, r) -> forallb (fun kv => json_utf8 (snd kv)) l = true).
Proof.
  induction fuel as [|fuel (IHv & IHe & IHm)]; [done|]. split_and!; intros d s v r.
  - cbn [parse_value]. destruct (HasPrefix _ "null"); [by intros [= <- _]|]. destruct (HasPrefix _ "true"); [by intros [= <- _]|].
    destruct (HasPrefix _ "false"); [by intros [= <- _]|]. destruct (skip_ws s) as [|c s']; [done|].
    destruct (Ascii.eqb c DQUOTE).
    { destruct (scan_string _ s') as [[t r']|] eqn:E; [|done]. intros [= <- _]. by eapply scan_string_valid. }
    destruct (Ascii.eqb c "[").
    { destruct (_ <=? d); [done|]. intros H.
      assert (Hl : ('(l, r) ← parse_elems fuel (d + 1) s'; Some (JArr l, r)) = Some (v, r) -> json_utf8 v = true).
      { destruct (parse_elems _ _ _) as [[l r']|] eqn:E; [|done]. intros [= <- _]. by eapply IHe. }
      destruct (skip_ws s') as [|c1 s1]; [by apply Hl|].
      destruct (Ascii.eqb_spec c1 "]") as [->|]; [by injection H as <- _|].
      apply Hl. by destruct c1 as [[] [] [] [] [] [] [] []]. }
    destruct (Ascii.eqb c "{").
    { destruct (_ <=? d); [done|]. intros H.
      assert (Hl : ('(l, r) ← parse_members fuel (d + 1) s'; Some (JObj l, r)) = Some (v, r) -> json_utf8 v = true).
      { destruct (parse_members _ _ _) as [[l r']|] eqn:E; [|done]. intros [= <- _]. by eapply IHm. }
      destruct (skip_ws s') as [|c1 s1]; [by apply Hl|].
      destruct (Ascii.eqb_spec c1 "}") as [->|]; [by injection H as <- _|].
      apply Hl. by destruct c1 as [[] [] [] [] [] [] [] []]. }
    destruct (scan_number _) as [[lit r']|]; [|done]. by intros [= <- _].
  - cbn [parse_elems]. destruct (parse_value fuel d s) as [[j r1]|] eqn:E1; [|done]. cbn [mbind option_bind].
    apply IHv in E1. destruct (skip_ws r1) as [|c r2]; [done|].
    destruct (Ascii.eqb_spec c ",") as [->|].
    { destruct (parse_elems fuel d r2) as [[l r3]|] eqn:E2; [|done]. intros [= <- _]. simpl. rewrite E1. by eapply IHe. }
    destruct (Ascii.eqb_spec c "]") as [->|]; [intros [= <- _]; simpl; by rewrite E1|].
    by destruct c as [[] [] [] [] [] [] [] []].
  - cbn [parse_members]. destruct (skip_ws s) as [|q s1]; [done|]. destruct (Ascii.eqb q DQUOTE); [|done].
    destruct (scan_string _ s1) as [[k r1]|]; [|done]. cbn [mbind option_bind].
    destruct (skip_ws r1) as [|c r2]; [done|]. destruct (Ascii.eqb_spec c ":") as [->|];
      [|by destruct c as [[] [] [] [] [] [] [] []]].
    destruct (parse_value fuel d r2) as [[j r3]|] eqn:E1; [|done]. cbn [mbind option_bind]. apply IHv in E1.
    destruct (skip_ws r3) as [|c r4]; [done|]. destruct (Ascii.eqb_spec c ",") as [->|].
    { destruct (parse_members fuel d r4) as [[l r5]|] eqn:E2; [|done]. intros [= <- _]. simpl. rewrite E1. by eapply IHm. }
    destruct (Ascii.eqb_spec c "}") as [->|]; [intros [= <- _]; simpl; by rewrite E1|].
    by destruct c as [[] [] [] [] [] [] [] []].
Qed.

(** * Struct fields *)

(** A decoder that keeps a property of its target, given a valid value. *)
Definition keeps {A} (P : A -> Prop) (d : decoder A) : Prop :=
  forall old j x, P old -> json_utf8 j = true -> d old j = Ok x -> P x.

Lemma keeps_string : keeps (fun s => ValidString s = true) dec_string.
Proof. intros old j x Ho Hj H. destruct j; simplify_eq/=; done. Qed.
Lemma keeps_any {A} (d : decoder A) : keeps (fun _ => True) d.
Proof. done. Qed.

Lemma keeps_field {A B} (P : A -> Prop) (R : B -> Prop) name get set (d : decoder B) :
  keeps R d -> (forall x, P x -> R (get x)) -> (forall y x, P x -> R y -> P (set y x)) ->
  keeps P (snd (field name get set d)).
Proof.
  intros Hd Hg Hs old j x Ho Hj H. cbn in H. destruct (d (get old) j) as [y|e] eqn:E; [|done].
  injection H as <-. apply Hs; [done|]. by eapply Hd; eauto.
Qed.

Lemma field_for_In {A} (fs : fields A) key d : field_for fs key = Some d -> exists name, (name, d) ∈ fs.
Proof.
  unfold field_for. destruct (list_find _ fs) as [[i [name d']]|] eqn:E1.
  - intros [= <-]. apply list_find_Some in E1 as (H & _). exists name. by eapply list_elem_of_lookup_2.
  - clear E1. destruct (list_find _ fs) as [[i [name d']]|] eqn:E2; [|done].
    intros [= <-]. apply list_find_Some in E2 as (H & _). exists name. by eapply list_elem_of_lookup_2.
Qed.

Lemma keeps_struct {A} (P : A -> Prop) (fs : fields A) :
  Forall (fun f => keeps P (snd f)) fs -> keeps P (dec_struct fs).
Proof.
  intros Hfs old j x Ho Hj H. destruct j as [| | | | |l]; simplify_eq/=; [done|].
  revert old Ho Hj H. induction l as [|[k v] l IH]; intros old Ho Hj H; simplify_eq/=; [done|].
  apply andb_true_iff in Hj as [Hv Hl]. destruct (field_for fs k) as [d|] eqn:Ef; [|by apply (IH old)].
  destruct (d old v) as [y|e] eqn:Ed; [|done]. cbn [mbind res_bind] in H. apply (IH y); [|done|done].
  apply field_for_In in Ef as [name Hin]. rewrite Forall_forall in Hfs. exact (Hfs _ Hin _ _ _ Ho Hv Ed).
Qed.

Lemma Unmarshal_keeps {A} (P : A -> Prop) (d : decoder A) zero data x :
  keeps P d -> P zero -> Unmarshal d zero data = Ok x -> P x.
Proof.
  intros Hd Hz. unfold Unmarshal, parse_json, parse_prefix.
  destruct (parse_value _ 0 data) as [[j r]|] eqn:E; [|done]. cbn [mbind option_bind].
  destruct (str_nil _); [|done]. intros H. apply (Hd zero j); [done| |done]. by eapply parse_valid.
Qed.
