(* ===== verification/GoMime.v ===== *)
(** What the source uses of [mime] and [mime/quotedprintable]: the parameters of a
    Content-Disposition, with the continuations of RFC 2231, and the decoding of a
    quoted-printable part. *)
From stdpp Require Import base gmap strings list.
From Stdlib Require Import ZArith Lia Ascii String.
From S2P Require Import Prelude.
From S2P Require Import GoStrings.
From S2P Require Import GoConv.
From S2P Require Import GoUrl.
From S2P Require Import GoUnmarshal.

(** * mime.ParseMediaType *)

Definition BSLASH : ascii := "092"%char.
Definition SQUOTE : ascii := "039"%char.

(** [strings.TrimLeftFunc(v, unicode.IsSpace)]. *)
Definition TrimLeftSpace (v : string) : string :=
  str_concat (snd <$> drop_while (fun seg : Z * string => is_space_rune (fst seg)) (rune_segs v)).

Fixpoint consumeToken (v : string) : string * string :=
  match v with
  | EmptyString => (EmptyString, EmptyString)
  | String c v' =>
      if token_char c then let '(t, rest) := consumeToken v' in (String c t, rest) else (EmptyString, v)
  end.

Definition isTSpecial (c : ascii) : bool :=
  existsb (Z.eqb (byte_z c)) [40; 41; 60; 62; 64; 44; 59; 58; 92; 34; 47; 91; 93; 63; 61].

(** The inside of a quoted string: its value and what follows the closing quote;
    [None] when there is none, or a line break before it. *)
Fixpoint quoted_value (v : string) : option (string * string) :=
  match v with
  | EmptyString => None
  | String c v' =>
      if Ascii.eqb c DQUOTE then Some (EmptyString, v')
      else
        let plain :=
          if Ascii.eqb c CR || Ascii.eqb c NL then None
          else '(t, rest) ← quoted_value v'; Some (String c t, rest) in
        match v' with
        | String d v'' =>
            if Ascii.eqb c BSLASH && isTSpecial d
            then '(t, rest) ← quoted_value v''; Some (String d t, rest)
            else plain
        | EmptyString => plain
        end
  end.
Definition consumeValue (v : string) : string * string :=
  match v with
  | EmptyString => (EmptyString, EmptyString)
  | String c v' =>
      if Ascii.eqb c DQUOTE then default (EmptyString, v) (quoted_value v') else consumeToken v
  end.

(** [strings.CutPrefix] for one byte. *)
Definition cut_byte (c : ascii) (v : string) : option string :=
  match v with String d v' => if Ascii.eqb c d then Some v' else None | EmptyString => None end.

(** [consumeMediaParam]: the parameter, its value and the rest; [None] for the Go
    result with an empty parameter. *)
Definition consumeMediaParam (v : string) : option (string * string * string) :=
  rest ← cut_byte ";" (TrimLeftSpace v);
  let '(param, rest) := consumeToken (TrimLeftSpace rest) in
  let param := ToLower param in
  if str_nil param then None
  else
    rest ← cut_byte "=" (TrimLeftSpace rest);
    let rest := TrimLeftSpace rest in
    let '(value, rest2) := consumeValue rest in
    if str_nil value && String.eqb rest2 rest then None else Some (param, value, rest2).

Definition checkMediaTypeDisposition (s : string) : res unit :=
  let '(typ, rest) := consumeToken s in
  if str_nil typ then Err (ErrText "mime: no media type")
  else
    match rest with
    | EmptyString => Ok tt
    | String c rest =>
        if negb (Ascii.eqb c "/") then Err (ErrText "mime: expected slash after first token")
        else
          let '(subtype, rest) := consumeToken rest in
          if str_nil subtype then Err (ErrText "mime: expected token after slash")
          else if str_nil rest then Ok tt
          else Err (ErrText "mime: unexpected content after media subtype")
    end.

(** The parameters as they stand, and those with a star under their base name. *)
Record media_params := { mp_params : gmap string string; mp_cont : gmap string (gmap string string) }.
Definition no_params : media_params := {| mp_params := ∅; mp_cont := ∅ |}.

(** Setting a parameter: a second value must be the same one. *)
Definition set_new (key value : string) (m : gmap string string) : option (gmap string string) :=
  match m !! key with
  | Some v => if String.eqb v value then Some m else None
  | None => Some (<[key := value]> m)
  end.
Definition add_param (key value : string) (p : media_params) : option media_params :=
  match Cut key "*" with
  | (_, None) => m ← set_new key value (mp_params p); Some {| mp_params := m; mp_cont := mp_cont p |}
  | (base, Some _) =>
      m ← set_new key value (default ∅ (mp_cont p !! base));
      Some {| mp_params := mp_params p; mp_cont := <[base := m]> (mp_cont p) |}
  end.

(** The outcome of the loop over the parameters. *)
Inductive scan_result := Scanned (p : media_params) | BadParameter | DuplicateParameter.

(** Every pass consumes a parameter: the length of the text bounds them. *)
Fixpoint scan_params (fuel : nat) (v : string) (p : media_params) : scan_result :=
  match fuel with
  | O => Scanned p
  | S fuel =>
      let v := TrimLeftSpace v in
      if str_nil v then Scanned p
      else
        match consumeMediaParam v with
        | None => if String.eqb (TrimSpace v) ";" then Scanned p else BadParameter
        | Some (key, value, rest) =>
            match add_param key value p with
            | None => DuplicateParameter
            | Some p => scan_params fuel rest p
            end
        end
  end.

(** [percentHexUnescape]. *)
Fixpoint percentHexUnescape (s : string) : option string :=
  match s with
  | EmptyString => Some EmptyString
  | String c s' =>
      if Ascii.eqb c "%" then
        match s' with
        | String a (String b s'') =>
            x ← hex_val a; y ← hex_val b; t ← percentHexUnescape s''; Some (String (z_byte (16 * x + y)) t)
        | _ => None
        end
      else t ← percentHexUnescape s'; Some (String c t)
  end.
(** [decode2231Enc]: charset, language and text between single quotes. *)
Definition decode2231Enc (v : string) : option string :=
  match Cut v SQUOTE with
  | (charset, Some v) =>
      match Cut v SQUOTE with
      | (_, Some text) =>
          let charset := ToLower charset in
          if String.eqb charset "us-ascii" || String.eqb charset "utf-8" then percentHexUnescape text else None
      | (_, None) => None
      end
  | (_, None) => None
  end.

(** The pieces [key*0], [key*1], ..., each plain or encoded ([key*1*]), up to the
    first one missing; there are no more than the map has entries. *)
Fixpoint pieces (fuel : nat) (key : string) (n : Z) (m : gmap string string) : option string :=
  match fuel with
  | O => None
  | S fuel =>
      let simplePart := key +:+ "*" +:+ FormatInt n in
      match m !! simplePart with
      | Some v => Some (v +:+ default EmptyString (pieces fuel key (n + 1) m))
      | None =>
          v ← m !! (simplePart +:+ "*");
          let dec := if n =? 0 then decode2231Enc v else percentHexUnescape v in
          Some (default EmptyString dec +:+ default EmptyString (pieces fuel key (n + 1) m))
      end
  end.
(** The value of a parameter with a star, if any of it is usable. *)
Definition stitched (key : string) (m : gmap string string) : option string :=
  match m !! (key +:+ "*") with
  | Some v => decode2231Enc v
  | None => pieces (S (size m)) key 0 m
  end.

(** [params[key]] after the stitching: a continued parameter replaces a plain one. *)
Definition param_value (p : media_params) (key : string) : option string :=
  match mp_cont p !! key with
  | Some m => match stitched key m with Some v => Some v | None => mp_params p !! key end
  | None => mp_params p !! key
  end.

(** [ParseMediaType]: the media type and the lookup of a parameter; an invalid
    parameter keeps the type and drops them all. *)
Definition ParseMediaType (v : string) : string * (string -> option string) :=
  let base := fst (Cut v ";") in
  let mediatype := TrimSpace (ToLower base) in
  match checkMediaTypeDisposition mediatype with
  | Err _ => (EmptyString, fun _ => None)
  | Ok _ =>
      match scan_params (S (String.length v)) (str_drop (String.length base) v) no_params with
      | Scanned p => (mediatype, param_value p)
      | BadParameter => (mediatype, fun _ => None)
      | DuplicateParameter => (EmptyString, fun _ => None)
      end
  end.

Example disposition_plain :
  let '(t, p) := ParseMediaType ("form-data; name=" +:+ dq "model" +:+ "; filename=x.wav;") in
  (t, p "name", p "filename", p "size") = ("form-data", Some "model", Some "x.wav", None).
Proof. vm_compute. reflexivity. Qed.
Example disposition_continued :
  snd (ParseMediaType "form-data; name*0=mo; name*1*=%64el") "name" = Some "model".
Proof. vm_compute. reflexivity. Qed.
Example disposition_encoded :
  snd (ParseMediaType "Form-Data; NAME*=utf-8'en'mo%64el") "name" = Some "model".
Proof. vm_compute. reflexivity. Qed.
Example disposition_bad :
  let '(t, p) := ParseMediaType "form-data; name" in (t, p "name") = ("form-data", None).
Proof. vm_compute. reflexivity. Qed.

(** * mime/quotedprintable *)

Definition is_qp_space (c : ascii) : bool := Ascii.eqb c NL || Ascii.eqb c CR || Ascii.eqb c " " || Ascii.eqb c "009".
(** [bytes.TrimRightFunc(line, isQPDiscardWhitespace)]. *)
Fixpoint trim_qp (s : string) : string :=
  match s with
  | EmptyString => EmptyString
  | String c s' =>
      match trim_qp s' with
      | EmptyString => if is_qp_space c then EmptyString else str1 c
      | t => String c t
      end
  end.

(** The bytes of one prepared line; an error stops the reader. *)
Fixpoint qp_bytes (line : string) : string * option error :=
  match line with
  | EmptyString => (EmptyString, None)
  | String b rest =>
      if Ascii.eqb b "=" then
        match rest with
        | String x (String y rest') =>
            match hex_val x, hex_val y with
            | Some hx, Some hy =>
                let '(t, e) := qp_bytes rest' in (String (z_byte (16 * hx + hy)) t, e)
            | _, _ =>
                if Ascii.eqb x CR || Ascii.eqb x NL
                then (EmptyString, Some (ErrText "quotedprintable: invalid hex byte"))
                else let '(t, e) := qp_bytes rest in (String b t, e)
            end
        | String x EmptyString =>
            if Ascii.eqb x CR || Ascii.eqb x NL then (EmptyString, Some (ErrLib "io" "unexpected EOF"))
            else let '(t, e) := qp_bytes rest in (String b t, e)
        | EmptyString => (EmptyString, Some (ErrLib "io" "unexpected EOF"))
        end
      else
        let z := byte_z b in
        if (z =? 9) || (z =? 13) || (z =? 10) || (128 <=? z) || in_range 32 126 z
        then let '(t, e) := qp_bytes rest in (String b t, e)
        else (EmptyString, Some (ErrText "quotedprintable: invalid unescaped byte in body"))
  end.

Definition bufferFull : error := ErrLib "bufio" "bufio: buffer full".

(** One line as read, with the error that came with it, made ready: trailing white
    space goes, a soft break joins, a hard one stays as it was. *)
Definition ends_with (s : string) (c : ascii) : bool :=
  match LastIndex s c with Some i => (S i =? String.length s)%nat | None => false end.
Definition qp_line (whole : string) (rerr : option error) : string * option error :=
  let line := trim_qp whole in
  if ends_with line "=" then
    let stripped := str_drop (String.length line) whole in
    let line := str_take (String.length line - 1) line in
    if HasPrefix stripped nl || HasPrefix stripped crlf ||
       (str_nil stripped && negb (str_nil line) && match rerr with Some ErrEOF => true | _ => false end)
    then (line, rerr)
    else (line, Some (ErrText ("quotedprintable: invalid bytes after =: " +:+ Quote stripped)))
  else if ends_with whole NL then
    (line +:+ (if ends_with (str_take (String.length whole - 1) whole) CR then crlf else nl), rerr)
  else (line, rerr).

(** The reader over the lines of a reader, with a buffer of 4096 bytes; every line
    that does not end the input has a byte, so the length bounds them. *)
Fixpoint qp_read (fuel : nat) (s : string) (end_ : error) : string * error :=
  match fuel with
  | O => (EmptyString, end_)
  | S fuel =>
      let '(whole, rest, rerr) :=
        match IndexByte (str_take 4096 s) NL with
        | Some i => (str_take (S i) s, str_drop (S i) s, None)
        | None =>
            if (4096 <=? String.length s)%nat then (str_take 4096 s, str_drop 4096 s, Some bufferFull)
            else (s, EmptyString, Some end_)
        end in
      let '(line, rerr) := qp_line whole rerr in
      let '(t, e) := qp_bytes line in
      match e, rerr with
      | Some e, _ | None, Some e => (t, e)
      | None, None => let '(t', e) := qp_read fuel rest end_ in (t +:+ t', e)
      end
  end.
Definition quotedprintable_NewReader (r : reader) : reader :=
  let '(data, e) := qp_read (S (String.length (rd_data r))) (rd_data r) (rd_end r) in Reader data e.

Example qp_decodes :
  quotedprintable_NewReader (Reader ("a=3Db  " +:+ crlf +:+ "c=" +:+ crlf +:+ "d") ErrEOF)
  = Reader ("a=b" +:+ crlf +:+ "cd") ErrEOF.
Proof. vm_compute. reflexivity. Qed.
