(* ===== verification/GoMultipart.v ===== *)
(** The reader of [mime/multipart] over a body in memory: the lines between the
    parts, the header of a part ([net/textproto]), the search for the boundary that
    ends its content, and its form name. *)
From stdpp Require Import base gmap strings list.
From Stdlib Require Import ZArith Lia Ascii String.
From S2P Require Import Prelude.
From S2P Require Import GoStrings.
From S2P Require Import GoConv.
From S2P Require Import GoUrl.
From S2P Require Import GoUnmarshal.
From S2P Require Import GoMime.

Definition TAB : ascii := "009"%char.
Definition err_unexpected_EOF : error := ErrLib "io" "unexpected EOF".
Definition err_message_too_large : error := ErrLib "mime/multipart" "multipart: message too large".

(** * net/textproto: the header of a part *)

Definition is_blank (c : ascii) : bool := Ascii.eqb c " " || Ascii.eqb c TAB.
Fixpoint trim_left_blank (s : string) : string :=
  match s with String c s' => if is_blank c then trim_left_blank s' else s | EmptyString => EmptyString end.
Fixpoint trim_right_blank (s : string) : string :=
  match s with
  | EmptyString => EmptyString
  | String c s' =>
      match trim_right_blank s' with
      | EmptyString => if is_blank c then EmptyString else str1 c
      | t => String c t
      end
  end.
(** [textproto.trim]. *)
Definition trim_blank (s : string) : string := trim_right_blank (trim_left_blank s).

(** Without the CR of a CRLF. *)
Definition drop_cr (s : string) : string := if ends_with s CR then str_take (String.length s - 1) s else s.

(** [readLineSlice]: a line without its end, at most [lim] bytes of it. *)
Definition read_line (lim : Z) (s : string) : res (string * string) :=
  if str_nil s then Err ErrEOF
  else
    let '(line, rest) :=
      match IndexByte s NL with
      | Some i => (drop_cr (str_take i s), str_drop (S i) s)
      | None => (s, EmptyString)
      end in
    if slen line >? lim then Err err_message_too_large else Ok (line, rest).

(** The continuation lines behind a line: those that begin with white space.  Each
    has a byte, so the length of the text bounds them. *)
Fixpoint read_continuations (fuel : nat) (lim : Z) (buf s : string) : res (string * string) :=
  match fuel with
  | O => Ok (buf, s)
  | S fuel =>
      let s' := trim_left_blank s in
      if (String.length s' =? String.length s)%nat then Ok (buf, s)
      else
        let buf := buf +:+ " " in
        if lim <=? slen buf then Err err_message_too_large
        else match read_line (lim - slen buf) s' with
             | Err _ => Ok (buf, s')
             | Ok (line, rest) => read_continuations fuel lim (buf +:+ trim_blank line) rest
             end
  end.

(** [readContinuedLineSlice] with [mustHaveFieldNameColon]. *)
Definition read_continued_line (lim : Z) (s : string) : res (string * string) :=
  '(line, rest) ← read_line lim s;
  if str_nil line then Ok (EmptyString, rest)
  else
    match IndexByte line ":" with
    | None => Err (ErrLib "net/textproto" ("malformed MIME header: missing colon: " +:+ Quote line))
    | Some _ =>
        let buf := trim_blank line in
        read_continuations (String.length rest) (lim - slen buf) buf rest
    end.

Definition malformed_line (kv : string) : error :=
  ErrLib "net/textproto" ("malformed MIME header line: " +:+ kv).

(** [validHeaderValueByte] and the keys that are accepted: tokens, and tokens with
    spaces, which are left alone. *)
Definition header_value_byte (c : ascii) : bool :=
  let z := byte_z c in (z =? 9) || in_range 32 126 z || (128 <=? z).
Definition header_key (k : string) : option string :=
  if negb (str_nil k) && str_forall (fun c => token_char c || Ascii.eqb c " ") k
  then Some (CanonicalHeaderKey k) else None.

(** [readMIMEHeader] behind its first check: the fields up to the empty line, with
    what is left of the limits. *)
Fixpoint read_fields (fuel : nat) (maxMemory maxHeaders : Z) (h : header) (s : string) : res (header * string) :=
  match fuel with
  | O => Err ErrEOF
  | S fuel =>
      '(kv, rest) ← read_continued_line maxMemory s;
      if str_nil kv then Ok (h, rest)
      else
        match Cut kv ":" with
        | (_, None) => Err (malformed_line kv)
        | (k, Some v) =>
            match header_key k with
            | None => Err (malformed_line kv)
            | Some key =>
                if negb (str_forall header_value_byte v) then Err (malformed_line kv)
                else if maxHeaders <=? 0 then Err err_message_too_large
                else
                  let value := trim_left_blank v in
                  let maxMemory :=
                    (if existsb (fun kv => String.eqb (fst kv) key) h then maxMemory else maxMemory - slen key - 200)
                    - slen value in
                  if maxMemory <? 0 then Err err_message_too_large
                  else read_fields fuel maxMemory (maxHeaders - 1) (h ++ [(key, value)]) rest
            end
        end
  end.

(** The limits of [mime/multipart]: 10 MiB and 10000 fields. *)
Definition maxMIMEHeaderSize : Z := 10485760.
Definition maxMIMEHeaders : Z := 10000.
Definition read_header (s : string) : res (header * string) :=
  match s with
  | String c _ =>
      if is_blank c then
        '(line, _) ← read_line 80 s;
        Err (ErrLib "net/textproto" ("malformed MIME header initial line: " +:+ line))
      else read_fields (S (String.length s)) (maxMIMEHeaderSize - 400) maxMIMEHeaders [] s
  | EmptyString => Err ErrEOF
  end.

(** * The content of a part *)

Section Reader.
Context (boundary : string).

Definition dashBoundary : string := "--" +:+ boundary.
Definition dashBoundaryDash : string := dashBoundary +:+ "--".
(** The line end in use: CRLF, or LF once the first boundary line ended in LF. *)
Definition eol (lf : bool) : string := if lf then nl else crlf.
Definition nlDashBoundary (lf : bool) : string := eol lf +:+ dashBoundary.

(** [matchAfterPrefix], with all of the input at hand: what may follow a boundary. *)
Definition match_after (rest : string) : bool :=
  match rest with
  | EmptyString => true
  | String c rest' =>
      is_blank c || Ascii.eqb c CR || Ascii.eqb c NL ||
      (Ascii.eqb c "-" && match rest' with String d _ => Ascii.eqb d "-" | EmptyString => false end)
  end.

(** The content up to the first line that is a boundary, and the input from that
    line end on. *)
Fixpoint find_boundary (lf : bool) (s : string) : option (string * string) :=
  if HasPrefix s (nlDashBoundary lf) && match_after (str_drop (String.length (nlDashBoundary lf)) s)
  then Some (EmptyString, s)
  else match s with
       | EmptyString => None
       | String c s' => '(data, rest) ← find_boundary lf s'; Some (String c data, rest)
       end.

(** Input without a boundary: the beginning of one at its end is held back. *)
Fixpoint held_back (lf : bool) (s : string) : string * string :=
  match s with
  | EmptyString => (EmptyString, EmptyString)
  | String c s' =>
      if HasPrefix (nlDashBoundary lf) s && match LastIndex s (if lf then NL else CR) with Some O => true | _ => false end
      then (EmptyString, s)
      else let '(data, rest) := held_back lf s' in (String c data, rest)
  end.

(** [scanUntilBoundary] over the whole input: the content of the part, the error
    behind it, and the input left. *)
Definition part_content (lf : bool) (s : string) : reader * string :=
  let scan s :=
    match find_boundary lf s with
    | Some (data, rest) => (Reader data ErrEOF, rest)
    | None => let '(data, rest) := held_back lf s in (Reader data err_unexpected_EOF, rest)
    end in
  if HasPrefix s dashBoundary then
    if match_after (str_drop (String.length dashBoundary) s) then (Reader EmptyString ErrEOF, s)
    else
      let '(r, rest) := scan (str_drop (String.length dashBoundary) s) in
      (Reader (dashBoundary +:+ rd_data r) (rd_end r), rest)
  else if HasPrefix dashBoundary s then (Reader EmptyString err_unexpected_EOF, s)
  else scan s.

(** * NextPart *)

Definition isFinalBoundary (lf : bool) (line : string) : bool :=
  HasPrefix line dashBoundaryDash &&
  let rest := trim_left_blank (str_drop (String.length dashBoundaryDash) line) in
  str_nil rest || String.eqb rest (eol lf).

(** [isBoundaryDelimiterLine]: whether it is one, and the line end from then on. *)
Definition isBoundaryDelimiterLine (first lf : bool) (line : string) : bool * bool :=
  if HasPrefix line dashBoundary then
    let rest := trim_left_blank (str_drop (String.length dashBoundary) line) in
    let lf := lf || (first && String.eqb rest nl) in
    (String.eqb rest (eol lf), lf)
  else (false, lf).

(** The line [ReadSlice] returns from a buffer of 4096 bytes. *)
Inductive slice := Line (line rest : string) | LastLine (line : string) | BufferFull.
Definition ReadSlice (s : string) : slice :=
  match IndexByte (str_take 4096 s) NL with
  | Some i => Line (str_take (S i) s) (str_drop (S i) s)
  | None => if (4096 <=? String.length s)%nat then BufferFull else LastLine s
  end.

(** The loop of [NextPart]: the input behind a boundary line and the line end in
    use, or the error.  Every pass consumes a line. *)
Fixpoint next_boundary (fuel : nat) (first lf expectNewPart : bool) (s : string) : res (bool * string) :=
  match fuel with
  | O => Err ErrEOF
  | S fuel =>
      match ReadSlice s with
      | BufferFull => Err (ErrWrap "multipart: NextPart" bufferFull)
      | LastLine line =>
          if isFinalBoundary lf line then Err ErrEOF else Err (ErrWrap "multipart: NextPart" ErrEOF)
      | Line line rest =>
          let '(delim, lf) := isBoundaryDelimiterLine first lf line in
          if delim then Ok (lf, rest)
          else if isFinalBoundary lf line then Err ErrEOF
          else if expectNewPart
          then Err (ErrText ("multipart: expecting a new Part; got line " +:+ Quote line))
          else if first then next_boundary fuel first lf false rest
          else if String.eqb line (eol lf) then next_boundary fuel first lf true rest
          else Err (ErrText ("multipart: unexpected line in Next(): " +:+ Quote line))
      end
  end.

(** [newPart] without the raw header: a quoted-printable part is decoded. *)
Definition part_reader_of (h : header) (r : reader) : reader :=
  if String.eqb (str_map lower_ascii (Header_Get h "Content-Transfer-Encoding")) "quoted-printable"
  then quotedprintable_NewReader r else r.

(** [part.FormName()]. *)
Definition FormName_of (h : header) : string :=
  let '(disposition, params) := ParseMediaType (Header_Get h "Content-Disposition") in
  if String.eqb disposition "form-data" then default EmptyString (params "name") else EmptyString.
End Reader.

(** A part: its form name and its content.  The reader: the parts successive
    [NextPart] calls return, each read or closed before the next, and the error of
    the call after them. *)
Record part := Part { FormName : string; part_body : reader }.
Record part_reader := PartReader { pr_parts : list part; pr_end : error }.

Fixpoint read_parts (fuel : nat) (boundary : string) (first lf : bool) (s : string) : part_reader :=
  match fuel with
  | O => PartReader [] ErrEOF
  | S fuel =>
      match next_boundary boundary (S (String.length s)) first lf false s with
      | Err e => PartReader [] e
      | Ok (lf, rest) =>
          match read_header rest with
          | Err e => PartReader [] e
          | Ok (h, rest) =>
              let '(r, rest) := part_content boundary lf rest in
              let pr := read_parts fuel boundary false lf rest in
              PartReader (Part (FormName_of h) (part_reader_of h r) :: pr_parts pr) (pr_end pr)
          end
      end
  end.

(** [multipart.NewReader(bytes.NewReader(body), boundary)] and its [NextPart]s. *)
Definition multipart_NewReader (body boundary : string) : part_reader :=
  if str_nil boundary then PartReader [] (ErrText "multipart: boundary is empty")
  else read_parts (S (String.length body)) boundary true false body.
