(* ===== verification/GoFlag.v ===== *)
(** What [run] uses of the package flag: integers in Go's literal syntax and the
    parsing of arguments for flags that take a value. *)
From stdpp Require Import base gmap strings list.
From Stdlib Require Import ZArith Lia Ascii String.
From S2P Require Import Prelude.
From S2P Require Import GoStrings.
From S2P Require Import GoConv.
From S2P Require Import GoUrl.

(** * strconv.ParseInt(s, 0, 64) *)

Definition lower_byte (c : ascii) : Z := Z.lor (byte_z c) 32.

(** The value of a digit in any base. *)
Definition digit_of (c : ascii) : option Z :=
  if is_digit c then Some (digit_val c)
  else let l := lower_byte c in if in_range 97 122 l then Some (l - 97 + 10) else None.

(** The digits in a base, underscores skipped. *)
Fixpoint base_digits (base n : Z) (s : string) : option Z :=
  match s with
  | EmptyString => Some n
  | String c s' =>
      if Ascii.eqb c "_" then base_digits base n s'
      else d ← digit_of c; if d <? base then base_digits base (n * base + d) s' else None
  end.

(** The base and the digits of an unsigned literal. *)
Definition base_prefix (s : string) : Z * string :=
  match s with
  | String z s1 =>
      if Ascii.eqb z "0" then
        match s1 with
        | String p (String c s2) =>
            let l := lower_byte p in
            if l =? 98 then (2, String c s2)
            else if l =? 111 then (8, String c s2)
            else if l =? 120 then (16, String c s2)
            else (8, s1)
        | _ => (8, s1)
        end
      else (10, s)
  | EmptyString => (10, s)
  end.

(** [underscoreOK]: an underscore only between digits, a base prefix counting as
    one.  [saw]: a digit, an underscore, or neither. *)
Inductive saw := SawDigit | SawUnderscore | SawNothing.
Fixpoint underscores_ok (hex : bool) (i : saw) (s : string) : bool :=
  match s with
  | EmptyString => match i with SawUnderscore => false | _ => true end
  | String c s' =>
      if is_digit c || (hex && in_range 97 102 (lower_byte c)) then underscores_ok hex SawDigit s'
      else if Ascii.eqb c "_" then match i with SawDigit => underscores_ok hex SawUnderscore s' | _ => false end
      else match i with SawUnderscore => false | _ => underscores_ok hex SawNothing s' end
  end.
Definition underscoreOK (s : string) : bool :=
  match s with
  | String z (String p s') =>
      let l := lower_byte p in
      if Ascii.eqb z "0" && ((l =? 98) || (l =? 111) || (l =? 120))
      then underscores_ok (l =? 120) SawDigit s' else underscores_ok false SawNothing s
  | _ => underscores_ok false SawNothing s
  end.

Definition ParseUint0 (s : string) : option Z :=
  if str_nil s then None
  else
    let '(base, digits) := base_prefix s in
    n ← base_digits base 0 digits;
    if (match IndexByte s "_" with Some _ => true | None => false end) && negb (underscoreOK s) then None
    else Some n.

(** [None] for a syntax or a range error. *)
Definition ParseInt0 (s : string) : option Z :=
  let '(neg, u) :=
    match s with
    | String c s' => if Ascii.eqb c "-" then (true, s') else if Ascii.eqb c "+" then (false, s') else (false, s)
    | EmptyString => (false, s)
    end in
  n ← ParseUint0 u;
  let z := if (neg : bool) then - n else n in
  if (int64_min <=? z) && (z <=? int64_max) then Some z else None.

Example parse_hex : ParseInt0 "-0x1_F" = Some (-31). Proof. reflexivity. Qed.
Example parse_octal : ParseInt0 "0_17" = Some 15. Proof. reflexivity. Qed.
Example parse_bad_underscore : ParseInt0 "1__0" = None. Proof. reflexivity. Qed.
Example parse_zero : ParseInt0 "0" = Some 0. Proof. reflexivity. Qed.
Example parse_range : ParseInt0 "9223372036854775808" = None. Proof. reflexivity. Qed.

(** * FlagSet.Parse, when every flag takes a value *)

(** An argument: not a flag, so that the parsing stops; malformed; or a flag with
    its value, if that is attached. *)
Inductive flag_arg := NotAFlag | Malformed | Flag (name : string) (value : option string).

Definition flag_name (name : string) : flag_arg :=
  match name with
  | EmptyString => Malformed
  | String c _ =>
      if Ascii.eqb c "-" || Ascii.eqb c "=" then Malformed
      else let '(name, value) := Cut name "=" in Flag name value
  end.
Definition parse_arg (s : string) : flag_arg :=
  match s with
  | String m (String c rest) =>
      if negb (Ascii.eqb m "-") then NotAFlag
      else if Ascii.eqb c "-" then if str_nil rest then NotAFlag else flag_name rest
      else flag_name (String c rest)
  | _ => NotAFlag
  end.

(** The loop of [Parse]: [set] gives a flag its value, and fails for a flag that is
    not defined or a value it refuses. *)
Fixpoint Parse {F} (set : string -> string -> F -> option F) (args : list string) (fl : F) : option F :=
  match args with
  | [] => Some fl
  | s :: args' =>
      match parse_arg s with
      | NotAFlag => Some fl
      | Malformed => None
      | Flag name (Some value) => fl ← set name value fl; Parse set args' fl
      | Flag name None =>
          match args' with
          | value :: args'' => fl ← set name value fl; Parse set args'' fl
          | [] => None
          end
      end
  end.

(** * FormatInt is read back *)

Lemma dec_digits_lead fuel z acc :
  0 < z < 10 ^ Z.of_nat fuel ->
  exists c t, dec_digits fuel z acc = String c t /\ is_digit c = true /\ c <> "0"%char.
Proof.
  revert z acc. induction fuel as [|fuel IH]; intros z acc Hz; [simpl in Hz; lia|].
  rewrite Nat2Z.inj_succ, Z.pow_succ_r in Hz by lia. cbn [dec_digits].
  destruct (Z.ltb_spec z 10) as [Hlt|Hge].
  - do 2 eexists. split; [reflexivity|]. rewrite Z.mod_small by lia.
    assert (Hc : z = 1 \/ z = 2 \/ z = 3 \/ z = 4 \/ z = 5 \/ z = 6 \/ z = 7 \/ z = 8 \/ z = 9) by lia.
    repeat destruct Hc as [->|Hc]; try (split; [reflexivity|discriminate]). subst. split; [reflexivity|discriminate].
  - apply IH. split; [apply Z.div_str_pos; lia|apply Z.div_lt_upper_bound; lia].
Qed.

Lemma digit_not_underscore c : is_digit c = true -> Ascii.eqb c "_" = false.
Proof. intros H. apply Ascii.eqb_neq. intros ->. discriminate H. Qed.
Lemma base_digits_decimal s n : str_forall is_digit s = true -> base_digits 10 n s = Some (digits_val n s).
Proof.
  revert n. induction s as [|c s IH]; intros n; [done|]. cbn [str_forall base_digits digits_val]. intros H.
  apply andb_prop in H as [Hc H]. rewrite digit_not_underscore by done. unfold digit_of. rewrite Hc.
  cbn [mbind option_bind]. assert (digit_val c < 10) as Hd.
  { unfold is_digit, in_range in Hc. apply andb_prop in Hc as [_ Hc]. apply Z.leb_le in Hc. unfold digit_val. lia. }
  destruct (Z.ltb_spec (digit_val c) 10); [by apply IH|lia].
Qed.
Lemma no_underscore s : str_forall is_digit s = true -> IndexByte s "_" = None.
Proof.
  induction s as [|c s IH]; [done|]. cbn [str_forall IndexByte]. intros H. apply andb_prop in H as [Hc H].
  by rewrite digit_not_underscore, IH.
Qed.

Lemma ParseUint0_dec_nat z : 0 <= z -> ParseUint0 (dec_nat z) = Some z.
Proof.
  intros Hz. unfold ParseUint0. pose proof (dec_nat_digits z Hz) as Hd.
  assert (Hv : digits_val 0 (dec_nat z) = z).
  { unfold dec_nat. rewrite dec_digits_val; [done|]. split; [done|]. by apply dec_fuel_enough. }
  destruct (Z.eq_dec z 0) as [->|Hnz]; [reflexivity|].
  destruct (dec_digits_lead (dec_fuel z) z "") as (c & t & E & Hc & Hne).
  { split; [lia|]. by apply dec_fuel_enough. }
  unfold dec_nat in *. rewrite E in *. cbn [str_nil].
  assert (Hp : base_prefix (String c t) = (10, String c t)).
  { cbn [base_prefix]. by rewrite (proj2 (Ascii.eqb_neq c "0")). }
  rewrite Hp, base_digits_decimal by done. cbn [mbind option_bind]. by rewrite no_underscore, Hv.
Qed.

Lemma ParseInt0_FormatInt z : in_int64 z -> ParseInt0 (FormatInt z) = Some z.
Proof.
  unfold in_int64. intros Hz. unfold ParseInt0, FormatInt. destruct (Z.ltb_spec z 0) as [Hneg|Hpos].
  - cbn [Ascii.eqb Bool.eqb]. rewrite ParseUint0_dec_nat by lia.
    cbn [mbind option_bind]. rewrite (proj2 (andb_true_iff _ _)) by (rewrite !Z.leb_le; lia). f_equal. lia.
  - destruct (dec_digits_cons (dec_fuel z) z "") as (c & t & E); [unfold dec_fuel; lia|].
    pose proof (dec_nat_digits z Hpos) as Hd. pose proof (ParseUint0_dec_nat z Hpos) as Hu.
    unfold dec_nat in *. rewrite E in *. cbn [str_forall] in Hd. apply andb_prop in Hd as [Hc _].
    rewrite !(digit_not c _ Hc) by done. rewrite Hu. cbn [mbind option_bind].
    by rewrite (proj2 (andb_true_iff _ _)) by (rewrite !Z.leb_le; lia).
Qed.
