(* ===== verification/Types.v ===== *)
(** The data the worker's layers exchange: [internal/types], the label
    constants and the [Recorder] calls of [internal/providers/metrics], the
    domain types of [internal/providers/payeedaemon], and the messages of the
    generated protobuf stubs as far as [grpc.go] reads and writes them. *)
From stdpp Require Import base gmap strings list.
From Stdlib Require Import ZArith Ascii String.
From S2P Require Import Prelude.
From S2P Require Import GoConv.

(** * internal/types: named strings *)

Abbreviation CapabilityID := string.
Abbreviation ModelID := string.
Abbreviation WorkID := string.

Definition WorkUnitToken : string := "token".
Definition WorkUnitCharacter : string := "character".
Definition WorkUnitAudioSecond : string := "audio_second".
Definition WorkUnitImageStepMegapixel : string := "image_step_megapixel".
Definition WorkUnitVideoFrameMegapixel : string := "video_frame_megapixel".

Definition PaymentHeaderName : string := "livepeer-payment".

(** * metrics: label constants *)

Definition OutcomeRequest2xx : string := "2xx".
Definition OutcomeRequest4xx : string := "4xx".
Definition OutcomeRequest402 : string := "402".
Definition OutcomeRequest5xx : string := "5xx".
Definition OutcomeRequestCanceled : string := "canceled".
Definition OutcomeOK : string := "ok".
Definition OutcomeError : string := "error".
Definition UnitToken : string := "token".
Definition UnitCharacter : string := "character".
Definition UnitAudioSecond : string := "audio_second".
Definition UnitImageStepMegapixel : string := "image_step_megapixel".
Definition MethodOpenSession : string := "OpenSession".
Definition MethodProcessPayment : string := "ProcessPayment".
Definition MethodDebitBalance : string := "DebitBalance".
Definition MethodCloseSession : string := "CloseSession".
Definition MethodGetQuote : string := "GetQuote".
Definition MethodGetTicketParams : string := "GetTicketParams".
Definition MethodListCapabilities : string := "ListCapabilities".
Definition BackendErrorTimeout : string := "timeout".
Definition BackendError5xx : string := "5xx".
Definition BackendErrorMalformed : string := "malformed".
Definition BackendErrorConnect : string := "connect".
Definition PaymentRejectProcessPayment : string := "process_payment_failed".
Definition PaymentRejectInsufficientBalance : string := "insufficient_balance".
Definition PaymentRejectDebitError : string := "debit_error".
Definition PaymentRejectHeaderInvalid : string := "header_invalid".
Definition PaymentRejectHeaderMissing : string := "header_missing".
Definition LabelUnset : string := "_unset_".

(** * metrics.Recorder: one constructor per emitting method; durations are
    nanoseconds, [SetBackendLastSuccess] and [SetUptimeSeconds] carry the time
    they were given. *)
Inductive rec_call :=
| IncRequest (capability model outcome : string)
| ObserveRequest (capability model outcome : string) (d : Z)
| AddWorkUnits (capability model unit : string) (n : Z)
| IncDaemonRPC (method outcome : string)
| ObserveDaemonRPC (method outcome : string) (d : Z)
| IncBackendRequest (capability model outcome : string)
| ObserveBackendRequest (capability model : string) (d : Z)
| IncBackendError (capability model error_class : string)
| SetBackendLastSuccess (capability model : string) (t : Z)
| IncTokenizerCall (model outcome : string)
| IncCapacityRejection (capability : string)
| SetInflightRequests (n : Z)
| IncPaymentRejection (reason : string)
| SetUptimeSeconds (t : Z)
| SetBuildInfo (version protocolVersion goVersion : string)
| SetMaxConcurrent (n : Z).

#[export] Instance rec_call_eq_dec : EqDecision rec_call.
Proof. solve_decision. Defined.

(** * payeedaemon: domain types *)

Record OpenSessionRequest := {
  os_WorkID : string;
  os_Capability : string;
  os_Offering : string;
  os_PricePerWorkUnitWei : Z;
  os_WorkUnit : string }.

Record OpenSessionResult := { osr_Opened : bool; osr_AlreadyOpen : bool }.

Record ProcessPaymentResult := {
  pp_Sender : string;
  pp_CreditedEVWei : Z;
  pp_BalanceWei : Z;
  pp_WinnersQueued : Z }.

Record DebitBalanceResult := { db_BalanceWei : Z }.

Record CloseSessionResult := { cs_Closed : bool; cs_AlreadyClosed : bool }.

Record OfferingPrice := { op_ID : string; op_PricePerWorkUnitWei : string }.

Record Capability := {
  dc_Capability : string;
  dc_WorkUnit : string;
  dc_Offerings : list OfferingPrice }.

Record ListCapabilitiesResult := { lc_Capabilities : list Capability }.

Record TicketExpirationParams := { te_CreationRound : Z; te_CreationRoundBlockHash : string }.

Record TicketParams := {
  tp_Recipient : string;
  tp_FaceValueWei : string;
  tp_WinProb : string;
  tp_RecipientRandHash : string;
  tp_Seed : string;
  tp_ExpirationBlock : string;
  tp_ExpirationParams : TicketExpirationParams }.

Record GetQuoteResult := { gq_TicketParams : TicketParams; gq_OfferingPrices : list OfferingPrice }.

Record GetTicketParamsRequest := {
  gt_Sender : string;
  gt_Recipient : string;
  gt_FaceValue : Z;
  gt_Capability : string;
  gt_Offering : string }.

#[export] Instance OpenSessionRequest_eq_dec : EqDecision OpenSessionRequest.
Proof. solve_decision. Defined.
#[export] Instance GetTicketParamsRequest_eq_dec : EqDecision GetTicketParamsRequest.
Proof. solve_decision. Defined.
#[export] Instance TicketExpirationParams_eq_dec : EqDecision TicketExpirationParams.
Proof. solve_decision. Defined.
#[export] Instance TicketParams_eq_dec : EqDecision TicketParams.
Proof. solve_decision. Defined.

(** * payeedaemon.Client: one constructor per method *)

Inductive payee_call :=
| ListCapabilities
| GetQuote (sender capability : string)
| GetTicketParams (req : GetTicketParamsRequest)
| OpenSession (req : OpenSessionRequest)
| ProcessPayment (paymentBytes workID : string)
| DebitBalance (sender workID : string) (workUnits : Z)
| CloseSession (sender workID : string).

#[export] Instance payee_call_eq_dec : EqDecision payee_call.
Proof. solve_decision. Defined.

Definition payee_resp (c : payee_call) : Type :=
  match c with
  | ListCapabilities => res ListCapabilitiesResult
  | GetQuote _ _ => res GetQuoteResult
  | GetTicketParams _ => res TicketParams
  | OpenSession _ => res OpenSessionResult
  | ProcessPayment _ _ => res ProcessPaymentResult
  | DebitBalance _ _ _ => res DebitBalanceResult
  | CloseSession _ _ => res CloseSessionResult
  end.

(** * The generated stubs: requests and responses of the daemon's protobuf
    service.  A [None] message is a nil pointer; getters of a nil message
    return zero values. *)

Record pb_PriceInfo := { pb_PricePerUnit : Z; pb_PixelsPerUnit : Z }.
Record pb_OfferingPrice := { pb_Id : string; pb_PriceInfo_ : option pb_PriceInfo }.
Record pb_CapabilityEntry := {
  pb_Capability : string; pb_WorkUnit : string; pb_Offerings : list pb_OfferingPrice }.
Record pb_TicketExpirationParams := { pb_CreationRound : Z; pb_CreationRoundBlockHash : string }.
Record pb_TicketParams := {
  pb_Recipient : string; pb_FaceValue : string; pb_WinProb : string;
  pb_RecipientRandHash : string; pb_Seed : string; pb_ExpirationBlock : string;
  pb_ExpirationParams : option pb_TicketExpirationParams }.
Inductive pb_OpenOutcome := OUTCOME_UNSPECIFIED | OUTCOME_OPENED | OUTCOME_ALREADY_OPEN.
Record pb_GetQuoteResponse := {
  pb_QuoteTicketParams : option pb_TicketParams; pb_OfferingPrices : list pb_OfferingPrice }.
Record pb_ProcessPaymentResponse := {
  pb_Sender : string; pb_CreditedEv : string; pb_PPBalance : string; pb_WinnersQueued : Z }.

Inductive grpc_call :=
| GrpcListCapabilities
| GrpcGetQuote (Sender Capability : string)
| GrpcGetTicketParams (Sender Recipient FaceValue Capability Offering : string)
| GrpcOpenSession (WorkId Capability Offering PricePerWorkUnitWei WorkUnit : string)
| GrpcProcessPayment (PaymentBytes WorkId : string)
| GrpcDebitBalance (Sender WorkId : string) (WorkUnits : Z)
| GrpcCloseSession (Sender WorkId : string).

#[export] Instance grpc_call_eq_dec : EqDecision grpc_call.
Proof. solve_decision. Defined.

Definition grpc_resp (c : grpc_call) : Type :=
  match c with
  | GrpcListCapabilities => res (list pb_CapabilityEntry)
  | GrpcGetQuote _ _ => res pb_GetQuoteResponse
  | GrpcGetTicketParams _ _ _ _ _ => res (option pb_TicketParams)
  | GrpcOpenSession _ _ _ _ _ => res pb_OpenOutcome
  | GrpcProcessPayment _ _ => res pb_ProcessPaymentResponse
  | GrpcDebitBalance _ _ _ => res string
  | GrpcCloseSession _ _ => res unit
  end.

(** * backendhttp.Client *)

Inductive backend_call :=
| DoJSON (url body : string)
| DoRaw (url contentType body : string)
| DoStream (url body : string).

#[export] Instance backend_call_eq_dec : EqDecision backend_call.
Proof. solve_decision. Defined.

(** An [io.ReadCloser]: the chunks successive reads deliver and how the stream
    ends ([ErrEOF], or the read error). *)
Record stream := Stream { st_chunks : list string; st_end : error }.

(** [(status, respBody, err)]: the Go result keeps the status next to the error. *)
Record raw_result := RawResult { rr_status : Z; rr_body : string; rr_err : option error }.
(** [(status, headers, stream, err)]. *)
Record stream_result := StreamResult {
  sr_status : Z; sr_headers : header; sr_stream : stream; sr_err : option error }.

Definition backend_resp (c : backend_call) : Type :=
  match c with DoStream _ _ => stream_result | _ => raw_result end.

(** * net/http client requests, as [fetch.go] builds them *)

Record http_request := HttpRequest { hq_url : string; hq_headers : header; hq_body : string }.
Record http_response := HttpResponse { hp_status : Z; hp_headers : header; hp_body : stream }.

#[export] Instance http_request_eq_dec : EqDecision http_request.
Proof. solve_decision. Defined.
