(* ===== verification/Prog.v ===== *)
(** Effectful Go code as programs over a signature of effects: calls through
    the worker's interfaces (payee client, backend client, recorder, module),
    calls of external code (gRPC stubs, [http.Client]), the response writer,
    the shared semaphore and the clock.  A program is a finite tree; its
    behaviours are traces of effects with their answers, and the answers are
    the environment's choice.  [interp] resolves interface calls by an
    implementation; [safe] is the program logic of the development. *)
From stdpp Require Import base gmap strings list.
From Stdlib Require Import ZArith Lia Ascii String.
From S2P Require Import Prelude.
From S2P Require Import GoConv.
From S2P Require Import GoUnmarshal.
From S2P Require Import Types.

(** * Effects *)

(** The worker-side [http.Request]: its header and its body. *)
Record request := Request { rq_header : header; rq_body : reader }.

(** middleware.go [statusWriter]: the recorded status, whether a header was
    written, and whether the wrapped writer implements [http.Flusher]. *)
Record statusWriter := StatusWriter { sw_status : Z; sw_wrote : bool; sw_flusher : bool }.

Inductive log_level := LevelInfo | LevelWarn | LevelError.

(** The methods of [modules.Module] that take a request. *)
Inductive module_call :=
| ExtractModel (body : string)
| EstimateWorkUnits (body : string) (model : ModelID)
| Serve (w : statusWriter) (r : request) (body : string) (model : ModelID) (backendURL : string).

(** How a [Serve] can fail: by the error it returns, or by a panic, which unwinds the
    handler through its deferred functions and which net/http recovers. *)
Inductive serve_failure := ServeErr (err : error) | ServePanic (msg : string).

(** What [Serve] leaves: the writer it wrote through, [actualUnits], and the failure. *)
Record serve_result := ServeResult {
  sv_writer : statusWriter; sv_actual : Z; sv_err : option serve_failure }.

Definition module_resp (c : module_call) : Type :=
  match c with
  | ExtractModel _ => res ModelID
  | EstimateWorkUnits _ _ => res Z
  | Serve _ _ _ _ _ => serve_result
  end.

Inductive eff :=
| ENow
| ESemTryAcquire
| ESemLen
| ESemRelease
| ECtxErr
| ERec (c : rec_call)
| ELog (lvl : log_level) (msg : string)
| ESetHeader (k v : string)
| EWriteHeader (code : Z)
| EWrite (b : string)
| EFlush
| EStreamClose
| EModule (c : module_call)
| EPayee (c : payee_call)
| EBackend (c : backend_call)
| EGrpc (c : grpc_call)
| EHttpDo (rq : http_request).

Definition resp (e : eff) : Type :=
  match e with
  | ENow | ESemLen => Z
  | ESemTryAcquire => bool
  | ECtxErr | EWrite _ => option error
  | EModule c => module_resp c
  | EPayee c => payee_resp c
  | EBackend c => backend_resp c
  | EGrpc c => grpc_resp c
  | EHttpDo _ => res http_response
  | _ => unit
  end.

(** * Programs *)

Inductive prog (A : Type) : Type :=
| Ret (a : A)
| Vis (e : eff) (k : resp e -> prog A).
Arguments Ret {A} a.
Arguments Vis {A} e k.

Definition trigger (e : eff) : prog (resp e) := Vis e Ret.

Fixpoint bind {A B} (p : prog A) (f : A -> prog B) : prog B :=
  match p with
  | Ret a => f a
  | Vis e k => Vis e (fun r => bind (k r) f)
  end.

#[export] Instance prog_ret : MRet prog := fun A a => Ret a.
#[export] Instance prog_bind : MBind prog := fun A B f p => bind p f.

(** [defer d]: the deferred call runs when the body has returned. *)
Definition with_defer {A} (p : prog A) (d : A -> prog unit) : prog A := bind p (fun a => bind (d a) (fun _ => Ret a)).

(** Interface calls, log lines and the clock. *)
Definition rec_ (c : rec_call) : prog unit := trigger (ERec c).
Definition log (lvl : log_level) (msg : string) : prog unit := trigger (ELog lvl msg).
Definition now : prog Z := trigger ENow.
(** [time.Since(start)]. *)
Definition since (start : Z) : prog Z := bind now (fun t => Ret (t - start)).
Definition module_ (c : module_call) : prog (module_resp c) := trigger (EModule c).
Definition payee_ (c : payee_call) : prog (payee_resp c) := trigger (EPayee c).
Definition backend_ (c : backend_call) : prog (backend_resp c) := trigger (EBackend c).
Definition grpc_ (c : grpc_call) : prog (grpc_resp c) := trigger (EGrpc c).

(** A nilable [metrics.Recorder]: the [Noop] recorder emits nothing, any
    other recorder is the one of the process. *)
Inductive Recorder := NewNoop | LiveRecorder.
Definition rec_do (r : Recorder) (c : rec_call) : prog unit :=
  match r with NewNoop => Ret tt | LiveRecorder => rec_ c end.

(** * Traces *)

Inductive event := Ev (e : eff) (r : resp e).

(** [Tr p t a]: [p] may perform exactly the events [t], answered as recorded,
    and then return [a]. *)
Fixpoint Tr {A} (p : prog A) (t : list event) (a : A) : Prop :=
  match p with
  | Ret b => t = [] /\ a = b
  | Vis e k => exists r t', t = Ev e r :: t' /\ Tr (k r) t' a
  end.

(** Execution against a handler with a state: the result, the final state and
    the trace. *)
Section Run.
Context {W : Type} (h : forall e : eff, W -> resp e * W).
Fixpoint run {A} (p : prog A) (w : W) : A * W * list event :=
  match p with
  | Ret a => (a, w, [])
  | Vis e k => let '(r, w') := h e w in
               let '(a, w'', t) := run (k r) w' in (a, w'', Ev e r :: t)
  end.

Lemma run_Tr {A} (p : prog A) w a w' t : run p w = (a, w', t) -> Tr p t a.
Proof.
  revert w a w' t. induction p as [b|e k IH]; simpl; intros w a w' t H.
  - by simplify_eq.
  - destruct (h e w) as [r w1]. destruct (run (k r) w1) as [[a' w2] t'] eqn:E.
    simplify_eq. exists r, t'. split; [done|]. eauto.
Qed.

Definition result_of {A} (p : prog A) (w : W) : A := fst (fst (run p w)).
Definition trace_of {A} (p : prog A) (w : W) : list event := snd (run p w).
Lemma trace_of_Tr {A} (p : prog A) w : Tr p (trace_of p w) (result_of p w).
Proof.
  unfold trace_of, result_of. destruct (run p w) as [[a w'] t] eqn:E. by eapply run_Tr.
Qed.
End Run.

Lemma Tr_bind {A B} (p : prog A) (f : A -> prog B) t b :
  Tr (bind p f) t b <-> exists t1 t2 a, t = t1 ++ t2 /\ Tr p t1 a /\ Tr (f a) t2 b.
Proof.
  revert t. induction p as [a|e k IH]; simpl; intros t.
  - split.
    + intros H. exists [], t, a. done.
    + intros (t1 & t2 & a' & -> & [-> ->] & H). done.
  - split.
    + intros (r & t' & -> & H). apply IH in H as (t1 & t2 & a & -> & H1 & H2).
      exists (Ev e r :: t1), t2, a. split; [done|]. eauto.
    + intros (t1 & t2 & a & -> & (r & t' & -> & H1) & H2). exists r, (t' ++ t2).
      split; [done|]. apply IH. eauto 10.
Qed.

Lemma trigger_In e s (b : resp e) x : Tr (trigger e) s b -> In x s -> x = Ev e b.
Proof. intros (a & t & -> & -> & ->) [Hx|[]]. done. Qed.

Lemma Tr_exists {A} (p : prog A) : (forall e, inhabited (resp e)) -> exists t a, Tr p t a.
Proof.
  intros Hr. induction p as [a|e k IH]; [by exists [], a|].
  destruct (Hr e) as [r]. destruct (IH r) as (t & a & H).
  exists (Ev e r :: t), a, r, t. done.
Qed.

(** * Monitors and the program logic *)

(** A monitor follows a trace with a ghost state; it may reject an event, or
    declare the rest vacuous (an answer outside the assumptions made). *)
Inductive verdict (G : Type) := Next (g : G) | Reject | Vacuous.
Arguments Next {G} g.
Arguments Reject {G}.
Arguments Vacuous {G}.

Definition monitor (G : Type) : Type := G -> event -> verdict G.

Fixpoint mon_run {G} (m : monitor G) (g : G) (t : list event) : verdict G :=
  match t with
  | [] => Next g
  | x :: t' => match m g x with Next g' => mon_run m g' t' | v => v end
  end.

(** [safe m p Q g]: from ghost state [g], no behaviour of [p] is rejected by
    [m], and every behaviour ends in a ghost state and a result [Q] relates. *)
Fixpoint safe {G A} (m : monitor G) (p : prog A) (Q : G -> A -> Prop) (g : G) : Prop :=
  match p with
  | Ret a => Q g a
  | Vis e k => forall r, match m g (Ev e r) with
                         | Next g' => safe m (k r) Q g'
                         | Reject => False
                         | Vacuous => True
                         end
  end.

Lemma safe_mono {G A} (m : monitor G) (p : prog A) (Q Q' : G -> A -> Prop) g :
  (forall g' a, Q g' a -> Q' g' a) -> safe m p Q g -> safe m p Q' g.
Proof.
  intros HQ. revert g. induction p as [a|e k IH]; simpl; [by eauto|].
  intros g H r. specialize (H r). destruct (m g (Ev e r)); eauto.
Qed.

Lemma safe_bind {G A B} (m : monitor G) (p : prog A) (f : A -> prog B) Q g :
  safe m (bind p f) Q g <-> safe m p (fun g' a => safe m (f a) Q g') g.
Proof.
  revert g. induction p as [a|e k IH]; simpl; [done|].
  intros g. split; intros H r; specialize (H r); destruct (m g (Ev e r)); auto; by apply IH.
Qed.

Lemma safe_trigger {G} (m : monitor G) e Q g g' :
  (forall r, m g (Ev e r) = Next g') -> (forall r, Q g' r) -> safe m (trigger e) Q g.
Proof. intros Hm HQ r. rewrite Hm. apply HQ. Qed.

(** One event, then the rest. *)
Lemma safe_event {G B} (m : monitor G) e (f : resp e -> prog B) Q g :
  (forall a, match m g (Ev e a) with Next g' => safe m (f a) Q g' | Reject => False | Vacuous => True end) ->
  safe m (bind (trigger e) f) Q g.
Proof. done. Qed.

(** Sequencing with the intermediate assertion given. *)
Lemma safe_seq {G A B} (m : monitor G) (p : prog A) (f : A -> prog B) R Q g :
  safe m p R g -> (forall g' a, R g' a -> safe m (f a) Q g') -> safe m (bind p f) Q g.
Proof. intros Hp Hf. apply safe_bind. eapply safe_mono; [|exact Hp]. exact Hf. Qed.

Lemma safe_sound {G A} (m : monitor G) (p : prog A) Q g t a :
  safe m p Q g -> Tr p t a ->
  match mon_run m g t with Next g' => Q g' a | Reject => False | Vacuous => True end.
Proof.
  revert g t. induction p as [b|e k IH]; simpl; intros g t Hs.
  - by intros [-> ->].
  - intros (r & t' & -> & Ht). simpl. specialize (Hs r).
    destruct (m g (Ev e r)) eqn:E; [|done|done]. by eapply IH.
Qed.

Lemma mon_run_app {G} (m : monitor G) g t1 t2 :
  mon_run m g (t1 ++ t2) =
  match mon_run m g t1 with Next g' => mon_run m g' t2 | v => v end.
Proof.
  revert g. induction t1 as [|x t1 IH]; simpl; intros g; [done|].
  destruct (m g x); auto.
Qed.

(** Programs that only perform effects of a class. *)
Fixpoint emits {A} (P : eff -> Prop) (p : prog A) : Prop :=
  match p with
  | Ret _ => True
  | Vis e k => P e /\ forall r, emits P (k r)
  end.

Lemma emits_bind {A B} P (p : prog A) (f : A -> prog B) :
  emits P p -> (forall a, emits P (f a)) -> emits P (bind p f).
Proof. induction p as [a|e k IH]; simpl; [auto|]. intros [H1 H2] Hf. split; auto. Qed.

Lemma emits_rec_do (P : eff -> Prop) rec c : P (ERec c) -> emits P (rec_do rec c).
Proof. intros HP. by destruct rec. Qed.

Lemma emits_mono {A} (P P' : eff -> Prop) (p : prog A) :
  (forall e, P e -> P' e) -> emits P p -> emits P' p.
Proof. intros HP. induction p as [a|e k IH]; simpl; [done|]. intros [H1 H2]. auto. Qed.

Lemma emits_True {A} (p : prog A) : emits (fun _ => True) p.
Proof. induction p; simpl; auto. Qed.

Lemma emits_Tr {A} P (p : prog A) t a :
  emits P p -> Tr p t a -> Forall (fun x => match x with Ev e _ => P e end) t.
Proof.
  revert t. induction p as [b|e k IH]; simpl; intros t.
  - intros _ [-> _]. constructor.
  - intros [H1 H2] (r & t' & -> & Ht). constructor; [done|]. eauto.
Qed.

(** A monitor that ignores a class of effects accepts programs that only
    perform those. *)
Lemma emits_safe {G A} (m : monitor G) (P : eff -> Prop) (p : prog A) (Q : G -> A -> Prop) g :
  (forall e r, P e -> m g (Ev e r) = Next g) -> emits P p -> (forall a, Q g a) -> safe m p Q g.
Proof.
  intros Hm He HQ. induction p as [a|e k IH]; simpl in *; [done|].
  intros r. rewrite Hm by apply He. apply IH, He.
Qed.

(** [returns p Q]: whatever the environment answers, [p] ends in a value [Q]
    holds of.  (Programs are finite, so they end.) *)
Definition returns {A} (p : prog A) (Q : A -> Prop) : Prop :=
  safe (fun g _ => Next g) p (fun _ a => Q a) tt.

Lemma returns_ret {A} (a : A) (Q : A -> Prop) : Q a -> returns (Ret a) Q.
Proof. done. Qed.
Lemma returns_bind {A B} (p : prog A) (f : A -> prog B) R Q :
  returns p R -> (forall a, R a -> returns (f a) Q) -> returns (bind p f) Q.
Proof. intros Hp Hf. eapply safe_seq; [exact Hp|]. intros [] a. apply Hf. Qed.
(** What a monitor that accepts every event shows of the result. *)
Lemma safe_returns {G A} (m : monitor G) (p : prog A) Q (Q' : A -> Prop) g :
  (forall g x, exists g', m g x = Next g') -> (forall g a, Q g a -> Q' a) -> safe m p Q g -> returns p Q'.
Proof.
  intros Hm HQ. unfold returns. revert g. induction p as [a|e k IH]; intros g; [apply HQ|]. intros H x.
  specialize (H x). destruct (Hm g (Ev e x)) as [g' E]. rewrite E in H. exact (IH x g' H).
Qed.
Lemma returns_Tr {A} (p : prog A) Q t a : returns p Q -> Tr p t a -> Q a.
Proof.
  intros Hp Ht. pose proof (safe_sound _ _ _ _ _ _ Hp Ht) as H.
  by destruct (mon_run (fun g _ => Next g) tt t) eqn:E; [|clear -E; exfalso; induction t|clear -E; exfalso; induction t].
Qed.

(** * Refinement of a transition system *)

(** The runs of a labelled transition relation. *)
Inductive steps {G} (R : G -> event -> G -> Prop) : G -> list event -> G -> Prop :=
| steps_nil g : steps R g [] g
| steps_cons g x g1 t g2 : R g x g1 -> steps R g1 t g2 -> steps R g (x :: t) g2.

(** [sim R p Q g]: the specification [R] can follow every behaviour of [p] from
    [g], and ends in a state [Q] relates to the result. *)
Fixpoint sim {G A} (R : G -> event -> G -> Prop) (p : prog A) (Q : G -> A -> Prop) (g : G) : Prop :=
  match p with
  | Ret a => Q g a
  | Vis e k => forall r, exists g', R g (Ev e r) g' /\ sim R (k r) Q g'
  end.

Lemma sim_mono {G A} R (p : prog A) (Q Q' : G -> A -> Prop) g :
  (forall g' a, Q g' a -> Q' g' a) -> sim R p Q g -> sim R p Q' g.
Proof.
  intros HQ. revert g. induction p as [a|e k IH]; simpl; [by eauto|].
  intros g H r. destruct (H r) as (g' & H1 & H2). eauto.
Qed.

Lemma sim_seq {G A B} R (p : prog A) (f : A -> prog B) S (Q : G -> B -> Prop) g :
  sim R p S g -> (forall g' a, S g' a -> sim R (f a) Q g') -> sim R (bind p f) Q g.
Proof.
  intros Hp Hf. revert g Hp. induction p as [a|e k IH]; simpl; [by eauto|].
  intros g H r. destruct (H r) as (g' & H1 & H2). eauto.
Qed.

Lemma sim_trigger {G} R e (Q : G -> resp e -> Prop) g :
  (forall r, exists g', R g (Ev e r) g' /\ Q g' r) -> sim R (trigger e) Q g.
Proof. done. Qed.

(** A call, then the rest: one step of the specification per answer. *)
Lemma sim_call {G B} R e (f : resp e -> prog B) (Q : G -> B -> Prop) g :
  (forall r, exists g', R g (Ev e r) g' /\ sim R (f r) Q g') -> sim R (bind (trigger e) f) Q g.
Proof. done. Qed.

(** Effects the specification does not see. *)
Lemma sim_stutter {G A} R (P : eff -> Prop) (p : prog A) (Q : G -> A -> Prop) g :
  (forall e r, P e -> R g (Ev e r) g) -> emits P p -> (forall a, Q g a) -> sim R p Q g.
Proof.
  intros HR He HQ. induction p as [a|e k IH]; simpl in *; [done|].
  destruct He as [He Hk]. intros r. exists g. auto.
Qed.

Lemma sim_sound {G A} R (p : prog A) (Q : G -> A -> Prop) g t a :
  sim R p Q g -> Tr p t a -> exists g', steps R g t g' /\ Q g' a.
Proof.
  revert g t. induction p as [b|e k IH]; simpl; intros g t Hs.
  - intros [-> ->]. exists g. split; [constructor|done].
  - intros (r & t' & -> & Ht). destruct (Hs r) as (g1 & H1 & H2).
    destruct (IH r g1 t' H2 Ht) as (g2 & H3 & H4). exists g2. split; [by econstructor|done].
Qed.

Lemma steps_app_inv {G} (R : G -> event -> G -> Prop) g t1 t2 g2 :
  steps R g (t1 ++ t2) g2 -> exists g1, steps R g t1 g1 /\ steps R g1 t2 g2.
Proof.
  revert g. induction t1 as [|x t1 IH]; simpl; intros g H; [exists g; split; [constructor|done]|].
  inversion H as [|? ? g1 ? ? Hx Ht]; subst. destruct (IH _ Ht) as (g' & H1 & H2).
  exists g'. split; [by econstructor|done].
Qed.

(** An invariant of the runs, with the trace so far. *)
(** Every event of a run is a step of the specification. *)
Lemma steps_In {G} (R : G -> event -> G -> Prop) g t g' x :
  steps R g t g' -> In x t -> exists g1 g2, R g1 x g2.
Proof. induction 1 as [|g y g1 t g2 Hy _ IH]; [done|]. intros [->|Hin]; [by eexists _, _|auto]. Qed.

Lemma steps_invariant {G} (R : G -> event -> G -> Prop) (I : list event -> G -> Prop) g t g' :
  I [] g -> (forall t g x g', I t g -> R g x g' -> I (t ++ [x]) g') -> steps R g t g' -> I t g'.
Proof.
  intros H0 Hstep Hs. assert (H : forall pre, I pre g -> I (pre ++ t) g').
  { clear H0. induction Hs as [g|g x g1 t g2 Hx _ IH]; intros pre Hpre; [by rewrite app_nil_r|].
    change (x :: t) with ([x] ++ t). rewrite app_assoc. eauto. }
  exact (H [] H0).
Qed.
