(* ===== verification/Interp.v ===== *)
(** Resolving interface calls by implementations: [interp] replaces every
    effect by a program, [expands] relates the traces before and after, and
    handlers plug a module, a payee client or a backend client in. *)
From stdpp Require Import base gmap strings list.
From Stdlib Require Import ZArith Lia.
From S2P Require Import Prelude.
From S2P Require Import GoConv.
From S2P Require Import GoUnmarshal.
From S2P Require Import Types.
From S2P Require Import Prog.

Definition handler : Type := forall e : eff, prog (resp e).

Fixpoint interp {A} (h : handler) (p : prog A) : prog A :=
  match p with
  | Ret a => Ret a
  | Vis e k => bind (h e) (fun r => interp h (k r))
  end.

(** The implementations behind the interface values of the composition root. *)
Definition ModuleImpl : Type := forall c : module_call, prog (module_resp c).
Definition PayeeClient : Type := forall c : payee_call, prog (payee_resp c).
Definition BackendClient : Type := forall c : backend_call, prog (backend_resp c).

Definition module_handler (m : ModuleImpl) : handler := fun e =>
  match e as e return prog (resp e) with EModule c => m c | e => trigger e end.
Definition payee_handler (cl : PayeeClient) : handler := fun e =>
  match e as e return prog (resp e) with EPayee c => cl c | e => trigger e end.
Definition backend_handler (b : BackendClient) : handler := fun e =>
  match e as e return prog (resp e) with EBackend c => b c | e => trigger e end.

(** The interface values themselves: calls left to the environment. *)
Definition iface_payee : PayeeClient := payee_.
Definition iface_backend : BackendClient := backend_.

(** * Traces of an interpreted program *)

(** [t] refines [t0]: each event of [t0] is replaced by a behaviour of its
    implementation with the same answer. *)
Fixpoint expands (h : handler) (t0 t : list event) : Prop :=
  match t0 with
  | [] => t = []
  | Ev e r :: t0' => exists s t', t = s ++ t' /\ Tr (h e) s r /\ expands h t0' t'
  end.

Lemma interp_Tr {A} h (p : prog A) t a :
  Tr (interp h p) t a <-> exists t0, Tr p t0 a /\ expands h t0 t.
Proof.
  revert t. induction p as [b|e k IH]; intros t; simpl.
  - split.
    + intros [-> ->]. by exists [].
    + intros (t0 & [-> ->] & H). done.
  - rewrite Tr_bind. split.
    + intros (t1 & t2 & r & -> & H1 & H2). apply IH in H2 as (t0 & H2 & H3).
      exists (Ev e r :: t0). simpl. eauto 10.
    + intros (t0 & (r & t0' & -> & H1) & H2). destruct H2 as (s & t' & -> & H2 & H3).
      exists s, t', r. split_and!; try done. apply IH. eauto.
Qed.

Lemma expands_app h t0 t0' t t' :
  expands h t0 t -> expands h t0' t' -> expands h (t0 ++ t0') (t ++ t').
Proof.
  revert t. induction t0 as [|[e r] t0 IH]; intros t; simpl; [by intros ->|].
  intros (s & t1 & -> & H1 & H2) H'. exists s, (t1 ++ t').
  split; [by rewrite app_assoc|]. auto.
Qed.

(** An event of the expanded trace comes from the segment of one event. *)
Lemma expands_split h t0 t1 x t2 :
  expands h t0 (t1 ++ x :: t2) ->
  exists t0a e r t0b t1a s1 s2,
    t0 = t0a ++ Ev e r :: t0b /\ Tr (h e) (s1 ++ x :: s2) r /\
    expands h t0a t1a /\ t1 = t1a ++ s1.
Proof.
  revert t1. induction t0 as [|[e r] t0 IH]; intros t1; simpl.
  { intros H. by destruct t1. }
  intros (s & t & E & Hs & Ht).
  symmetry in E. apply app_eq_inv in E as [(l & -> & E)|(l & -> & E)].
  - destruct l as [|y l]; simpl in E; simplify_eq.
    + destruct (IH []) as (t0a & e' & r' & t0b & t1a & s1 & s2 & -> & H1 & H2 & H3); [done|].
      symmetry in H3. apply app_nil in H3 as [-> ->].
      exists (Ev e r :: t0a), e', r', t0b, t1, [], s2. rewrite !app_nil_r in *.
      split_and!; try done. simpl. exists t1, []. by rewrite app_nil_r.
    + exists [], e, r, t0, [], t1, l. done.
  - subst t. destruct (IH l) as (t0a & e' & r' & t0b & t1a & s1 & s2 & -> & H1 & H2 & ->); [done|].
    exists (Ev e r :: t0a), e', r', t0b, (s ++ t1a), s1, s2.
    split_and!; try done; [simpl; eauto 10|by rewrite app_assoc].
Qed.

Lemma expands_source h t0 t x :
  expands h t0 t -> In x t -> exists e b s, In (Ev e b) t0 /\ Tr (h e) s b /\ In x s.
Proof.
  intros Hexp Hin. apply in_split in Hin as (t1 & t2 & ->).
  apply expands_split in Hexp as (t0a & e & b & t0b & t1a & s1 & s2 & -> & Hs & _).
  exists e, b, (s1 ++ x :: s2). split_and!; [|done|]; apply in_app_iff; right; by left.
Qed.

(** A projection of the expanded trace is one of the trace, when it is so for each
    implementation. *)
Lemma expands_project {B} h (f f' : event -> list B) t0 t :
  (forall e b s, In (Ev e b) t0 -> Tr (h e) s b -> s ≫= f = f' (Ev e b)) ->
  expands h t0 t -> t ≫= f = t0 ≫= f'.
Proof.
  revert t. induction t0 as [|[e b] t0 IH]; intros t Hf; [by intros ->|].
  intros (s & t' & -> & Hs & Ht). rewrite bind_app. csimpl. f_equal; [by apply Hf; [left|]|].
  apply IH; [|done]. intros e' b' s' Hin. apply Hf. by right.
Qed.

(** Events the handler leaves alone stay in the trace, in order. *)
Lemma expands_In h t0 t x :
  match x with Ev e _ => h e = trigger e end -> expands h t0 t -> In x t0 -> In x t.
Proof.
  intros Hid. revert t. induction t0 as [|[e r] t0 IH]; simpl; intros t; [done|].
  intros (s & t' & -> & Hs & Ht) [E|HIn]; apply in_app_iff.
  - left. subst x. rewrite Hid in Hs. destruct Hs as (r1 & s' & -> & -> & ->). by left.
  - right. auto.
Qed.

(** * The program logic under interpretation *)

Definition ignores {G} (m : monitor G) (e : eff) : Prop := forall g r, m g (Ev e r) = Next g.

(** Plugging in an implementation that only performs ignored effects, for a
    call the monitor ignores too, keeps a safe program safe. *)
Lemma safe_interp {G A} (m : monitor G) h (p : prog A) Q g :
  (forall e, h e = trigger e \/ (ignores m e /\ emits (ignores m) (h e))) ->
  safe m p Q g -> safe m (interp h p) Q g.
Proof.
  intros Hh. revert g. induction p as [a|e k IH]; simpl; [done|]. intros g H.
  apply safe_bind. destruct (Hh e) as [->|[Hi He]].
  - simpl. intros r. specialize (H r). destruct (m g (Ev e r)); auto.
  - eapply (emits_safe m (ignores m)); [by intros ?? ->|done|].
    intros r. apply IH. specialize (H r). by rewrite Hi in H.
Qed.

(** Every effect of an interpreted program is an effect of an implementation. *)
Lemma emits_interp {A} (P P' : eff -> Prop) h (p : prog A) :
  (forall e, P e -> emits P' (h e)) -> emits P p -> emits P' (interp h p).
Proof.
  intros Hh. induction p as [a|e k IH]; simpl; [done|]. intros [H1 H2].
  apply emits_bind; auto.
Qed.

(** Replacing calls by implementations under a monitor of the composed program, whose
    state is related to the one of the interface's: an implementation must step the
    second monitor to a state related to the one the first steps to on the call it
    answers, for calls the first one does not reject. *)
Lemma safe_interp_rel {G G' A} (m : monitor G) (m' : monitor G') (Rel : G -> G' -> Prop) h (p : prog A)
    (Q : G -> A -> Prop) (Q' : G' -> A -> Prop) g g' :
  (forall e g g', Rel g g' -> (forall r, m g (Ev e r) <> Reject) ->
     safe m' (h e) (fun g1' r => exists g1, m g (Ev e r) = Next g1 /\ Rel g1 g1') g') ->
  (forall g g' a, Rel g g' -> Q g a -> Q' g' a) ->
  Rel g g' -> safe m p Q g -> safe m' (interp h p) Q' g'.
Proof.
  intros Hh HQ. revert g g'. induction p as [a|e k IH]; simpl; [by eauto|]. intros g g' Hrel H.
  apply safe_bind. eapply safe_mono; [|apply (Hh _ _ _ Hrel)].
  - intros g1' r (g1 & Hr & Hrel'). apply (IH r g1); [done|]. specialize (H r). by rewrite Hr in H.
  - intros r Hr. specialize (H r). by rewrite Hr in H.
Qed.
(** The same state on both sides. *)
Lemma safe_interp_refine {G A} (m m' : monitor G) h (p : prog A) Q g :
  (forall e g, (forall r, m g (Ev e r) <> Reject) ->
     safe m' (h e) (fun g' r => m g (Ev e r) = Next g') g) ->
  safe m p Q g -> safe m' (interp h p) Q g.
Proof.
  intros Hh. apply (safe_interp_rel m m' eq); [|by intros ? ? a ->|done].
  intros e g1 g1' <- Hr. eapply safe_mono; [|by apply Hh]. intros g2 r H. by exists g2.
Qed.
