(* ===== verification/Config.v ===== *)
(** [internal/config]: the parsed shape of worker.yaml, its validation, the
    projection to the routing table, [Lookup], [Load] and the cross-check of
    the daemon's catalog ([parse.go], [config.go], [verify.go]).  The YAML
    decoder and the file system are parameters. *)
From stdpp Require Import base gmap strings list.
From Stdlib Require Import ZArith Lia Ascii String.
From S2P Require Import Prelude.
From S2P Require Import GoStrings.
From S2P Require Import GoConv.
From S2P Require Import GoUrl.
From S2P Require Import GoUnmarshal.
From S2P Require Import Types.

Definition CurrentProtocolVersion : Z := 1.
Definition CurrentAPIVersion : Z := 1.

(** * config.go: the projected configuration *)

(** A value the YAML decoder made inside an opaque map.  The worker only hands
    it to [json.Encoder], so what the model keeps of it is the text of its JSON
    encoding, or the error when it has none (a NaN, a map with other keys). *)
Record yaml_value := { y_json : res string }.

(** A [map[string]any] in the order of its keys; [None] is the nil map. *)
Abbreviation json_object := (option (list (string * yaml_value))).

Record OfferingEntry := {
  oe_Model : ModelID;
  oe_PricePerWorkUnitWei : string;
  oe_BackendURL : string;
  oe_Constraints : json_object }.

Record CapabilityEntry := {
  ce_Capability : CapabilityID;
  ce_WorkUnit : string;
  ce_Extra : json_object;
  ce_Offerings : list OfferingEntry }.

Abbreviation RouteKey := (CapabilityID * ModelID)%type.

Record ModelRoute := {
  mr_Capability : CapabilityID;
  mr_Model : ModelID;
  mr_WorkUnit : string;
  mr_BackendURL : string;
  mr_PricePerWorkUnitWei : string }.

Record CapabilityCatalog := {
  cc_Ordered : list CapabilityEntry;
  cc_Route : gmap RouteKey ModelRoute }.

Record WorkerSection := {
  ws_HTTPListen : string;
  ws_PaymentDaemonSocket : string;
  ws_MaxConcurrentRequests : Z;
  ws_VerifyDaemonConsistencyOnStart : bool }.

Record Config := {
  cfg_ProtocolVersion : Z;
  cfg_APIVersion : Z;
  cfg_WorkerEthAddress : string;
  cfg_AuthToken : string;
  cfg_Worker : WorkerSection;
  cfg_Capabilities : CapabilityCatalog }.

Definition route_of (entry : CapabilityEntry) (m : OfferingEntry) : ModelRoute := {|
  mr_Capability := ce_Capability entry;
  mr_Model := oe_Model m;
  mr_WorkUnit := ce_WorkUnit entry;
  mr_BackendURL := oe_BackendURL m;
  mr_PricePerWorkUnitWei := oe_PricePerWorkUnitWei m |}.

(** The inner and the outer loop of [New]: later offerings overwrite. *)
Definition add_routes (entry : CapabilityEntry) (t : gmap RouteKey ModelRoute) : gmap RouteKey ModelRoute :=
  fold_left (fun t m => <[(ce_Capability entry, oe_Model m) := route_of entry m]> t)
    (ce_Offerings entry) t.
Definition build_routes (ordered : list CapabilityEntry) : gmap RouteKey ModelRoute :=
  fold_left (fun t entry => add_routes entry t) ordered ∅.

Definition New (w : WorkerSection) (ordered : list CapabilityEntry) : Config := {|
  cfg_ProtocolVersion := CurrentProtocolVersion;
  cfg_APIVersion := CurrentAPIVersion;
  cfg_WorkerEthAddress := "";
  cfg_AuthToken := "";
  cfg_Worker := w;
  cfg_Capabilities := {| cc_Ordered := ordered; cc_Route := build_routes ordered |} |}.

Definition Lookup (c : Config) (cap : CapabilityID) (model : ModelID) : option ModelRoute :=
  cc_Route (cfg_Capabilities c) !! (cap, model).

(** * parse.go: the on-disk shape *)

(** [yaml.Node] as the custom unmarshallers read it. *)
Inductive yaml_kind := MappingNode | ScalarNode | OtherNode.
#[export] Instance yaml_kind_eq_dec : EqDecision yaml_kind.
Proof. solve_decision. Defined.
Record yaml_node := {
  yn_Kind : yaml_kind;
  yn_Tag : string;
  yn_Decode : res (list (string * yaml_value)) }.

Record rawYAMLNode := { ry_Present : bool; ry_Node : option yaml_node }.
Definition rawYAMLNode_UnmarshalYAML (value : yaml_node) : rawYAMLNode :=
  {| ry_Present := true; ry_Node := Some value |}.

Record yamlObject := { yo_Present : bool; yo_Value : json_object }.
Definition yamlObject_UnmarshalYAML (value : yaml_node) : res yamlObject :=
  match yn_Kind value with
  | MappingNode => (fun m => {| yo_Present := true; yo_Value := Some m |}) <$> yn_Decode value
  | k =>
      if bool_decide (k = ScalarNode) && String.eqb (yn_Tag value) "!!null"
      then Err (ErrText "must be a JSON object when present (got null)")
      else Err (ErrText "must be a JSON object when present")
  end.

Record yamlOffering := {
  yf_ID : string;
  yf_PricePerWorkUnitWei : string;
  yf_BackendURL : string;
  yf_Constraints : yamlObject }.

Record yamlCapability := {
  yc_Capability : string;
  yc_WorkUnit : string;
  yc_Extra : yamlObject;
  yc_Offerings : list yamlOffering;
  yc_DebitCadenceSeconds : Z;
  yc_SufficientMinRunwaySeconds : Z;
  yc_SufficientGraceSeconds : Z }.

Record yamlWorker := {
  yw_HTTPListen : string;
  yw_PaymentDaemonSocket : string;
  yw_MaxConcurrentRequests : Z;
  yw_VerifyDaemonConsistencyOnStart : bool }.

Record yamlConfig := {
  yy_ProtocolVersion : Z;
  yy_WorkerEthAddress : string;
  yy_AuthToken : string;
  yy_PaymentDaemon : rawYAMLNode;
  yy_Worker : yamlWorker;
  yy_Capabilities : list yamlCapability;
  yy_ServiceRegistryPublisher : rawYAMLNode }.

(** * Validation *)

Definition is_lower (c : ascii) : bool := in_range 97 122 (byte_z c).

(** [^[a-z][a-z0-9]*:.+$]: what follows the first letter. *)
Fixpoint capability_tail (s : string) : bool :=
  match s with
  | EmptyString => false
  | String c s' =>
      if Ascii.eqb c ":" then negb (str_nil s') && str_forall (fun a => negb (Ascii.eqb a NL)) s'
      else (is_lower c || is_digit c) && capability_tail s'
  end.
Definition capabilityRE (s : string) : bool :=
  match s with String c s' => is_lower c && capability_tail s' | EmptyString => false end.

(** [^0x[0-9a-f]{40}$]. *)
Definition lowerEthAddressRE (s : string) : bool :=
  HasPrefix s "0x" && (slen s =? 42)
  && str_forall (fun c => is_digit c || in_range 97 102 (byte_z c)) (str_drop 2 s).

Definition knownWorkUnits : list string :=
  ["token"; "character"; "audio_second"; "image_step_megapixel"; "video_frame_megapixel"].

(** [sortedKeys]: the keys in increasing order. *)
Definition sortedKeys (ks : list string) : list string :=
  fst <$> foldr (fun k m => map_put k tt m) [] ks.

Definition validateJSONObject (path : string) (o : yamlObject) : res unit :=
  if negb (yo_Present o) then Ok tt
  else match yo_Value o with
       | None => Err (ErrText (path +:+ ": must be a JSON object when present"))
       | Some _ => Ok tt
       end.

Definition validateOffering (capPrefix : string) (j : Z) (m : yamlOffering) : res unit :=
  let prefix := capPrefix +:+ ".offerings[" +:+ FormatInt j +:+ "]" in
  if str_nil (yf_ID m) then Err (ErrText (prefix +:+ ".id: required"))
  else if str_nil (yf_PricePerWorkUnitWei m) then
    Err (ErrText (prefix +:+ ".price_per_work_unit_wei: required"))
  else match BigSetString (yf_PricePerWorkUnitWei m) with
  | None => Err (ErrText (prefix +:+ ".price_per_work_unit_wei: "
                  +:+ Quote (yf_PricePerWorkUnitWei m) +:+ " is not a decimal integer"))
  | Some price =>
      if price <=? 0 then Err (ErrText (prefix +:+ ".price_per_work_unit_wei: must be > 0 (got "
                            +:+ Quote (yf_PricePerWorkUnitWei m) +:+ ")"))
      else if str_nil (yf_BackendURL m) then Err (ErrText (prefix +:+ ".backend_url: required"))
      else match url_Parse (yf_BackendURL m) with
      | Err e => Err (ErrWrap (prefix +:+ ".backend_url") e)
      | Ok _ => validateJSONObject (prefix +:+ ".constraints") (yf_Constraints m)
      end
  end.

(** The loop over the offerings, with the ids seen so far. *)
Fixpoint validateOfferings (prefix : string) (j : Z) (seen : gset string) (l : list yamlOffering)
  : res unit :=
  match l with
  | [] => Ok tt
  | m :: l' =>
      _ ← validateOffering prefix j m;
      if decide (yf_ID m ∈ seen) then
        Err (ErrText (prefix +:+ ".offerings[" +:+ FormatInt j +:+ "].id: duplicate "
                      +:+ Quote (yf_ID m) +:+ " within capability"))
      else validateOfferings prefix (j + 1) ({[ yf_ID m ]} ∪ seen) l'
  end.

Definition validateCapability (i : Z) (c : yamlCapability) : res unit :=
  let prefix := "capabilities[" +:+ FormatInt i +:+ "]" in
  if negb (capabilityRE (yc_Capability c)) then
    Err (ErrText (prefix +:+ ".capability: must match ^[a-z][a-z0-9]*:.+$ (got "
                  +:+ Quote (yc_Capability c) +:+ ")"))
  else if negb (existsb (String.eqb (yc_WorkUnit c)) knownWorkUnits) then
    Err (ErrText (prefix +:+ ".work_unit: must be one of "
                  +:+ Join (sortedKeys knownWorkUnits) "|" +:+ " (got " +:+ Quote (yc_WorkUnit c) +:+ ")"))
  else if bool_decide (length (yc_Offerings c) = 0%nat) then
    Err (ErrText (prefix +:+ ".offerings: at least one offering required"))
  else _ ← validateJSONObject (prefix +:+ ".extra") (yc_Extra c);
       validateOfferings prefix 0 ∅ (yc_Offerings c).

Fixpoint validateCapabilities_from (i : Z) (seen : gset string) (caps : list yamlCapability) : res unit :=
  match caps with
  | [] => Ok tt
  | c :: caps' =>
      _ ← validateCapability i c;
      if decide (yc_Capability c ∈ seen) then
        Err (ErrText ("capabilities[" +:+ FormatInt i +:+ "].capability: duplicate "
                      +:+ Quote (yc_Capability c)))
      else validateCapabilities_from (i + 1) ({[ yc_Capability c ]} ∪ seen) caps'
  end.
Definition validateCapabilities (caps : list yamlCapability) : res unit :=
  match caps with
  | [] => Err (ErrText "capabilities: at least one capability required")
  | _ => validateCapabilities_from 0 ∅ caps
  end.

Definition validateWorker (w : yamlWorker) : res unit :=
  if str_nil (yw_HTTPListen w) then Err (ErrText "worker.http_listen: required")
  else if str_nil (yw_PaymentDaemonSocket w) then
    Err (ErrText "worker.payment_daemon_socket: required")
  else if yw_MaxConcurrentRequests w <=? 0 then
    Err (ErrText ("worker.max_concurrent_requests: must be > 0 (got "
                  +:+ FormatInt (yw_MaxConcurrentRequests w) +:+ ")"))
  else Ok tt.

Definition validate (cfg : option yamlConfig) : res unit :=
  match cfg with
  | None => Err (ErrText "config.validate: nil config")
  | Some cfg =>
      if ry_Present (yy_ServiceRegistryPublisher cfg) then
        Err (ErrText "worker.yaml: 'service_registry_publisher' block is not supported by this worker build (archetype A: workers do not self-publish; remove the block)")
      else if negb (yy_ProtocolVersion cfg =? CurrentProtocolVersion) then
        Err (ErrText ("worker.yaml: protocol_version=" +:+ FormatInt (yy_ProtocolVersion cfg)
              +:+ " is not supported by this worker build (CurrentProtocolVersion="
              +:+ FormatInt CurrentProtocolVersion +:+ "); upgrade or downgrade one side"))
      else if negb (ry_Present (yy_PaymentDaemon cfg)) then
        Err (ErrText "worker.yaml: missing 'payment_daemon' section (required for the receiver-mode daemon co-located with this worker)")
      else if negb (str_nil (yy_WorkerEthAddress cfg))
              && negb (lowerEthAddressRE (TrimSpace (yy_WorkerEthAddress cfg))) then
        Err (ErrText ("worker_eth_address: must be a lowercased 0x-prefixed 40-hex address (got "
              +:+ Quote (yy_WorkerEthAddress cfg) +:+ ")"))
      else _ ← validateWorker (yy_Worker cfg); validateCapabilities (yy_Capabilities cfg)
  end.

(** * Projection *)

Definition copyJSONObject (m : json_object) : json_object :=
  match m with None | Some [] => None | Some l => Some l end.

Definition project_offering (m : yamlOffering) : OfferingEntry := {|
  oe_Model := yf_ID m;
  oe_PricePerWorkUnitWei := yf_PricePerWorkUnitWei m;
  oe_BackendURL := yf_BackendURL m;
  oe_Constraints := copyJSONObject (yo_Value (yf_Constraints m)) |}.

Definition project_capability (c : yamlCapability) : CapabilityEntry := {|
  ce_Capability := yc_Capability c;
  ce_WorkUnit := yc_WorkUnit c;
  ce_Extra := copyJSONObject (yo_Value (yc_Extra c));
  ce_Offerings := project_offering <$> yc_Offerings c |}.

Definition projectFromYAML (y : yamlConfig) : Config :=
  let cfg := New {| ws_HTTPListen := yw_HTTPListen (yy_Worker y);
                    ws_PaymentDaemonSocket := yw_PaymentDaemonSocket (yy_Worker y);
                    ws_MaxConcurrentRequests := yw_MaxConcurrentRequests (yy_Worker y);
                    ws_VerifyDaemonConsistencyOnStart :=
                      yw_VerifyDaemonConsistencyOnStart (yy_Worker y) |}
                 (project_capability <$> yy_Capabilities y) in
  {| cfg_ProtocolVersion := cfg_ProtocolVersion cfg;
     cfg_APIVersion := cfg_APIVersion cfg;
     cfg_WorkerEthAddress := TrimSpace (yy_WorkerEthAddress y);
     cfg_AuthToken := TrimSpace (yy_AuthToken y);
     cfg_Worker := cfg_Worker cfg;
     cfg_Capabilities := cfg_Capabilities cfg |}.

(** * Loading: [os.Open] and the YAML decoder are parameters; [yaml_Decode n]
    is the outcome of the [n]-th [Decode] call on a document stream. *)
Section Load.
Context (os_Open : string -> res string) (yaml_Decode : nat -> string -> res yamlConfig).

Definition parseReader (data : string) : res yamlConfig :=
  match yaml_Decode 0 data with
  | Err e => Err (ErrWrap "config: decode" e)
  | Ok cfg =>
      match yaml_Decode 1 data with
      | Ok _ => Err (ErrText "config: unexpected second YAML document; only one document per file is supported")
      | Err e => if errors_Is e ErrEOF then Ok cfg
                 else Err (ErrWrap "config: trailing data after first document" e)
      end
  end.

Definition parseFile (path : string) : res yamlConfig :=
  match os_Open path with
  | Err e => Err (ErrWrap ("config: open " +:+ Quote path) e)
  | Ok data => parseReader data
  end.

Definition Load (path : string) : res Config :=
  parsed ← parseFile path;
  _ ← wrap_err "config: validate" (validate (Some parsed));
  Ok (projectFromYAML parsed).
End Load.

(** * verify.go: the loops compare position by position; the lengths have been
    compared before each, so the lists end together. *)

Definition verify_err (i : Z) (cap : string) (what : string) (c d : string) : error :=
  ErrText ("verify: capability[" +:+ FormatInt i +:+ "]" +:+ cap +:+ what
           +:+ " mismatch: config=" +:+ c +:+ " daemon=" +:+ d).

Fixpoint verifyOfferings (i : Z) (cap : string) (j : Z) (l : list OfferingEntry) (d : list OfferingPrice)
  : res unit :=
  match l, d with
  | o :: l', p :: d' =>
      let at_ := " offering[" +:+ FormatInt j +:+ "]" in
      if negb (String.eqb (oe_Model o) (op_ID p)) then
        Err (verify_err i cap (at_ +:+ " id") (Quote (oe_Model o)) (Quote (op_ID p)))
      else if negb (String.eqb (oe_PricePerWorkUnitWei o) (op_PricePerWorkUnitWei p)) then
        Err (verify_err i cap (at_ +:+ " (" +:+ Quote (oe_Model o) +:+ ") price")
               (Quote (oe_PricePerWorkUnitWei o)) (Quote (op_PricePerWorkUnitWei p)))
      else verifyOfferings i cap (j + 1) l' d'
  | _, _ => Ok tt
  end.

Fixpoint verifyCapabilities (i : Z) (l : list CapabilityEntry) (d : list Types.Capability) : res unit :=
  match l, d with
  | c :: l', p :: d' =>
      let cap := " (" +:+ Quote (ce_Capability c) +:+ ")" in
      if negb (String.eqb (ce_Capability c) (dc_Capability p)) then
        Err (verify_err i "" "" (Quote (ce_Capability c)) (Quote (dc_Capability p)))
      else if negb (String.eqb (ce_WorkUnit c) (dc_WorkUnit p)) then
        Err (verify_err i cap " work_unit" (Quote (ce_WorkUnit c)) (Quote (dc_WorkUnit p)))
      else if negb (length (dc_Offerings p) =? length (ce_Offerings c))%nat then
        Err (verify_err i cap " offering count" (FormatInt (Z.of_nat (length (ce_Offerings c))))
               (FormatInt (Z.of_nat (length (dc_Offerings p)))))
      else _ ← verifyOfferings i cap 0 (ce_Offerings c) (dc_Offerings p);
           verifyCapabilities (i + 1) l' d'
  | _, _ => Ok tt
  end.

Definition VerifyDaemonCatalog (cfg : option Config) (daemon : ListCapabilitiesResult) : res unit :=
  match cfg with
  | None => Err (ErrText "verify: nil config")
  | Some cfg =>
      let got := length (lc_Capabilities daemon) in
      let want := length (cc_Ordered (cfg_Capabilities cfg)) in
      if negb (got =? want)%nat then
        Err (ErrText ("verify: capability count mismatch: config has " +:+ FormatInt (Z.of_nat want)
              +:+ ", daemon has " +:+ FormatInt (Z.of_nat got)))
      else verifyCapabilities 0 (cc_Ordered (cfg_Capabilities cfg)) (lc_Capabilities daemon)
  end.
