(* ===== verification/ConfigFacts.v ===== *)
(** What [Config.v] guarantees: validation accepts exactly the well-formed
    documents, the routing table of a loaded configuration is the ordered
    catalog, and the daemon cross-check accepts exactly the same catalog. *)
From stdpp Require Import base gmap strings list.
From Stdlib Require Import ZArith Lia Ascii String.
From S2P Require Import Prelude.
From S2P Require Import GoStrings.
From S2P Require Import GoConv.
From S2P Require Import GoUrl.
From S2P Require Import GoUnmarshal.
From S2P Require Import Types.
From S2P Require Import Config.

(** * The specification of a well-formed worker.yaml *)

Definition object_ok (o : yamlObject) : Prop := yo_Present o = true -> yo_Value o <> None.

Record valid_offering (m : yamlOffering) : Prop := {
  vo_id : yf_ID m <> "";
  vo_price : exists p, BigSetString (yf_PricePerWorkUnitWei m) = Some p /\ 0 < p;
  vo_url : yf_BackendURL m <> "" /\ url_parse_ok (yf_BackendURL m) = true;
  vo_constraints : object_ok (yf_Constraints m) }.

Record valid_capability (c : yamlCapability) : Prop := {
  vc_name : capabilityRE (yc_Capability c) = true;
  vc_unit : yc_WorkUnit c ∈ knownWorkUnits;
  vc_some : yc_Offerings c <> [];
  vc_extra : object_ok (yc_Extra c);
  vc_offerings : Forall valid_offering (yc_Offerings c);
  vc_nodup : NoDup (yf_ID <$> yc_Offerings c) }.

Record valid_worker (w : yamlWorker) : Prop := {
  vw_listen : yw_HTTPListen w <> "";
  vw_socket : yw_PaymentDaemonSocket w <> "";
  vw_max : 0 < yw_MaxConcurrentRequests w }.

Record valid_config (cfg : yamlConfig) : Prop := {
  vg_publisher : ry_Present (yy_ServiceRegistryPublisher cfg) = false;
  vg_version : yy_ProtocolVersion cfg = CurrentProtocolVersion;
  vg_daemon : ry_Present (yy_PaymentDaemon cfg) = true;
  vg_address : yy_WorkerEthAddress cfg = "" \/
    lowerEthAddressRE (TrimSpace (yy_WorkerEthAddress cfg)) = true;
  vg_worker : valid_worker (yy_Worker cfg);
  vg_some : yy_Capabilities cfg <> [];
  vg_capabilities : Forall valid_capability (yy_Capabilities cfg);
  vg_nodup : NoDup (yc_Capability <$> yy_Capabilities cfg) }.

(** * Validation decides the specification *)

Lemma str_nil_spec s : str_nil s = true <-> s = "".
Proof. by destruct s. Qed.

Lemma validateJSONObject_Ok p o : validateJSONObject p o = Ok tt <-> object_ok o.
Proof.
  unfold validateJSONObject, object_ok.
  destruct (yo_Present o), (yo_Value o); simpl; naive_solver.
Qed.

Lemma url_Parse_Ok s : url_Parse s = Ok tt <-> url_parse_ok s = true.
Proof. unfold url_Parse. destruct (url_parse_ok s); naive_solver. Qed.

Lemma validateOffering_Ok p j m : validateOffering p j m = Ok tt <-> valid_offering m.
Proof.
  unfold validateOffering.
  destruct (str_nil (yf_ID m)) eqn:E1; [apply str_nil_spec in E1; split; [done|by intros []]|].
  assert (yf_ID m <> "") by (intros E; rewrite E in E1; done).
  destruct (str_nil (yf_PricePerWorkUnitWei m)) eqn:E2.
  { apply str_nil_spec in E2. split; [done|]. intros [_ (q & Hq & _) _ _].
    rewrite E2 in Hq. done. }
  destruct (BigSetString _) as [price|] eqn:E3; [|split; [done|]; intros [_ (q & ? & _) _ _]; congruence].
  destruct (Z.leb_spec price 0); [split; [done|]; intros [_ (q & ? & ?) _ _]; simplify_eq; lia|].
  destruct (str_nil (yf_BackendURL m)) eqn:E4; [apply str_nil_spec in E4; split; [done|by intros [_ _ [] _]]|].
  assert (yf_BackendURL m <> "") by (intros E; rewrite E in E4; done).
  destruct (url_Parse _) as [[]|e] eqn:E5.
  - rewrite validateJSONObject_Ok. apply url_Parse_Ok in E5. split; [|by intros []].
    intros. split; eauto.
  - split; [done|]. intros [_ _ [_ Hu] _]. apply url_Parse_Ok in Hu. congruence.
Qed.

Lemma validateOfferings_Ok p j seen l :
  validateOfferings p j seen l = Ok tt <->
  Forall valid_offering l /\ NoDup (yf_ID <$> l) /\ (forall x, x ∈ yf_ID <$> l -> x ∉ seen).
Proof.
  revert j seen. induction l as [|m l IH]; intros j seen; csimpl.
  { split; [|done]. intros _. split_and!; [constructor|constructor|set_solver]. }
  rewrite res_bind_Ok, Forall_cons, NoDup_cons.
  setoid_rewrite elem_of_cons.
  split.
  - intros ([] & Hm & H). apply validateOffering_Ok in Hm.
    case_decide; [done|]. apply IH in H as (H1 & H2 & H3). set_solver.
  - intros ((Hm & Hl) & (Hn & Hd) & Hs). exists tt. split; [by apply validateOffering_Ok|].
    rewrite decide_False by (apply Hs; auto). apply IH. split_and!; [done|done|].
    intros x Hx. apply not_elem_of_union. split; [|by auto]. set_solver.
Qed.

Lemma known_unit_spec u : existsb (String.eqb u) knownWorkUnits = true <-> u ∈ knownWorkUnits.
Proof.
  rewrite existsb_exists. split.
  - intros (x & Hx & E). apply String.eqb_eq in E as ->. by apply list_elem_of_In.
  - intros H. exists u. split; [by apply list_elem_of_In|apply String.eqb_refl].
Qed.

Lemma validateCapability_Ok i c : validateCapability i c = Ok tt <-> valid_capability c.
Proof.
  unfold validateCapability.
  destruct (capabilityRE _) eqn:E1; cbn [negb]; [|split; [done|intros []; congruence]].
  destruct (existsb (String.eqb (yc_WorkUnit c)) knownWorkUnits) eqn:E2; cbn [negb].
  2:{ split; [done|]. intros [_ Hu _ _ _ _]. apply known_unit_spec in Hu. congruence. }
  apply known_unit_spec in E2.
  case_bool_decide as E3.
  { split; [done|]. intros []. destruct (yc_Offerings c); done. }
  rewrite res_bind_Ok. split.
  - intros ([] & Ho & H). apply validateJSONObject_Ok in Ho.
    apply validateOfferings_Ok in H as (H1 & H2 & _). split; try done. intros Hnil. by rewrite Hnil in E3.
  - intros []. exists tt. split; [by apply validateJSONObject_Ok|].
    apply validateOfferings_Ok. split_and!; [done|done|set_solver].
Qed.

Lemma validateCapabilities_from_Ok i seen l :
  validateCapabilities_from i seen l = Ok tt <->
  Forall valid_capability l /\ NoDup (yc_Capability <$> l)
  /\ (forall x, x ∈ yc_Capability <$> l -> x ∉ seen).
Proof.
  revert i seen. induction l as [|c l IH]; intros i seen; csimpl.
  { split; [|done]. intros _. split_and!; [constructor|constructor|set_solver]. }
  rewrite res_bind_Ok, Forall_cons, NoDup_cons.
  setoid_rewrite elem_of_cons.
  split.
  - intros ([] & Hm & H). apply validateCapability_Ok in Hm.
    case_decide; [done|]. apply IH in H as (H1 & H2 & H3). set_solver.
  - intros ((Hm & Hl) & (Hn & Hd) & Hs). exists tt. split; [by apply validateCapability_Ok|].
    rewrite decide_False by (apply Hs; auto). apply IH. split_and!; [done|done|].
    intros x Hx. apply not_elem_of_union. split; [|by auto]. set_solver.
Qed.

Lemma validateWorker_Ok w : validateWorker w = Ok tt <-> valid_worker w.
Proof.
  unfold validateWorker.
  destruct (str_nil (yw_HTTPListen w)) eqn:E1; [apply str_nil_spec in E1; split; [done|by intros []]|].
  destruct (str_nil (yw_PaymentDaemonSocket w)) eqn:E2; [apply str_nil_spec in E2; split; [done|by intros []]|].
  destruct (Z.leb_spec (yw_MaxConcurrentRequests w) 0); [split; [done|intros []; lia]|].
  split; [|done]. intros _. split; [| |lia]; intros E; rewrite E in *; done.
Qed.

Lemma validate_Ok_iff cfg : validate (Some cfg) = Ok tt <-> valid_config cfg.
Proof.
  unfold validate.
  destruct (ry_Present (yy_ServiceRegistryPublisher cfg)) eqn:E1; [split; [done|intros []; congruence]|].
  destruct (Z.eqb_spec (yy_ProtocolVersion cfg) CurrentProtocolVersion) as [E2|E2]; simpl;
    [|split; [done|intros []; congruence]].
  destruct (ry_Present (yy_PaymentDaemon cfg)) eqn:E3; simpl; [|split; [done|intros []; congruence]].
  destruct (negb (str_nil (yy_WorkerEthAddress cfg)) && _) eqn:E4.
  { split; [done|]. intros [_ _ _ Ha _ _ _ _]. apply andb_true_iff in E4 as [Hn Hf].
    destruct Ha as [Ha|Ha]; [by rewrite Ha in Hn|by rewrite Ha in Hf]. }
  assert (Haddr : yy_WorkerEthAddress cfg = "" \/
    lowerEthAddressRE (TrimSpace (yy_WorkerEthAddress cfg)) = true).
  { apply andb_false_iff in E4 as [E|E]; apply negb_false_iff in E; [|by right].
    left. by apply str_nil_spec. }
  rewrite res_bind_Ok. unfold validateCapabilities. split.
  - intros ([] & Hw & H). apply validateWorker_Ok in Hw.
    destruct (yy_Capabilities cfg) as [|c l] eqn:E; [done|]. rewrite <- E in H.
    apply validateCapabilities_from_Ok in H as (H1 & H2 & _). split; try done. by rewrite E.
  - intros []. exists tt. split; [by apply validateWorker_Ok|].
    destruct (yy_Capabilities cfg) as [|c l] eqn:E; [done|]. rewrite <- E in *.
    apply validateCapabilities_from_Ok. split_and!; [done|done|set_solver].
Qed.

(** * The routing table *)

(** Building a map by successive insertions under distinct keys. *)
Lemma fold_insert_lookup {A V} (key : A -> RouteKey) (val : A -> V) (l : list A) (t : gmap RouteKey V) k v :
  NoDup (key <$> l) ->
  fold_left (fun t x => <[key x := val x]> t) l t !! k = Some v <->
  (exists x, x ∈ l /\ key x = k /\ v = val x) \/ (k ∉ key <$> l /\ t !! k = Some v).
Proof.
  revert t. induction l as [|x l IH]; intros t; csimpl.
  { intros _. set_solver. }
  rewrite NoDup_cons. intros [Hx Hl]. rewrite IH by done. clear IH.
  rewrite lookup_insert. setoid_rewrite elem_of_cons. split.
  - intros [(y & Hy & Hk & Hv)|[Hk Hv]]; [eauto 10|].
    case_decide; simplify_eq; [left; eauto 10|]. right. set_solver.
  - intros [(y & [->|Hy] & Hk & Hv)|[Hk Hv]]; simplify_eq.
    + right. rewrite decide_True by done. done.
    + left. eauto.
    + right. split; [set_solver|]. rewrite decide_False by set_solver. done.
Qed.

Definition catalog_pairs (ordered : list CapabilityEntry) : list (CapabilityEntry * OfferingEntry) :=
  ordered ≫= fun e => pair e <$> ce_Offerings e.
Definition pair_key (p : CapabilityEntry * OfferingEntry) : RouteKey :=
  (ce_Capability (fst p), oe_Model (snd p)).

Lemma add_routes_pairs e t :
  add_routes e t = fold_left (fun t p => <[pair_key p := route_of (fst p) (snd p)]> t)
                     (pair e <$> ce_Offerings e) t.
Proof.
  unfold add_routes. revert t. induction (ce_Offerings e) as [|m l IH]; intros t; csimpl; [done|].
  apply IH.
Qed.

Lemma build_routes_pairs ordered :
  build_routes ordered =
  fold_left (fun t p => <[pair_key p := route_of (fst p) (snd p)]> t) (catalog_pairs ordered) ∅.
Proof.
  unfold build_routes, catalog_pairs. generalize (∅ : gmap RouteKey ModelRoute).
  induction ordered as [|e l IH]; intros t; csimpl; [done|].
  rewrite fold_left_app, IH, add_routes_pairs. done.
Qed.

Definition catalog_distinct (ordered : list CapabilityEntry) : Prop :=
  NoDup (ce_Capability <$> ordered) /\
  Forall (fun e => NoDup (oe_Model <$> ce_Offerings e)) ordered.

Lemma catalog_pairs_elem ordered e o :
  (e, o) ∈ catalog_pairs ordered <-> e ∈ ordered /\ o ∈ ce_Offerings e.
Proof.
  unfold catalog_pairs. rewrite list_elem_of_bind. split.
  - intros (e' & H & He). apply list_elem_of_fmap in H as (o' & ? & ?). by simplify_eq.
  - intros [He Ho]. exists e. split; [|done]. apply list_elem_of_fmap. eauto.
Qed.

Lemma catalog_keys_nodup ordered :
  catalog_distinct ordered -> NoDup (pair_key <$> catalog_pairs ordered).
Proof.
  intros [Hc Hm]. unfold catalog_pairs. induction ordered as [|e l IH]; csimpl in *; [constructor|].
  apply NoDup_cons in Hc as [He Hc]. apply Forall_cons in Hm as [Hme Hm].
  rewrite fmap_app. apply NoDup_app. split_and!; [| |by auto].
  - replace (pair_key <$> (pair e <$> ce_Offerings e))
      with (pair (ce_Capability e) <$> (oe_Model <$> ce_Offerings e))
      by (rewrite <- !list_fmap_compose; done).
    by apply (NoDup_fmap_2 _).
  - intros k H1 H2. apply list_elem_of_fmap in H1 as (p1 & -> & H1).
    apply list_elem_of_fmap in H1 as (o & -> & Ho).
    apply list_elem_of_fmap in H2 as ([e' o'] & E & H2). apply catalog_pairs_elem in H2 as [He' _].
    unfold pair_key in E. simpl in E. simplify_eq.
    apply He. apply list_elem_of_fmap. eauto.
Qed.

Lemma Lookup_New w ordered cap model r :
  catalog_distinct ordered ->
  Lookup (New w ordered) cap model = Some r <->
  exists e o, e ∈ ordered /\ o ∈ ce_Offerings e /\
    ce_Capability e = cap /\ oe_Model o = model /\ r = route_of e o.
Proof.
  intros Hd. unfold Lookup. simpl. rewrite build_routes_pairs.
  rewrite fold_insert_lookup by by apply catalog_keys_nodup. split.
  - intros [([e o] & Hp & Hk & ->)|[_ H]]; [|by rewrite lookup_empty in H].
    apply catalog_pairs_elem in Hp as [He Ho]. unfold pair_key in Hk. simpl in *. simplify_eq.
    eauto 10.
  - intros (e & o & He & Ho & Hc & Hm & ->). left. exists (e, o).
    split; [by apply catalog_pairs_elem|]. unfold pair_key. simpl. by subst.
Qed.

Lemma project_distinct y :
  valid_config y -> catalog_distinct (project_capability <$> yy_Capabilities y).
Proof.
  intros []. split.
  - by rewrite <- list_fmap_compose.
  - apply Forall_fmap. eapply Forall_impl; [exact vg_capabilities0|].
    intros c []. simpl. by rewrite <- list_fmap_compose.
Qed.

(** * The daemon cross-check *)

Definition offering_view (o : OfferingEntry) : OfferingPrice :=
  {| op_ID := oe_Model o; op_PricePerWorkUnitWei := oe_PricePerWorkUnitWei o |}.
(** What the worker's catalog looks like from the daemon's side: everything
    but the backend URLs, the extra metadata and the constraints. *)
Definition catalog_view (e : CapabilityEntry) : Types.Capability := {|
  dc_Capability := ce_Capability e;
  dc_WorkUnit := ce_WorkUnit e;
  dc_Offerings := offering_view <$> ce_Offerings e |}.

Lemma verifyOfferings_Ok i cap j l d :
  length d = length l -> verifyOfferings i cap j l d = Ok tt <-> d = offering_view <$> l.
Proof.
  revert j d. induction l as [|o l IH]; intros j [|p d]; csimpl; try done. intros [= Hlen].
  destruct (String.eqb_spec (oe_Model o) (op_ID p)) as [E1|E1]; simpl;
    [|split; [done|intros [= Hp _]; destruct E1; by subst p]].
  destruct (String.eqb_spec (oe_PricePerWorkUnitWei o) (op_PricePerWorkUnitWei p)) as [E2|E2]; simpl;
    [|split; [done|intros [= Hp _]; destruct E2; by subst p]].
  rewrite IH by done. unfold offering_view at 2. rewrite E1, E2. destruct p; simpl.
  split; [by intros ->|by intros [= ->]].
Qed.

Lemma verifyCapabilities_Ok i l d :
  length d = length l -> verifyCapabilities i l d = Ok tt <-> d = catalog_view <$> l.
Proof.
  revert i d. induction l as [|c l IH]; intros i [|p d]; csimpl; try done. intros [= Hlen].
  destruct (String.eqb_spec (ce_Capability c) (dc_Capability p)) as [E1|E1]; cbn [negb];
    [|split; [done|intros [= Hp _]; destruct E1; by subst p]].
  destruct (String.eqb_spec (ce_WorkUnit c) (dc_WorkUnit p)) as [E2|E2]; cbn [negb];
    [|split; [done|intros [= Hp _]; destruct E2; by subst p]].
  destruct (Nat.eqb_spec (length (dc_Offerings p)) (length (ce_Offerings c))) as [E3|E3]; cbn [negb].
  2:{ split; [done|]. intros [= Hp _]. subst p. simpl in E3. by rewrite length_fmap in E3. }
  rewrite res_bind_Ok. setoid_rewrite (IH _ _ Hlen). split.
  - intros ([] & Ho & ->). apply verifyOfferings_Ok in Ho; [|done].
    unfold catalog_view at 2. rewrite E1, E2, <- Ho. by destruct p.
  - intros [= Hp Hd]. exists tt. split; [|done]. apply verifyOfferings_Ok; [done|].
    subst p. done.
Qed.

(** * Properties *)

Section LoadProps.
Context (os_Open : string -> res string) (yaml_Decode : nat -> string -> res yamlConfig).

Lemma Load_inv path cfg :
  Load os_Open yaml_Decode path = Ok cfg ->
  exists data y, os_Open path = Ok data /\ yaml_Decode 0%nat data = Ok y /\
    valid_config y /\ cfg = projectFromYAML y.
Proof.
  unfold Load, parseFile, parseReader. intros H.
  destruct (os_Open path) as [data|] eqn:E; [|done].
  destruct (yaml_Decode 0 data) as [y|] eqn:Ey; [|done].
  destruct (yaml_Decode 1 data) as [|e]; [done|].
  destruct (errors_Is e ErrEOF); [|done].
  apply res_bind_Ok in H as (y' & Hy & H). apply res_bind_Ok in H as ([] & Hv & H).
  apply wrap_err_Ok in Hv. simplify_eq. apply validate_Ok_iff in Hv. eauto 10.
Qed.
End LoadProps.

(** C32. [validate] accepts a parsed worker.yaml exactly when it is well formed:
    no publisher block, the supported protocol version, a payment_daemon
    section, a lower-case address, a usable worker section, and a non-empty
    catalog whose capabilities and offerings are valid and distinct. *)
Theorem validate_decides (cfg : yamlConfig) :
  Config.validate (Some cfg) = Ok tt <-> valid_config cfg.
Proof. apply validate_Ok_iff. Qed.

(** The routes of a loaded configuration, and its catalog without duplicates. *)
Lemma loaded_lookup os_Open yaml_Decode path cfg :
  Config.Load os_Open yaml_Decode path = Ok cfg ->
  catalog_distinct (cc_Ordered (cfg_Capabilities cfg)) /\
  forall cap model r, Lookup cfg cap model = Some r <->
     exists e o, e ∈ cc_Ordered (cfg_Capabilities cfg) /\ o ∈ ce_Offerings e /\
       ce_Capability e = cap /\ oe_Model o = model /\ r = route_of e o.
Proof.
  intros H. apply Load_inv in H as (data & y & _ & _ & Hy & ->).
  pose proof (project_distinct y Hy) as Hd. split; [exact Hd|]. intros. by apply Lookup_New.
Qed.

(** What a loaded configuration guarantees of a route. *)
Lemma loaded_route os_Open yaml_Decode path cfg cap model r :
  Config.Load os_Open yaml_Decode path = Ok cfg -> Lookup cfg cap model = Some r ->
  (exists p, BigSetString (mr_PricePerWorkUnitWei r) = Some p /\ 0 < p) /\
  url_parse_ok (mr_BackendURL r) = true /\ mr_WorkUnit r ∈ knownWorkUnits.
Proof.
  intros H Hr. destruct (loaded_lookup _ _ _ _ H) as [_ Hl]. apply Hl in Hr as (e & o & He & Ho & _ & _ & ->).
  apply Load_inv in H as (data & y & _ & _ & Hy & ->).
  apply list_elem_of_fmap in He as (c & -> & Hc). apply list_elem_of_fmap in Ho as (m & -> & Hm).
  destruct Hy as [_ _ _ _ _ _ Hcs _]. rewrite Forall_forall in Hcs.
  destruct (Hcs c Hc) as [_ Hu _ _ Hms _]. rewrite Forall_forall in Hms.
  destruct (Hms m Hm) as [_ Hp [_ Hurl] _]. done.
Qed.

(** C31. The routing table of a loaded configuration is its ordered catalog:
    [Lookup] finds exactly the offerings of the file, and each route it returns
    has a positive decimal price, a backend URL that parses and a known work
    unit. *)
Theorem Load_routes os_Open yaml_Decode path cfg :
  Config.Load os_Open yaml_Decode path = Ok cfg ->
  (forall cap model r, Lookup cfg cap model = Some r <->
     exists e o, e ∈ cc_Ordered (cfg_Capabilities cfg) /\ o ∈ ce_Offerings e /\
       ce_Capability e = cap /\ oe_Model o = model /\ r = route_of e o) /\
  (forall cap model r, Lookup cfg cap model = Some r ->
     (exists p, BigSetString (mr_PricePerWorkUnitWei r) = Some p /\ 0 < p) /\
     url_parse_ok (mr_BackendURL r) = true /\ mr_WorkUnit r ∈ knownWorkUnits) /\
  0 < ws_MaxConcurrentRequests (cfg_Worker cfg).
Proof.
  intros H. destruct (loaded_lookup _ _ _ _ H) as [_ Hl]. split; [exact Hl|].
  split; [intros cap model r; by eapply loaded_route|].
  apply Load_inv in H as (data & y & _ & _ & Hy & ->). by destruct Hy as [_ _ _ _ []].
Qed.

(** The cross-check compares the whole catalogs. *)
Lemma verify_catalogs cfg daemon :
  Config.VerifyDaemonCatalog (Some cfg) daemon = Ok tt <->
  lc_Capabilities daemon = catalog_view <$> cc_Ordered (cfg_Capabilities cfg).
Proof.
  unfold VerifyDaemonCatalog.
  destruct (Nat.eqb_spec (length (lc_Capabilities daemon))
              (length (cc_Ordered (cfg_Capabilities cfg)))) as [E|E]; cbn [negb].
  - by apply verifyCapabilities_Ok.
  - split; [done|]. intros H. rewrite H, length_fmap in E. done.
Qed.

(** The startup cross-check accepts the daemon's catalog exactly when it is
    the worker's own catalog, in the same order, with the backend URLs and the
    opaque metadata left out. *)
Theorem VerifyDaemonCatalog_iff cfg daemon :
  Config.VerifyDaemonCatalog (Some cfg) daemon = Ok tt <->
  lc_Capabilities daemon = catalog_view <$> cc_Ordered (cfg_Capabilities cfg).
Proof. apply verify_catalogs. Qed.

(** * Witness: a two-offering document *)

Definition no_object : yamlObject := {| yo_Present := false; yo_Value := None |}.
Definition demo_offering (id price url : string) : yamlOffering := {|
  yf_ID := id; yf_PricePerWorkUnitWei := price; yf_BackendURL := url;
  yf_Constraints := no_object |}.
Definition demo_yaml : yamlConfig := {|
  yy_ProtocolVersion := 1;
  yy_WorkerEthAddress := "";
  yy_AuthToken := " token ";
  yy_PaymentDaemon := {| ry_Present := true; ry_Node := None |};
  yy_Worker := {| yw_HTTPListen := "0.0.0.0:8080"; yw_PaymentDaemonSocket := "/run/pd.sock";
                  yw_MaxConcurrentRequests := 2; yw_VerifyDaemonConsistencyOnStart := true |};
  yy_Capabilities := [{|
    yc_Capability := "openai:/v1/chat/completions"; yc_WorkUnit := "token"; yc_Extra := no_object;
    yc_Offerings := [demo_offering "gemma4:26b" "1250000" "http://10.0.0.2:11434/";
                     demo_offering "llama-3" "5000000" "http://10.0.0.3:8000"];
    yc_DebitCadenceSeconds := 0; yc_SufficientMinRunwaySeconds := 0; yc_SufficientGraceSeconds := 0 |}];
  yy_ServiceRegistryPublisher := {| ry_Present := false; ry_Node := None |} |}.

Definition demo_config : Config := projectFromYAML demo_yaml.
Definition demo_open (path : string) : res string :=
  if String.eqb path "worker.yaml" then Ok "..." else Err (ErrLib "os" "no such file or directory").
Definition demo_decode (n : nat) (data : string) : res yamlConfig :=
  match n with O => Ok demo_yaml | S _ => Err ErrEOF end.

Example demo_loads : Load demo_open demo_decode "worker.yaml" = Ok demo_config.
Proof. vm_compute. reflexivity. Qed.

Definition demo_route : ModelRoute := {|
  mr_Capability := "openai:/v1/chat/completions"; mr_Model := "llama-3"; mr_WorkUnit := "token";
  mr_BackendURL := "http://10.0.0.3:8000"; mr_PricePerWorkUnitWei := "5000000" |}.

Example demo_lookup : Lookup demo_config "openai:/v1/chat/completions" "llama-3" = Some demo_route.
Proof. vm_compute. reflexivity. Qed.

Lemma Load_routes_witness :
  Load demo_open demo_decode "worker.yaml" = Ok demo_config /\
  url_parse_ok (mr_BackendURL demo_route) = true.
Proof.
  split; [exact demo_loads|].
  exact (proj1 (proj2 (proj1 (proj2 (Load_routes demo_open demo_decode "worker.yaml" demo_config
    demo_loads)) _ _ _ demo_lookup))).
Defined.
