(* ===== verification/Payee.v ===== *)
(** [internal/providers/payeedaemon]: the metrics decorator ([interface.go]),
    the gRPC client ([grpc.go]) and the in-memory fake ([fake.go]) of the
    payee-daemon client interface.  The generated stubs are calls left to the
    environment. *)
From stdpp Require Import base gmap strings list.
From Stdlib Require Import ZArith Lia Ascii String.
From S2P Require Import Prelude.
From S2P Require Import GoStrings.
From S2P Require Import GoConv.
From S2P Require Import Types.
From S2P Require Import Prog.
From S2P Require Import Interp.

(** * interface.go: WithMetrics *)

Definition rpc_method (c : payee_call) : string :=
  match c with
  | ListCapabilities => MethodListCapabilities
  | GetQuote _ _ => MethodGetQuote
  | GetTicketParams _ => MethodGetTicketParams
  | OpenSession _ => MethodOpenSession
  | ProcessPayment _ _ => MethodProcessPayment
  | DebitBalance _ _ _ => MethodDebitBalance
  | CloseSession _ _ => MethodCloseSession
  end.

(** The body the seven metered methods share. *)
Definition metered_rpc {A} (rec : Recorder) (method : string) (inner : prog (res A)) : prog (res A) :=
  start ← now;
  r ← inner;
  let outcome := if is_ok r then OutcomeOK else OutcomeError in
  _ ← rec_do rec (IncDaemonRPC method outcome);
  d ← since start;
  _ ← rec_do rec (ObserveDaemonRPC method outcome d);
  Ret r.

Definition meteredClient (inner : PayeeClient) (rec : Recorder) : PayeeClient := fun c =>
  match c as c return prog (payee_resp c) -> prog (payee_resp c) with
  | ListCapabilities => metered_rpc rec MethodListCapabilities
  | GetQuote _ _ => metered_rpc rec MethodGetQuote
  | GetTicketParams _ => metered_rpc rec MethodGetTicketParams
  | OpenSession _ => metered_rpc rec MethodOpenSession
  | ProcessPayment _ _ => metered_rpc rec MethodProcessPayment
  | DebitBalance _ _ _ => metered_rpc rec MethodDebitBalance
  | CloseSession _ _ => metered_rpc rec MethodCloseSession
  end (inner c).

Definition WithMetrics (c : PayeeClient) (rec : option Recorder) : PayeeClient :=
  match rec with None => c | Some r => meteredClient c r end.

(** * grpc.go *)

(** Getters of a possibly nil message. *)
Definition GetCreationRound (p : option pb_TicketExpirationParams) : Z :=
  match p with Some e => pb_CreationRound e | None => 0 end.
Definition GetCreationRoundBlockHash (p : option pb_TicketExpirationParams) : string :=
  match p with Some e => pb_CreationRoundBlockHash e | None => "" end.
Definition pb_TicketParams_zero : pb_TicketParams := {|
  pb_Recipient := ""; pb_FaceValue := ""; pb_WinProb := ""; pb_RecipientRandHash := "";
  pb_Seed := ""; pb_ExpirationBlock := ""; pb_ExpirationParams := None |}.

Definition project_ticket_params (tp : pb_TicketParams) : TicketParams := {|
  tp_Recipient := pb_Recipient tp;
  tp_FaceValueWei := pb_FaceValue tp;
  tp_WinProb := pb_WinProb tp;
  tp_RecipientRandHash := pb_RecipientRandHash tp;
  tp_Seed := pb_Seed tp;
  tp_ExpirationBlock := pb_ExpirationBlock tp;
  tp_ExpirationParams := {|
    te_CreationRound := GetCreationRound (pb_ExpirationParams tp);
    te_CreationRoundBlockHash := GetCreationRoundBlockHash (pb_ExpirationParams tp) |} |}.

(** The integer division is Go's, truncating toward zero. *)
Definition priceInfoToWeiString (p : option pb_PriceInfo) : string :=
  match p with
  | None => "0"
  | Some p =>
      let num := pb_PricePerUnit p in
      let den := pb_PixelsPerUnit p in
      if den <=? 0 then FormatInt num else FormatInt (Z.quot num den)
  end.

Definition project_offering_price (o : pb_OfferingPrice) : OfferingPrice :=
  {| op_ID := pb_Id o; op_PricePerWorkUnitWei := priceInfoToWeiString (pb_PriceInfo_ o) |}.

Definition grpc_ListCapabilities : prog (res ListCapabilitiesResult) :=
  resp ← grpc_ GrpcListCapabilities;
  Ret ((fun caps => {| lc_Capabilities :=
    (fun c => {| dc_Capability := pb_Capability c; dc_WorkUnit := pb_WorkUnit c;
                 dc_Offerings := project_offering_price <$> pb_Offerings c |}) <$> caps |})
    <$> wrap_err "payeedaemon: ListCapabilities" resp).

Definition grpc_OpenSession (req : OpenSessionRequest) : prog (res OpenSessionResult) :=
  resp ← grpc_ (GrpcOpenSession (os_WorkID req) (os_Capability req) (os_Offering req)
                  (BigBytes (os_PricePerWorkUnitWei req)) (os_WorkUnit req));
  Ret ((fun o => {| osr_Opened := match o with OUTCOME_OPENED => true | _ => false end;
                    osr_AlreadyOpen := match o with OUTCOME_ALREADY_OPEN => true | _ => false end |})
       <$> wrap_err "payeedaemon: OpenSession" resp).

Definition grpc_ProcessPayment (paymentBytes workID : string) : prog (res ProcessPaymentResult) :=
  resp ← grpc_ (GrpcProcessPayment paymentBytes workID);
  Ret ((fun r => {| pp_Sender := pb_Sender r;
                    pp_CreditedEVWei := BigSetBytes (pb_CreditedEv r);
                    pp_BalanceWei := BigSetBytes (pb_PPBalance r);
                    pp_WinnersQueued := pb_WinnersQueued r |})
       <$> wrap_err "payeedaemon: ProcessPayment" resp).

Definition grpc_GetQuote (sender capability : string) : prog (res GetQuoteResult) :=
  resp ← grpc_ (GrpcGetQuote sender capability);
  Ret ((fun r => {| gq_TicketParams :=
                      project_ticket_params (default pb_TicketParams_zero (pb_QuoteTicketParams r));
                    gq_OfferingPrices := project_offering_price <$> pb_OfferingPrices r |})
       <$> wrap_err "payeedaemon: GetQuote" resp).

Definition grpc_GetTicketParams (req : GetTicketParamsRequest) : prog (res TicketParams) :=
  resp ← grpc_ (GrpcGetTicketParams (gt_Sender req) (gt_Recipient req) (BigBytes (gt_FaceValue req))
                  (gt_Capability req) (gt_Offering req));
  Ret (match resp with
       | Err e => Err (ErrWrap "payeedaemon: GetTicketParams" e)
       | Ok None => Err (ErrText "payeedaemon: GetTicketParams: daemon returned nil ticket_params")
       | Ok (Some tp) => Ok (project_ticket_params tp)
       end).

Definition grpc_DebitBalance (sender workID : string) (workUnits : Z) : prog (res DebitBalanceResult) :=
  resp ← grpc_ (GrpcDebitBalance sender workID workUnits);
  Ret ((fun b => {| db_BalanceWei := BigSetBytes b |}) <$> wrap_err "payeedaemon: DebitBalance" resp).

Definition grpc_CloseSession (sender workID : string) : prog (res CloseSessionResult) :=
  resp ← grpc_ (GrpcCloseSession sender workID);
  Ret ((fun _ => {| cs_Closed := true; cs_AlreadyClosed := false |})
       <$> wrap_err "payeedaemon: CloseSession" resp).

Definition grpcClient : PayeeClient := fun c =>
  match c as c return prog (payee_resp c) with
  | ListCapabilities => grpc_ListCapabilities
  | GetQuote s c => grpc_GetQuote s c
  | GetTicketParams r => grpc_GetTicketParams r
  | OpenSession r => grpc_OpenSession r
  | ProcessPayment b w => grpc_ProcessPayment b w
  | DebitBalance s w u => grpc_DebitBalance s w u
  | CloseSession s w => grpc_CloseSession s w
  end.

(** [Close]: a client without a connection closes as it is; [conn] is what closing
    the connection answers. *)
Definition grpcClient_Close (conn : option (res unit)) : res unit :=
  match conn with None => Ok tt | Some r => r end.

(** [Dial]: the argument check; creating the connection is the library's. *)
Definition Dial (grpc_NewClient : string -> res unit) (socketPath : string) : res unit :=
  if str_nil socketPath then Err (ErrText "payeedaemon: Dial requires a socket path")
  else wrap_err ("payeedaemon: dial " +:+ Quote socketPath) (grpc_NewClient ("unix://" +:+ socketPath)).

(** * fake.go: the in-memory client, as state passing.  The mutex makes each
    method one atomic step; results are copies of the stored numbers. *)
Record Fake := {
  fk_ProcessPaymentError : option error;
  fk_DebitBalanceError : option error;
  fk_OpenSessionError : option error;
  fk_CloseSessionError : option error;
  fk_ListCapabilitiesResponse : ListCapabilitiesResult;
  fk_ListCapabilitiesError : option error;
  fk_GetQuoteResponse : GetQuoteResult;
  fk_GetQuoteError : option error;
  fk_GetTicketParamsResponse : TicketParams;
  fk_GetTicketParamsError : option error;
  fk_CreditPerCall : Z;
  fk_DebitWeiPerWorkUnit : Z;
  fk_SenderAddress : string;
  fk_Calls : list payee_call;
  fk_balances : gmap string Z }.

Definition TicketParams_zero : TicketParams := project_ticket_params pb_TicketParams_zero.

Definition fake_sender : string :=
  string_of_list_ascii (z_byte <$> [10; 11; 12; 13; 14; 15; 16; 17; 18; 19; 20; 21; 22; 23; 24; 25;
                                    26; 27; 28; 29]).

Definition NewFake : Fake := {|
  fk_ProcessPaymentError := None; fk_DebitBalanceError := None; fk_OpenSessionError := None;
  fk_CloseSessionError := None; fk_ListCapabilitiesResponse := {| lc_Capabilities := [] |};
  fk_ListCapabilitiesError := None;
  fk_GetQuoteResponse := {| gq_TicketParams := TicketParams_zero; gq_OfferingPrices := [] |};
  fk_GetQuoteError := None; fk_GetTicketParamsResponse := TicketParams_zero;
  fk_GetTicketParamsError := None; fk_CreditPerCall := 1000000000; fk_DebitWeiPerWorkUnit := 1;
  fk_SenderAddress := fake_sender; fk_Calls := []; fk_balances := ∅ |}.

Definition balanceKey (sender workID : string) : string := sender +:+ "::" +:+ workID.

(** The call counters and the [Last...] fields record the calls made: they are
    the list of calls, newest first. *)
Definition fk_record (c : payee_call) (f : Fake) : Fake := {|
  fk_ProcessPaymentError := fk_ProcessPaymentError f; fk_DebitBalanceError := fk_DebitBalanceError f;
  fk_OpenSessionError := fk_OpenSessionError f; fk_CloseSessionError := fk_CloseSessionError f;
  fk_ListCapabilitiesResponse := fk_ListCapabilitiesResponse f;
  fk_ListCapabilitiesError := fk_ListCapabilitiesError f;
  fk_GetQuoteResponse := fk_GetQuoteResponse f; fk_GetQuoteError := fk_GetQuoteError f;
  fk_GetTicketParamsResponse := fk_GetTicketParamsResponse f;
  fk_GetTicketParamsError := fk_GetTicketParamsError f; fk_CreditPerCall := fk_CreditPerCall f;
  fk_DebitWeiPerWorkUnit := fk_DebitWeiPerWorkUnit f; fk_SenderAddress := fk_SenderAddress f;
  fk_Calls := c :: fk_Calls f; fk_balances := fk_balances f |}.
Definition fk_set_balances (b : gmap string Z) (f : Fake) : Fake := {|
  fk_ProcessPaymentError := fk_ProcessPaymentError f; fk_DebitBalanceError := fk_DebitBalanceError f;
  fk_OpenSessionError := fk_OpenSessionError f; fk_CloseSessionError := fk_CloseSessionError f;
  fk_ListCapabilitiesResponse := fk_ListCapabilitiesResponse f;
  fk_ListCapabilitiesError := fk_ListCapabilitiesError f;
  fk_GetQuoteResponse := fk_GetQuoteResponse f; fk_GetQuoteError := fk_GetQuoteError f;
  fk_GetTicketParamsResponse := fk_GetTicketParamsResponse f;
  fk_GetTicketParamsError := fk_GetTicketParamsError f; fk_CreditPerCall := fk_CreditPerCall f;
  fk_DebitWeiPerWorkUnit := fk_DebitWeiPerWorkUnit f; fk_SenderAddress := fk_SenderAddress f;
  fk_Calls := fk_Calls f; fk_balances := b |}.

Definition or_err {A} (e : option error) (a : A) : res A :=
  match e with Some e => Err e | None => Ok a end.

(** [BalanceFor]. *)
Definition BalanceFor (f : Fake) (sender workID : string) : Z :=
  default 0 (fk_balances f !! balanceKey sender workID).

Definition Fake_ProcessPayment (workID : string) (f : Fake) : res ProcessPaymentResult * Fake :=
  match fk_ProcessPaymentError f with
  | Some e => (Err e, f)
  | None =>
      let credited := fk_CreditPerCall f in
      let bal := BalanceFor f (fk_SenderAddress f) workID + credited in
      (Ok {| pp_Sender := fk_SenderAddress f; pp_CreditedEVWei := credited; pp_BalanceWei := bal;
             pp_WinnersQueued := 0 |},
       fk_set_balances (<[balanceKey (fk_SenderAddress f) workID := bal]> (fk_balances f)) f)
  end.

Definition Fake_DebitBalance (sender workID : string) (workUnits : Z) (f : Fake)
  : res DebitBalanceResult * Fake :=
  match fk_DebitBalanceError f with
  | Some e => (Err e, f)
  | None =>
      let bal := BalanceFor f sender workID - fk_DebitWeiPerWorkUnit f * workUnits in
      (Ok {| db_BalanceWei := bal |},
       fk_set_balances (<[balanceKey sender workID := bal]> (fk_balances f)) f)
  end.

Definition Fake_call (c : payee_call) (f0 : Fake) : payee_resp c * Fake :=
  let f := fk_record c f0 in
  match c as c return payee_resp c * Fake with
  | ListCapabilities => (or_err (fk_ListCapabilitiesError f) (fk_ListCapabilitiesResponse f), f0)
  | GetQuote _ _ => (or_err (fk_GetQuoteError f) (fk_GetQuoteResponse f), f)
  | GetTicketParams _ => (or_err (fk_GetTicketParamsError f) (fk_GetTicketParamsResponse f), f)
  | OpenSession _ =>
      (or_err (fk_OpenSessionError f) {| osr_Opened := true; osr_AlreadyOpen := false |}, f)
  | ProcessPayment _ workID => Fake_ProcessPayment workID f
  | DebitBalance sender workID workUnits => Fake_DebitBalance sender workID workUnits f
  | CloseSession _ _ =>
      (or_err (fk_CloseSessionError f) {| cs_Closed := true; cs_AlreadyClosed := false |}, f)
  end.

(** * What the decorator adds *)

(** Whether an answer is not an error. *)
Definition rpc_ok (c : payee_call) : payee_resp c -> bool :=
  match c with
  | ListCapabilities => fun a => is_ok a
  | GetQuote _ _ => fun a => is_ok a
  | GetTicketParams _ => fun a => is_ok a
  | OpenSession _ => fun a => is_ok a
  | ProcessPayment _ _ => fun a => is_ok a
  | DebitBalance _ _ _ => fun a => is_ok a
  | CloseSession _ _ => fun a => is_ok a
  end.

Definition rpc_outcome (ok : bool) : string := if ok then OutcomeOK else OutcomeError.

Lemma metered_rpc_Tr {A} rec method (inner : prog (res A)) t a :
  Tr (metered_rpc rec method inner) t a <->
  exists start stop t1 t2 t3,
    t = Ev ENow start :: t1 ++ t2 ++ Ev ENow stop :: t3 /\ Tr inner t1 a /\
    Tr (rec_do rec (IncDaemonRPC method (rpc_outcome (is_ok a)))) t2 tt /\
    Tr (rec_do rec (ObserveDaemonRPC method (rpc_outcome (is_ok a)) (stop - start))) t3 tt.
Proof.
  split.
  - intros (start & t' & -> & H). simpl in H. apply Tr_bind in H as (t1 & t2 & r & -> & H1 & H2).
    apply Tr_bind in H2 as (t3 & t4 & [] & -> & H2 & H3).
    simpl in H3. destruct H3 as (stop & t5 & -> & H3). simpl in H3.
    apply Tr_bind in H3 as (t6 & t7 & [] & -> & H3 & [-> ->]).
    exists start, stop, t1, t3, t6. rewrite app_nil_r. done.
  - intros (start & stop & t1 & t2 & t3 & -> & H1 & H2 & H3). exists start, (t1 ++ t2 ++ Ev ENow stop :: t3).
    split; [done|]. simpl. apply Tr_bind. exists t1, (t2 ++ Ev ENow stop :: t3), a. split_and!; [done|done|].
    apply Tr_bind. exists t2, (Ev ENow stop :: t3), tt. split_and!; [done|done|].
    exists stop, t3. split; [done|]. simpl. apply Tr_bind. exists t3, [], tt. by rewrite app_nil_r.
Qed.

(** C29. The metered payee client, on every one of its methods: its behaviours are
    exactly those of the client it wraps, with the same answer, the clock read
    around them, and behind them one count of the call under its method and outcome
    and one observation of its duration under the same labels. *)
Theorem rpc_metered (inner : PayeeClient) (c : payee_call) (t : list event) (a : payee_resp c) :
  Tr (WithMetrics inner (Some LiveRecorder) c) t a <->
  exists start stop t1,
    t = Ev ENow start :: t1 ++
        [Ev (ERec (IncDaemonRPC (rpc_method c) (rpc_outcome (rpc_ok c a)))) tt; Ev ENow stop;
         Ev (ERec (ObserveDaemonRPC (rpc_method c) (rpc_outcome (rpc_ok c a)) (stop - start))) tt] /\
    Tr (inner c) t1 a.
Proof.
  assert (Hrec : forall (c : rec_call) t, Tr (rec_do LiveRecorder c) t tt <-> t = [Ev (ERec c) tt]).
  { intros rc t'. simpl. split; [by intros ([] & ? & -> & -> & _)|intros ->; by exists tt, []]. }
  destruct c; cbn [WithMetrics meteredClient rpc_method rpc_ok payee_resp] in *; rewrite metered_rpc_Tr; setoid_rewrite Hrec; (split;
    [intros (start & stop & t1 & t2 & t3 & -> & H & -> & ->); by exists start, stop, t1
    |intros (start & stop & t1 & -> & H); eexists start, stop, t1, _, _; (split_and!; [|exact H|reflexivity|reflexivity]); done]).
Qed.
