(* ===== verification/Backend.v ===== *)
(** [internal/providers/backendhttp]: the metrics decorator with its error
    classification ([interface.go]), the production client over [net/http]
    ([fetch.go]) and the in-memory fake ([fake.go]). *)
From stdpp Require Import base gmap strings list.
From Stdlib Require Import ZArith Lia Ascii String.
From S2P Require Import Prelude.
From S2P Require Import GoStrings.
From S2P Require Import GoConv.
From S2P Require Import GoUrl.
From S2P Require Import Types.
From S2P Require Import Prog.
From S2P Require Import Interp.

(** * interface.go *)

(** The order matters: a deadline is a timeout whatever its text says. *)
Definition classifyTransportError (err : option error) : string :=
  match err with
  | None => BackendErrorConnect
  | Some err =>
      if errors_Is err ErrDeadlineExceeded then BackendErrorTimeout
      else
        let s := ToLower (Error err) in
        if Contains s "timeout" || Contains s "deadline exceeded" then BackendErrorTimeout
        else if Contains s "read body" || Contains s "unexpected eof" || Contains s "malformed"
        then BackendErrorMalformed
        else BackendErrorConnect
  end.

Definition recordOutcome (rec : Recorder) (capability model : string) (start status : Z)
    (err : option error) : prog unit :=
  d ← since start;
  _ ← rec_do rec (ObserveBackendRequest capability model d);
  match err with
  | Some _ =>
      _ ← rec_do rec (IncBackendRequest capability model OutcomeError);
      rec_do rec (IncBackendError capability model (classifyTransportError err))
  | None =>
      if 500 <=? status then
        _ ← rec_do rec (IncBackendRequest capability model OutcomeError);
        rec_do rec (IncBackendError capability model BackendError5xx)
      else
        _ ← rec_do rec (IncBackendRequest capability model OutcomeOK);
        t ← now;
        rec_do rec (SetBackendLastSuccess capability model t)
  end.

Definition metered_raw (rec : Recorder) (capability model : string) (inner : prog raw_result)
  : prog raw_result :=
  start ← now;
  r ← inner;
  _ ← recordOutcome rec capability model start (rr_status r) (rr_err r);
  Ret r.
Definition metered_stream (rec : Recorder) (capability model : string) (inner : prog stream_result)
  : prog stream_result :=
  start ← now;
  r ← inner;
  _ ← recordOutcome rec capability model start (sr_status r) (sr_err r);
  Ret r.

Definition meteredClient (inner : BackendClient) (rec : Recorder) (capability model : string)
  : BackendClient := fun c =>
  match c as c return prog (backend_resp c) -> prog (backend_resp c) with
  | DoJSON _ _ | DoRaw _ _ _ => metered_raw rec capability model
  | DoStream _ _ => metered_stream rec capability model
  end (inner c).

Definition WithMetrics (c : BackendClient) (rec : option Recorder) (capability model : string)
  : BackendClient :=
  match rec with None => c | Some r => meteredClient c r capability model end.

(** * fetch.go *)

(** [io.ReadAll] of a response body: what was read, and the error if any. *)
Definition stream_ReadAll (s : stream) : string * option error :=
  (str_concat (st_chunks s), match st_end s with ErrEOF => None | e => Some e end).

(** [http.NewRequestWithContext] fails exactly when the URL does not parse. *)
Definition NewRequest (url body : string) (headers : header) : res http_request :=
  _ ← url_Parse url; Ok {| hq_url := url; hq_headers := headers; hq_body := body |}.

(** One call of [http.Client.Do]; the redirects it follows are below the model. *)
Definition http_Do (rq : http_request) : prog (res http_response) := trigger (EHttpDo rq).
Definition stream_Close : prog unit := trigger EStreamClose.

Definition fetch_DoRaw (url contentType body : string) : prog raw_result :=
  match NewRequest url body [("Content-Type", contentType)] with
  | Err e => Ret (RawResult 0 "" (Some (ErrWrap "backendhttp: build request" e)))
  | Ok req =>
      r ← http_Do req;
      match r with
      | Err e => Ret (RawResult 0 "" (Some (ErrWrap "backendhttp: do" e)))
      | Ok resp =>
          with_defer
            (let '(buf, err) := stream_ReadAll (hp_body resp) in
             match err with
             | Some e => Ret (RawResult (hp_status resp) "" (Some (ErrWrap "backendhttp: read body" e)))
             | None => Ret (RawResult (hp_status resp) buf None)
             end)
            (fun _ => stream_Close)
      end
  end.

Definition fetch_DoJSON (url body : string) : prog raw_result := fetch_DoRaw url "application/json" body.

Definition no_stream : stream := Stream [] ErrEOF.

Definition fetch_DoStream (url body : string) : prog stream_result :=
  match NewRequest url body [("Content-Type", "application/json"); ("Accept", "text/event-stream")] with
  | Err e => Ret (StreamResult 0 [] no_stream (Some (ErrWrap "backendhttp: build request" e)))
  | Ok req =>
      r ← http_Do req;
      match r with
      | Err e => Ret (StreamResult 0 [] no_stream (Some (ErrWrap "backendhttp: do" e)))
      | Ok resp =>
          if (hp_status resp <? 200) || (300 <=? hp_status resp) then
            let '(buf, _) := stream_ReadAll (hp_body resp) in
            _ ← stream_Close;
            Ret (StreamResult (hp_status resp) (hp_headers resp) (Stream [buf] ErrEOF) None)
          else Ret (StreamResult (hp_status resp) (hp_headers resp) (hp_body resp) None)
      end
  end.

Definition fetchClient : BackendClient := fun c =>
  match c as c return prog (backend_resp c) with
  | DoJSON url body => fetch_DoJSON url body
  | DoRaw url ct body => fetch_DoRaw url ct body
  | DoStream url body => fetch_DoStream url body
  end.

(** * fake.go: programmable responses, recording the calls it sees. *)
Record Fake := {
  bf_JSONStatus : Z;
  bf_JSONBody : string;
  bf_JSONErr : option error;
  bf_StreamStatus : Z;
  bf_StreamHeaders : header;
  bf_StreamChunks : list string;
  bf_StreamErr : option error;
  bf_Calls : list backend_call }.

Definition NewFake : Fake := {|
  bf_JSONStatus := 200; bf_JSONBody := ""; bf_JSONErr := None; bf_StreamStatus := 200;
  bf_StreamHeaders := []; bf_StreamChunks := []; bf_StreamErr := None; bf_Calls := [] |}.

Definition bf_record (c : backend_call) (f : Fake) : Fake := {|
  bf_JSONStatus := bf_JSONStatus f; bf_JSONBody := bf_JSONBody f; bf_JSONErr := bf_JSONErr f;
  bf_StreamStatus := bf_StreamStatus f; bf_StreamHeaders := bf_StreamHeaders f;
  bf_StreamChunks := bf_StreamChunks f; bf_StreamErr := bf_StreamErr f;
  bf_Calls := c :: bf_Calls f |}.

Definition Fake_DoRaw (f : Fake) : raw_result :=
  match bf_JSONErr f with
  | Some e => RawResult 0 "" (Some e)
  | None => RawResult (bf_JSONStatus f) (bf_JSONBody f) None
  end.
(** The chunks are written into one buffer before they are served. *)
Definition Fake_DoStream (f : Fake) : stream_result :=
  match bf_StreamErr f with
  | Some e => StreamResult 0 [] no_stream (Some e)
  | None => StreamResult (bf_StreamStatus f) (bf_StreamHeaders f)
              (Stream [str_concat (bf_StreamChunks f)] ErrEOF) None
  end.

Definition Fake_call (c : backend_call) (f : Fake) : backend_resp c * Fake :=
  match c as c return backend_resp c * Fake with
  | DoJSON url body => (Fake_DoRaw f, bf_record (DoRaw url "application/json" body) f)
  | DoRaw url ct body => (Fake_DoRaw f, bf_record (DoRaw url ct body) f)
  | DoStream url body => (Fake_DoStream f, bf_record (DoStream url body) f)
  end.

(** * What the decorator adds *)

(** The status and the error of an answer. *)
Definition answer_of (c : backend_call) : backend_resp c -> Z * option error :=
  match c with
  | DoJSON _ _ => fun a => (rr_status a, rr_err a)
  | DoRaw _ _ _ => fun a => (rr_status a, rr_err a)
  | DoStream _ _ => fun a => (sr_status a, sr_err a)
  end.

(** The error class counted for an answer, or [None] for a success. *)
Definition error_class (answer : Z * option error) : option string :=
  match snd answer with
  | Some _ => Some (classifyTransportError (snd answer))
  | None => if 500 <=? fst answer then Some BackendError5xx else None
  end.

(** What is recorded of an answer behind the observation of its duration. *)
Definition counted (capability model : string) (answer : Z * option error) (stamp : Z) : list event :=
  match error_class answer with
  | Some class =>
      [Ev (ERec (IncBackendRequest capability model OutcomeError)) tt;
       Ev (ERec (IncBackendError capability model class)) tt]
  | None =>
      [Ev (ERec (IncBackendRequest capability model OutcomeOK)) tt; Ev ENow stamp;
       Ev (ERec (SetBackendLastSuccess capability model stamp)) tt]
  end.

Lemma recordOutcome_Tr capability model start status err t :
  Tr (recordOutcome LiveRecorder capability model start status err) t tt <->
  exists stop stamp,
    t = Ev ENow stop :: Ev (ERec (ObserveBackendRequest capability model (stop - start))) tt ::
        counted capability model (status, err) stamp.
Proof.
  unfold recordOutcome, counted, error_class. simpl. split.
  - intros (stop & t1 & -> & [] & t2 & -> & H).
    destruct err as [e|]; [|destruct (500 <=? status)]; simpl in H.
    + destruct H as ([] & t3 & -> & [] & t4 & -> & -> & _). by exists stop, 0.
    + destruct H as ([] & t3 & -> & [] & t4 & -> & -> & _). by exists stop, 0.
    + destruct H as ([] & t3 & -> & stamp & t4 & -> & [] & t5 & -> & -> & _). by exists stop, stamp.
  - intros (stop & stamp & ->). do 2 eexists; split; [reflexivity|]. exists tt. eexists; split; [reflexivity|].
    destruct err as [e|]; [|destruct (500 <=? status)]; simpl; by eauto 12.
Qed.

Lemma metered_Tr {A} capability model (inner : prog A) (answer : A -> Z * option error) t a :
  Tr (start ← now;
      r ← inner;
      _ ← recordOutcome LiveRecorder capability model start (fst (answer r)) (snd (answer r));
      Ret r) t a <->
  exists start t1 t2, t = Ev ENow start :: t1 ++ t2 /\ Tr inner t1 a /\
    Tr (recordOutcome LiveRecorder capability model start (fst (answer a)) (snd (answer a))) t2 tt.
Proof.
  split.
  - intros (start & t' & -> & H).
    change (Tr (bind inner (fun r => bind (recordOutcome LiveRecorder capability model start (fst (answer r))
      (snd (answer r))) (fun _ => Ret r))) t' a) in H.
    apply Tr_bind in H as (t1 & t2 & r & -> & H1 & H2). apply Tr_bind in H2 as (t3 & t4 & [] & -> & H2 & [-> ->]).
    exists start, t1, t3. by rewrite app_nil_r.
  - intros (start & t1 & t2 & -> & H1 & H2). exists start, (t1 ++ t2). split; [done|].
    change (Tr (bind inner (fun r => bind (recordOutcome LiveRecorder capability model start (fst (answer r))
      (snd (answer r))) (fun _ => Ret r))) (t1 ++ t2) a).
    apply Tr_bind. exists t1, t2, a. split_and!; [done|done|].
    apply Tr_bind. exists t2, [], tt. by rewrite app_nil_r.
Qed.

(** C30. The metered backend client, on every one of its methods: its behaviours are
    exactly those of the client it wraps, with the same answer, the clock read
    around them; behind them the duration is observed once, and the answer is counted
    once, as an error with its class when the transport failed or the status is 500
    and above, otherwise as a success that is also time-stamped. *)
Theorem backend_metered (inner : BackendClient) (capability model : string) (c : backend_call)
    (t : list event) (a : backend_resp c) :
  Tr (WithMetrics inner (Some LiveRecorder) capability model c) t a <->
  exists start stop stamp t1,
    t = Ev ENow start :: t1 ++
        Ev ENow stop :: Ev (ERec (ObserveBackendRequest capability model (stop - start))) tt ::
        counted capability model (answer_of c a) stamp /\
    Tr (inner c) t1 a.
Proof.
  assert (Hc : Tr (WithMetrics inner (Some LiveRecorder) capability model c) t a <->
    exists start t1 t2, t = Ev ENow start :: t1 ++ t2 /\ Tr (inner c) t1 a /\
      Tr (recordOutcome LiveRecorder capability model start (fst (answer_of c a)) (snd (answer_of c a))) t2 tt).
  { destruct c as [url body|url ct body|url body].
    - exact (metered_Tr capability model _ (answer_of (DoJSON url body)) t a).
    - exact (metered_Tr capability model _ (answer_of (DoRaw url ct body)) t a).
    - exact (metered_Tr capability model _ (answer_of (DoStream url body)) t a). }
  rewrite Hc. setoid_rewrite recordOutcome_Tr. destruct (answer_of c a) as [status err]. simpl. split.
  - intros (start & t1 & t2 & -> & H & stop & stamp & ->). by exists start, stop, stamp, t1.
  - intros (start & stop & stamp & t1 & -> & H). eexists start, t1, _. by eauto.
Qed.
