(* ===== verification/Tokenizer.v ===== *)
(** [internal/providers/tokenizer]: the word-count estimator, the metrics
    decorator and the tiktoken-backed tokenizer with its per-model cache
    ([tokenizer.go], [tiktoken.go]).  The tiktoken-go library is a parameter: its
    encodings, and what it answers each time it is asked for one. *)
From stdpp Require Import base gmap strings list.
From Stdlib Require Import ZArith Lia Ascii String.
From S2P Require Import Prelude.
From S2P Require Import GoStrings.
From S2P Require Import Types.
From S2P Require Import Prog.

(** The [Tokenizer] interface. *)
Record Tokenizer := {
  CountTokens : string -> prog Z;
  CountTokensForModel : string -> string -> prog Z }.

(** * tokenizer.go: WordCount *)

Definition isSep (r : Z) : bool :=
  (r =? 32) || (r =? 9) || (r =? 10) || (r =? 13) || (r =? 11) || (r =? 12).

(** The loop over the runes with its two variables. *)
Fixpoint count_words (rs : list Z) (words : Z) (inToken : bool) : Z :=
  match rs with
  | [] => words
  | r :: rs' =>
      if isSep r then count_words rs' words false
      else if inToken then count_words rs' words true
      else count_words rs' (wrap64 (words + 1)) true
  end.

Record wordCount := { wc_mul : Z }.

Definition wordCount_CountTokens (w : wordCount) (s : string) : Z :=
  if str_nil s then 0
  else
    let words := count_words (runes s) 0 false in
    if words =? 0 then 0
    else wrap64 (Z.quot (wrap64 (wrap64 (words * wc_mul w) + 99)) 100).

Definition newWordCount (multiplierPct : Z) : wordCount :=
  {| wc_mul := if multiplierPct <=? 0 then 133 else multiplierPct |}.

Definition wordCount_tokenizer (w : wordCount) : Tokenizer := {|
  CountTokens := fun s => Ret (wordCount_CountTokens w s);
  CountTokensForModel := fun _ s => Ret (wordCount_CountTokens w s) |}.

Definition NewWordCount (multiplierPct : Z) : Tokenizer :=
  wordCount_tokenizer (newWordCount multiplierPct).

Definition CountJoined (t : Tokenizer) (parts : list string) : prog Z :=
  CountTokens t (Join parts " ").

(** * tokenizer.go: WithMetrics *)

Definition meteredTokenizer (inner : Tokenizer) (rec : Recorder) : Tokenizer := {|
  CountTokens := fun s =>
    n ← CountTokens inner s; _ ← rec_do rec (IncTokenizerCall "" OutcomeOK); Ret n;
  CountTokensForModel := fun model s =>
    n ← CountTokensForModel inner model s; _ ← rec_do rec (IncTokenizerCall model OutcomeOK); Ret n |}.

Definition WithMetrics (t : Tokenizer) (rec : option Recorder) : Tokenizer :=
  match rec with None => t | Some r => meteredTokenizer t r end.

(** * tiktoken.go *)

Section Tiktoken.
(** An encoding of tiktoken-go, and the tokens of a text under it.  The library may
    fetch its tables when it is asked for an encoding, so what it answers is not a
    function of the name: each question has its own answer. *)
Context {Enc : Type} (Encode : Enc -> string -> list Z).

Definition defaultEncoding : string := "cl100k_base".

(** The cache maps a model to its encoding, or to nil when it has none. *)
Abbreviation cache := (gmap string (option Enc)).

Record tiktokenTokenizer := {
  tk_fallback : Tokenizer;
  tk_defaultEnc : option Enc }.

Definition found (answer : res Enc) : option Enc := match answer with Ok enc => Some enc | Err _ => None end.

(** [default_encoding] is the answer of [tiktoken.GetEncoding(defaultEncoding)]; a nil
    fallback is the word count. *)
Definition NewTiktoken (fallback : option Tokenizer) (default_encoding : res Enc) : tiktokenTokenizer := {|
  tk_fallback := default (NewWordCount 133) fallback;
  tk_defaultEnc := found default_encoding |}.

(** The critical section of [encodingFor]; [answer] is what
    [tiktoken.EncodingForModel(model)] answers if it is asked. *)
Definition encodingFor (answer : res Enc) (model0 : string) (modelEnc : cache) : option Enc * cache :=
  let model := TrimSpace model0 in
  if str_nil model then (None, modelEnc)
  else match modelEnc !! model with
       | Some entry => (entry, modelEnc)
       | None =>
           match answer with
           | Err _ => (None, <[model := None]> modelEnc)
           | Ok enc => (Some enc, <[model := Some enc]> modelEnc)
           end
       end.

Definition len_tokens (enc : Enc) (s : string) : Z := Z.of_nat (length (Encode enc s)).

(** The encoding if there is one, else the default one, else the fallback. *)
Definition count_with (t : tiktokenTokenizer) (enc : option Enc) (fallback : prog Z) (s : string) : prog Z :=
  match enc with
  | Some enc => Ret (len_tokens enc s)
  | None => match tk_defaultEnc t with
            | Some enc => Ret (len_tokens enc s)
            | None => fallback
            end
  end.

Definition tiktoken_CountTokens (t : tiktokenTokenizer) (s : string) : prog Z :=
  if str_nil s then Ret 0 else count_with t None (CountTokens (tk_fallback t) s) s.

Definition tiktoken_CountTokensForModel (t : tiktokenTokenizer) (answer : res Enc) (model s : string) (c : cache)
  : prog Z * cache :=
  if str_nil s then (Ret 0, c)
  else
    let '(enc, c') := encodingFor answer model c in
    (count_with t enc (CountTokensForModel (tk_fallback t) model s) s, c').

(** ** A process *)

(** One call, with the answer of the library at its time. *)
Record count_call := CountCall { cc_model : string; cc_text : string; cc_answer : res Enc }.

(** The calls of a process, in the order of their critical sections, on its one cache. *)
Fixpoint tiktoken_run (t : tiktokenTokenizer) (calls : list count_call) (c : cache) : list (prog Z) :=
  match calls with
  | [] => []
  | call :: calls' =>
      let '(n, c') := tiktoken_CountTokensForModel t (cc_answer call) (cc_model call) (cc_text call) c in
      n :: tiktoken_run t calls' c'
  end.

(** The tokenizer as the modules see it: no cache, and one answer of the library per
    model for the life of the process. *)
Definition tiktoken_tokenizer (t : tiktokenTokenizer) (first_encoding : string -> res Enc) : Tokenizer := {|
  CountTokens := tiktoken_CountTokens t;
  CountTokensForModel := fun model s => fst (tiktoken_CountTokensForModel t (first_encoding (TrimSpace model)) model s ∅) |}.

(** The model a call asks about: none for an empty text or a blank name. *)
Definition asks (call : count_call) (model : string) : bool :=
  negb (str_nil (cc_text call)) && negb (str_nil (TrimSpace (cc_model call))) && String.eqb (TrimSpace (cc_model call)) model.
(** What the library answers to the first call about a model. *)
Definition first_answer (calls : list count_call) (model : string) : res Enc :=
  match List.find (fun call => asks call model) calls with
  | Some call => cc_answer call
  | None => Err (ErrText "")
  end.

(** The cache holds the first answer of every model in it. *)
Definition cache_of (first : string -> res Enc) (c : cache) : Prop :=
  forall model entry, c !! model = Some entry -> entry = found (first model).

(** What the critical section does to a cache of first answers, when a question it asks
    is the first about its model. *)
Lemma encodingFor_first first answer model c :
  cache_of first c ->
  (str_nil (TrimSpace model) = false -> c !! TrimSpace model = None -> answer = first (TrimSpace model)) ->
  cache_of first (snd (encodingFor answer model c)) /\
  fst (encodingFor answer model c) = fst (encodingFor (first (TrimSpace model)) model ∅).
Proof.
  unfold encodingFor. intros Hc Ha. destruct (str_nil (TrimSpace model)); [done|]. rewrite lookup_empty.
  destruct (c !! TrimSpace model) as [entry|] eqn:E.
  - split; [done|]. rewrite (Hc _ _ E). by destruct (first (TrimSpace model)).
  - rewrite (Ha eq_refl eq_refl). destruct (first (TrimSpace model)) as [enc|er] eqn:Ef; simpl; (split; [|done]);
      intros m ent; rewrite lookup_insert; case_decide; intros Hm; simplify_eq; try rewrite Ef; eauto.
Qed.
(** A model that is not in the cache afterwards is not in it before, and was not asked. *)
Lemma encodingFor_misses answer model c m :
  snd (encodingFor answer model c) !! m = None ->
  c !! m = None /\ (str_nil (TrimSpace model) = false -> TrimSpace model <> m).
Proof.
  unfold encodingFor. destruct (str_nil (TrimSpace model)) eqn:Hn; [done|].
  destruct (c !! TrimSpace model) as [entry|] eqn:E; simpl.
  - intros Hm. split; [done|]. intros _ <-. congruence.
  - destruct answer; simpl; rewrite lookup_insert; case_decide; naive_solver.
Qed.

Lemma run_first t first calls c :
  cache_of first c ->
  (forall model call, c !! model = None -> List.find (fun call => asks call model) calls = Some call ->
     cc_answer call = first model) ->
  tiktoken_run t calls c =
  (fun call => CountTokensForModel (tiktoken_tokenizer t first) (cc_model call) (cc_text call)) <$> calls.
Proof.
  revert c. induction calls as [|[model s answer] calls IH]; intros c Hc Hf; [done|].
  cbn [tiktoken_run cc_model cc_text cc_answer]. csimpl. unfold tiktoken_CountTokensForModel.
  destruct (str_nil s) eqn:Hs.
  { cbn [fst]. f_equal. apply IH; [done|]. intros m call Hm Hcall. apply (Hf m call Hm).
    cbn [List.find]. unfold asks at 1. cbn [cc_text]. by rewrite Hs. }
  destruct (encodingFor_first first answer model c Hc) as [H1 H2].
  { intros Hn Hmiss. apply (Hf _ (CountCall model s answer) Hmiss). cbn [List.find]. unfold asks at 1.
    cbn [cc_text cc_model]. by rewrite Hs, Hn, String.eqb_refl. }
  pose proof (encodingFor_misses answer model c) as Hmiss.
  destruct (encodingFor answer model c) as [enc c'] eqn:E1. cbn [fst snd] in *. rewrite H2.
  destruct (encodingFor (first (TrimSpace model)) model ∅). cbn [fst]. f_equal.
  apply IH; [done|]. intros m call Hm Hcall. destruct (Hmiss m Hm) as [Hc' Hne].
  apply (Hf m call Hc'). cbn [List.find]. unfold asks at 1. cbn [cc_text cc_model].
  rewrite Hs. destruct (str_nil (TrimSpace model)) eqn:Hn; [done|]. cbn [negb andb].
  by destruct (String.eqb_spec (TrimSpace model) m) as [E|_]; [destruct (Hne eq_refl E)|].
Qed.

(** C36. The encoding cache fixes a tokenizer for the life of the process.  Whatever
    the calls, in whatever order their critical sections run, and whatever the library
    answers each time, every count is the one of a tokenizer without a cache in which a
    model has one answer of the library for good: the answer to the first call about it,
    a failure included.  (So a failure that would have passed is kept.) *)
Theorem tiktoken_first_answers (t : tiktokenTokenizer) (calls : list count_call) :
  tiktoken_run t calls ∅ =
  (fun call => CountTokensForModel (tiktoken_tokenizer t (first_answer calls)) (cc_model call) (cc_text call)) <$> calls.
Proof.
  apply run_first; [by intros model entry Hm; rewrite lookup_empty in Hm|].
  intros model call _ Hcall. unfold first_answer. by rewrite Hcall.
Qed.
End Tiktoken.

(** A small library for examples: one known model, tokens are the runes. *)
Definition demo_first_encoding (model : string) : res string :=
  if String.eqb model "gpt-4o" then Ok "o200k_base" else Err (ErrLib "tiktoken" "no encoding for model").
Definition demo_encode (enc s : string) : list Z := runes s.

(** A table that could not be fetched once is not asked for again: without the default
    encoding the word count stands in, now and later. *)
Example failure_is_kept :
  let t := NewTiktoken (Some (NewWordCount 100)) (Err (ErrLib "tiktoken" "no network") : res string) in
  tiktoken_run demo_encode t
    [CountCall "gpt-4o" "abc" (Err (ErrLib "tiktoken" "no network")); CountCall " gpt-4o" "abc" (Ok "o200k_base");
     CountCall "gpt-4" "abc" (Ok "cl100k_base")] ∅ = [Ret 1; Ret 1; Ret 3].
Proof. vm_compute. reflexivity. Qed.

(** * Bounds of the word count *)

(** The number of words, as a specification: maximal runs of non-separators. *)
Fixpoint words_of (rs : list Z) (inToken : bool) : nat :=
  match rs with
  | [] => 0
  | r :: rs' => if isSep r then words_of rs' false
                else (if inToken then 0 else 1) + words_of rs' true
  end%nat.

Lemma words_of_le rs b : (words_of rs b <= length rs)%nat.
Proof.
  revert b. induction rs as [|r rs IH]; intros b; simpl; [done|].
  destruct (isSep r); [pose proof (IH false); lia|]. pose proof (IH true). destruct b; lia.
Qed.

Lemma count_words_spec rs w b :
  0 <= w -> w + Z.of_nat (length rs) <= int64_max ->
  count_words rs w b = w + Z.of_nat (words_of rs b).
Proof.
  revert w b. induction rs as [|r rs IH]; intros w b Hw Hb; simpl in *; [lia|].
  destruct (isSep r); [apply IH; lia|]. destruct b.
  - rewrite IH by lia. lia.
  - rewrite wrap64_id by int64_lia. rewrite IH by int64_lia. lia.
Qed.

(** The word-count estimate is the number of words times the multiplier in
    percent, rounded up, whenever that product fits an [int]; in particular it
    is never below the real quotient. *)
Theorem wordCount_ceil (w : wordCount) (s : string) :
  0 < wc_mul w -> Z.of_nat (length (runes s)) * wc_mul w + 99 <= int64_max ->
  let words := Z.of_nat (words_of (runes s) false) in
  let n := wordCount_CountTokens w s in
  100 * (n - 1) < words * wc_mul w <= 100 * n.
Proof.
  intros Hm Hfit. simpl.
  pose proof (words_of_le (runes s) false) as Hle.
  unfold wordCount_CountTokens. destruct s as [|a s]; [simpl; lia|]. cbn [str_nil].
  set (rs := runes (String a s)) in *.
  rewrite count_words_spec by (int64_lia || nia).
  rewrite Z.add_0_l. destruct (Z.eqb_spec (Z.of_nat (words_of rs false)) 0) as [E|E]; [rewrite E; lia|].
  set (n := Z.of_nat (words_of rs false)) in *.
  assert (0 <= n * wc_mul w <= int64_max - 99) by nia.
  rewrite (wrap64_id (n * wc_mul w)) by int64_lia. rewrite (wrap64_id (_ + 99)) by int64_lia.
  rewrite Z.quot_div_nonneg by lia.
  pose proof (Z.div_mod (n * wc_mul w + 99) 100). pose proof (Z.mod_pos_bound (n * wc_mul w + 99) 100).
  rewrite wrap64_id by int64_lia. lia.
Qed.

Lemma wordCount_ceil_witness :
  100 * (4 - 1) < 3 * 133 <= 100 * 4.
Proof.
  exact (wordCount_ceil (newWordCount 133) "the quick fox" ltac:(reflexivity) ltac:(vm_compute; discriminate)).
Defined.
