(* ===== verification/ResponseWriter.v ===== *)
(** The response writer: the methods of middleware.go's [statusWriter] and of
    the writer of net/http behind one interface, and what the worker writes
    through it ([http.Error], [json.Encoder], [writeJSONError]).  [sw_step]
    is the specification of a status writer: the status of a trace. *)
From stdpp Require Import base gmap strings list.
From Stdlib Require Import ZArith Lia Ascii String.
From S2P Require Import Prelude.
From S2P Require Import GoStrings.
From S2P Require Import GoConv.
From S2P Require Import GoUnmarshal.
From S2P Require Import Types.
From S2P Require Import Prog.

(** [http.ResponseWriter]; the writer's state is threaded through. *)
Class ResponseWriter (W : Type) := {
  WriteHeader : Z -> W -> prog W;
  Write : string -> W -> prog (W * option error) }.

(** [w.Header().Set(k, v)]. *)
Definition Header_Set (k v : string) : prog unit := trigger (ESetHeader k v).

(** The writer of net/http: every call reaches the wire. *)
#[export] Instance net_writer : ResponseWriter unit := {|
  WriteHeader := fun code _ => _ ← trigger (EWriteHeader code); Ret tt;
  Write := fun b _ => err ← trigger (EWrite b); Ret (tt, err) |}.

(** net/http's [WriteHeader] panics on a code outside 100..999 when no header was
    written; an informational code is sent, and does not count as the header. *)
Definition checkWriteHeaderCode (code : Z) : bool := (100 <=? code) && (code <=? 999).
Definition informational (code : Z) : bool := (100 <=? code) && (code <=? 199) && negb (code =? 101).

(** * middleware.go: statusWriter *)

Definition statusWriter_record (code : Z) (s : statusWriter) : statusWriter :=
  if negb (sw_wrote s) then StatusWriter code true (sw_flusher s) else s.

(** Whether the wrapped writer panics on a code. *)
Definition header_panics (code : Z) (s : statusWriter) : bool :=
  negb (checkWriteHeaderCode code) && negb (sw_wrote s).

(** [WriteHeader] with any code: the status is recorded, then the wrapped writer is
    called, and its panic, if it has one, is handed to the caller. *)
Definition statusWriter_WriteHeader (code : Z) (s : statusWriter) : prog (statusWriter * option string) :=
  let s' := statusWriter_record code s in
  if header_panics code s
  then Ret (s', Some ("invalid WriteHeader code " +:+ FormatInt code))
  else _ ← trigger (EWriteHeader code); Ret (s', None).

(** [WriteHeader] with a code net/http accepts, as every constant of the source. *)
Definition statusWriter_header (code : Z) (s : statusWriter) : prog statusWriter :=
  _ ← trigger (EWriteHeader code); Ret (statusWriter_record code s).
Lemma statusWriter_header_eq code s :
  checkWriteHeaderCode code = true ->
  statusWriter_WriteHeader code s = s ← statusWriter_header code s; Ret (s, None).
Proof. unfold statusWriter_WriteHeader, header_panics. by intros ->. Qed.

Definition statusWriter_Write (b : string) (s : statusWriter) : prog (statusWriter * option error) :=
  let s' := if negb (sw_wrote s) then StatusWriter 200 true (sw_flusher s) else s in
  err ← trigger (EWrite b); Ret (s', err).

Definition statusWriter_Flush (s : statusWriter) : prog unit :=
  if sw_flusher s then trigger EFlush else Ret tt.

#[export] Instance status_writer : ResponseWriter statusWriter := {|
  WriteHeader := statusWriter_header;
  Write := statusWriter_Write |}.

(** * What handlers write *)

(** [http.Error]. *)
Definition http_Error {W} `{ResponseWriter W} (w : W) (msg : string) (code : Z) : prog W :=
  _ ← Header_Set "Content-Type" "text/plain; charset=utf-8";
  _ ← Header_Set "X-Content-Type-Options" "nosniff";
  w ← WriteHeader code w;
  '(w, _) ← Write (msg +:+ nl) w;
  Ret w.

(** [json.NewEncoder(w).Encode(v)], its error ignored. *)
Definition json_Encode {W} `{ResponseWriter W} (w : W) (text : string) : prog W :=
  '(w, _) ← Write (text +:+ nl) w; Ret w.

(** The body of the error contract. *)
Definition error_body (code detail : string) : string :=
  Marshal (AMap [("detail", AString detail); ("error", AString code)]).

(** [writeJSONError]. *)
Definition writeJSONError {W} `{ResponseWriter W} (w : W) (status : Z) (code detail : string) : prog W :=
  _ ← Header_Set "Content-Type" "application/json";
  w ← WriteHeader status w;
  json_Encode w (error_body code detail).

(** * Specification *)

(** The header on the wire: the first one that is not informational, or 200 if a body
    byte or a flush came first. *)
Definition sw_step (s : statusWriter) (e : eff) : statusWriter :=
  if sw_wrote s then s
  else match e with
       | EWriteHeader code => if informational code then s else StatusWriter code true (sw_flusher s)
       | EWrite _ | EFlush => StatusWriter 200 true (sw_flusher s)
       | _ => s
       end.

(** The codes a response can end in. *)
Definition final_code (code : Z) : bool := checkWriteHeaderCode code && negb (informational code).

(** A status writer agrees with the wire, unless it has recorded a code that is no
    response's: then the wire has none (a panic) or a later one. *)
Definition agrees (wire s : statusWriter) : Prop :=
  wire = s \/ (sw_wrote s = true /\ final_code (sw_status s) = false).

Lemma agrees_refl s : agrees s s.
Proof. by left. Qed.
Lemma agrees_wrote wire s e : sw_wrote s = true -> agrees wire s -> agrees (sw_step wire e) s.
Proof. intros Hw [->|H]; [left; unfold sw_step; by rewrite Hw|by right]. Qed.
Lemma agrees_record wire s code : agrees wire s -> agrees (sw_step wire (EWriteHeader code)) (statusWriter_record code s).
Proof.
  intros [->|[Hw Hf]]; unfold statusWriter_record.
  - unfold sw_step. destruct (sw_wrote s); simpl; [by left|]. destruct (informational code) eqn:E; [right|by left].
    simpl. split; [done|]. unfold final_code. by rewrite E, andb_false_r.
  - rewrite Hw. by right.
Qed.
Lemma agrees_panic wire s code : header_panics code s = true -> agrees wire (statusWriter_record code s).
Proof.
  unfold header_panics, statusWriter_record. intros H. right. destruct (sw_wrote s); [by rewrite andb_false_r in H|].
  rewrite andb_true_r in H. apply negb_true_iff in H. unfold final_code. simpl. by rewrite H.
Qed.
Lemma record_wrote code s : sw_wrote (statusWriter_record code s) = true.
Proof. by destruct s as [? [] ?]. Qed.
Lemma agrees_write wire s b :
  agrees wire s -> agrees (sw_step wire (EWrite b)) (if negb (sw_wrote s) then StatusWriter 200 true (sw_flusher s) else s).
Proof.
  intros H. destruct (sw_wrote s) eqn:Hw; [by apply agrees_wrote|].
  destruct H as [->|[Hw' _]]; [|congruence]. left. unfold sw_step. by rewrite Hw.
Qed.
Lemma agrees_final wire s : agrees wire s -> final_code (sw_status s) = true -> wire = s.
Proof. intros [->|[_ H]]; [done|congruence]. Qed.
#[export] Hint Resolve agrees_refl agrees_wrote agrees_record agrees_write : go.

Definition wire_status (s : statusWriter) (t : list event) : statusWriter :=
  fold_left (fun s x => match x with Ev e _ => sw_step s e end) t s.

(** A program that threads a status writer and leaves it in agreement with the wire. *)
Definition tracks {A} (p : prog A) (s : statusWriter) (out : A -> statusWriter) : Prop :=
  forall wire, agrees wire s ->
  safe (fun g x => match x with Ev e _ => Next (sw_step g e) end) p (fun g a => agrees g (out a)) wire.

Lemma tracks_bind {A B} (p : prog A) (f : A -> prog B) s out out' :
  tracks p s out -> (forall a, tracks (f a) (out a) out') -> tracks (bind p f) s out'.
Proof.
  intros Hp Hf wire Hw. apply safe_bind.
  eapply safe_mono; [|by apply Hp]. simpl. intros g a. apply Hf.
Qed.

Lemma tracks_WriteHeader code s : tracks (WriteHeader code s) s (fun s' => s').
Proof. intros wire Hw r. by apply agrees_record. Qed.
Lemma tracks_Write b s : tracks (Write b s) s fst.
Proof. intros wire Hw r. by apply agrees_write. Qed.
Lemma tracks_Header_Set k v s : tracks (Header_Set k v) s (fun _ => s).
Proof. intros wire Hw r. cbn. unfold sw_step. by destruct (sw_wrote wire). Qed.

Lemma tracks_http_Error msg code s : tracks (http_Error s msg code) s (fun s' => s').
Proof.
  unfold http_Error.
  eapply tracks_bind; [apply tracks_Header_Set|intros ?; cbn beta].
  eapply tracks_bind; [apply tracks_Header_Set|intros ?; cbn beta].
  eapply tracks_bind; [apply tracks_WriteHeader|intros s1].
  eapply tracks_bind; [apply tracks_Write|intros [s2 e]]. by intros wire.
Qed.

Lemma tracks_writeJSONError s status code detail :
  tracks (writeJSONError s status code detail) s (fun s' => s').
Proof.
  unfold writeJSONError, json_Encode.
  eapply tracks_bind; [apply tracks_Header_Set|intros ?; cbn beta].
  eapply tracks_bind; [apply tracks_WriteHeader|intros s1].
  eapply tracks_bind; [apply tracks_Write|intros [s2 e]]. by intros wire.
Qed.
#[export] Hint Resolve tracks_WriteHeader tracks_Write tracks_Header_Set tracks_http_Error
  tracks_writeJSONError : go.

Lemma tracks_sound {A} (p : prog A) s out t a :
  tracks p s out -> Tr p t a -> agrees (wire_status s t) (out a).
Proof.
  intros Hp Ht. pose proof (safe_sound _ _ _ _ _ _ (Hp s (agrees_refl s)) Ht) as H.
  enough (E : forall g, mon_run (fun g x => match x with Ev e _ => Next (sw_step g e) end) g t
              = Next (wire_status g t)) by (by rewrite E in H).
  clear. induction t as [|[e r] t IH]; intros s; simpl; [done|]. by rewrite IH.
Qed.

(** A program that never answers the client leaves the writer alone. *)
Definition silent_eff (e : eff) : Prop :=
  match e with EWriteHeader _ | EWrite _ | EFlush => False | _ => True end.
Lemma silent_step g e : silent_eff e -> sw_step g e = g.
Proof. unfold sw_step. destruct (sw_wrote g); [done|]. by destruct e. Qed.
Lemma tracks_silent {A} (p : prog A) s : emits silent_eff p -> tracks p s (fun _ => s).
Proof.
  intros Hp wire Hw. eapply (emits_safe _ silent_eff); [|done|done].
  intros e r He. by rewrite silent_step.
Qed.
