(* ===== verification/Env.v ===== *)
(** Environments for the examples: every effect answered by a fixed value,
    with the payee daemon and the backend played by their in-memory fakes. *)
From stdpp Require Import base gmap strings list.
From Stdlib Require Import ZArith Ascii String.
From S2P Require Import Prelude.
From S2P Require Import GoConv.
From S2P Require Import Types.
From S2P Require Import Prog.
From S2P Require Import Payee.
From S2P Require Import Backend.

(** The state of the environment: the two fakes. *)
Record env := Env { env_payee : Payee.Fake; env_backend : Backend.Fake }.

Definition quiet_module (c : module_call) : module_resp c :=
  match c with
  | ExtractModel _ => Ok "llama-3"
  | EstimateWorkUnits _ _ => Ok 10
  | Serve w _ _ _ _ => ServeResult (StatusWriter 200 true (sw_flusher w)) 12 None
  end.
(** The daemon's catalog: one capability with two offerings. *)
Definition demo_catalog : list pb_CapabilityEntry := [
  {| pb_Capability := "openai:/v1/chat/completions"; pb_WorkUnit := "token";
     pb_Offerings := [
       {| pb_Id := "gemma4:26b"; pb_PriceInfo_ := Some {| pb_PricePerUnit := 1250000; pb_PixelsPerUnit := 1 |} |};
       {| pb_Id := "llama-3"; pb_PriceInfo_ := Some {| pb_PricePerUnit := 5000000; pb_PixelsPerUnit := 1 |} |}] |}].
Definition quiet_grpc (c : grpc_call) : grpc_resp c :=
  match c with
  | GrpcListCapabilities => Ok demo_catalog
  | GrpcGetQuote _ _ => Err (ErrStatus CodeUnimplemented "")
  | GrpcGetTicketParams _ _ _ _ _ => Ok None
  | GrpcOpenSession _ _ _ _ _ => Ok OUTCOME_OPENED
  | GrpcProcessPayment _ _ => Ok {| pb_Sender := "s"; pb_CreditedEv := "a"; pb_PPBalance := "a"; pb_WinnersQueued := 0 |}
  | GrpcDebitBalance _ _ _ => Ok "a"
  | GrpcCloseSession _ _ => Ok tt
  end.

(** Writes succeed, the clock stands at zero, a slot is free. *)
Definition demo_env (e : eff) (w : env) : resp e * env :=
  match e as e return resp e * env with
  | ENow => (0, w)
  | ESemLen => (0, w)
  | ESemTryAcquire => (true, w)
  | ECtxErr => (None, w)
  | EWrite _ => (None, w)
  | EModule c => (quiet_module c, w)
  | EPayee c => let '(r, f) := Payee.Fake_call c (env_payee w) in (r, Env f (env_backend w))
  | EBackend c => let '(r, f) := Backend.Fake_call c (env_backend w) in (r, Env (env_payee w) f)
  | EGrpc c => (quiet_grpc c, w)
  | EHttpDo _ => (Ok (HttpResponse 200 [] (Stream ["{}"] ErrEOF)), w)
  | ESemRelease => (tt, w)
  | ERec _ => (tt, w)
  | ELog _ _ => (tt, w)
  | ESetHeader _ _ => (tt, w)
  | EWriteHeader _ => (tt, w)
  | EFlush => (tt, w)
  | EStreamClose => (tt, w)
  end.

Definition env0 : env := Env Payee.NewFake Backend.NewFake.
