(* ===== verification/Module.v ===== *)
(** [internal/service/modules/module.go]: the [Module] interface, and what the
    middleware relies on from a module, as a class the six capability modules
    are instances of. *)
From stdpp Require Import base gmap strings list.
From Stdlib Require Import ZArith Lia Ascii String.
From S2P Require Import Prelude.
From S2P Require Import GoStrings.
From S2P Require Import GoConv.
From S2P Require Import GoUnmarshal.
From S2P Require Import Types.
From S2P Require Import Prog.
From S2P Require Import Interp.
From S2P Require Import Backend.
From S2P Require Import Tokenizer.
From S2P Require Import ResponseWriter.

(** The four constant methods, and [ExtractModel], [EstimateWorkUnits] and
    [Serve] as one implementation. *)
Record Module := {
  mod_Capability : CapabilityID;
  mod_HTTPMethod : string;
  mod_HTTPPath : string;
  mod_Unit : string;
  mod_methods : ModuleImpl }.

(** * Effects a module may have *)

(** The recorder methods of the tokenizer and backend decorators. *)
Definition module_rec (c : rec_call) : bool :=
  match c with
  | IncTokenizerCall _ _ | IncBackendRequest _ _ _ | ObserveBackendRequest _ _ _
  | IncBackendError _ _ _ | SetBackendLastSuccess _ _ _ => true
  | _ => false
  end.

Definition tokenizer_eff (e : eff) : Prop :=
  match e with ERec (IncTokenizerCall _ _) => True | _ => False end.

Class TokenizerLaws (tok : Tokenizer) : Prop := {
  law_CountTokens : forall s, emits tokenizer_eff (CountTokens tok s);
  law_CountTokensForModel : forall model s, emits tokenizer_eff (CountTokensForModel tok model s) }.

#[export] Instance wordCount_laws w : TokenizerLaws (wordCount_tokenizer w).
Proof. by split. Qed.
#[export] Instance tiktoken_laws {Enc} (encode : Enc -> string -> list Z) t first
  `{!TokenizerLaws (tk_fallback t)} : TokenizerLaws (tiktoken_tokenizer encode t first).
Proof.
  assert (Hc : forall enc p s, emits tokenizer_eff p -> emits tokenizer_eff (count_with encode t enc p s)).
  { intros enc p s Hp. unfold count_with. destruct enc; [done|]. by destruct (tk_defaultEnc t). }
  split; intros; cbn [CountTokens CountTokensForModel tiktoken_tokenizer].
  - unfold tiktoken_CountTokens. destruct (str_nil s); [done|]. apply Hc, law_CountTokens.
  - unfold tiktoken_CountTokensForModel. destruct (str_nil s); [done|]. destruct (encodingFor _ _ _).
    apply Hc, law_CountTokensForModel.
Qed.
#[export] Instance meteredTokenizer_laws tok rec `{!TokenizerLaws tok} :
  TokenizerLaws (meteredTokenizer tok rec).
Proof.
  split; intros; simpl; (apply emits_bind; [apply TokenizerLaws0|intros n]); destruct rec; simpl; auto.
Qed.
#[export] Instance WithMetrics_laws tok rec `{!TokenizerLaws tok} :
  TokenizerLaws (Tokenizer.WithMetrics tok rec).
Proof. destruct rec; apply _. Qed.

(** The URL and the body of a backend call. *)
Definition backend_target (c : backend_call) : string * string :=
  match c with DoJSON u b | DoRaw u _ b | DoStream u b => (u, b) end.

(** The ghost state of a [Serve]: whether the backend was called, and the
    status writer. *)
Record serve_ghost := ServeGhost { sg_called : bool; sg_writer : statusWriter }.

(** A [Serve] calls the backend at most once, at the given URL with the body
    unchanged; beyond that it writes to the client and records metrics. *)
Definition serve_mon (url body : string) : monitor serve_ghost := fun g x =>
  match x with Ev e _ =>
    match e with
    | EBackend c =>
        if negb (sg_called g) && bool_decide (backend_target c = (url, body))
        then Next (ServeGhost true (sg_writer g)) else Reject
    | ESetHeader _ _ | EWriteHeader _ | EWrite _ | EFlush =>
        Next (ServeGhost (sg_called g) (sw_step (sg_writer g) e))
    | ERec c => if module_rec c then Next g else Reject
    | ENow | EStreamClose => Next g
    | _ => Reject
    end
  end.

(** [strings.TrimRight(backendURL, "/") + HTTPPath]. *)
Definition target_url (backendURL path : string) : string := TrimRight backendURL "/" +:+ path.

(** What [Serve] leaves: the writer agrees with the wire, and a [Serve] without
    an error has called the backend and answered the client. *)
Definition serve_post (g : serve_ghost) (res : serve_result) : Prop :=
  agrees (sg_writer g) (sv_writer res) /\
  (sv_err res = None -> sg_called g = true /\ sw_wrote (sv_writer res) = true).

Class ModuleLaws (m : Module) : Prop := {
  law_ExtractModel : forall body, emits tokenizer_eff (mod_methods m (ExtractModel body));
  law_EstimateWorkUnits : forall body model,
    emits tokenizer_eff (mod_methods m (EstimateWorkUnits body model));
  law_Serve : forall w r body model backendURL,
    safe (serve_mon (target_url backendURL (mod_HTTPPath m)) body)
      (mod_methods m (Serve w r body model backendURL)) serve_post (ServeGhost false w) }.

(** * Lemmas the instances share *)

Section ServeLemmas.
Context (url body : string).
Implicit Types (Q : serve_ghost -> serve_result -> Prop) (w : statusWriter).

Lemma serve_rec {A} rec c k (Q : serve_ghost -> A -> Prop) g :
  module_rec c = true -> safe (serve_mon url body) (k tt) Q g ->
  safe (serve_mon url body) (bind (rec_do rec c) k) Q g.
Proof. intros Hc Hk. destruct rec; simpl; [done|]. intros []. by rewrite Hc. Qed.

Lemma serve_record rec cap model start status err g :
  safe (serve_mon url body) (recordOutcome rec cap model start status err) (fun g' _ => g' = g) g.
Proof.
  unfold recordOutcome. simpl. intros t. apply serve_rec; [done|].
  destruct err as [e|]; [by destruct rec; simpl; repeat intros []|].
  destruct (500 <=? status); destruct rec; simpl; repeat intros ?; done.
Qed.

Lemma serve_metered_raw rec cap model p g (Q : serve_ghost -> raw_result -> Prop) :
  safe (serve_mon url body) p Q g -> safe (serve_mon url body) (metered_raw rec cap model p) Q g.
Proof.
  intros Hp. unfold metered_raw. eapply safe_seq; [by apply (safe_trigger _ _ (fun g' _ => g' = g) g g)|].
  intros ? start ->. eapply safe_seq; [exact Hp|]. intros g' r HQ.
  eapply safe_seq; [apply serve_record|]. by intros ? _ ->.
Qed.
Lemma serve_metered_stream rec cap model p g (Q : serve_ghost -> stream_result -> Prop) :
  safe (serve_mon url body) p Q g -> safe (serve_mon url body) (metered_stream rec cap model p) Q g.
Proof.
  intros Hp. unfold metered_stream. eapply safe_seq; [by apply (safe_trigger _ _ (fun g' _ => g' = g) g g)|].
  intros ? start ->. eapply safe_seq; [exact Hp|]. intros g' r HQ.
  eapply safe_seq; [apply serve_record|]. by intros ? _ ->.
Qed.

(** The one backend call of a [Serve], metered or not. *)
Lemma serve_backend rec cap model c w :
  backend_target c = (url, body) ->
  safe (serve_mon url body) (Backend.WithMetrics iface_backend rec cap model c)
    (fun g _ => g = ServeGhost true w) (ServeGhost false w).
Proof.
  intros Hc.
  assert (Hi : safe (serve_mon url body) (iface_backend c) (fun g _ => g = ServeGhost true w)
                 (ServeGhost false w)).
  { intros r. simpl. by rewrite bool_decide_true. }
  destruct rec as [rec|]; [|exact Hi]. simpl. unfold meteredClient.
  destruct c; (apply serve_metered_raw || apply serve_metered_stream); exact Hi.
Qed.

(** Writing to the client. *)
Definition wire_eff (e : eff) : Prop :=
  match e with ESetHeader _ _ | EWriteHeader _ | EWrite _ | EFlush => True | _ => False end.

Lemma serve_writes {A} (p : prog A) b w wire out :
  emits wire_eff p -> tracks p w out -> agrees wire w ->
  safe (serve_mon url body) p (fun g a => sg_called g = b /\ agrees (sg_writer g) (out a)) (ServeGhost b wire).
Proof.
  intros He Ht Hw. specialize (Ht wire Hw). clear Hw. revert wire Ht.
  induction p as [a|e k IH]; simpl; intros wire Ht; [done|].
  destruct He as [He Hk]. intros r. specialize (Ht r).
  destruct e; try done; by apply IH.
Qed.

Lemma wire_http_Error w msg code : emits wire_eff (http_Error w msg code).
Proof. by repeat (split || intros ?). Qed.

(** The error answer every module gives. *)
Lemma serve_http_Error w wire msg code b :
  agrees wire w ->
  safe (serve_mon url body) (http_Error w msg code)
    (fun g w' => sg_called g = b /\ agrees (sg_writer g) w') (ServeGhost b wire).
Proof. apply (serve_writes _ b w wire (fun w' => w')); auto using wire_http_Error with go. Qed.

Lemma serve_Header_Set wire k v b :
  safe (serve_mon url body) (Header_Set k v) (fun g _ => g = ServeGhost b wire) (ServeGhost b wire).
Proof. intros r. by destruct wire as [? [] ?]. Qed.

Lemma serve_Write w wire s b :
  agrees wire w ->
  safe (serve_mon url body) (Write s w)
    (fun g r => sg_called g = b /\ agrees (sg_writer g) (fst r) /\ sw_wrote (fst r) = true) (ServeGhost b wire).
Proof.
  intros Hw r. cbn. split_and!; [done|by apply agrees_write|]. by destruct w as [? [] ?].
Qed.
End ServeLemmas.

(** * Answers every module gives *)

(** [backendFor(model)]. *)
Definition backendFor (backend : BackendClient) (recorder : option Recorder) (cap : CapabilityID)
    (model : ModelID) : BackendClient :=
  Backend.WithMetrics backend recorder cap model.

(** The error path of a backend call: 502 and a wrapped error. *)
Definition serve_backend_error (w : statusWriter) (prefix : string) (e : error) : prog serve_result :=
  w ← http_Error w "backend error" 502;
  Ret (ServeResult w 0 (Some (ServeErr (ErrWrap prefix e)))).

(** [w.WriteHeader(status)] of a status that comes from a backend, then the rest of
    [Serve]: a code net/http does not accept is a panic. *)
Definition WriteHeader_then (status : Z) (w : statusWriter) (k : statusWriter -> prog serve_result) : prog serve_result :=
  '(w, panic) ← statusWriter_WriteHeader status w;
  match panic with
  | Some msg => Ret (ServeResult w 0 (Some (ServePanic msg)))
  | None => k w
  end.

Lemma WriteHeader_then_panics status w k :
  header_panics status w = true ->
  exists msg, WriteHeader_then status w k = Ret (ServeResult (statusWriter_record status w) 0 (Some (ServePanic msg))).
Proof. unfold WriteHeader_then, statusWriter_WriteHeader. intros ->. by eexists. Qed.
Lemma WriteHeader_then_writes status w k :
  header_panics status w = false ->
  WriteHeader_then status w k = _ ← trigger (EWriteHeader status); k (statusWriter_record status w).
Proof. unfold WriteHeader_then, statusWriter_WriteHeader. by intros ->. Qed.

(** The buffered answer, the backend's status and body as JSON, and the units it is
    worth. *)
Definition write_json (w : statusWriter) (status : Z) (respBody : string) (actual : Z) : prog serve_result :=
  _ ← Header_Set "Content-Type" "application/json";
  WriteHeader_then status w (fun w =>
    '(w, _) ← Write respBody w;
    Ret (ServeResult w actual None)).

Lemma serve_error_post url body w wire prefix e b :
  agrees wire w -> safe (serve_mon url body) (serve_backend_error w prefix e) serve_post (ServeGhost b wire).
Proof.
  intros Hw. apply safe_bind. eapply safe_mono; [|by apply serve_http_Error]. by intros g w' [_ H].
Qed.

(** A header from a backend keeps the law if what follows it does. *)
Lemma serve_WriteHeader_then url body status w wire (k : statusWriter -> prog serve_result) :
  agrees wire w ->
  (forall wire w, agrees wire w -> sw_wrote w = true -> safe (serve_mon url body) (k w) serve_post (ServeGhost true wire)) ->
  safe (serve_mon url body) (WriteHeader_then status w k) serve_post (ServeGhost true wire).
Proof.
  intros Hw Hk. unfold WriteHeader_then, statusWriter_WriteHeader. destruct (header_panics status w) eqn:Hp.
  - split; [by apply agrees_panic|done].
  - intros r. apply Hk; [by apply agrees_record|apply record_wrote].
Qed.

Lemma serve_json_post url body w wire status respBody actual :
  agrees wire w ->
  safe (serve_mon url body) (write_json w status respBody actual) serve_post (ServeGhost true wire).
Proof.
  intros Hw. unfold write_json. eapply safe_seq; [apply serve_Header_Set|]. intros ? _ ->.
  apply serve_WriteHeader_then; [done|]. clear. intros wire w Hw _.
  eapply safe_seq; [by apply serve_Write|]. intros g [w' err] (Hcall & Ha & Hwr).
  split; [done|]. by rewrite Hcall.
Qed.

(** A buffered backend call with its two answers keeps the law. *)
Lemma serve_buffered url body rec cap model c w (k : backend_resp c -> prog serve_result) :
  backend_target c = (url, body) ->
  (forall r, safe (serve_mon url body) (k r) serve_post (ServeGhost true w)) ->
  safe (serve_mon url body) (bind (backendFor iface_backend rec cap model c) k) serve_post
    (ServeGhost false w).
Proof.
  intros Hc Hk. apply safe_bind. eapply safe_mono; [|by apply serve_backend].
  intros g r ->. apply Hk.
Qed.
