(* ===== verification/ChatCompletions.v ===== *)
(** [internal/service/modules/chat_completions]: request parsing, the token
    estimate, and the buffered and streaming [Serve] ([module.go],
    [types.go]). *)
From stdpp Require Import base gmap strings list.
From Stdlib Require Import ZArith Lia Ascii String.
From S2P Require Import Prelude.
From S2P Require Import GoStrings.
From S2P Require Import GoConv.
From S2P Require Import GoUnmarshal.
From S2P Require Import Types.
From S2P Require Import Prog.
From S2P Require Import Interp.
From S2P Require Import Backend.
From S2P Require Import Tokenizer.
From S2P Require Import ResponseWriter.
From S2P Require Import Module.
From S2P Require Import Env.

Definition Capability : CapabilityID := "openai:/v1/chat/completions".
Definition HTTPPath : string := "/v1/chat/completions".

(** * types.go *)

Record requestMessage := { Role : string; Content : any }.
Record request := { Model : string; MaxTokens : option Z; Stream : bool; Messages : list requestMessage }.
Record usage := { PromptTokens : Z; CompletionTokens : Z; TotalTokens : Z }.
(** [response] and [streamChunk] have the same one field. *)
Record response := { Usage : option usage }.

Definition dec_requestMessage : decoder requestMessage := dec_struct
  [ field "role" Role (fun x m => {| Role := x; Content := Content m |}) dec_string;
    field "content" Content (fun x m => {| Role := Role m; Content := x |}) dec_any ].
Definition dec_request : decoder request := dec_struct
  [ field "model" Model
      (fun x r => {| Model := x; MaxTokens := MaxTokens r; Stream := Stream r; Messages := Messages r |}) dec_string;
    field "max_tokens" MaxTokens
      (fun x r => {| Model := Model r; MaxTokens := x; Stream := Stream r; Messages := Messages r |}) (dec_ptr 0 dec_int);
    field "stream" Stream
      (fun x r => {| Model := Model r; MaxTokens := MaxTokens r; Stream := x; Messages := Messages r |}) dec_bool;
    field "messages" Messages
      (fun x r => {| Model := Model r; MaxTokens := MaxTokens r; Stream := Stream r; Messages := x |})
      (dec_slice {| Role := ""; Content := ANil |} dec_requestMessage) ].
Definition usage_zero : usage := {| PromptTokens := 0; CompletionTokens := 0; TotalTokens := 0 |}.
Definition dec_usage : decoder usage := dec_struct
  [ field "prompt_tokens" PromptTokens
      (fun x u => {| PromptTokens := x; CompletionTokens := CompletionTokens u; TotalTokens := TotalTokens u |}) dec_int;
    field "completion_tokens" CompletionTokens
      (fun x u => {| PromptTokens := PromptTokens u; CompletionTokens := x; TotalTokens := TotalTokens u |}) dec_int;
    field "total_tokens" TotalTokens
      (fun x u => {| PromptTokens := PromptTokens u; CompletionTokens := CompletionTokens u; TotalTokens := x |}) dec_int ].
Definition dec_response : decoder response := dec_struct
  [ field "usage" Usage (fun x _ => {| Usage := x |}) (dec_ptr usage_zero dec_usage) ].

Definition request_zero : request := {| Model := ""; MaxTokens := None; Stream := false; Messages := [] |}.
Definition response_zero : response := {| Usage := None |}.

Definition parse_request (body : string) : res request :=
  wrap_err "chat_completions: parse request" (Unmarshal dec_request request_zero body).

(** * module.go *)

Definition Module_ExtractModel (body : string) : res ModelID :=
  r ← parse_request body;
  if str_nil (Model r) then Err (ErrText "chat_completions: request is missing `model`")
  else Ok (Model r).

(** A part of a multi-part content: its text, or its JSON. *)
Definition content_part (part : any) : string :=
  match part with
  | AMap m => match map_get "text" m with Some (AString t) => t | _ => Marshal part end
  | _ => Marshal part
  end +:+ " ".
Definition messageContentString (v : any) : string :=
  match v with
  | AString s => s
  | AArr l => str_concat (content_part <$> l)
  | _ => Marshal v
  end.

Definition usageToUnits (u : option usage) : Z :=
  match u with None => 0 | Some u => TotalTokens u end.

Definition tryParseStreamUsage (line0 : string) : option usage :=
  let line := TrimSpace line0 in
  if negb (HasPrefix line "data:") then None
  else
    let payload := TrimSpace (str_drop 5 line) in
    if bool_decide (payload = "[DONE]") then None
    else match Unmarshal dec_response response_zero payload with
         | Err _ => None
         | Ok chunk => Usage chunk
         end.

(** The pieces successive [reader.ReadBytes('\n')] calls return: the complete
    lines, then the rest with the error the stream ends with. *)
Fixpoint read_lines (s : string) : list string * string :=
  match s with
  | EmptyString => ([], "")
  | String c s' =>
      let '(ls, rest) := read_lines s' in
      if Ascii.eqb c NL then (nl :: ls, rest)
      else match ls with
           | [] => ([], String c rest)
           | l :: ls' => (String c l :: ls', rest)
           end
  end.

Section Chat.
Context (tok : Tokenizer) (backend : BackendClient) (recorder : option Recorder).
(** [m.DefaultMaxCompletionTokens]. *)
Context (DefaultMaxCompletionTokens : Z).

(** The loop over the messages, with its accumulator. *)
Fixpoint count_messages (mid : string) (input : Z) (msgs : list requestMessage) : prog Z :=
  match msgs with
  | [] => Ret input
  | msg :: msgs' =>
      a ← CountTokensForModel tok mid (Role msg);
      let input := wrap64 (input + a) in
      b ← CountTokensForModel tok mid (messageContentString (Content msg));
      count_messages mid (wrap64 (input + b)) msgs'
  end.

Definition output_tokens (r : request) : Z :=
  match MaxTokens r with
  | Some n => if 0 <? n then n else DefaultMaxCompletionTokens
  | None => DefaultMaxCompletionTokens
  end.

Definition Module_EstimateWorkUnits (body : string) (model : ModelID) : prog (res Z) :=
  match parse_request body with
  | Err e => Ret (Err e)
  | Ok r =>
      input ← count_messages model 0 (Messages r);
      Ret (Ok (wrap64 (input + output_tokens r)))
  end.

Definition serveJSON (w : statusWriter) (url body : string) (model : ModelID) : prog serve_result :=
  r ← backendFor backend recorder Capability model (DoJSON url body);
  match rr_err r with
  | Some e => serve_backend_error w "chat_completions: backend DoJSON" e
  | None =>
      write_json w (rr_status r) (rr_body r)
        (match Unmarshal dec_response response_zero (rr_body r) with
         | Ok {| Usage := Some u |} => TotalTokens u
         | _ => 0
         end)
  end.

(** One pass of the loop body with [len(line) > 0]: write, flush, peek.  The
    writer is a [*statusWriter], which implements [http.Flusher]. *)
Definition relay_line (line : string) (w : statusWriter) (lastUsage : option usage)
  : prog (statusWriter * option usage * option error) :=
  '(w, werr) ← Write line w;
  match werr with
  | Some e => Ret (w, lastUsage, Some e)
  | None =>
      _ ← statusWriter_Flush w;
      Ret (w, match tryParseStreamUsage line with Some u => Some u | None => lastUsage end, None)
  end.

Fixpoint relay (lines : list string) (rest : string) (end_ : error) (w : statusWriter)
    (lastUsage : option usage) : prog serve_result :=
  match lines with
  | line :: lines' =>
      '(w, lastUsage, werr) ← relay_line line w lastUsage;
      match werr with
      | Some e => Ret (ServeResult w (usageToUnits lastUsage) (Some (ServeErr e)))
      | None => relay lines' rest end_ w lastUsage
      end
  | [] =>
      '(w, lastUsage, werr) ← (if str_nil rest then Ret (w, lastUsage, None)
                               else relay_line rest w lastUsage);
      match werr with
      | Some e => Ret (ServeResult w (usageToUnits lastUsage) (Some (ServeErr e)))
      | None =>
          Ret (ServeResult w (usageToUnits lastUsage)
                 (if errors_Is end_ ErrEOF then None
                  else Some (ServeErr (ErrWrap "chat_completions: read backend stream" end_))))
      end
  end.

Definition relay_stream (status : Z) (s : stream) (w : statusWriter) : prog serve_result :=
  _ ← Header_Set "Content-Type" "text/event-stream";
  _ ← Header_Set "Cache-Control" "no-cache";
  _ ← Header_Set "Connection" "keep-alive";
  WriteHeader_then status w (fun w =>
    let '(lines, rest) := read_lines (str_concat (st_chunks s)) in
    relay lines rest (st_end s) w None).

Definition serveStream (w : statusWriter) (url body : string) (model : ModelID) : prog serve_result :=
  r ← backendFor backend recorder Capability model (DoStream url body);
  match sr_err r with
  | Some e => serve_backend_error w "chat_completions: backend DoStream" e
  | None => with_defer (relay_stream (sr_status r) (sr_stream r) w) (fun _ => stream_Close)
  end.

Definition Module_Serve (w : statusWriter) (body : string) (model : ModelID) (backendURL : string)
  : prog serve_result :=
  match parse_request body with
  | Err e => Ret (ServeResult w 0 (Some (ServeErr e)))
  | Ok r =>
      let targetURL := target_url backendURL HTTPPath in
      if Stream r then serveStream w targetURL body model
      else serveJSON w targetURL body model
  end.

Definition methods : ModuleImpl := fun c =>
  match c as c return prog (module_resp c) with
  | ExtractModel body => Ret (Module_ExtractModel body)
  | EstimateWorkUnits body model => Module_EstimateWorkUnits body model
  | Serve w _ body model backendURL => Module_Serve w body model backendURL
  end.

Definition module : Module := {|
  mod_Capability := Capability; mod_HTTPMethod := "POST"; mod_HTTPPath := HTTPPath;
  mod_Unit := UnitToken; mod_methods := methods |}.
End Chat.

(** [New(tok, backend).WithRecorder(rec)]. *)
Definition New (tok : Tokenizer) (backend : BackendClient) (rec : option Recorder) : Module :=
  module tok backend rec 2048.

(** * The interface law *)

Lemma count_messages_eff tok `{!TokenizerLaws tok} mid input msgs :
  emits tokenizer_eff (count_messages tok mid input msgs).
Proof.
  revert input. induction msgs as [|msg msgs IH]; intros input; simpl; [done|].
  apply emits_bind; [apply law_CountTokensForModel|intros a].
  apply emits_bind; [apply law_CountTokensForModel|intros b]. apply IH.
Qed.

Lemma relay_line_wire line w u : emits wire_eff (relay_line line w u).
Proof.
  unfold relay_line. apply emits_bind; [by split|]. intros [w' [e|]]; [done|].
  apply emits_bind; [|done]. unfold statusWriter_Flush. by destruct (sw_flusher w').
Qed.

(** Once a header is out, a line leaves the status writer alone. *)
Lemma serve_relay_line url body line w u wire :
  sw_wrote w = true -> agrees wire w ->
  safe (serve_mon url body) (relay_line line w u)
    (fun g r => sg_called g = true /\ agrees (sg_writer g) w /\ fst (fst r) = w) (ServeGhost true wire).
Proof.
  intros Hw Ha. unfold relay_line. apply safe_bind. intros r. cbn. rewrite Hw. cbn.
  destruct r as [r|]; [split_and!; [done|by apply agrees_wrote|done]|]. apply safe_bind.
  unfold statusWriter_Flush. destruct (sw_flusher w).
  - intros []. cbn. split_and!; [done|by repeat apply agrees_wrote|done].
  - cbn. split_and!; [done|by apply agrees_wrote|done].
Qed.

Lemma serve_relay url body lines rest e w u wire :
  sw_wrote w = true -> agrees wire w ->
  safe (serve_mon url body) (relay lines rest e w u) serve_post (ServeGhost true wire).
Proof.
  intros Hw. revert u wire. induction lines as [|line lines IH]; intros u wire Ha; cbn [relay]; apply safe_bind.
  - destruct (str_nil rest); [by simpl; destruct (errors_Is e ErrEOF)|].
    eapply safe_mono; [|by apply serve_relay_line].
    intros g [[w' u'] [e'|]] (Hc & Hag & Hw'); simpl in *; subst; by split.
  - eapply safe_mono; [|by apply serve_relay_line].
    intros [called wire'] [[w' u'] [e'|]] (Hc & Hag & Hw'); cbn in Hc, Hag, Hw'; subst called w'; [done|by apply IH].
Qed.

Lemma serveJSON_post rec w url body model :
  safe (serve_mon url body) (serveJSON iface_backend rec w url body model) serve_post
    (ServeGhost false w).
Proof.
  unfold serveJSON. apply (serve_buffered _ _ _ _ _ (DoJSON url body)); [done|].
  intros [status respBody [e|]]; [by apply serve_error_post, agrees_refl|by apply serve_json_post, agrees_refl].
Qed.

Lemma serve_relay_stream url body status s w :
  safe (serve_mon url body) (relay_stream status s w) serve_post (ServeGhost true w).
Proof.
  unfold relay_stream.
  eapply safe_seq; [apply serve_Header_Set|]. intros ? _ ->.
  eapply safe_seq; [apply serve_Header_Set|]. intros ? _ ->.
  eapply safe_seq; [apply serve_Header_Set|]. intros ? _ ->.
  apply serve_WriteHeader_then; [apply agrees_refl|]. clear w. intros wire w Ha Hw.
  destruct (read_lines _) as [lines rest]. by apply serve_relay.
Qed.

Lemma serveStream_post rec w url body model :
  safe (serve_mon url body) (serveStream iface_backend rec w url body model) serve_post
    (ServeGhost false w).
Proof.
  unfold serveStream. apply (serve_buffered _ _ _ _ _ (DoStream url body)); [done|]. intros [status hdrs s [e|]]; cbn [Types.sr_err].
  - by apply serve_error_post, agrees_refl.
  - unfold with_defer. eapply safe_seq; [apply serve_relay_stream|].
    intros g res Hp r. by destruct r.
Qed.

#[export] Instance chat_laws tok rec def `{!TokenizerLaws tok} :
  ModuleLaws (module tok iface_backend rec def).
Proof.
  split; [done| |].
  - intros body model. simpl. unfold Module_EstimateWorkUnits.
    destruct (parse_request body) as [r|e]; [|done].
    apply emits_bind; [by apply count_messages_eff|done].
  - intros w rq body model backendURL. cbn [module mod_methods methods]. unfold Module_Serve.
    destruct (parse_request body) as [r|e]; [|by split; [left|]].
    destruct (Stream r); [apply serveStream_post|apply serveJSON_post].
Qed.

(** * The token estimate *)

(** A tokenizer that counts as [f]. *)
Definition counts (tok : Tokenizer) (f : string -> string -> Z) : Prop :=
  forall mid s, returns (CountTokensForModel tok mid s) (fun n => n = f mid s).

(** The sum of the counts, with no bound. *)
Definition input_tokens (f : string -> string -> Z) (mid : string) (msgs : list requestMessage) : Z :=
  fold_right (fun msg n => f mid (Role msg) + f mid (messageContentString (Content msg)) + n) 0 msgs.

Lemma count_messages_sum tok f mid input msgs :
  counts tok f -> in_int64 input ->
  returns (count_messages tok mid input msgs) (fun n => n = wrap64 (input + input_tokens f mid msgs)).
Proof.
  intros Hf. revert input. induction msgs as [|msg msgs IH]; intros input Hi; cbn [count_messages].
  - cbn [input_tokens fold_right]. rewrite Z.add_0_r, wrap64_id by done. by apply returns_ret.
  - eapply returns_bind; [apply Hf|]. intros a ->.
    eapply returns_bind; [apply Hf|]. intros b ->.
    eapply safe_mono; [|apply IH, wrap64_range]. intros _ n ->.
    cbn [input_tokens fold_right]. rewrite !wrap64_add_l.
    rewrite <- Z.add_assoc, wrap64_add_l. f_equal. unfold input_tokens. lia.
Qed.

(** The upfront chat estimate is the token count of every role and message
    content plus [max_tokens] when positive, else the configured default: exactly
    that sum whenever it fits an [int], for any tokenizer. *)
Theorem chat_estimate_exact (tok : Tokenizer) (f : string -> string -> Z) (def : Z) (body : string)
    (model : ModelID) (r : request) :
  counts tok f -> parse_request body = Ok r ->
  in_int64 (input_tokens f model (Messages r) + output_tokens def r) ->
  returns (Module_EstimateWorkUnits tok def body model)
    (fun res => res = Ok (input_tokens f model (Messages r) + output_tokens def r)).
Proof.
  intros Hf Hr Hfit. unfold Module_EstimateWorkUnits. rewrite Hr.
  eapply returns_bind; [by apply (count_messages_sum _ f)|]. intros n ->.
  apply returns_ret. by rewrite Z.add_0_l, wrap64_add_l, wrap64_id.
Qed.

Definition demo_chat_body : string :=
  "{" +:+ dq "model" +:+ ":" +:+ dq "m" +:+ "," +:+ dq "max_tokens" +:+ ":10," +:+
  dq "messages" +:+ ":[{" +:+ dq "role" +:+ ":" +:+ dq "user" +:+ "," +:+ dq "content" +:+ ":" +:+ dq "hi there" +:+ "}]}".

Lemma counts_wordCount w : counts (wordCount_tokenizer w) (fun _ s => wordCount_CountTokens w s).
Proof. done. Qed.

Lemma chat_estimate_exact_witness :
  returns (Module_EstimateWorkUnits (NewWordCount 133) 2048 demo_chat_body "m") (fun res => res = Ok 15).
Proof.
  exact (chat_estimate_exact (NewWordCount 133) _ 2048 demo_chat_body "m"
    {| Model := "m"; MaxTokens := Some 10; Stream := false;
       Messages := [ {| Role := "user"; Content := AString "hi there" |} ] |}
    (counts_wordCount (newWordCount 133)) ltac:(vm_compute; reflexivity)
    ltac:(vm_compute; split; discriminate)).
Defined.

(** * The streaming relay *)

(** The bytes written to the client, and whether every write succeeded. *)
Fixpoint client_bytes (t : list event) : string :=
  match t with
  | [] => ""
  | Ev e _ :: t' => match e with EWrite b => b +:+ client_bytes t' | _ => client_bytes t' end
  end.
Definition write_ok (x : event) : bool :=
  match x with Ev e r =>
    match e as e return resp e -> bool with
    | EWrite _ => fun err => match err with None => true | Some _ => false end
    | _ => fun _ => true
    end r
  end.
Definition writes_ok (t : list event) : bool := forallb write_ok t.

Definition relay_mon : monitor (string * bool) := fun '(s, ok) x =>
  Next (match x with Ev (EWrite b) _ => s +:+ b | _ => s end, ok && write_ok x).

Lemma relay_mon_run s ok t :
  mon_run relay_mon (s, ok) t = Next (s +:+ client_bytes t, ok && writes_ok t).
Proof.
  revert s ok. induction t as [|[e r] t IH]; intros s ok; simpl.
  - by rewrite andb_true_r, str_app_nil_r.
  - rewrite IH, <- andb_assoc. destruct e; try reflexivity. simpl. by rewrite str_app_assoc.
Qed.

(** The specification of the loop: the lines of the stream, its last usage. *)
Definition stream_pieces (s : stream) : list string :=
  let '(lines, rest) := read_lines (str_concat (st_chunks s)) in
  lines ++ (if str_nil rest then [] else [rest]).
Definition last_usage (u0 : option usage) (pieces : list string) : option usage :=
  fold_left (fun u line => match tryParseStreamUsage line with Some u' => Some u' | None => u end) pieces u0.
Definition stream_error (s : stream) : option serve_failure :=
  if errors_Is (st_end s) ErrEOF then None
  else Some (ServeErr (ErrWrap "chat_completions: read backend stream" (st_end s))).

Lemma read_lines_concat s : let '(ls, rest) := read_lines s in str_concat ls +:+ rest = s.
Proof.
  induction s as [|c s IH]; simpl; [done|]. destruct (read_lines s) as [ls rest].
  destruct (Ascii.eqb_spec c NL) as [->|Hc].
  { cbn [str_concat]. unfold nl, str1. by rewrite str_app_cons, str_app_nil_l, str_app_cons, IH. }
  destruct ls as [|l ls]; cbn [str_concat] in *; rewrite <- IH; [done|].
  by rewrite !str_app_assoc, !str_app_cons.
Qed.

Lemma relay_line_relays line w u s :
  safe relay_mon (relay_line line w u)
    (fun g r => g = (s +:+ line, match snd r with None => true | Some _ => false end) /\
       (snd r = None -> snd (fst r) = match tryParseStreamUsage line with Some u' => Some u' | None => u end))
    (s, true).
Proof.
  unfold relay_line. intros r. simpl. destruct r as [e|]; [done|].
  apply safe_bind. unfold statusWriter_Flush. by destruct (sw_flusher _).
Qed.

(** What the relay guarantees after it wrote [s] of the stream. *)
Definition relay_post (s tl : string) (pieces : list string) (u : option usage) (err : option serve_failure)
    (g : string * bool) (res : serve_result) : Prop :=
  (exists rest, fst g +:+ rest = s +:+ tl) /\
  (snd g = true -> fst g = s +:+ tl /\ sv_actual res = usageToUnits (last_usage u pieces) /\ sv_err res = err) /\
  (snd g = false -> is_Some (sv_err res)).

Lemma relay_relays lines rest e w u s :
  safe relay_mon (relay lines rest e w u)
    (relay_post s (str_concat lines +:+ rest) (lines ++ (if str_nil rest then [] else [rest])) u
       (if errors_Is e ErrEOF then None
        else Some (ServeErr (ErrWrap "chat_completions: read backend stream" e)))) (s, true).
Proof.
  revert s w u. induction lines as [|line lines IH]; intros s w u; cbn [relay]; apply safe_bind.
  - destruct rest as [|c rest]; cbn [str_nil].
    + unfold relay_post. rewrite !str_app_nil_r. simpl. split; [by exists ""; rewrite str_app_nil_r|done].
    + eapply safe_mono; [|apply relay_line_relays].
      intros g [[w' u'] [er|]] [-> Hu]; simpl in *.
      * split; [by exists ""; rewrite str_app_nil_r|by split; [|eexists]].
      * rewrite Hu by done. split; [by exists ""; rewrite str_app_nil_r|done].
  - eapply safe_mono; [|apply relay_line_relays].
    intros g [[w' u'] [er|]] [-> Hu]; cbn [snd fst] in *.
    + split; [exists (str_concat lines +:+ rest); simpl; by rewrite !str_app_assoc|by split; [|eexists]].
    + eapply safe_mono; [|apply (IH _ w')]. rewrite Hu by done.
      intros g res. unfold relay_post. cbn [str_concat app last_usage fold_left].
      by rewrite !str_app_assoc.
Qed.

Lemma relay_stream_relays status s w :
  header_panics status w = false ->
  safe relay_mon (relay_stream status s w)
    (relay_post "" (str_concat (st_chunks s)) (stream_pieces s) None (stream_error s)) ("", true).
Proof.
  intros Hp ???. simpl. rewrite WriteHeader_then_writes by done. intros []. simpl. unfold stream_pieces.
  pose proof (read_lines_concat (str_concat (st_chunks s))) as Hc.
  destruct (read_lines _) as [lines rest]. rewrite <- Hc. apply relay_relays.
Qed.
(** The units of a relay without an error are those of the last usage. *)
Lemma relay_stream_units status s w :
  returns (relay_stream status s w)
    (fun res => sv_err res = None -> sv_actual res = usageToUnits (last_usage None (stream_pieces s))).
Proof.
  destruct (header_panics status w) eqn:Hp.
  { intros ???. simpl. match goal with |- context [WriteHeader_then _ _ ?k] =>
      destruct (WriteHeader_then_panics status w k Hp) as [msg ->] end. done. }
  eapply safe_returns; [|..|by apply relay_stream_relays]; [by intros [] x; eexists|].
  intros [b ok] res (_ & Hok & Hbad) Hn. destruct ok; [by apply Hok|]. destruct (Hbad eq_refl) as [e He]. congruence.
Qed.

(** A streamed chat answer is the backend's byte stream, unchanged and in
    order: whatever the writes answer, what was written is a prefix of it; if
    every write succeeds it is all of it, the units returned are the
    [total_tokens] of the last line that carries a usage block (0 if none does),
    and the error is the one the backend stream ended with, [io.EOF] being no
    error; a failed write stops the relay with an error. *)
Theorem chat_stream_relay (status : Z) (s : stream) (w : statusWriter) (t : list event) (res : serve_result) :
  header_panics status w = false -> Tr (relay_stream status s w) t res ->
  (exists rest, client_bytes t +:+ rest = str_concat (st_chunks s)) /\
  (writes_ok t = true ->
     client_bytes t = str_concat (st_chunks s) /\
     sv_actual res = usageToUnits (last_usage None (stream_pieces s)) /\
     sv_err res = stream_error s) /\
  (writes_ok t = false -> is_Some (sv_err res)).
Proof.
  intros Hp Ht. pose proof (safe_sound _ _ _ _ _ _ (relay_stream_relays status s w Hp) Ht) as H.
  rewrite relay_mon_run in H. exact H.
Qed.

Definition demo_usage_line : string :=
  "data: {" +:+ dq "usage" +:+ ":{" +:+ dq "total_tokens" +:+ ":42}}" +:+ nl.
Definition demo_sse : stream := Types.Stream ["data: {}" +:+ nl +:+ "da"; str_drop 2 demo_usage_line; "data: [DONE]"] ErrEOF.


Definition demo_relay : prog serve_result := relay_stream 200 demo_sse (StatusWriter 0 false true).

Lemma chat_stream_relay_witness :
  client_bytes (trace_of demo_env demo_relay env0) = str_concat (st_chunks demo_sse) /\
  sv_actual (result_of demo_env demo_relay env0) = 42 /\
  sv_err (result_of demo_env demo_relay env0) = None.
Proof.
  exact (proj1 (proj2 (chat_stream_relay 200 demo_sse (StatusWriter 0 false true) _ _ eq_refl
    (trace_of_Tr demo_env demo_relay env0))) ltac:(vm_compute; reflexivity)).
Defined.

(** When the sum does not fit an [int] the estimate is negative: a
    [max_tokens] near the largest [int] makes the estimate wrap around, whatever
    the tokenizer and the messages. *)
Theorem chat_estimate_overflow (tok : Tokenizer) (f : string -> string -> Z) (def : Z) (body : string)
    (model : ModelID) (r : request) :
  counts tok f -> parse_request body = Ok r ->
  int64_max < input_tokens f model (Messages r) + output_tokens def r < 2 ^ 64 ->
  returns (Module_EstimateWorkUnits tok def body model)
    (fun res => exists n, res = Ok n /\ n < 0).
Proof.
  intros Hf Hr Hover. unfold Module_EstimateWorkUnits. rewrite Hr.
  eapply returns_bind; [by apply (count_messages_sum _ f)|]. intros n ->.
  apply returns_ret. eexists. split; [done|]. rewrite Z.add_0_l, wrap64_add_l.
  revert Hover. generalize (input_tokens f model (Messages r) + output_tokens def r).
  intros z Hz. unfold wrap64, int64_max, int64_min in *.
  rewrite <- (Z_mod_plus_full _ (-1)), Z.mod_small; lia.
Qed.

Definition overflow_body : string :=
  "{" +:+ dq "model" +:+ ":" +:+ dq "m" +:+ "," +:+ dq "max_tokens" +:+ ":9223372036854775807," +:+
  dq "messages" +:+ ":[{" +:+ dq "role" +:+ ":" +:+ dq "user" +:+ "," +:+ dq "content" +:+ ":" +:+ dq "hi there" +:+ "}]}".

Lemma chat_estimate_overflow_witness :
  returns (Module_EstimateWorkUnits (NewWordCount 133) 2048 overflow_body "m")
    (fun res => exists n, res = Ok n /\ n < 0).
Proof.
  exact (chat_estimate_overflow (NewWordCount 133) _ 2048 overflow_body "m"
    {| Model := "m"; MaxTokens := Some int64_max; Stream := false;
       Messages := [ {| Role := "user"; Content := AString "hi there" |} ] |}
    (counts_wordCount (newWordCount 133)) ltac:(vm_compute; reflexivity)
    ltac:(vm_compute; split; reflexivity)).
Defined.
