(* ===== verification/Multipart.v ===== *)
(** [internal/service/modules/multipartutil]: the boundary of a multipart body
    and the value of a form field, by the reader of GoMultipart. *)
From stdpp Require Import base gmap strings list.
From Stdlib Require Import ZArith Lia Ascii String.
From S2P Require Import Prelude.
From S2P Require Import GoStrings.
From S2P Require Import GoConv.
From S2P Require Import GoUnmarshal.
From S2P Require Import GoMime.
From S2P Require Import GoMultipart.

(** [BoundaryFromBody]. *)
Definition BoundaryFromBody (body : string) : res string :=
  if slen body <? 3 then Err (ErrText "multipartutil: body too short to be multipart")
  else
    let window := if 1024 <? slen body then str_take 1024 body else body in
    match IndexByte window NL with
    | None => Err (ErrText "multipartutil: first line has no terminator in first 1 KiB")
    | Some idx =>
        let first := TrimRight (str_take idx window) CR in
        if negb (HasPrefix first "--") then
          Err (ErrText ("multipartutil: first line does not begin with `--`: " +:+ Quote first))
        else
          let b := str_drop 2 first in
          if str_nil b then Err (ErrText "multipartutil: empty boundary") else Ok b
    end.

(** The loop over [NextPart]; [Ok None] is the Go result [("", false, nil)]. *)
Fixpoint find_field (name : string) (parts : list part) (end_ : error) : res (option string) :=
  match parts with
  | [] =>
      if errors_Is end_ ErrEOF then Ok None
      else Err (ErrWrap "multipartutil: read part" end_)
  | p :: parts' =>
      if negb (bool_decide (FormName p = name)) then find_field name parts' end_
      else match ReadAll (LimitReader (part_body p) 65536) with
           | Err e => Err (ErrWrap ("multipartutil: read field " +:+ Quote name) e)
           | Ok buf => Ok (Some (TrimSpace buf))
           end
  end.

Definition FormField (body name : string) : res (option string) :=
  boundary ← BoundaryFromBody body;
  let r := multipart_NewReader body boundary in
  find_field name (pr_parts r) (pr_end r).

(** * The boundary *)

Lemma str_take_app_le n s t :
  (String.length s <= n)%nat -> str_take n (s +:+ t) = s +:+ str_take (n - String.length s) t.
Proof.
  revert n. induction s as [|c s IH]; intros n Hn; simpl in Hn.
  - by rewrite !str_app_nil_l, Nat.sub_0_r.
  - destruct n as [|n]; [lia|]. rewrite str_app_cons. simpl. rewrite IH by lia. reflexivity.
Qed.
Lemma str_take_all s : str_take (String.length s) s = s.
Proof. induction s as [|c s IH]; simpl; [done|]. by rewrite IH. Qed.
Lemma str_take_exact s t : str_take (String.length s) (s +:+ t) = s.
Proof. rewrite str_take_app_le, Nat.sub_diag by done. by destruct t; rewrite str_app_nil_r. Qed.

Lemma TrimRight_snoc s c : TrimRight (s +:+ str1 c) c = TrimRight s c.
Proof.
  induction s as [|a s IH]; [simpl; by rewrite Ascii.eqb_refl|].
  rewrite str_app_cons. cbn [TrimRight]. by rewrite IH.
Qed.
Lemma TrimRight_app s t c : TrimRight t c = t -> t <> "" -> TrimRight (s +:+ t) c = s +:+ t.
Proof.
  intros Ht Hne. induction s as [|a s IH]; [done|].
  rewrite str_app_cons. cbn [TrimRight]. rewrite IH. destruct s; [|done].
  rewrite str_app_nil_l. by destruct t.
Qed.

Lemma IndexByte_None_app s t c :
  IndexByte s c = None -> IndexByte t c = None -> IndexByte (s +:+ t) c = None.
Proof.
  intros Hs Ht. induction s as [|a s IH]; [done|]. rewrite str_app_cons. simpl in *.
  destruct (Ascii.eqb a c); [done|]. destruct (IndexByte s c) eqn:E; [done|]. by rewrite IH.
Qed.

(** A body that opens with [--boundary] and a line end has that boundary:
    for every boundary that is not empty, has no line feed, does not end in a
    carriage return and fits the first KiB, whether the line ends in CRLF or in
    LF and whatever follows. *)
Theorem BoundaryFromBody_roundtrip (b eol rest : string) :
  b <> "" -> IndexByte b NL = None -> TrimRight b CR = b -> (String.length b <= 1020)%nat ->
  eol = nl \/ eol = crlf ->
  BoundaryFromBody ("--" +:+ b +:+ eol +:+ rest) = Ok b.
Proof.
  intros Hne Hnl Hcr Hlen Heol.
  assert (exists pre, ("--" +:+ b +:+ eol +:+ rest = pre +:+ String NL rest) /\
    IndexByte pre NL = None /\ TrimRight pre CR = "--" +:+ b /\
    (3 <= String.length pre <= 1023)%nat) as (pre & -> & Hpre & Htrim & Hl).
  { assert (1 <= String.length b)%nat by (destruct b; simpl; [done|lia]).
    destruct Heol as [-> | ->].
    - exists ("--" +:+ b). rewrite str_app_assoc. split_and!.
      + done.
      + by apply IndexByte_None_app.
      + by apply TrimRight_app.
      + rewrite str_length_app. simpl. lia.
      + rewrite str_length_app. simpl. lia.
    - exists (("--" +:+ b) +:+ str1 CR). rewrite !str_app_assoc. split_and!.
      + done.
      + repeat apply IndexByte_None_app; done.
      + rewrite <- str_app_assoc, TrimRight_snoc. by apply TrimRight_app.
      + rewrite !str_length_app. simpl. lia.
      + rewrite !str_length_app. simpl. lia. }
  unfold BoundaryFromBody, slen. rewrite str_length_app.
  destruct (Z.ltb_spec (Z.of_nat (String.length pre + String.length (String NL rest))) 3); [simpl in *; lia|].
  set (window := if _ <? _ then _ else _).
  assert (exists rest', window = pre +:+ String NL rest') as (rest' & ->).
  { subst window. destruct (1024 <? _); [|by eexists].
    rewrite str_take_app_le by lia. destruct (1024 - String.length pre)%nat eqn:E; [lia|].
    by eexists. }
  rewrite IndexByte_app by done. rewrite str_take_exact, Htrim.
  change ("--" +:+ b) with (String "-" (String "-" b)).
  cbn [HasPrefix str_drop Ascii.eqb Bool.eqb andb negb]. by destruct b.
Qed.

Lemma BoundaryFromBody_roundtrip_witness :
  BoundaryFromBody ("--" +:+ "abc" +:+ crlf +:+ "x") = Ok "abc".
Proof.
  exact (BoundaryFromBody_roundtrip "abc" crlf "x" ltac:(discriminate) eq_refl eq_refl
    ltac:(simpl; lia) (or_intror eq_refl)).
Defined.

(** * Form fields *)

Lemma str_take_drop n s : str_take n s +:+ str_drop n s = s.
Proof.
  revert s. induction n as [|n IH]; intros [|c s]; try done.
  simpl. by rewrite str_app_cons, IH.
Qed.

(** What the limited read of a part delivers. *)
Lemma ReadAll_limited data :
  ReadAll (LimitReader (Reader data ErrEOF) 65536) = Ok (if slen data <? 65536 then data else str_take (Z.to_nat 65536) data).
Proof.
  unfold LimitReader. cbn [rd_data rd_end]. generalize (Z.to_nat 65536). intros n.
  destruct (slen data <? 65536); reflexivity.
Qed.

