(* ===== verification/MultipartFacts.v ===== *)
(** Form fields round trip: what [FormField] finds in a body is what a client put
    into it. *)
From stdpp Require Import base gmap strings list.
From Stdlib Require Import ZArith Lia Ascii String.
From S2P Require Import Prelude.
From S2P Require Import GoStrings.
From S2P Require Import GoConv.
From S2P Require Import GoUrl.
From S2P Require Import GoUnmarshal.
From S2P Require Import GoMime.
From S2P Require Import GoMultipart.
From S2P Require Import Multipart.

(** * A form as clients write it *)

Definition disposition (name : string) : string := "form-data; name=" +:+ dq name.
Fixpoint form_body (b : string) (fields : list (string * string)) : string :=
  match fields with
  | [] => dashBoundaryDash b +:+ crlf
  | (name, value) :: fields' =>
      dashBoundary b +:+ crlf +:+ "Content-Disposition: " +:+ disposition name +:+ crlf +:+ crlf +:+
      value +:+ crlf +:+ form_body b fields'
  end.

(** Names of printable ASCII without quotes and backslashes. *)
Definition name_byte (c : ascii) : bool :=
  in_range 32 126 (byte_z c) && negb (Ascii.eqb c DQUOTE) && negb (Ascii.eqb c BSLASH).
(** A boundary as [BoundaryFromBody] finds it, and contents without it. *)
Record good_boundary (b : string) : Prop := {
  gb_nonempty : b <> "";
  gb_line : IndexByte b NL = None;
  gb_cr : TrimRight b CR = b;
  gb_short : (String.length b <= 1020)%nat }.
Record good_field (b : string) (f : string * string) : Prop := {
  gf_name : str_forall name_byte (fst f) = true;
  gf_short : (String.length (fst f) <= 1000)%nat;
  gf_value : Contains (crlf +:+ snd f) (nlDashBoundary b false) = false }.

(** * Strings *)

Lemma str_drop_exact s t : str_drop (String.length s) (s +:+ t) = t.
Proof. induction s as [|c s IH]; simpl; [by destruct t|exact IH]. Qed.
Lemma HasPrefix_app s t : HasPrefix (s +:+ t) s = true.
Proof. induction s as [|c s IH]; simpl; [by destruct t|]. by rewrite Ascii.eqb_refl. Qed.
Lemma HasPrefix_spec s p : HasPrefix s p = true <-> exists t, s = p +:+ t.
Proof.
  split; [|intros [t ->]; apply HasPrefix_app]. revert s. induction p as [|a p IH]; intros s H; [by exists s|].
  destruct s as [|c s]; [done|]. simpl in H. apply andb_prop in H as [Ha H].
  apply Ascii.eqb_eq in Ha as ->. destruct (IH _ H) as [t ->]. by exists t.
Qed.
Lemma decode_rune_width c s : (1 <= snd (decode_rune (String c s)))%nat.
Proof. cbn [decode_rune]. repeat case_match; simpl; lia. Qed.
Lemma rune_segs_concat_from k s : str_concat (snd <$> rune_segs_from k s) = str_drop k s.
Proof.
  revert k. induction s as [|c s IH]; intros k; [by destruct k|]. destruct k as [|k]; [|apply IH].
  cbn [rune_segs_from]. pose proof (decode_rune_width c s) as Hw.
  destruct (decode_rune (String c s)) as [r w]. simpl in Hw. destruct w as [|w]; [lia|].
  csimpl. cbn [str_concat snd Nat.pred str_take]. rewrite IH, str_app_cons. f_equal. apply str_take_drop.
Qed.
Lemma rune_segs_concat s : str_concat (snd <$> rune_segs s) = s.
Proof. apply rune_segs_concat_from. Qed.

Lemma TrimLeftSpace_stop c s :
  is_ascii c = true -> is_space_rune (byte_z c) = false -> TrimLeftSpace (String c s) = String c s.
Proof.
  intros Ha Hs. unfold TrimLeftSpace. rewrite rune_segs_ascii_cons by done. cbn [drop_while fst]. rewrite Hs.
  csimpl. cbn [str_concat snd]. by rewrite rune_segs_concat.
Qed.
Lemma TrimLeftSpace_space c s :
  is_ascii c = true -> is_space_rune (byte_z c) = true -> TrimLeftSpace (String c s) = TrimLeftSpace s.
Proof. intros Ha Hs. unfold TrimLeftSpace. rewrite rune_segs_ascii_cons by done. cbn [drop_while fst]. by rewrite Hs. Qed.

Lemma str_forall_app f s t : str_forall f (s +:+ t) = str_forall f s && str_forall f t.
Proof. induction s as [|c s IH]; [done|]. rewrite str_app_cons. simpl. rewrite IH. by destruct (f c). Qed.
Lemma str_forall_impl (f g : ascii -> bool) s :
  (forall c, f c = true -> g c = true) -> str_forall f s = true -> str_forall g s = true.
Proof.
  intros H. induction s as [|c s IH]; [done|]. simpl. intros Hs. apply andb_prop in Hs as [Hc Hs].
  by rewrite (H _ Hc), IH.
Qed.

(** * Lines *)

Lemma boundary_prefix_IndexByte b : IndexByte b NL = None -> IndexByte (dashBoundary b) NL = None.
Proof. intros H. by apply IndexByte_None_app. Qed.

(** A line of the reader, when it fits its buffer. *)
Lemma ReadSlice_line pre rest :
  IndexByte pre NL = None -> (String.length pre <= 4000)%nat ->
  ReadSlice (pre +:+ crlf +:+ rest) = Line (pre +:+ crlf) rest.
Proof.
  intros Hn Hl. unfold ReadSlice.
  assert (E : pre +:+ crlf +:+ rest = (pre +:+ str1 CR) +:+ String NL rest) by by rewrite str_app_assoc.
  assert (Hn' : IndexByte (pre +:+ str1 CR) NL = None) by by apply IndexByte_None_app.
  assert (Hlen : String.length (pre +:+ str1 CR) = S (String.length pre)) by (rewrite str_length_app; simpl; lia).
  assert (E2 : pre +:+ crlf +:+ rest = (pre +:+ crlf) +:+ rest) by by rewrite str_app_assoc.
  assert (Hlen2 : String.length (pre +:+ crlf) = S (S (String.length pre))) by (rewrite str_length_app; simpl; lia).
  assert (exists t, str_take 4096 (pre +:+ crlf +:+ rest) = (pre +:+ str1 CR) +:+ String NL t) as [t Ht].
  { rewrite E, str_take_app_le by lia.
    destruct (4096 - String.length (pre +:+ str1 CR))%nat as [|k] eqn:Ek; [lia|]. by eexists. }
  rewrite Ht, IndexByte_app by done. rewrite Hlen, <- Hlen2, E2.
  by rewrite str_take_exact, str_drop_exact.
Qed.

Section Form.
Context (b : string) (Hb : good_boundary b).

Lemma dash_length : String.length (dashBoundary b) = S (S (String.length b)).
Proof. done. Qed.

(** A boundary line, and the last one. *)
Lemma delimiter_line first :
  isBoundaryDelimiterLine b first false (dashBoundary b +:+ crlf) = (true, false).
Proof.
  unfold isBoundaryDelimiterLine. rewrite HasPrefix_app, str_drop_exact. by destruct first.
Qed.
Lemma next_delimiter fuel first expect rest :
  next_boundary b (S fuel) first false expect (dashBoundary b +:+ crlf +:+ rest) = Ok (false, rest).
Proof.
  cbn [next_boundary]. rewrite ReadSlice_line.
  - by rewrite delimiter_line.
  - by apply boundary_prefix_IndexByte, Hb.
  - rewrite dash_length. pose proof (gb_short _ Hb). lia.
Qed.
Lemma next_final fuel expect :
  next_boundary b (S fuel) false false expect (dashBoundaryDash b +:+ crlf) = Err ErrEOF.
Proof.
  cbn [next_boundary]. rewrite <- (str_app_nil_r (dashBoundaryDash b +:+ crlf)), str_app_assoc, ReadSlice_line.
  - assert (Hd : isBoundaryDelimiterLine b false false (dashBoundaryDash b +:+ crlf) = (false, false)).
    { unfold isBoundaryDelimiterLine, dashBoundaryDash. by rewrite str_app_assoc, HasPrefix_app, str_drop_exact. }
    rewrite Hd. unfold isFinalBoundary. by rewrite HasPrefix_app, str_drop_exact.
  - apply IndexByte_None_app; [by apply boundary_prefix_IndexByte, Hb|done].
  - unfold dashBoundaryDash. rewrite str_length_app, dash_length. simpl. pose proof (gb_short _ Hb). lia.
Qed.
(** The line end in front of a boundary line. *)
Lemma next_separator fuel s :
  next_boundary b (S fuel) false false false (crlf +:+ s) = next_boundary b fuel false false true s.
Proof.
  cbn [next_boundary]. replace (ReadSlice (crlf +:+ s)) with (Line crlf s)
    by (symmetry; exact (ReadSlice_line EmptyString s eq_refl ltac:(simpl; lia))).
  assert (Hd : isBoundaryDelimiterLine b false false crlf = (false, false)) by done.
  rewrite Hd. done.
Qed.

(** * The header of a part *)

Lemma name_byte_spec c : name_byte c = true ->
  32 <= byte_z c <= 126 /\ c <> DQUOTE /\ c <> BSLASH.
Proof.
  unfold name_byte. rewrite !andb_true_iff, !negb_true_iff. unfold in_range. rewrite andb_true_iff, !Z.leb_le.
  intros [[H1 H2] H3]. split; [done|]. split; intros ->; [by rewrite Ascii.eqb_refl in H2|by rewrite Ascii.eqb_refl in H3].
Qed.

Lemma quoted_value_name name rest :
  str_forall name_byte name = true -> quoted_value (name +:+ String DQUOTE rest) = Some (name, rest).
Proof.
  induction name as [|c name IH]; intros H; [done|]. cbn [str_forall] in H. apply andb_prop in H as [Hc H].
  apply name_byte_spec in Hc as (Hr & Hq & Hs). rewrite str_app_cons. cbn [quoted_value].
  assert (Ascii.eqb c DQUOTE = false) as -> by by apply Ascii.eqb_neq.
  assert (Ascii.eqb c BSLASH = false) as -> by by apply Ascii.eqb_neq.
  assert (Ascii.eqb c CR = false) as -> by (apply Ascii.eqb_neq; intros ->; change (byte_z CR) with 13 in Hr; lia).
  assert (Ascii.eqb c NL = false) as -> by (apply Ascii.eqb_neq; intros ->; change (byte_z NL) with 10 in Hr; lia).
  cbn [andb orb]. rewrite IH by done. cbn [mbind option_bind]. destruct name; done.
Qed.

Lemma FormName_disposition name :
  str_forall name_byte name = true -> FormName_of [("Content-Disposition", disposition name)] = name.
Proof.
  intros Hn. unfold FormName_of.
  assert (E : Header_Get [("Content-Disposition", disposition name)] "Content-Disposition" = disposition name) by done.
  rewrite E. unfold ParseMediaType.
  assert (Ec : Cut (disposition name) ";" = ("form-data", Some (" name=" +:+ dq name))) by done.
  rewrite Ec. cbn [fst].
  assert (Et : TrimSpace (ToLower "form-data") = "form-data") by by vm_compute.
  rewrite Et. cbn [checkMediaTypeDisposition].
  assert (Ek : checkMediaTypeDisposition "form-data" = Ok tt) by by vm_compute. rewrite Ek.
  assert (Hp : scan_params (S (String.length (disposition name))) (str_drop (String.length "form-data") (disposition name))
      no_params = Scanned {| mp_params := {["name" := name]}; mp_cont := ∅ |}).
  { change (str_drop _ (disposition name)) with (String ";" (" name=" +:+ dq name)).
    cbn [scan_params]. rewrite TrimLeftSpace_stop by done. cbn [str_nil].
    assert (Hc : consumeMediaParam (String ";" (" name=" +:+ dq name)) = Some ("name", name, "")).
    { unfold consumeMediaParam. rewrite TrimLeftSpace_stop by done. cbn [cut_byte Ascii.eqb Bool.eqb mbind option_bind].
      change (" name=" +:+ dq name) with (String " " ("name=" +:+ dq name)).
      rewrite TrimLeftSpace_space by done.
      change ("name=" +:+ dq name) with (String "n" ("ame=" +:+ dq name)). rewrite TrimLeftSpace_stop by done.
      assert (Hk : consumeToken (String "n" ("ame=" +:+ dq name)) = ("name", String "=" (dq name))) by done.
      rewrite Hk. assert (Hl : ToLower "name" = "name") by by vm_compute. rewrite Hl. cbn [str_nil].
      rewrite TrimLeftSpace_stop by done. cbn [cut_byte Ascii.eqb Bool.eqb mbind option_bind].
      unfold dq at 1 2. unfold str1 at 1 3. rewrite str_app_cons, str_app_nil_l, TrimLeftSpace_stop by done.
      cbn [consumeValue]. rewrite Ascii.eqb_refl. unfold str1. rewrite quoted_value_name by done. cbn [default].
      by destruct name. }
    rewrite Hc. unfold add_param. assert (Hcut : Cut "name" "*" = ("name", None)) by done. rewrite Hcut.
    unfold set_new, no_params. cbn [mp_params mp_cont]. rewrite lookup_empty. cbn [mbind option_bind mp_cont no_params mp_params].
    by destruct name. }
  rewrite Hp. cbn [String.eqb Ascii.eqb Bool.eqb andb]. unfold param_value. cbn [mp_cont mp_params].
  rewrite lookup_empty. by rewrite lookup_singleton_eq.
Qed.

Lemma LastIndex_snoc s c : LastIndex (s +:+ str1 c) c = Some (String.length s).
Proof. induction s as [|a s IH]; [unfold str1; rewrite str_app_nil_l; cbn [LastIndex]; by rewrite Ascii.eqb_refl|]. rewrite str_app_cons. cbn [LastIndex]. by rewrite IH. Qed.
Lemma drop_cr_snoc s : drop_cr (s +:+ str1 CR) = s.
Proof.
  unfold drop_cr, ends_with. rewrite LastIndex_snoc, str_length_app. cbn [String.length str1].
  rewrite Nat.add_1_r, Nat.eqb_refl. cbn [Nat.sub]. rewrite Nat.sub_0_r. apply str_take_exact.
Qed.

Lemma read_line_crlf lim pre rest :
  IndexByte pre NL = None -> slen pre <= lim -> read_line lim (pre +:+ crlf +:+ rest) = Ok (pre, rest).
Proof.
  intros Hn Hl. unfold read_line.
  replace (str_nil (pre +:+ crlf +:+ rest)) with false by (by destruct pre).
  replace (pre +:+ crlf +:+ rest) with ((pre +:+ str1 CR) +:+ String NL rest) by by rewrite str_app_assoc.
  rewrite IndexByte_app by by apply IndexByte_None_app.
  rewrite str_take_exact, drop_cr_snoc. destruct (Z.gtb_spec (slen pre) lim); [lia|]. do 2 f_equal.
  transitivity (str_drop (String.length ((pre +:+ str1 CR) +:+ nl)) (((pre +:+ str1 CR) +:+ nl) +:+ rest));
    [f_equal|apply str_drop_exact].
  - rewrite !str_length_app. simpl. lia.
  - by rewrite !str_app_assoc.
Qed.

Lemma trim_right_snoc s c : is_blank c = false -> trim_right_blank (s +:+ str1 c) = s +:+ str1 c.
Proof.
  intros Hc. induction s as [|a s IH]; [unfold str1; rewrite str_app_nil_l; cbn [trim_right_blank]; by rewrite Hc|]. rewrite str_app_cons. cbn [trim_right_blank].
  rewrite IH. by destruct s.
Qed.

Definition disposition_line (name : string) : string := "Content-Disposition: " +:+ disposition name.

Lemma disposition_snoc name :
  disposition_line name = ("Content-Disposition: form-data; name=" +:+ str1 DQUOTE +:+ name) +:+ str1 DQUOTE.
Proof. unfold disposition_line, disposition, dq. by rewrite !str_app_assoc. Qed.
Lemma disposition_length name : slen (disposition_line name) = 40 + slen name - 1.
Proof. rewrite disposition_snoc. unfold slen. rewrite !str_length_app. simpl. lia. Qed.
Lemma name_no_NL name : str_forall name_byte name = true -> IndexByte name NL = None.
Proof.
  induction name as [|c name IH]; [done|]. simpl. intros H. apply andb_prop in H as [Hc H].
  apply name_byte_spec in Hc as (Hr & _). rewrite IH by done.
  destruct (Ascii.eqb_spec c NL) as [->|]; [|done]. change (byte_z NL) with 10 in Hr. lia.
Qed.

Lemma disposition_no_NL name : str_forall name_byte name = true -> IndexByte (disposition_line name) NL = None.
Proof.
  intros Hn. rewrite disposition_snoc. repeat apply IndexByte_None_app; try done. by apply name_no_NL.
Qed.

(** The two lines of the header. *)
Lemma read_continued_disposition lim name rest :
  str_forall name_byte name = true -> slen (disposition_line name) <= lim ->
  read_continued_line lim (disposition_line name +:+ crlf +:+ crlf +:+ rest)
  = Ok (disposition_line name, crlf +:+ rest).
Proof.
  intros Hn Hl. unfold read_continued_line. rewrite read_line_crlf by (done || by apply disposition_no_NL).
  cbn [mbind res_bind]. replace (str_nil (disposition_line name)) with false by done.
  assert (Hidx : IndexByte (disposition_line name) ":" = Some 19%nat) by done. rewrite Hidx.
  assert (Htrim : trim_blank (disposition_line name) = disposition_line name).
  { unfold trim_blank. change (trim_left_blank (disposition_line name)) with (disposition_line name).
    rewrite disposition_snoc. by apply trim_right_snoc. }
  rewrite Htrim. unfold crlf. rewrite !str_app_cons. cbn [String.length read_continuations trim_left_blank].
  change (is_blank CR) with false. by rewrite Nat.eqb_refl.
Qed.
Lemma read_continued_blank lim rest : 0 <= lim -> read_continued_line lim (crlf +:+ rest) = Ok (EmptyString, rest).
Proof.
  intros Hl. unfold read_continued_line.
  assert (Hr : read_line lim (crlf +:+ rest) = Ok (EmptyString, rest)) by exact (read_line_crlf lim EmptyString rest eq_refl Hl).
  by rewrite Hr.
Qed.

Lemma disposition_value name :
  str_forall name_byte name = true -> str_forall header_value_byte (String " " (disposition name)) = true.
Proof.
  intros Hn.
  change (String " " (disposition name)) with (" form-data; name=" +:+ (str1 DQUOTE +:+ (name +:+ str1 DQUOTE))).
  rewrite !str_forall_app. apply andb_true_intro. split; [done|]. apply andb_true_intro. split; [done|].
  apply andb_true_intro. split; [|done]. eapply str_forall_impl; [|exact Hn].
  intros c Hc. apply name_byte_spec in Hc as ([H1 H2] & _). unfold header_value_byte, in_range.
  apply orb_true_iff. left. apply orb_true_iff. right. apply andb_true_iff. by rewrite !Z.leb_le.
Qed.

Lemma read_header_disposition name rest :
  str_forall name_byte name = true -> (String.length name <= 1000)%nat ->
  read_header (disposition_line name +:+ crlf +:+ crlf +:+ rest)
  = Ok ([("Content-Disposition", disposition name)], rest).
Proof.
  intros Hn Hl. assert (Hsl : slen (disposition_line name) <= 1100).
  { rewrite disposition_length. unfold slen. lia. }
  assert (Hd : slen (disposition name) <= 1100).
  { revert Hsl. unfold disposition_line, slen. rewrite str_length_app. simpl. lia. }
  set (s := disposition_line name +:+ crlf +:+ crlf +:+ rest).
  assert (Hs : read_header s = read_fields (S (String.length s)) (maxMIMEHeaderSize - 400) maxMIMEHeaders [] s) by done.
  rewrite Hs. assert (exists k, String.length s = S k) as [k ->] by (by eexists).
  cbn [read_fields]. subst s. rewrite read_continued_disposition by (done || (unfold maxMIMEHeaderSize; lia)).
  cbn [mbind res_bind]. replace (str_nil (disposition_line name)) with false by done.
  assert (Hcut : Cut (disposition_line name) ":" = ("Content-Disposition", Some (String " " (disposition name)))) by done.
  rewrite Hcut. assert (Hkey : header_key "Content-Disposition" = Some "Content-Disposition") by by vm_compute.
  rewrite Hkey, disposition_value by done. cbn [negb].
  change (trim_left_blank (String " " (disposition name))) with (disposition name).
  change (maxMIMEHeaders <=? 0) with false. cbn [existsb]. change (slen "Content-Disposition") with 19.
  destruct (Z.ltb_spec (maxMIMEHeaderSize - 400 - 19 - 200 - slen (disposition name)) 0) as [Hlt|Hge];
    [unfold maxMIMEHeaderSize in Hlt; lia|].
  by rewrite read_continued_blank.
Qed.

(** * The content of a part *)

(** A word without line feeds that does not end in CR cannot reach over the line
    end behind a text. *)
Lemma HasPrefix_over v w x :
  IndexByte w NL = None -> TrimRight w CR = w ->
  HasPrefix (v +:+ String CR (String NL x)) w = true -> HasPrefix v w = true.
Proof.
  revert w. induction v as [|c v IH]; intros w Hn Ht H.
  - destruct w as [|a w]; [done|]. cbn [HasPrefix] in H. rewrite str_app_nil_l in H. simpl in H.
    apply andb_prop in H as [Ha H]. apply Ascii.eqb_eq in Ha as ->.
    destruct w as [|a' w]; [by vm_compute in Ht|]. simpl in H. apply andb_prop in H as [Ha H].
    apply Ascii.eqb_eq in Ha as ->. by cbn in Hn.
  - destruct w as [|a w]; [done|]. rewrite str_app_cons in H. cbn [HasPrefix] in H |- *.
    apply andb_prop in H as [-> H]. cbn [andb]. apply IH; [| |done].
    + cbn [IndexByte] in Hn. destruct (Ascii.eqb a NL); [done|]. by destruct (IndexByte w NL).
    + cbn [TrimRight] in Ht. destruct (TrimRight w CR) eqn:E; [|by injection Ht].
      destruct (Ascii.eqb a CR); [done|]. by injection Ht.
Qed.

Lemma Contains_tail c s w : Contains (String c s) w = false -> Contains s w = false.
Proof. cbn [Contains]. by intros [_ H]%orb_false_iff. Qed.
Lemma Contains_prefix s w : Contains s w = false -> HasPrefix s w = false.
Proof. destruct s; cbn [Contains]; by intros [H _]%orb_false_iff. Qed.

Lemma dash_cr : TrimRight (dashBoundary b) CR = dashBoundary b.
Proof. apply TrimRight_app; [apply Hb|apply Hb]. Qed.

Lemma find_boundary_value value tail :
  Contains value (nlDashBoundary b false) = false -> match_after tail = true ->
  find_boundary b false (value +:+ nlDashBoundary b false +:+ tail)
  = Some (value, nlDashBoundary b false +:+ tail).
Proof.
  intros Hv Ht. induction value as [|c value IH].
  - rewrite str_app_nil_l. destruct (nlDashBoundary b false +:+ tail) eqn:E; [done|]. cbn [find_boundary].
    rewrite <- E, HasPrefix_app, str_drop_exact, Ht. done.
  - rewrite str_app_cons. cbn [find_boundary].
    assert (Hp : HasPrefix (String c (value +:+ nlDashBoundary b false +:+ tail)) (nlDashBoundary b false) = false).
    { apply not_true_is_false. intros H. apply Contains_prefix in Hv. clear IH.
      assert (Hn : nlDashBoundary b false = String CR (String NL (dashBoundary b))) by done. rewrite Hn in H, Hv.
      rewrite !str_app_cons in H. cbn [HasPrefix] in H, Hv. apply andb_prop in H as [Hc H]. rewrite Hc in Hv.
      destruct value as [|d value]; [by cbn in H|]. rewrite str_app_cons in H. cbn [HasPrefix andb] in H, Hv.
      apply andb_prop in H as [Hd H]. rewrite Hd in Hv. cbn [andb] in Hv.
      apply HasPrefix_over in H; [congruence| |apply dash_cr]. by apply boundary_prefix_IndexByte, Hb. }
    rewrite Hp. cbn [andb]. rewrite IH by (by eapply Contains_tail). done.
Qed.

Lemma has_NL_prefix p s : HasPrefix p s = true -> IndexByte p NL = None -> IndexByte s NL = None.
Proof.
  revert p. induction s as [|c s IH]; intros p; [done|]. destruct p as [|a p]; [done|]. cbn [HasPrefix IndexByte].
  intros H Hn. apply andb_prop in H as [Ha H]. apply Ascii.eqb_eq in Ha as ->.
  destruct (Ascii.eqb a NL); [done|]. destruct (IndexByte p NL) eqn:E; [done|]. by rewrite (IH _ H E).
Qed.
Lemma crlf_has_NL value x : IndexByte (value +:+ String CR (String NL x)) NL <> None.
Proof.
  induction value as [|c value IH]; [done|]. rewrite str_app_cons. cbn [IndexByte].
  destruct (Ascii.eqb c NL); [done|]. by destruct (IndexByte _ NL).
Qed.

Lemma part_content_value value tail :
  Contains (crlf +:+ value) (nlDashBoundary b false) = false -> match_after tail = true ->
  part_content b false (value +:+ nlDashBoundary b false +:+ tail)
  = (Reader value ErrEOF, nlDashBoundary b false +:+ tail).
Proof.
  intros Hv Ht. assert (Hcont : Contains value (nlDashBoundary b false) = false).
  { do 2 (apply Contains_tail in Hv). exact Hv. }
  unfold part_content. rewrite find_boundary_value by done.
  assert (Hx : exists x, value +:+ nlDashBoundary b false +:+ tail = value +:+ String CR (String NL x))
    by by eexists.
  destruct Hx as [x Hx]. rewrite Hx.
  assert (HasPrefix (value +:+ String CR (String NL x)) (dashBoundary b) = false) as ->.
  { apply not_true_is_false. intros H. apply HasPrefix_over in H; [| |apply dash_cr].
    - apply Contains_prefix in Hv. unfold nlDashBoundary, eol, crlf, nl, str1 in Hv.
      rewrite !str_app_cons, !str_app_nil_l in Hv. cbn [HasPrefix] in Hv. rewrite !Ascii.eqb_refl in Hv. cbn [andb] in Hv. congruence.
    - by apply boundary_prefix_IndexByte, Hb. }
  assert (HasPrefix (dashBoundary b) (value +:+ String CR (String NL x)) = false) as ->; [|done].
  apply not_true_is_false. intros H. apply has_NL_prefix in H; [|by apply boundary_prefix_IndexByte, Hb].
  by apply crlf_has_NL in H.
Qed.

(** * All the parts *)

Definition form_part (f : string * string) : part := Part (fst f) (Reader (snd f) ErrEOF).

Lemma form_body_open fields : exists tail, form_body b fields = dashBoundary b +:+ tail /\ match_after tail = true.
Proof.
  destruct fields as [|[name value] fields]; cbn [form_body].
  - exists ("--" +:+ crlf). split; [|done]. unfold dashBoundaryDash. by rewrite str_app_assoc.
  - by eexists.
Qed.

(** One part, behind its boundary line. *)
Lemma read_part fuel first s f fields :
  good_field b f ->
  next_boundary b (S (String.length s)) first false false s
  = Ok (false, "Content-Disposition: " +:+ disposition (fst f) +:+ crlf +:+ crlf +:+ snd f +:+ crlf +:+ form_body b fields) ->
  read_parts (S fuel) b first false s =
  let pr := read_parts fuel b false false (crlf +:+ form_body b fields) in
  PartReader (form_part f :: pr_parts pr) (pr_end pr).
Proof.
  intros [Hn Hl Hv] Hs. cbn [read_parts]. rewrite Hs. destruct f as [name value]. cbn [fst snd] in *.
  replace ("Content-Disposition: " +:+ disposition name +:+ crlf +:+ crlf +:+ value +:+ crlf +:+ form_body b fields)
    with (disposition_line name +:+ crlf +:+ crlf +:+ (value +:+ crlf +:+ form_body b fields))
    by (unfold disposition_line; by rewrite str_app_assoc).
  rewrite read_header_disposition by done. destruct (form_body_open fields) as (tail & -> & Ht).
  replace (value +:+ crlf +:+ dashBoundary b +:+ tail) with (value +:+ nlDashBoundary b false +:+ tail)
    by (unfold nlDashBoundary; cbn [eol]; by rewrite str_app_assoc).
  rewrite part_content_value by done. cbn zeta. rewrite FormName_disposition by done.
  unfold nlDashBoundary. cbn [eol]. rewrite str_app_assoc. done.
Qed.

Lemma read_rest fields fuel :
  Forall (good_field b) fields -> (length fields < fuel)%nat ->
  read_parts fuel b false false (crlf +:+ form_body b fields) = PartReader (form_part <$> fields) ErrEOF.
Proof.
  intros Hf. revert fuel. induction Hf as [|[name value] fields Hg _ IH]; intros [|fuel] Hl; simpl in Hl; try lia.
  - cbn [read_parts]. rewrite next_separator. cbn [form_body].
    assert (exists k, String.length (crlf +:+ dashBoundaryDash b +:+ crlf) = S k) as [k ->] by by eexists.
    by rewrite next_final.
  - rewrite (read_part fuel false _ (name, value) fields Hg).
    + rewrite IH by lia. done.
    + rewrite next_separator.
      assert (exists k, String.length (crlf +:+ form_body b ((name, value) :: fields)) = S k) as [k ->] by by eexists.
      cbn [form_body fst snd]. apply next_delimiter.
Qed.

Lemma form_body_length fields : (length fields < String.length (form_body b fields))%nat.
Proof.
  induction fields as [|[name value] fields IH]; [simpl; lia|]. cbn [form_body length].
  rewrite !str_length_app. simpl in *. lia.
Qed.

Lemma read_form f fields :
  Forall (good_field b) (f :: fields) ->
  multipart_NewReader (form_body b (f :: fields)) b = PartReader (form_part <$> f :: fields) ErrEOF.
Proof.
  intros Hf. inversion Hf as [|? ? Hg Hfs]; subst. unfold multipart_NewReader.
  replace (str_nil b) with false by (pose proof (gb_nonempty _ Hb); by destruct b).
  rewrite (read_part _ true _ f fields Hg).
  - rewrite read_rest; [done|done|]. pose proof (form_body_length (f :: fields)) as Hl. cbn [length] in Hl. lia.
  - destruct f as [name value]. cbn [form_body fst snd]. apply next_delimiter.
Qed.
End Form.

(** * The value of a field *)

(** What [FormField] makes of a content: at most 64 KiB, trimmed. *)
Definition limited (value : string) : string :=
  TrimSpace (if slen value <? 65536 then value else str_take (Z.to_nat 65536) value).
Fixpoint first_field (fields : list (string * string)) (name : string) : option string :=
  match fields with
  | [] => None
  | (n, v) :: fields' => if bool_decide (n = name) then Some v else first_field fields' name
  end.

Lemma find_form_field name fields :
  find_field name (form_part <$> fields) ErrEOF = Ok (limited <$> first_field fields name).
Proof.
  induction fields as [|[n v] fields IH]; [done|]. csimpl. cbn [find_field form_part FormName part_body first_field fst snd].
  case_bool_decide; cbn [negb]; [|exact IH]. by rewrite ReadAll_limited.
Qed.

(** C40. Form fields round trip.  For every form, whatever the boundary (not empty,
    one line, not ending in CR, at most 1020 bytes), the names (printable ASCII
    without quotes and backslashes) and the contents (any bytes in which the boundary
    does not begin a line), [FormField] of the body a client writes for it is the
    content of the first field of that name, trimmed and cut at 64 KiB, and nothing
    when there is no such field. *)
Theorem FormField_roundtrip (b : string) (f : string * string) (fields : list (string * string)) (name : string) :
  good_boundary b -> Forall (good_field b) (f :: fields) ->
  FormField (form_body b (f :: fields)) name = Ok (limited <$> first_field (f :: fields) name).
Proof.
  intros Hb Hf. assert (Hbody : BoundaryFromBody (form_body b (f :: fields)) = Ok b).
  { destruct f as [n v]. cbn [form_body]. unfold dashBoundary at 1. rewrite str_app_assoc.
    apply BoundaryFromBody_roundtrip; [apply Hb..|by right]. }
  unfold FormField. rewrite Hbody. cbn [mbind res_bind]. rewrite read_form by done. cbn [pr_parts pr_end].
  apply find_form_field.
Qed.

Definition demo_fields : list (string * string) :=
  [("file", "RIFF" +:+ crlf +:+ "--not" +:+ crlf); ("model", " whisper-1 "); ("model", "other")].
Lemma FormField_roundtrip_witness :
  FormField (form_body "X-7f" demo_fields) "model" = Ok (Some "whisper-1").
Proof.
  refine (FormField_roundtrip "X-7f" _ _ "model" _ _); [split|].
  - discriminate.
  - reflexivity.
  - reflexivity.
  - simpl. lia.
  - repeat (apply Forall_cons; split); try (split; [reflexivity|simpl; lia|vm_compute; reflexivity]). constructor.
Defined.

(** * Bodies cut short *)

(** A body that ends inside a part, behind a line of its header, or behind its
    content without the final boundary reads as one without the field: [NextPart] wraps the end of the
    input, which [errors.Is(err, io.EOF)] sees through. *)
Definition cut_form : string :=
  "--b" +:+ crlf +:+ "Content-Disposition: " +:+ disposition "file" +:+ crlf +:+ crlf +:+ "RIFF".
Example truncated_content : FormField cut_form "model" = Ok None.
Proof. vm_compute. reflexivity. Qed.
Example truncated_header : FormField ("--b" +:+ crlf +:+ "Content-Type: audio/wav" +:+ crlf) "model" = Ok None.
Proof. vm_compute. reflexivity. Qed.
Example truncated_end : FormField (cut_form +:+ crlf) "model" = Ok None.
Proof. vm_compute. reflexivity. Qed.
(** The field itself, cut short, is an error. *)
Example truncated_field : is_err (FormField cut_form "file") = true.
Proof. vm_compute. reflexivity. Qed.
