(* ===== verification/Embeddings.v ===== *)
(** [internal/service/modules/embeddings]: request parsing, the token count over
    the shapes of [input], and [Serve] ([module.go], [types.go]). *)
From stdpp Require Import base gmap strings list.
From Stdlib Require Import ZArith Lia Ascii String.
From S2P Require Import Prelude.
From S2P Require Import GoStrings.
From S2P Require Import GoConv.
From S2P Require Import GoFloat.
From S2P Require Import GoUnmarshal.
From S2P Require Import Types.
From S2P Require Import Prog.
From S2P Require Import Interp.
From S2P Require Import Backend.
From S2P Require Import Tokenizer.
From S2P Require Import ResponseWriter.
From S2P Require Import Env.
From S2P Require Import Module.

Definition Capability : CapabilityID := "openai:/v1/embeddings".
Definition HTTPPath : string := "/v1/embeddings".

Record request := { Model : string; Input : any }.
Record usage := { PromptTokens : Z; TotalTokens : Z }.
Record response := { Usage : option usage }.

Definition dec_request : decoder request := dec_struct
  [ field "model" Model (fun x r => {| Model := x; Input := Input r |}) dec_string;
    field "input" Input (fun x r => {| Model := Model r; Input := x |}) dec_any ].
Definition usage_zero : usage := {| PromptTokens := 0; TotalTokens := 0 |}.
Definition dec_usage : decoder usage := dec_struct
  [ field "prompt_tokens" PromptTokens (fun x u => {| PromptTokens := x; TotalTokens := TotalTokens u |}) dec_int;
    field "total_tokens" TotalTokens (fun x u => {| PromptTokens := PromptTokens u; TotalTokens := x |}) dec_int ].
Definition dec_response : decoder response := dec_struct
  [ field "usage" Usage (fun x _ => {| Usage := x |}) (dec_ptr usage_zero dec_usage) ].

Definition parse_request (body : string) : res request :=
  wrap_err "embeddings: parse request" (Unmarshal dec_request {| Model := ""; Input := ANil |} body).

Definition Module_ExtractModel (body : string) : res ModelID :=
  r ← parse_request body;
  if str_nil (Model r) then Err (ErrText "embeddings: request is missing `model`")
  else Ok (Model r).

Section Embeddings.
Context (tok : Tokenizer) (backend : BackendClient) (recorder : option Recorder).

(** The loop over an array: a string is tokenized, anything else counts one. *)
Fixpoint count_items (model : string) (total : Z) (items : list any) : prog Z :=
  match items with
  | [] => Ret total
  | item :: items' =>
      match item with
      | AString iv =>
          n ← CountTokensForModel tok model iv;
          count_items model (wrap64 (total + n)) items'
      | AFloat _ => count_items model (wrap64 (total + 1)) items'
      | _ => count_items model (wrap64 (total + 1)) items'
      end
  end.

Definition countTokens (model : string) (input : any) : prog Z :=
  match input with
  | AString v => CountTokensForModel tok model v
  | AArr v => count_items model 0 v
  | _ => Ret 0
  end.

Definition Module_EstimateWorkUnits (body : string) (model : ModelID) : prog (res Z) :=
  match parse_request body with
  | Err e => Ret (Err e)
  | Ok r => n ← countTokens model (Input r); Ret (Ok n)
  end.

Definition Module_Serve (w : statusWriter) (body : string) (model : ModelID) (backendURL : string)
  : prog serve_result :=
  r ← backendFor backend recorder Capability model (DoJSON (target_url backendURL HTTPPath) body);
  match rr_err r with
  | Some e => serve_backend_error w "embeddings: backend DoJSON" e
  | None =>
      write_json w (rr_status r) (rr_body r)
        (match Unmarshal dec_response {| Usage := None |} (rr_body r) with
         | Ok {| Usage := Some u |} => TotalTokens u
         | _ => 0
         end)
  end.

Definition methods : ModuleImpl := fun c =>
  match c as c return prog (module_resp c) with
  | ExtractModel body => Ret (Module_ExtractModel body)
  | EstimateWorkUnits body model => Module_EstimateWorkUnits body model
  | Serve w _ body model backendURL => Module_Serve w body model backendURL
  end.

Definition module : Module := {|
  mod_Capability := Capability; mod_HTTPMethod := "POST"; mod_HTTPPath := HTTPPath;
  mod_Unit := UnitToken; mod_methods := methods |}.
End Embeddings.

(** [New(tok, backend).WithRecorder(rec)]. *)
Definition New (tok : Tokenizer) (backend : BackendClient) (rec : option Recorder) : Module :=
  module tok backend rec.

(** * The interface law *)

Lemma count_items_eff tok `{!TokenizerLaws tok} model total items :
  emits tokenizer_eff (count_items tok model total items).
Proof.
  revert total. induction items as [|item items IH]; intros total; simpl; [done|].
  destruct item; auto. apply emits_bind; [apply law_CountTokensForModel|auto].
Qed.

#[export] Instance embeddings_laws tok rec `{!TokenizerLaws tok} :
  ModuleLaws (module tok iface_backend rec).
Proof.
  split; [done| |].
  - intros body model. simpl. unfold Module_EstimateWorkUnits.
    destruct (parse_request body) as [r|e]; [|done].
    apply emits_bind; [|done]. unfold countTokens.
    destruct (Input r); try done; [apply law_CountTokensForModel|by apply count_items_eff].
  - intros w rq body model backendURL. cbn [module mod_methods methods]. unfold Module_Serve.
    apply (serve_buffered _ _ _ _ _ (DoJSON _ body)); [done|].
    intros [status respBody [e|]]; [by apply serve_error_post, agrees_refl|by apply serve_json_post, agrees_refl].
Qed.

(** * The token estimate *)

(** The count of an input, with no bound: a string's tokens, or over an array
    one per item that is not a string. *)
Definition item_tokens (f : string -> string -> Z) (model : string) (item : any) : Z :=
  match item with AString s => f model s | _ => 1 end.
Definition embedding_tokens (f : string -> string -> Z) (model : string) (input : any) : Z :=
  match input with
  | AString s => f model s
  | AArr l => foldr (fun item n => item_tokens f model item + n) 0 l
  | _ => 0
  end.

Lemma count_items_sum tok f model total items :
  (forall m s, returns (CountTokensForModel tok m s) (fun n => n = f m s)) -> in_int64 total ->
  returns (count_items tok model total items)
    (fun n => n = wrap64 (total + foldr (fun item n => item_tokens f model item + n) 0 items)).
Proof.
  intros Hf. revert total. induction items as [|item items IH]; intros total Ht.
  - simpl. rewrite Z.add_0_r, wrap64_id by done. by apply returns_ret.
  - assert (Hone : returns (count_items tok model (wrap64 (total + 1)) items)
      (fun n => n = wrap64 (total + (1 + foldr (fun item n => item_tokens f model item + n) 0 items)))).
    { eapply safe_mono; [|apply IH, wrap64_range]. intros _ n ->. by rewrite wrap64_add_l, Z.add_assoc. }
    cbn [count_items foldr]. destruct item; try exact Hone.
    eapply returns_bind; [apply Hf|]. intros a ->.
    eapply safe_mono; [|apply IH, wrap64_range]. intros _ n ->.
    cbn [item_tokens]. by rewrite wrap64_add_l, Z.add_assoc.
Qed.

(** The embeddings estimate is the token count of a string input, and over
    an array the sum of one per non-string item and the token count of each
    string, whenever that sum fits an [int]; any other input counts zero. *)
Theorem embeddings_estimate_exact (tok : Tokenizer) (f : string -> string -> Z) (body : string)
    (model : ModelID) (r : request) :
  (forall m s, returns (CountTokensForModel tok m s) (fun n => n = f m s)) ->
  parse_request body = Ok r -> in_int64 (embedding_tokens f model (Input r)) ->
  returns (Module_EstimateWorkUnits tok body model)
    (fun res => res = Ok (embedding_tokens f model (Input r))).
Proof.
  intros Hf Hr Hfit. unfold Module_EstimateWorkUnits. rewrite Hr.
  apply (returns_bind _ _ (fun n => n = embedding_tokens f model (Input r))); [|by intros n ->].
  unfold countTokens. destruct (Input r); try done.
  eapply safe_mono; [|by apply count_items_sum]. intros _ n ->. by rewrite Z.add_0_l, wrap64_id.
Qed.

Definition demo_embeddings_body : string :=
  "{" +:+ dq "model" +:+ ":" +:+ dq "m" +:+ "," +:+ dq "input" +:+ ":[" +:+ dq "two words" +:+ ", 17, [1,2,3]]}".

Lemma embeddings_estimate_exact_witness :
  returns (Module_EstimateWorkUnits (NewWordCount 100) demo_embeddings_body "m") (fun res => res = Ok 4).
Proof.
  refine (embeddings_estimate_exact (NewWordCount 100) (fun _ s => wordCount_CountTokens (newWordCount 100) s)
    demo_embeddings_body "m"
    {| Model := "m"; Input := AArr [AString "two words"; AFloat (Float false 4785074604081152 (-48));
         AArr [AFloat (Float false 4503599627370496 (-52)); AFloat (Float false 4503599627370496 (-51));
               AFloat (Float false 6755399441055744 (-51))]] |} _ _ _).
  - intros m s. by apply returns_ret.
  - vm_compute. reflexivity.
  - vm_compute. split; discriminate.
Defined.
