(* ===== verification/ImagesGenerations.v ===== *)
(** [internal/service/modules/images_generations]: request parsing, the
    step-megapixel estimate and [Serve] ([module.go], [types.go]). *)
From stdpp Require Import base gmap strings list.
From Stdlib Require Import ZArith Lia Ascii String.
From S2P Require Import Prelude.
From S2P Require Import GoStrings.
From S2P Require Import GoConv.
From S2P Require Import GoFloat.
From S2P Require Import GoUnmarshal.
From S2P Require Import Types.
From S2P Require Import Prog.
From S2P Require Import Interp.
From S2P Require Import Backend.
From S2P Require Import ResponseWriter.
From S2P Require Import Env.
From S2P Require Import Module.

Definition Capability : CapabilityID := "openai:/v1/images/generations".
Definition HTTPPath : string := "/v1/images/generations".

Record request := { Model : string; N : option Z; Size : string; Steps : option Z; Prompt : string }.

Definition defaultN : Z := 1.
Definition defaultSteps : Z := 30.
Definition defaultSize : string := "1024x1024".

Definition request_zero : request := {| Model := ""; N := None; Size := ""; Steps := None; Prompt := "" |}.
Definition dec_request : decoder request := dec_struct
  [ field "model" Model
      (fun x r => {| Model := x; N := N r; Size := Size r; Steps := Steps r; Prompt := Prompt r |}) dec_string;
    field "n" N
      (fun x r => {| Model := Model r; N := x; Size := Size r; Steps := Steps r; Prompt := Prompt r |}) (dec_ptr 0 dec_int);
    field "size" Size
      (fun x r => {| Model := Model r; N := N r; Size := x; Steps := Steps r; Prompt := Prompt r |}) dec_string;
    field "steps" Steps
      (fun x r => {| Model := Model r; N := N r; Size := Size r; Steps := x; Prompt := Prompt r |}) (dec_ptr 0 dec_int);
    field "prompt" Prompt
      (fun x r => {| Model := Model r; N := N r; Size := Size r; Steps := Steps r; Prompt := x |}) dec_string ].

Definition parse_request (body : string) : res request :=
  wrap_err "images_generations: parse request" (Unmarshal dec_request request_zero body).

Definition Module_ExtractModel (body : string) : res ModelID :=
  r ← parse_request body;
  if str_nil (Model r) then Err (ErrText "images_generations: request is missing `model`")
  else Ok (Model r).

(** [parseSize]. *)
Definition parseSize (size : string) : res (Z * Z) :=
  let s := if str_nil size || bool_decide (size = "auto") then defaultSize else size in
  match Split (ToLower s) "x" with
  | [p0; p1] =>
      match Atoi (TrimSpace p0), Atoi (TrimSpace p1) with
      | Ok w, Ok h =>
          if (w <=? 0) || (h <=? 0)
          then Err (ErrText ("size " +:+ Quote size +:+ ": width and height must be positive integers"))
          else Ok (w, h)
      | _, _ => Err (ErrText ("size " +:+ Quote size +:+ ": width and height must be positive integers"))
      end
  | _ => Err (ErrText ("size " +:+ Quote size +:+ ": want WxH (e.g. 1024x1024)"))
  end.

(** A pointer field counts when it is present and positive. *)
Definition positive_or (d : Z) (x : option Z) : Z :=
  match x with Some v => if 0 <? v then v else d | None => d end.

(** [pixels := n * steps * w * h] and the ceiling division, in [int64]. *)
Definition image_units (n steps w h : Z) : Z :=
  let pixels := wrap64 (wrap64 (wrap64 (n * steps) * w) * h) in
  Z.quot (wrap64 (pixels + 999999)) 1000000.

Definition Module_EstimateWorkUnits (body : string) : res Z :=
  r ← parse_request body;
  let n := positive_or defaultN (N r) in
  let steps := positive_or defaultSteps (Steps r) in
  '(w, h) ← wrap_err "images_generations" (parseSize (Size r));
  Ok (image_units n steps w h).

Section ImagesGenerations.
Context (backend : BackendClient) (recorder : option Recorder).

Definition Module_Serve (w : statusWriter) (body : string) (model : ModelID) (backendURL : string)
  : prog serve_result :=
  r ← backendFor backend recorder Capability model (DoJSON (target_url backendURL HTTPPath) body);
  match rr_err r with
  | Some e => serve_backend_error w "images_generations: backend DoJSON" e
  | None => write_json w (rr_status r) (rr_body r) 0
  end.

Definition methods : ModuleImpl := fun c =>
  match c as c return prog (module_resp c) with
  | ExtractModel body => Ret (Module_ExtractModel body)
  | EstimateWorkUnits body _ => Ret (Module_EstimateWorkUnits body)
  | Serve w _ body model backendURL => Module_Serve w body model backendURL
  end.

Definition module : Module := {|
  mod_Capability := Capability; mod_HTTPMethod := "POST"; mod_HTTPPath := HTTPPath;
  mod_Unit := UnitImageStepMegapixel; mod_methods := methods |}.
End ImagesGenerations.

(** [New(backend).WithRecorder(rec)]. *)
Definition New (backend : BackendClient) (rec : option Recorder) : Module := module backend rec.

#[export] Instance images_generations_laws rec : ModuleLaws (module iface_backend rec).
Proof.
  split; [done|done|].
  intros w rq body model backendURL. cbn [module mod_methods methods]. unfold Module_Serve.
  apply (serve_buffered _ _ _ _ _ (DoJSON _ body)); [done|].
  intros [status respBody [e|]]; [by apply serve_error_post, agrees_refl|by apply serve_json_post, agrees_refl].
Qed.

(** * The estimate *)

Lemma image_units_wrap n steps w h :
  image_units n steps w h = Z.quot (wrap64 (n * steps * w * h + 999999)) 1000000.
Proof. unfold image_units. by rewrite (wrap64_mul_l (n * steps) w), (wrap64_mul_l (n * steps * w) h), wrap64_add_l. Qed.

(** Within range, the units are the least number of megapixels not below the
    product. *)
Lemma image_units_ceil n steps w h :
  0 <= n * steps * w * h <= int64_max - 999999 ->
  1000000 * (image_units n steps w h - 1) < n * steps * w * h <= 1000000 * image_units n steps w h.
Proof.
  intros H. rewrite image_units_wrap, wrap64_id by int64_lia.
  rewrite Z.quot_div_nonneg by lia.
  pose proof (Z.div_mod (n * steps * w * h + 999999) 1000000).
  pose proof (Z.mod_pos_bound (n * steps * w * h + 999999) 1000000). lia.
Qed.

(** C33. The image estimate is the number of step-megapixels rounded up, so an
    operator is never under-charged, as long as [n * steps * width * height]
    plus 999999 fits an [int64]. *)
Theorem images_estimate_ceil (body : string) (r : request) (w h units : Z) :
  parse_request body = Ok r -> parseSize (Size r) = Ok (w, h) ->
  Module_EstimateWorkUnits body = Ok units ->
  let pixels := positive_or defaultN (N r) * positive_or defaultSteps (Steps r) * w * h in
  0 <= pixels <= int64_max - 999999 ->
  1000000 * (units - 1) < pixels <= 1000000 * units.
Proof.
  intros Hr Hs Hu pixels Hp. unfold Module_EstimateWorkUnits in Hu. rewrite Hr in Hu.
  cbn [mbind res_bind] in Hu. rewrite Hs in Hu. injection Hu as <-. by apply image_units_ceil.
Qed.

Definition demo_images_body (size : string) : string :=
  "{" +:+ dq "model" +:+ ":" +:+ dq "sdxl" +:+ "," +:+ dq "n" +:+ ":2," +:+ dq "size" +:+ ":" +:+ dq size +:+ "}".

Lemma images_estimate_ceil_witness :
  1000000 * (63 - 1) < 2 * 30 * 1024 * 1024 <= 1000000 * 63.
Proof.
  refine (images_estimate_ceil (demo_images_body "auto")
    {| Model := "sdxl"; N := Some 2; Size := "auto"; Steps := None; Prompt := "" |} 1024 1024 63 _ _ _ _).
  - vm_compute. reflexivity.
  - vm_compute. reflexivity.
  - vm_compute. reflexivity.
  - vm_compute. split; discriminate.
Defined.

(** Beyond that bound the ceiling is not kept: the product wraps around, and a
    request whose size the parser accepts is metered as zero units, although its
    default number of steps makes more than [2 ^ 48] step-megapixels. *)
Theorem images_estimate_overflow :
  exists size w h, parseSize size = Ok (w, h) /\ 2 ^ 48 * 1000000 < defaultN * defaultSteps * w * h /\
    Module_EstimateWorkUnits (demo_images_body size) = Ok 0.
Proof.
  exists "4294967296x4294967296", 4294967296, 4294967296.
  split_and!; [vm_compute; reflexivity|unfold defaultN, defaultSteps; lia|vm_compute; reflexivity].
Qed.

Lemma parseSize_digits (pw ph : string) :
  str_forall is_digit pw = true -> str_forall is_digit ph = true -> pw <> "" ->
  parseSize (pw +:+ String "x" ph) =
    match Atoi pw, Atoi ph with
    | Ok w, Ok h =>
        if (w <=? 0) || (h <=? 0)
        then Err (ErrText ("size " +:+ Quote (pw +:+ String "x" ph) +:+ ": width and height must be positive integers"))
        else Ok (w, h)
    | _, _ => Err (ErrText ("size " +:+ Quote (pw +:+ String "x" ph) +:+ ": width and height must be positive integers"))
    end.
Proof.
  intros Hw Hh Hne. unfold parseSize.
  destruct pw as [|c pw]; [done|]. rewrite str_app_cons. cbn [str_nil orb].
  rewrite bool_decide_false.
  2:{ intros E. injection E as -> _. done. }
  rewrite <- str_app_cons, digits_ToLower_app by done.
  rewrite ToLower_ascii_cons by done.
  pose proof (digits_ToLower_app ph "" Hh) as HL. rewrite !str_app_nil_r in HL. rewrite HL.
  rewrite Split_app by (by apply digits_IndexByte). rewrite Split_none by (by apply digits_IndexByte).
  by rewrite !digits_TrimSpace by done.
Qed.

(** A size is read back as written: for every positive width and height
    that fit an [int], [parseSize] of "WxH" is exactly the pair. *)
Theorem parseSize_roundtrip (w h : Z) :
  0 < w <= int64_max -> 0 < h <= int64_max ->
  parseSize (FormatInt w +:+ "x" +:+ FormatInt h) = Ok (w, h).
Proof.
  intros Hw Hh. unfold FormatInt.
  destruct (Z.ltb_spec w 0); [lia|]. destruct (Z.ltb_spec h 0); [lia|].
  change ("x" +:+ dec_nat h) with (String "x" (dec_nat h)).
  rewrite parseSize_digits.
  - rewrite !Atoi_dec_nat by lia.
    destruct (Z.leb_spec w 0); [lia|]. destruct (Z.leb_spec h 0); [lia|]. done.
  - apply dec_nat_digits. lia.
  - apply dec_nat_digits. lia.
  - destruct (dec_digits_cons (dec_fuel w) w "") as (c & t & E); [unfold dec_fuel; lia|].
    unfold dec_nat. by rewrite E.
Qed.

Lemma parseSize_roundtrip_witness : parseSize "512x768" = Ok (512, 768).
Proof. exact (parseSize_roundtrip 512 768 ltac:(int64_lia) ltac:(int64_lia)). Defined.
