(* ===== verification/ImagesEdits.v ===== *)
(** [internal/service/modules/images_edits]: the fields of a multipart body,
    the step-megapixel estimate and [Serve] ([module.go]). *)
From stdpp Require Import base gmap strings list.
From Stdlib Require Import ZArith Lia Ascii String.
From S2P Require Import Prelude.
From S2P Require Import GoStrings.
From S2P Require Import GoConv.
From S2P Require Import GoFloat.
From S2P Require Import GoUnmarshal.
From S2P Require Import Types.
From S2P Require Import Prog.
From S2P Require Import Interp.
From S2P Require Import Backend.
From S2P Require Import ResponseWriter.
From S2P Require Import Env.
From S2P Require Import Module.
From S2P Require Import Multipart.
From S2P Require Import MultipartFacts.
From S2P Require Import ImagesGenerations.

Definition Capability : CapabilityID := "openai:/v1/images/edits".
Definition HTTPPath : string := "/v1/images/edits".

Definition defaultN : Z := 1.
Definition defaultSteps : Z := 30.
Definition defaultSize : string := "1024x1024".

(** [parseSize]. *)
Definition parseSize (size : string) : res (Z * Z) :=
  match Split (ToLower size) "x" with
  | [p0; p1] =>
      match Atoi (TrimSpace p0), Atoi (TrimSpace p1) with
      | Ok ww, Ok hh =>
          if (ww <=? 0) || (hh <=? 0)
          then Err (ErrText ("size " +:+ Quote size +:+ ": width and height must be positive integers"))
          else Ok (ww, hh)
      | _, _ => Err (ErrText ("size " +:+ Quote size +:+ ": width and height must be positive integers"))
      end
  | _ => Err (ErrText ("size " +:+ Quote size +:+ ": want WxH (e.g. 1024x1024)"))
  end.

(** A form field read as a positive integer; absent, malformed and unreadable
    fields give the default. *)
Definition positive_field (d : Z) (f : res (option string)) : Z :=
  match f with
  | Ok (Some raw) => match Atoi raw with Ok v => if 0 <? v then v else d | Err _ => d end
  | _ => d
  end.

(** The prefix test both multipart modules make on the content type. *)
Definition is_multipart (contentType : string) : bool := HasPrefix (ToLower contentType) "multipart/form-data".

Section ImagesEdits.
Context (backend : BackendClient) (recorder : option Recorder).

Definition Module_ExtractModel (body : string) : res ModelID :=
  match FormField body "model" with
  | Err e => Err (ErrWrap "images_edits: parse multipart" e)
  | Ok (Some val) =>
      if str_nil val then Err (ErrText "images_edits: multipart body missing `model` field") else Ok val
  | Ok None => Err (ErrText "images_edits: multipart body missing `model` field")
  end.

Definition Module_EstimateWorkUnits (body : string) : res Z :=
  let n := positive_field defaultN (FormField body "n") in
  let steps := positive_field defaultSteps (FormField body "steps") in
  let size := match FormField body "size" with
              | Ok (Some raw) =>
                  if negb (str_nil raw) && negb (bool_decide (raw = "auto")) then raw else defaultSize
              | _ => defaultSize
              end in
  '(w, h) ← wrap_err "images_edits" (parseSize size);
  Ok (ImagesGenerations.image_units n steps w h).

Definition Module_Serve (w : statusWriter) (r : Prog.request) (body : string) (model : ModelID)
    (backendURL : string) : prog serve_result :=
  let contentType := Header_Get (rq_header r) "Content-Type" in
  if negb (is_multipart contentType) then
    w ← http_Error w "Content-Type must be multipart/form-data" 400;
    Ret (ServeResult w 0 (Some (ServeErr (ErrText "images_edits: Content-Type is not multipart/form-data"))))
  else
    r ← backendFor backend recorder Capability model
          (DoRaw (target_url backendURL HTTPPath) contentType body);
    match rr_err r with
    | Some e => serve_backend_error w "images_edits: backend DoRaw" e
    | None => write_json w (rr_status r) (rr_body r) 0
    end.

Definition methods : ModuleImpl := fun c =>
  match c as c return prog (module_resp c) with
  | ExtractModel body => Ret (Module_ExtractModel body)
  | EstimateWorkUnits body _ => Ret (Module_EstimateWorkUnits body)
  | Serve w r body model backendURL => Module_Serve w r body model backendURL
  end.

Definition module : Module := {|
  mod_Capability := Capability; mod_HTTPMethod := "POST"; mod_HTTPPath := HTTPPath;
  mod_Unit := UnitImageStepMegapixel; mod_methods := methods |}.
End ImagesEdits.

(** [New(backend).WithRecorder(rec)]. *)
Definition New (backend : BackendClient) (rec : option Recorder) : Module := module backend rec.

#[export] Instance images_edits_laws rec : ModuleLaws (module iface_backend rec).
Proof.
  split; [done|done|].
  intros w rq body model backendURL. cbn [module mod_methods methods]. unfold Module_Serve.
  destruct (negb _).
  - eapply safe_seq; [apply serve_http_Error, agrees_refl|]. by intros g w' [_ H].
  - apply (serve_buffered _ _ _ _ _ (DoRaw _ _ body)); [done|].
    intros [status respBody [e|]]; [by apply serve_error_post, agrees_refl|by apply serve_json_post, agrees_refl].
Qed.

Lemma parseSize_generations size :
  size <> "" -> size <> "auto" -> parseSize size = ImagesGenerations.parseSize size.
Proof.
  intros Hn Ha. unfold ImagesGenerations.parseSize. rewrite (bool_decide_false (size = "auto")) by done.
  by destruct size.
Qed.

(** Edits and generations meter alike: when the form fields of a multipart
    body spell the [n], [size] and [steps] of a JSON request, the two estimates
    agree, in the units and in which sizes are refused. *)
Theorem images_edits_generations_agree (body json_body : string)
    (r : ImagesGenerations.request) (fn fsteps : option string) :
  ImagesGenerations.parse_request json_body = Ok r ->
  FormField body "n" = Ok fn -> FormField body "steps" = Ok fsteps ->
  FormField body "size" = Ok (Some (ImagesGenerations.Size r)) ->
  match fn with Some s => Some <$> Atoi s | None => Ok None end = Ok (ImagesGenerations.N r) ->
  match fsteps with Some s => Some <$> Atoi s | None => Ok None end = Ok (ImagesGenerations.Steps r) ->
  match Module_EstimateWorkUnits body, ImagesGenerations.Module_EstimateWorkUnits json_body with
  | Ok u, Ok u' => u = u'
  | Err _, Err _ => True
  | _, _ => False
  end.
Proof.
  intros Hr Hn Hst Hsz Hnv Hstv. unfold Module_EstimateWorkUnits, ImagesGenerations.Module_EstimateWorkUnits.
  rewrite Hr, Hn, Hst, Hsz. cbn [mbind res_bind].
  assert (Hf : forall d f x, match f with Some s => Some <$> Atoi s | None => Ok None end = Ok x ->
    positive_field d (Ok f) = ImagesGenerations.positive_or d x).
  { intros d f x Hx. destruct f as [s|]; [|by injection Hx as <-]. unfold positive_field.
    destruct (Atoi s); [|done]. by injection Hx as <-. }
  rewrite (Hf _ _ _ Hnv), (Hf _ _ _ Hstv).
  change defaultN with ImagesGenerations.defaultN. change defaultSteps with ImagesGenerations.defaultSteps.
  assert (Hp : is_ok (parseSize (if negb (str_nil (ImagesGenerations.Size r)) &&
      negb (bool_decide (ImagesGenerations.Size r = "auto")) then ImagesGenerations.Size r else defaultSize)) =
      is_ok (ImagesGenerations.parseSize (ImagesGenerations.Size r)) /\
    forall wh, parseSize (if negb (str_nil (ImagesGenerations.Size r)) &&
      negb (bool_decide (ImagesGenerations.Size r = "auto")) then ImagesGenerations.Size r else defaultSize) = Ok wh
      <-> ImagesGenerations.parseSize (ImagesGenerations.Size r) = Ok wh).
  { destruct (ImagesGenerations.Size r) as [|c s] eqn:E; [done|]. cbn [str_nil negb andb].
    destruct (decide (String c s = "auto")) as [Ha|Ha].
    - rewrite bool_decide_true by done. rewrite Ha. done.
    - rewrite bool_decide_false by done. cbn [negb]. by rewrite parseSize_generations. }
  destruct Hp as [Hp1 Hp2].
  destruct (parseSize _) as [[w h]|e], (ImagesGenerations.parseSize _) as [[w' h']|e'] eqn:E'; try done.
  destruct (Hp2 (w, h)) as [H _]. specialize (H eq_refl). by simplify_eq.
Qed.

(** A form with the two fields a JSON request has. *)
Definition demo_edit_form : string := form_body "b" [("prompt", "a hat"); ("n", " 2"); ("size", "auto")].

Lemma images_edits_generations_agree_witness :
  match Module_EstimateWorkUnits demo_edit_form,
        ImagesGenerations.Module_EstimateWorkUnits (ImagesGenerations.demo_images_body "auto") with
  | Ok u, Ok u' => u = u'
  | Err _, Err _ => True
  | _, _ => False
  end.
Proof.
  refine (images_edits_generations_agree demo_edit_form (ImagesGenerations.demo_images_body "auto")
    {| ImagesGenerations.Model := "sdxl"; ImagesGenerations.N := Some 2; ImagesGenerations.Size := "auto";
       ImagesGenerations.Steps := None; ImagesGenerations.Prompt := "" |} (Some "2") None _ _ _ _ _ _);
    vm_compute; reflexivity.
Defined.
