(* ===== verification/AudioSpeech.v ===== *)
(** [internal/service/modules/audio_speech]: the character count and the piped
    [Serve] ([module.go]). *)
From stdpp Require Import base gmap strings list.
From Stdlib Require Import ZArith Lia Ascii String.
From S2P Require Import Prelude.
From S2P Require Import GoStrings.
From S2P Require Import GoConv.
From S2P Require Import GoFloat.
From S2P Require Import GoUnmarshal.
From S2P Require Import Types.
From S2P Require Import Prog.
From S2P Require Import Interp.
From S2P Require Import Backend.
From S2P Require Import ResponseWriter.
From S2P Require Import Env.
From S2P Require Import Module.

Definition Capability : CapabilityID := "openai:/v1/audio/speech".
Definition HTTPPath : string := "/v1/audio/speech".

Record request := { Model : string; Input : string }.
Definition dec_request : decoder request := dec_struct
  [ field "model" Model (fun x r => {| Model := x; Input := Input r |}) dec_string;
    field "input" Input (fun x r => {| Model := Model r; Input := x |}) dec_string ].

Definition parse_request (body : string) : res request :=
  wrap_err "audio_speech: parse request" (Unmarshal dec_request {| Model := ""; Input := "" |} body).

Definition Module_ExtractModel (body : string) : res ModelID :=
  r ← parse_request body;
  if str_nil (Model r) then Err (ErrText "audio_speech: request is missing `model`")
  else Ok (Model r).

Definition Module_EstimateWorkUnits (body : string) : res Z :=
  r ← parse_request body; Ok (RuneCountInString (Input r)).

(** [io.Copy(w, stream)]: one write for each non-empty read; the first error of
    a write, or of a read other than [io.EOF]. *)
Fixpoint io_Copy (chunks : list string) (end_ : error) (w : statusWriter)
  : prog (statusWriter * option error) :=
  match chunks with
  | [] => Ret (w, match end_ with ErrEOF => None | e => Some e end)
  | c :: chunks' =>
      if str_nil c then io_Copy chunks' end_ w
      else
        '(w, werr) ← Write c w;
        match werr with
        | Some e => Ret (w, Some e)
        | None => io_Copy chunks' end_ w
        end
  end.

(** What follows the backend's answer, before the deferred close. *)
Definition pipe_stream (status : Z) (backendHeaders : header) (s : stream) (w : statusWriter)
  : prog serve_result :=
  let contentType := Header_Get backendHeaders "Content-Type" in
  let contentType := if str_nil contentType then "audio/mpeg" else contentType in
  _ ← Header_Set "Content-Type" contentType;
  WriteHeader_then status w (fun w =>
    '(w, err) ← io_Copy (st_chunks s) (st_end s) w;
    match err with
    | Some e => Ret (ServeResult w 0 (Some (ServeErr (ErrWrap "audio_speech: pipe stream" e))))
    | None => Ret (ServeResult w 0 None)
    end).

Section AudioSpeech.
Context (backend : BackendClient) (recorder : option Recorder).

Definition Module_Serve (w : statusWriter) (body : string) (model : ModelID) (backendURL : string)
  : prog serve_result :=
  r ← backendFor backend recorder Capability model (DoStream (target_url backendURL HTTPPath) body);
  match sr_err r with
  | Some e => serve_backend_error w "audio_speech: backend DoStream" e
  | None => with_defer (pipe_stream (sr_status r) (sr_headers r) (sr_stream r) w) (fun _ => stream_Close)
  end.

Definition methods : ModuleImpl := fun c =>
  match c as c return prog (module_resp c) with
  | ExtractModel body => Ret (Module_ExtractModel body)
  | EstimateWorkUnits body _ => Ret (Module_EstimateWorkUnits body)
  | Serve w _ body model backendURL => Module_Serve w body model backendURL
  end.

Definition module : Module := {|
  mod_Capability := Capability; mod_HTTPMethod := "POST"; mod_HTTPPath := HTTPPath;
  mod_Unit := UnitCharacter; mod_methods := methods |}.
End AudioSpeech.

(** [New(backend).WithRecorder(rec)]. *)
Definition New (backend : BackendClient) (rec : option Recorder) : Module := module backend rec.

(** * The interface law *)

Lemma serve_io_Copy url body chunks e w wire :
  sw_wrote w = true -> agrees wire w ->
  safe (serve_mon url body) (io_Copy chunks e w)
    (fun g r => sg_called g = true /\ agrees (sg_writer g) w /\ fst r = w) (ServeGhost true wire).
Proof.
  intros Hw. revert wire. induction chunks as [|c chunks IH]; intros wire Ha; cbn [io_Copy]; [done|].
  destruct (str_nil c); [by apply IH|]. intros r. cbn. rewrite Hw. cbn.
  destruct r as [er|]; [|apply IH; by apply agrees_wrote]. split_and!; [done|by apply agrees_wrote|done].
Qed.

#[export] Instance audio_speech_laws rec : ModuleLaws (module iface_backend rec).
Proof.
  split; [done|done|].
  intros w rq body model backendURL. cbn [module mod_methods methods]. unfold Module_Serve.
  apply (serve_buffered _ _ _ _ _ (DoStream _ body)); [done|].
  intros [status hdrs s [e|]]; [by apply serve_error_post, agrees_refl|]. cbn [sr_err].
  unfold with_defer. eapply (safe_seq _ _ _ serve_post); [|by intros g res Hp []].
  unfold pipe_stream. eapply safe_seq; [apply serve_Header_Set|]. intros ? _ ->.
  apply serve_WriteHeader_then; [apply agrees_refl|]. clear. intros wire w Ha Hw.
  eapply safe_seq; [by apply serve_io_Copy|].
  intros g [w' [e|]] (Hcall & Hag & Hw'); simpl in *; subst; by split.
Qed.

(** * The estimate *)

(** The speech estimate is the number of characters of the input, and so at
    most its number of bytes. *)
Theorem speech_estimate_chars (body : string) (r : request) :
  parse_request body = Ok r ->
  Module_EstimateWorkUnits body = Ok (Z.of_nat (length (runes (Input r)))) /\
  Z.of_nat (length (runes (Input r))) <= slen (Input r).
Proof.
  intros Hr. unfold Module_EstimateWorkUnits. rewrite Hr. split; [done|].
  unfold runes, rune_segs, slen. rewrite length_fmap. apply inj_le.
  generalize 0%nat. induction (Input r) as [|c s IH]; intros k; cbn [rune_segs_from String.length];
    [cbn; lia|].
  destruct k; [|specialize (IH k); lia]. destruct (decode_rune (String c s)) as [z n].
  cbn [length]. specialize (IH (Nat.pred n)). lia.
Qed.

Lemma speech_estimate_chars_witness :
  Module_EstimateWorkUnits ("{" +:+ dq "input" +:+ ":" +:+ dq "caf\u00e9" +:+ "}") = Ok 4 /\
  4 <= 5.
Proof.
  exact (speech_estimate_chars ("{" +:+ dq "input" +:+ ":" +:+ dq "caf\u00e9" +:+ "}")
    {| Model := ""; Input := "caf" +:+ encode_rune 233 |} ltac:(vm_compute; reflexivity)).
Defined.
