(* ===== verification/AudioTranscriptions.v ===== *)
(** [internal/service/modules/audio_transcriptions]: the reservation and the
    duration of the backend's answer ([module.go]). *)
From stdpp Require Import base gmap strings list.
From Stdlib Require Import ZArith Lia Ascii String.
From S2P Require Import Prelude.
From S2P Require Import GoStrings.
From S2P Require Import GoConv.
From S2P Require Import GoFloat.
From S2P Require Import GoUnmarshal.
From S2P Require Import Types.
From S2P Require Import Prog.
From S2P Require Import Interp.
From S2P Require Import Backend.
From S2P Require Import ResponseWriter.
From S2P Require Import Env.
From S2P Require Import Module.
From S2P Require Import Multipart.

Definition Capability : CapabilityID := "openai:/v1/audio/transcriptions".
Definition HTTPPath : string := "/v1/audio/transcriptions".
Definition DefaultMaxAudioSeconds : Z := 3600.

(** The anonymous struct of [durationFromResponse]. *)
Record duration_body := { Duration : any }.
Definition dec_duration : decoder duration_body := dec_struct
  [ field "duration" Duration (fun x _ => {| Duration := x |}) dec_any ].

Section Transcriptions.
(** [int64(f)] of a float outside the range of [int64], which the language
    leaves to the implementation. *)
Context (int64_of_large : float64 -> Z).
Context (backend : BackendClient) (recorder : option Recorder).
Context (MaxAudioSecondsCeil : Z).

Definition Module_ExtractModel (body : string) : res ModelID :=
  match FormField body "model" with
  | Err e => Err (ErrWrap "audio_transcriptions: parse multipart" e)
  | Ok (Some val) =>
      if str_nil val then Err (ErrText "audio_transcriptions: multipart body missing `model` field")
      else Ok val
  | Ok None => Err (ErrText "audio_transcriptions: multipart body missing `model` field")
  end.

Definition Module_EstimateWorkUnits : res Z :=
  Ok (if MaxAudioSecondsCeil <=? 0 then DefaultMaxAudioSeconds else MaxAudioSecondsCeil).

(** A decoded number is a finite [float64], never an [int]. *)
Definition durationFromResponse (respBody : string) : Z :=
  match Unmarshal dec_duration {| Duration := ANil |} respBody with
  | Err _ => 0
  | Ok {| Duration := AFloat v |} =>
      if float_nonpos v then 0
      else if float_ceil v <=? int64_max then float_ceil v else int64_of_large v
  | Ok _ => 0
  end.

Definition Module_Serve (w : statusWriter) (r : request) (body : string) (model : ModelID)
    (backendURL : string) : prog serve_result :=
  let contentType := Header_Get (rq_header r) "Content-Type" in
  if negb (HasPrefix (ToLower contentType) "multipart/form-data") then
    w ← http_Error w "Content-Type must be multipart/form-data" 400;
    Ret (ServeResult w 0 (Some (ServeErr (ErrText "audio_transcriptions: Content-Type is not multipart/form-data"))))
  else
    r ← backendFor backend recorder Capability model
          (DoRaw (target_url backendURL HTTPPath) contentType body);
    match rr_err r with
    | Some e => serve_backend_error w "audio_transcriptions: backend DoRaw" e
    | None =>
        write_json w (rr_status r) (rr_body r) (durationFromResponse (rr_body r))
    end.

Definition methods : ModuleImpl := fun c =>
  match c as c return prog (module_resp c) with
  | ExtractModel body => Ret (Module_ExtractModel body)
  | EstimateWorkUnits _ _ => Ret Module_EstimateWorkUnits
  | Serve w r body model backendURL => Module_Serve w r body model backendURL
  end.

Definition module : Module := {|
  mod_Capability := Capability; mod_HTTPMethod := "POST"; mod_HTTPPath := HTTPPath;
  mod_Unit := UnitAudioSecond; mod_methods := methods |}.
End Transcriptions.

(** [New(backend).WithRecorder(rec)]. *)
Definition New (int64_of_large : float64 -> Z)
  (backend : BackendClient) (rec : option Recorder) : Module :=
  module int64_of_large backend rec DefaultMaxAudioSeconds.

#[export] Instance audio_transcriptions_laws fl rec ceil :
  ModuleLaws (module fl iface_backend rec ceil).
Proof.
  split; [done|done|].
  intros w rq body model backendURL. cbn [module mod_methods methods]. unfold Module_Serve.
  destruct (negb _).
  - eapply safe_seq; [apply serve_http_Error, agrees_refl|]. by intros g w' [_ H].
  - apply (serve_buffered _ _ _ _ _ (DoRaw _ _ body)); [done|].
    intros [status respBody [e|]]; [by apply serve_error_post, agrees_refl|by apply serve_json_post, agrees_refl].
Qed.

(** * The duration *)

(** C34. The billed duration is the response's [duration] rounded up to whole
    seconds: for every positive number whose ceiling is in the range of [int64], the
    units are the least integer not below it, and at least one; a number that is not
    positive bills nothing. *)
Theorem duration_ceil (int64_of_large : float64 -> Z) (respBody : string) (v : float64) :
  Unmarshal dec_duration {| Duration := ANil |} respBody = Ok {| Duration := AFloat v |} ->
  0 <= f_mant v -> float_ceil v <= int64_max ->
  let units := durationFromResponse int64_of_large respBody in
  (float_nonpos v = false -> 0 < units /\ forall n, units <= n <-> float_le_int v n) /\
  (float_nonpos v = true -> units = 0).
Proof.
  intros Hu Hm Hmax. unfold durationFromResponse. rewrite Hu. cbn zeta.
  destruct (float_nonpos v) eqn:Hn; [by split|]. split; [intros _|done].
  rewrite (proj2 (Z.leb_le _ _)) by done. split; [|intros n; by apply float_ceil_least].
  unfold float_nonpos in Hn. apply orb_false_iff in Hn as [_ Hn]. apply Z.eqb_neq in Hn.
  apply Z.lt_nge. intros Hle. apply (float_ceil_least v 0 Hm) in Hle. unfold float_le_int in Hle.
  assert (0 < 2 ^ Z.max 0 (f_exp v)) by (apply Z.pow_pos_nonneg; lia). nia.
Qed.

Lemma duration_ceil_witness :
  let units := durationFromResponse (fun _ => - 2 ^ 63) ("{" +:+ dq "duration" +:+ ":12.25}") in
  (float_nonpos (Float false 6896136929411072 (-49)) = false ->
     0 < units /\ forall n, units <= n <-> float_le_int (Float false 6896136929411072 (-49)) n) /\
  (float_nonpos (Float false 6896136929411072 (-49)) = true -> units = 0).
Proof.
  exact (duration_ceil (fun _ => - 2 ^ 63) ("{" +:+ dq "duration" +:+ ":12.25}")
    (Float false 6896136929411072 (-49)) ltac:(vm_compute; reflexivity) ltac:(discriminate)
    ltac:(vm_compute; discriminate)).
Defined.
Example duration_ceil_units :
  durationFromResponse (fun _ => - 2 ^ 63) ("{" +:+ dq "duration" +:+ ":12.25}") = 13.
Proof. vm_compute. reflexivity. Qed.

Example duration_string_is_zero :
  durationFromResponse (fun _ => - 2 ^ 63) ("{" +:+ dq "duration" +:+ ":" +:+ dq "12" +:+ "}") = 0.
Proof. vm_compute. reflexivity. Qed.
