(* ===== verification/Local.v ===== *)
(** What a module does beside calling the backend: it reads the clock, records
    metrics, and writes to the client. *)
From stdpp Require Import base gmap strings list.
From Stdlib Require Import ZArith Lia Ascii String.
From S2P Require Import Prelude.
From S2P Require Import GoStrings.
From S2P Require Import Types.
From S2P Require Import Prog.
From S2P Require Import Interp.
From S2P Require Import Backend.
From S2P Require Import ResponseWriter.
From S2P Require Import Module.
From S2P Require ChatCompletions.
From S2P Require AudioSpeech.

Definition local_eff (e : eff) : Prop :=
  match e with
  | ENow | ERec _ | ESetHeader _ _ | EWriteHeader _ | EWrite _ | EFlush | EStreamClose => True
  | _ => False
  end.

Lemma local_recordOutcome rec cap model start status err :
  emits local_eff (recordOutcome rec cap model start status err).
Proof.
  unfold recordOutcome, since, now. apply emits_bind; [by split|intros d].
  apply emits_bind; [by apply emits_rec_do|intros _].
  destruct err as [e|]; [|destruct (500 <=? status)]; (apply emits_bind; [by apply emits_rec_do|intros _]);
    try by apply emits_rec_do.
  apply emits_bind; [by split|intros t]. by apply emits_rec_do.
Qed.
Lemma local_wire {A} (p : prog A) : emits wire_eff p -> emits local_eff p.
Proof. apply emits_mono. by intros []. Qed.
Lemma local_backend_error w prefix e : emits local_eff (serve_backend_error w prefix e).
Proof. apply emits_bind; [apply local_wire, wire_http_Error|done]. Qed.
(** The answer behind a header from the backend. *)
Lemma wire_WriteHeader_then status w k :
  (forall w, emits wire_eff (k w)) -> emits wire_eff (WriteHeader_then status w k).
Proof.
  intros Hk. unfold WriteHeader_then, statusWriter_WriteHeader. destruct (header_panics status w); [done|].
  split; [done|]. intros []. apply Hk.
Qed.
Lemma wire_json w status body actual : emits wire_eff (write_json w status body actual).
Proof.
  unfold write_json. apply emits_bind; [by split|intros _].
  apply wire_WriteHeader_then. intros w'. by repeat (split || intros ?).
Qed.
Lemma local_json w status body actual : emits local_eff (write_json w status body actual).
Proof. apply local_wire, wire_json. Qed.

Lemma wire_relay lines rest e w u : emits wire_eff (ChatCompletions.relay lines rest e w u).
Proof.
  revert w u. induction lines as [|line lines IH]; intros w u; cbn [ChatCompletions.relay].
  - apply emits_bind; [destruct (str_nil rest); [done|apply ChatCompletions.relay_line_wire]|].
    by intros [[w' u'] [e'|]].
  - apply emits_bind; [apply ChatCompletions.relay_line_wire|]. intros [[w' u'] [e'|]]; [done|apply IH].
Qed.
Lemma wire_relay_stream status s w : emits wire_eff (ChatCompletions.relay_stream status s w).
Proof.
  unfold ChatCompletions.relay_stream. do 3 (apply emits_bind; [by split|intros _]).
  apply wire_WriteHeader_then. intros w'. destruct (ChatCompletions.read_lines _). apply wire_relay.
Qed.
Lemma wire_io_Copy chunks e w : emits wire_eff (AudioSpeech.io_Copy chunks e w).
Proof.
  revert w. induction chunks as [|c chunks IH]; intros w; cbn [AudioSpeech.io_Copy]; [done|].
  destruct (str_nil c); [apply IH|]. apply emits_bind; [by split|]. intros [w' [e'|]]; [done|apply IH].
Qed.
Lemma wire_pipe_stream status hs s w : emits wire_eff (AudioSpeech.pipe_stream status hs s w).
Proof.
  unfold AudioSpeech.pipe_stream. apply emits_bind; [by split|intros _].
  apply wire_WriteHeader_then. intros w'. apply emits_bind; [apply wire_io_Copy|]. by intros [w'' [e'|]].
Qed.
(** A relayed stream is closed behind its relay. *)
Lemma local_closing {A} (p : prog A) : emits wire_eff p -> emits local_eff (with_defer p (fun _ => stream_Close)).
Proof. intros Hp. apply emits_bind; [by apply local_wire|]. intros x. by repeat (split || intros ?). Qed.
