(* ===== verification/Middleware.v ===== *)
(** [internal/runtime/http/middleware.go] and [workid.go]: the paid-request
    pipeline.  A deferred function is a [with_defer]; the pipeline returns what
    the deferred functions read, the status writer and the model label. *)
From stdpp Require Import base gmap strings list.
From Stdlib Require Import ZArith Lia Ascii String.
From S2P Require Import Prelude.
From S2P Require Import GoStrings.
From S2P Require Import GoConv.
From S2P Require Import Sha256.
From S2P Require Import GoUnmarshal.
From S2P Require Import Types.
From S2P Require Import Prog.
From S2P Require Import Config.
From S2P Require Import ResponseWriter.

Definition maxPaidRequestBodyBytes : Z := Z.shiftl 16 20.

(** The module and the payee client are reached through their interfaces, the
    logger through [ELog]; [d_sem] tells whether a semaphore was given. *)
Record paidRouteDeps := {
  d_Capability : CapabilityID;
  d_Unit : string;
  d_cfg : Config;
  d_sem : bool;
  d_recorder : option Recorder }.

(** * workid.go *)

Definition deriveWorkID (paymentBytes : string) : WorkID := hex_encode (Sum256 paymentBytes).

(** * classifyOutcome *)

(** The buckets of a status code. *)
Definition status_bucket (status : Z) : string :=
  if (200 <=? status) && (status <? 300) then OutcomeRequest2xx
  else if status =? 402 then OutcomeRequest402
  else if status =? 429 then OutcomeRequest4xx
  else if (400 <=? status) && (status <? 500) then OutcomeRequest4xx
  else if (500 <=? status) && (status <? 600) then OutcomeRequest5xx
  else if status =? 0 then OutcomeRequest5xx
  else OutcomeRequest5xx.

(** Given what [ctx.Err()] answered. *)
Definition outcome_of (ctx_err : option error) (status : Z) : string :=
  match ctx_err with
  | Some err =>
      if errors_Is err ErrCanceled || errors_Is err ErrDeadlineExceeded then OutcomeRequestCanceled
      else status_bucket status
  | None => status_bucket status
  end.

Definition classifyOutcome (status : Z) : prog string :=
  err ← trigger ECtxErr; Ret (outcome_of err status).

(** * paymentMiddleware *)

Definition recorder_of (deps : paidRouteDeps) : Recorder := default NewNoop (d_recorder deps).

Section Pipeline.
Context (deps : paidRouteDeps).
Let rec := recorder_of deps.
Let capLabel := d_Capability deps.

(** What the deferred functions see. *)
Abbreviation exit := (statusWriter * string)%type.

(** The deferred close of the session. *)
Definition close_session (sender : string) (workID : WorkID) : prog unit :=
  r ← payee_ (CloseSession sender workID);
  match r with
  | Err _ => log LevelWarn "CloseSession error"
  | Ok _ => Ret tt
  end.

(** Steps 9 and 10: serve, emit work units, reconcile.  A panic of [Serve] unwinds to the
    deferred functions, which are all that is left to run. *)
Definition serve_and_reconcile (r : request) (sw : statusWriter) (body : string) (model : ModelID)
    (route : ModelRoute) (workID : WorkID) (sender : string) (estimate : Z) : prog statusWriter :=
  res ← module_ (Serve sw r body model (mr_BackendURL route));
  let sw := sv_writer res in
  let actual := sv_actual res in
  match sv_err res with
  | Some (ServeErr _) => _ ← log LevelWarn "module.Serve error"; Ret sw
  | Some (ServePanic _) => Ret sw
  | None =>
      _ ← (if 0 <? actual then rec_do rec (AddWorkUnits capLabel model (d_Unit deps) actual) else Ret tt);
      if estimate <? actual then
        let delta := wrap64 (actual - estimate) in
        r ← payee_ (DebitBalance sender workID delta);
        match r with
        | Err _ => _ ← log LevelWarn "reconcile DebitBalance error"; Ret sw
        | Ok _ => Ret sw
        end
      else Ret sw
  end.

(** Steps 7 and 8: estimate and debit, then serve. *)
Definition debit_and_serve (r : request) (sw : statusWriter) (body : string) (model : ModelID)
    (route : ModelRoute) (workID : WorkID) (sender : string) : prog statusWriter :=
  estimate ← module_ (EstimateWorkUnits body model);
  match estimate with
  | Err e => writeJSONError sw 400 "invalid_request" ("could not estimate work units: " +:+ Error e)
  | Ok estimate =>
      let estimate := if estimate <? 0 then 0 else estimate in
      db ← payee_ (DebitBalance sender workID estimate);
      match db with
      | Err e =>
          _ ← rec_do rec (IncPaymentRejection PaymentRejectDebitError);
          writeJSONError sw 502 "backend_unavailable" ("DebitBalance: " +:+ Error e)
      | Ok db =>
          if db_BalanceWei db <? 0 then
            _ ← log LevelInfo "insufficient balance after estimate debit";
            _ ← rec_do rec (IncPaymentRejection PaymentRejectInsufficientBalance);
            writeJSONError sw 402 "insufficient_balance" "balance after estimate debit is negative"
          else serve_and_reconcile r sw body model route workID sender estimate
      end
  end.

(** Steps 4 to 6: the work id, [OpenSession] and [ProcessPayment]; the close
    is deferred once the payment is accepted. *)
Definition open_and_pay (r : request) (sw : statusWriter) (body paymentBytes : string)
    (model : ModelID) (route : ModelRoute) : prog statusWriter :=
  let workID := deriveWorkID paymentBytes in
  match BigSetString (mr_PricePerWorkUnitWei route) with
  | None =>
      writeJSONError sw 500 "internal_error"
        ("invalid configured price_per_work_unit_wei for model=" +:+ model)
  | Some pricePerWorkUnitWei =>
      os ← payee_ (OpenSession {|
        os_WorkID := workID; os_Capability := mr_Capability route; os_Offering := mr_Model route;
        os_PricePerWorkUnitWei := pricePerWorkUnitWei; os_WorkUnit := mr_WorkUnit route |});
      match os with
      | Err e => writeJSONError sw 502 "backend_unavailable" ("OpenSession: " +:+ Error e)
      | Ok _ =>
          pp ← payee_ (ProcessPayment paymentBytes workID);
          match pp with
          | Err e =>
              _ ← log LevelWarn "ProcessPayment rejected";
              _ ← rec_do rec (IncPaymentRejection PaymentRejectProcessPayment);
              writeJSONError sw 402 "payment_rejected" (Error e)
          | Ok pp =>
              with_defer (debit_and_serve r sw body model route workID (pp_Sender pp))
                (fun _ => close_session (pp_Sender pp) workID)
          end
      end
  end.

(** Steps 1 to 3: the body, the payment header, the model and its route. *)
Definition pipeline (r : request) (sw : statusWriter) : prog exit :=
  match ReadAll (MaxBytesReader (rq_body r) maxPaidRequestBodyBytes) with
  | Err e =>
      sw ← writeJSONError sw 400 "invalid_request" ("failed to read request body: " +:+ Error e);
      Ret (sw, LabelUnset)
  | Ok body =>
      let hdr := Header_Get (rq_header r) PaymentHeaderName in
      if str_nil hdr then
        _ ← rec_do rec (IncPaymentRejection PaymentRejectHeaderMissing);
        sw ← writeJSONError sw 402 "missing_or_invalid_payment" ("missing " +:+ PaymentHeaderName +:+ " header");
        Ret (sw, LabelUnset)
      else match base64_decode hdr with
      | None =>
          _ ← rec_do rec (IncPaymentRejection PaymentRejectHeaderInvalid);
          sw ← writeJSONError sw 402 "missing_or_invalid_payment" "header is not valid base64";
          Ret (sw, LabelUnset)
      | Some paymentBytes =>
          model ← module_ (ExtractModel body);
          match model with
          | Err e =>
              sw ← writeJSONError sw 400 "invalid_request"
                     ("could not extract model from request body: " +:+ Error e);
              Ret (sw, LabelUnset)
          | Ok model =>
              match Lookup (d_cfg deps) (d_Capability deps) model with
              | None =>
                  sw ← writeJSONError sw 404 "capability_not_found"
                         ("no backend configured for capability=" +:+ d_Capability deps +:+ " model=" +:+ model);
                  Ret (sw, model)
              | Some route => sw ← open_and_pay r sw body paymentBytes model route; Ret (sw, model)
              end
          end
      end
  end.

(** The deferred request metrics. *)
Definition request_metrics (start : Z) (x : exit) : prog unit :=
  outcome ← classifyOutcome (sw_status (fst x));
  _ ← rec_do rec (IncRequest capLabel (snd x) outcome);
  d ← since start;
  rec_do rec (ObserveRequest capLabel (snd x) outcome d).

(** The deferred release of the slot. *)
Definition release_slot : prog unit :=
  _ ← trigger ESemRelease;
  n ← trigger ESemLen;
  rec_do rec (SetInflightRequests n).

Definition admitted (r : request) (start : Z) (sw : statusWriter) : prog exit :=
  with_defer (pipeline r sw) (request_metrics start).

(** No slot is free: 503, without queueing. *)
Definition reject_capacity (start : Z) (sw : statusWriter) : prog exit :=
  _ ← rec_do rec (IncCapacityRejection capLabel);
  sw ← writeJSONError sw 503 "capacity_exhausted"
         ("worker at max_concurrent_requests " +:+ encode_rune 0x2014 +:+
          " retry after in-flight requests drain");
  _ ← rec_do rec (IncRequest capLabel LabelUnset OutcomeRequest5xx);
  d ← since start;
  _ ← rec_do rec (ObserveRequest capLabel LabelUnset OutcomeRequest5xx d);
  Ret (sw, LabelUnset).

(** The handler; [flusher] tells whether the server's writer flushes. *)
Definition paymentMiddleware (flusher : bool) (r : request) : prog exit :=
  start ← now;
  let sw := StatusWriter 0 false flusher in
  if d_sem deps then
    free ← trigger ESemTryAcquire;
    if (free : bool) then
      n ← trigger ESemLen;
      _ ← rec_do rec (SetInflightRequests n);
      with_defer (admitted r start sw) (fun _ => release_slot)
    else reject_capacity start sw
  else admitted r start sw.
End Pipeline.
