(* ===== verification/Session.v ===== *)
(** The payment protocol of a paid request: a state machine over the module and
    payee calls, which the middleware refines, and what follows for every
    request: the payment gate, the life of a session and the billing. *)
From stdpp Require Import base gmap strings list.
From Stdlib Require Import ZArith Lia Ascii String.
From S2P Require Import Prelude.
From S2P Require Import GoStrings.
From S2P Require Import GoConv.
From S2P Require Import GoUnmarshal.
From S2P Require Import Types.
From S2P Require Import Prog.
From S2P Require Import Config.
From S2P Require Import ConfigFacts.
From S2P Require Import ResponseWriter.
From S2P Require Import Env.
From S2P Require Import Middleware.

(** * The specification *)

(** The body and the payment of a request, when they can be read. *)
Definition request_body (r : request) : res string :=
  ReadAll (MaxBytesReader (rq_body r) maxPaidRequestBodyBytes).
Definition payment_bytes (r : request) : option string :=
  let hdr := Header_Get (rq_header r) PaymentHeaderName in
  if str_nil hdr then None else base64_decode hdr.

Inductive phase :=
| Idle
| Routed (model : ModelID)
| Opened (model : ModelID) (route : ModelRoute)
| Paid (model : ModelID) (route : ModelRoute) (sender : string)
| Estimated (model : ModelID) (route : ModelRoute) (sender : string) (est : Z)
| Debited (model : ModelID) (route : ModelRoute) (sender : string) (est : Z)
| Served (sender : string) (est actual : Z)
| Closing (sender : string)
| Done.

(** The calls the protocol is about. *)
Definition session_eff (e : eff) : Prop :=
  match e with EModule _ | EPayee _ | EBackend _ | EGrpc _ | EHttpDo _ => True | _ => False end.

Section Spec.
Context (deps : paidRouteDeps) (r : request).

(** The session the daemon is asked to open for a route. *)
Definition session_for (workID : WorkID) (route : ModelRoute) (price : Z) : OpenSessionRequest := {|
  os_WorkID := workID; os_Capability := mr_Capability route; os_Offering := mr_Model route;
  os_PricePerWorkUnitWei := price; os_WorkUnit := mr_WorkUnit route |}.

Inductive session_step : phase -> event -> phase -> Prop :=
| step_other ph e a : ~ session_eff e -> session_step ph (Ev e a) ph
| step_extract body bytes model :
    request_body r = Ok body -> payment_bytes r = Some bytes ->
    session_step Idle (Ev (EModule (ExtractModel body)) (Ok model)) (Routed model)
| step_extract_refused body e :
    request_body r = Ok body ->
    session_step Idle (Ev (EModule (ExtractModel body)) (Err e)) Done
| step_open bytes model route price a :
    payment_bytes r = Some bytes ->
    Lookup (d_cfg deps) (d_Capability deps) model = Some route ->
    BigSetString (mr_PricePerWorkUnitWei route) = Some price ->
    session_step (Routed model)
      (Ev (EPayee (OpenSession (session_for (deriveWorkID bytes) route price))) a)
      (if is_ok a then Opened model route else Done)
| step_pay bytes model route pp :
    payment_bytes r = Some bytes ->
    session_step (Opened model route)
      (Ev (EPayee (ProcessPayment bytes (deriveWorkID bytes))) (Ok pp)) (Paid model route (pp_Sender pp))
| step_pay_refused bytes model route e :
    payment_bytes r = Some bytes ->
    session_step (Opened model route)
      (Ev (EPayee (ProcessPayment bytes (deriveWorkID bytes))) (Err e)) Done
| step_estimate body model route sender n :
    request_body r = Ok body ->
    session_step (Paid model route sender)
      (Ev (EModule (EstimateWorkUnits body model)) (Ok n)) (Estimated model route sender (Z.max 0 n))
| step_estimate_refused body model route sender e :
    request_body r = Ok body ->
    session_step (Paid model route sender)
      (Ev (EModule (EstimateWorkUnits body model)) (Err e)) (Closing sender)
| step_debit bytes model route sender est db :
    payment_bytes r = Some bytes -> 0 <= db_BalanceWei db ->
    session_step (Estimated model route sender est)
      (Ev (EPayee (DebitBalance sender (deriveWorkID bytes) est)) (Ok db)) (Debited model route sender est)
| step_debit_refused bytes model route sender est a :
    payment_bytes r = Some bytes ->
    match a with Ok db => db_BalanceWei db < 0 | Err _ => True end ->
    session_step (Estimated model route sender est)
      (Ev (EPayee (DebitBalance sender (deriveWorkID bytes) est)) a) (Closing sender)
| step_serve w body model route sender est res :
    request_body r = Ok body -> sv_err res = None ->
    session_step (Debited model route sender est)
      (Ev (EModule (Serve w r body model (mr_BackendURL route))) res) (Served sender est (sv_actual res))
| step_serve_failed w body model route sender est res :
    request_body r = Ok body -> is_Some (sv_err res) ->
    session_step (Debited model route sender est)
      (Ev (EModule (Serve w r body model (mr_BackendURL route))) res) (Closing sender)
| step_reconcile bytes sender est actual a :
    payment_bytes r = Some bytes -> est < actual ->
    session_step (Served sender est actual)
      (Ev (EPayee (DebitBalance sender (deriveWorkID bytes) (wrap64 (actual - est)))) a) (Closing sender)
| step_close bytes sender a :
    payment_bytes r = Some bytes ->
    session_step (Closing sender) (Ev (EPayee (CloseSession sender (deriveWorkID bytes))) a) Done
| step_close_settled bytes sender est actual a :
    payment_bytes r = Some bytes -> actual <= est ->
    session_step (Served sender est actual)
      (Ev (EPayee (CloseSession sender (deriveWorkID bytes))) a) Done.

(** Where a request may stop. *)
Definition stopped (ph : phase) : Prop :=
  match ph with Idle | Routed _ | Done => True | _ => False end.
(** Where the deferred close finds the protocol. *)
Definition to_close (sender : string) (ph : phase) : Prop :=
  ph = Closing sender \/ exists est actual, ph = Served sender est actual /\ actual <= est.
End Spec.

(** * The middleware refines it *)

Lemma emits_writeJSONError (P : eff -> Prop) (w : statusWriter) status code detail :
  (forall k v, P (ESetHeader k v)) -> (forall c, P (EWriteHeader c)) -> (forall b, P (EWrite b)) ->
  emits P (writeJSONError w status code detail).
Proof. intros H1 H2 H3. by repeat (split || intros ?). Qed.

Section Refinement.
Context (deps : paidRouteDeps) (r : request).
Abbreviation R := (session_step deps r).
Abbreviation quiet := (fun e => ~ session_eff e).

Lemma sim_quiet {A} (p : prog A) (Q : phase -> A -> Prop) ph :
  emits quiet p -> (forall a, Q ph a) -> sim R p Q ph.
Proof. apply sim_stutter. intros e a He. by apply step_other. Qed.

Lemma sim_quiet_seq {A B} (p : prog A) (f : A -> prog B) (Q : phase -> B -> Prop) ph :
  emits quiet p -> (forall a, sim R (f a) Q ph) -> sim R (bind p f) Q ph.
Proof.
  intros Hp Hf. eapply (sim_seq _ _ _ (fun ph' _ => ph' = ph)); [by apply sim_quiet|].
  by intros ? a ->.
Qed.

(** The quiet prefixes of a program: log lines, metrics, error answers. *)
Ltac quiet_solve :=
  repeat first
    [ apply emits_rec_do; tauto
    | apply emits_writeJSONError; intros; tauto
    | apply emits_bind; [|intros ?]
    | progress simpl; tauto
    | split; [tauto|intros ?] ].

Lemma sim_serve sw body bytes model route sender est :
  request_body r = Ok body -> payment_bytes r = Some bytes ->
  sim R (serve_and_reconcile deps r sw body model route (deriveWorkID bytes) sender est)
    (fun ph _ => to_close sender ph) (Debited model route sender est).
Proof.
  intros Hb Hp. unfold serve_and_reconcile. apply sim_call. intros res.
  destruct (sv_err res) as [e|] eqn:Herr.
  - exists (Closing sender). split; [by apply step_serve_failed; [|eexists]|].
    apply sim_quiet; [destruct e; quiet_solve|]. by left.
  - exists (Served sender est (sv_actual res)). split; [by apply step_serve|].
    apply sim_quiet_seq; [destruct (0 <? sv_actual res); quiet_solve|]. intros _.
    destruct (Z.ltb_spec est (sv_actual res)).
    + apply sim_call. intros a. exists (Closing sender). split; [by apply step_reconcile|].
      apply sim_quiet; [by destruct a; quiet_solve|]. by left.
    + right. by eexists _, _.
Qed.

Lemma sim_debit sw body bytes model route sender :
  request_body r = Ok body -> payment_bytes r = Some bytes ->
  sim R (debit_and_serve deps r sw body model route (deriveWorkID bytes) sender)
    (fun ph _ => to_close sender ph) (Paid model route sender).
Proof.
  intros Hb Hp. unfold debit_and_serve. apply sim_call. intros [n|e].
  - exists (Estimated model route sender (Z.max 0 n)). split; [by apply step_estimate|].
    replace (if n <? 0 then 0 else n) with (Z.max 0 n) by (destruct (Z.ltb_spec n 0); lia).
    apply sim_call. intros [db|e].
    + destruct (Z.ltb_spec (db_BalanceWei db) 0).
      * exists (Closing sender). split; [by apply step_debit_refused|].
        apply sim_quiet; [quiet_solve|]. by left.
      * exists (Debited model route sender (Z.max 0 n)). split; [by apply step_debit|].
        by apply sim_serve.
    + exists (Closing sender). split; [by apply step_debit_refused|].
      apply sim_quiet; [quiet_solve|]. by left.
  - exists (Closing sender). split; [by apply step_estimate_refused|].
    apply sim_quiet; [quiet_solve|]. by left.
Qed.

Lemma sim_close sender bytes ph (Q : phase -> unit -> Prop) :
  payment_bytes r = Some bytes -> to_close sender ph -> Q Done tt ->
  sim R (close_session sender (deriveWorkID bytes)) Q ph.
Proof.
  intros Hp Hph HQ. unfold close_session. apply sim_call. intros a. exists Done. split.
  - destruct Hph as [->|(est & actual & -> & Hle)]; [by apply step_close|by apply step_close_settled].
  - destruct a; [done|]. apply sim_quiet; [quiet_solve|]. by intros [].
Qed.

Lemma sim_open sw body bytes model route :
  request_body r = Ok body -> payment_bytes r = Some bytes ->
  Lookup (d_cfg deps) (d_Capability deps) model = Some route ->
  sim R (open_and_pay deps r sw body bytes model route) (fun ph _ => stopped ph) (Routed model).
Proof.
  intros Hb Hp Hl. unfold open_and_pay.
  destruct (BigSetString _) as [price|] eqn:Hprice; [|apply sim_quiet; [quiet_solve|done]].
  apply sim_call. intros os. eexists. split; [by apply step_open|].
  destruct os as [os|e]; [|apply sim_quiet; [quiet_solve|done]]. cbn [is_ok].
  apply sim_call. intros [pp|e].
  - exists (Paid model route (pp_Sender pp)). split; [by apply step_pay|].
    unfold with_defer. eapply sim_seq; [by apply sim_debit|]. intros ph sw' Hph.
    eapply (sim_seq _ _ _ (fun ph _ => ph = Done)); [by eapply sim_close|]. by intros ? _ ->.
  - exists Done. split; [by apply step_pay_refused|]. apply sim_quiet; [quiet_solve|done].
Qed.

Lemma sim_pipeline sw : sim R (pipeline deps r sw) (fun ph _ => stopped ph) Idle.
Proof.
  unfold pipeline. fold (request_body r).
  destruct (request_body r) as [body|e] eqn:Hb; [|apply sim_quiet; [quiet_solve|done]].
  destruct (str_nil _) eqn:Hh; [apply sim_quiet; [quiet_solve|done]|].
  destruct (base64_decode _) as [bytes|] eqn:Hd; [|apply sim_quiet; [quiet_solve|done]].
  assert (Hp : payment_bytes r = Some bytes) by (unfold payment_bytes; by rewrite Hh).
  apply sim_call. intros [model|e].
  - exists (Routed model). split; [by eapply step_extract|].
    destruct (Lookup _ _ _) as [route|] eqn:Hl; [|apply sim_quiet; [quiet_solve|done]].
    eapply sim_seq; [by apply sim_open|]. done.
  - exists Done. split; [by apply step_extract_refused|]. apply sim_quiet; [quiet_solve|done].
Qed.

Lemma sim_admitted start sw : sim R (admitted deps r start sw) (fun ph _ => stopped ph) Idle.
Proof.
  unfold admitted, with_defer. eapply sim_seq; [apply sim_pipeline|]. intros ph x Hph.
  apply sim_quiet_seq; [|done]. unfold request_metrics, classifyOutcome, since, now. quiet_solve.
Qed.

Lemma sim_middleware flusher :
  sim R (paymentMiddleware deps flusher r) (fun ph _ => stopped ph) Idle.
Proof.
  unfold paymentMiddleware. apply sim_quiet_seq; [quiet_solve|]. intros start.
  destruct (d_sem deps); [|apply sim_admitted].
  apply sim_quiet_seq; [quiet_solve|]. intros [].
  - apply sim_quiet_seq; [quiet_solve|]. intros n. apply sim_quiet_seq; [quiet_solve|]. intros _.
    unfold with_defer. eapply sim_seq; [apply sim_admitted|]. intros ph x Hph.
    apply sim_quiet_seq; [|done]. unfold release_slot. quiet_solve.
  - apply sim_quiet; [|done]. unfold reject_capacity, since, now. quiet_solve.
Qed.
End Refinement.

(** * What follows *)

Section Properties.
Context (deps : paidRouteDeps) (r : request).
Abbreviation run_to t ph := (steps (session_step deps r) Idle t ph).

Lemma middleware_runs flusher t x :
  Tr (paymentMiddleware deps flusher r) t x -> exists ph, run_to t ph /\ stopped ph.
Proof. intros Ht. by destruct (sim_sound _ _ _ _ _ _ (sim_middleware deps r flusher) Ht) as (ph & H1 & H2); exists ph. Qed.

(** The evidence a phase stands for: the accepted calls before it, oldest
    first. *)
Definition accepted_open (bytes : string) (route : ModelRoute) (t : list event) : Prop :=
  exists price a, BigSetString (mr_PricePerWorkUnitWei route) = Some price /\
    In (Ev (EPayee (OpenSession (session_for (deriveWorkID bytes) route price))) (Ok a)) t.
Definition accepted_payment (bytes sender : string) (t : list event) : Prop :=
  exists pp, In (Ev (EPayee (ProcessPayment bytes (deriveWorkID bytes))) (Ok pp)) t /\ pp_Sender pp = sender.
Definition accepted_debit (bytes sender : string) (est : Z) (t : list event) : Prop :=
  exists db, In (Ev (EPayee (DebitBalance sender (deriveWorkID bytes) est)) (Ok db)) t /\
    0 <= db_BalanceWei db.

Definition evidence (t : list event) (ph : phase) : Prop :=
  match ph with
  | Idle | Routed _ | Done | Served _ _ _ | Closing _ => True
  | Opened model route =>
      Lookup (d_cfg deps) (d_Capability deps) model = Some route /\
      exists bytes, payment_bytes r = Some bytes /\ accepted_open bytes route t
  | Paid model route sender | Estimated model route sender _ =>
      Lookup (d_cfg deps) (d_Capability deps) model = Some route /\
      exists bytes, payment_bytes r = Some bytes /\
        accepted_open bytes route t /\ accepted_payment bytes sender t
  | Debited model route sender est =>
      Lookup (d_cfg deps) (d_Capability deps) model = Some route /\
      exists bytes, payment_bytes r = Some bytes /\
        accepted_open bytes route t /\ accepted_payment bytes sender t /\ accepted_debit bytes sender est t
  end.

Lemma accepted_open_app bytes route t x : accepted_open bytes route t -> accepted_open bytes route (t ++ x).
Proof. intros (p & a & H1 & H2). exists p, a. split; [done|]. apply in_app_iff. by left. Qed.
Lemma accepted_payment_app bytes sender t x :
  accepted_payment bytes sender t -> accepted_payment bytes sender (t ++ x).
Proof. intros (pp & H1 & H2). exists pp. split; [|done]. apply in_app_iff. by left. Qed.
Lemma accepted_debit_app bytes sender est t x :
  accepted_debit bytes sender est t -> accepted_debit bytes sender est (t ++ x).
Proof. intros (db & H1 & H2). exists db. split; [|done]. apply in_app_iff. by left. Qed.
Hint Resolve accepted_open_app accepted_payment_app accepted_debit_app : core.

Lemma in_snoc (x : event) t : In x (t ++ [x]).
Proof. apply in_app_iff. right. by left. Qed.
Hint Resolve in_snoc : core.

Lemma evidence_app t ph x : evidence t ph -> evidence (t ++ x) ph.
Proof. destruct ph; simpl; naive_solver. Qed.

Lemma run_evidence t ph : run_to t ph -> evidence t ph.
Proof.
  apply (steps_invariant _ evidence); [done|]. clear.
  intros t g x g' HI Hs. apply (evidence_app t g [x]) in HI.
  destruct Hs; simpl in *; try done; destruct_and?; destruct_exis; destruct_and?; simplify_eq.
  all: try (split; [done|]; eexists; split_and!; [done|..]; try done).
  - destruct a as [a|e]; simpl; [|done]. split; [done|]. exists bytes. split; [done|].
    exists price, a. auto.
  - by exists pp.
  - by exists db.
Qed.

(** The module calls behind a phase: the model is the one the module extracted from the
    request's body, the estimate the one it gave for that body and model. *)
Definition extracted (body : string) (model : ModelID) (t : list event) : Prop :=
  In (Ev (EModule (ExtractModel body)) (Ok model)) t.
Definition estimated (body : string) (model : ModelID) (est : Z) (t : list event) : Prop :=
  exists n, In (Ev (EModule (EstimateWorkUnits body model)) (Ok n)) t /\ est = Z.max 0 n.
Definition metered (t : list event) (ph : phase) : Prop :=
  match ph with
  | Routed model | Opened model _ | Paid model _ _ =>
      exists body, request_body r = Ok body /\ extracted body model t
  | Estimated model _ _ est | Debited model _ _ est =>
      exists body, request_body r = Ok body /\ extracted body model t /\ estimated body model est t
  | _ => True
  end.

Lemma metered_app t ph x : metered t ph -> metered (t ++ x) ph.
Proof.
  unfold metered, extracted, estimated. destruct ph; try done; intros (body & Hb & H); exists body; (split; [done|]);
    try (apply in_app_iff; by left); destruct H as [H (n & Hn & He)]; (split; [apply in_app_iff; by left|]);
    exists n; (split; [apply in_app_iff; by left|done]).
Qed.
Lemma run_metered t ph : run_to t ph -> metered t ph.
Proof.
  apply (steps_invariant _ metered); [done|]. clear. intros t g x g' HI Hs. apply (metered_app t g [x]) in HI.
  destruct Hs as [| | |? ? ? ? a| | | | | | | | | | |]; try exact HI; try done.
  - exists body. split; [done|]. apply in_app_iff. right. by left.
  - by destruct (is_ok a).
  - destruct HI as (body' & Hb & Hx). assert (body' = body) as -> by congruence. exists body. split_and!; [done|done|].
    exists n. split; [apply in_app_iff; right; by left|done].
Qed.

(** The step that serves. *)
Lemma serve_step ph x ph' :
  session_step deps r ph x ph' ->
  match x with
  | Ev (EModule (Serve w r' body model url)) _ =>
      r' = r /\ request_body r = Ok body /\
      exists route sender est, ph = Debited model route sender est /\ url = mr_BackendURL route
  | _ => True
  end.
Proof. destruct 1; try done; [destruct e as [| | | | | | | | | | | |[]| | | |]; simpl in *; tauto|..]; eauto 10. Qed.
End Properties.

(** What precedes a [Serve]: a run of the protocol up to an accepted debit. *)
Lemma served_behind_debit (deps : paidRouteDeps) (flusher : bool) (r : request) (t1 t2 : list event) x
    (w : statusWriter) (r' : request) (body : string) (model : ModelID) (url : string) (res : serve_result) :
  Tr (paymentMiddleware deps flusher r) (t1 ++ Ev (EModule (Serve w r' body model url)) res :: t2) x ->
  r' = r /\ request_body r = Ok body /\
  exists route sender est, url = mr_BackendURL route /\
    steps (session_step deps r) Idle t1 (Debited model route sender est).
Proof.
  intros Ht. destruct (middleware_runs _ _ _ _ _ Ht) as (ph & Hs & _).
  apply steps_app_inv in Hs as (ph1 & H1 & H2).
  inversion H2 as [|? ? g1 ? ? Hx Ht2]; subst.
  apply serve_step in Hx as (-> & Hb & route & sender & est & -> & ->). eauto 10.
Qed.

(** C6. The payment gate.  A request is served only after payment: in every
    behaviour of the middleware, before [Serve] is called the request's header
    held a decodable payment, the module extracted the model from the request's body
    and the configuration routes it, the daemon accepted [OpenSession] for that
    route, accepted [ProcessPayment] for those bytes, the module estimated that body
    and model, and the daemon answered the debit of that estimate, clamped at zero,
    for the payment's sender with a balance that is not negative; and [Serve] gets the
    same request, body and model, and the route's backend URL. *)
Theorem payment_gate (deps : paidRouteDeps) (flusher : bool) (r : request) (t1 t2 : list event) x
    (w : statusWriter) (r' : request) (body : string) (model : ModelID) (url : string) (res : serve_result) :
  Tr (paymentMiddleware deps flusher r) (t1 ++ Ev (EModule (Serve w r' body model url)) res :: t2) x ->
  r' = r /\ request_body r = Ok body /\
  exists bytes route sender n,
    payment_bytes r = Some bytes /\
    In (Ev (EModule (ExtractModel body)) (Ok model)) t1 /\
    Lookup (d_cfg deps) (d_Capability deps) model = Some route /\ url = mr_BackendURL route /\
    accepted_open bytes route t1 /\ accepted_payment bytes sender t1 /\
    In (Ev (EModule (EstimateWorkUnits body model)) (Ok n)) t1 /\
    accepted_debit bytes sender (Z.max 0 n) t1.
Proof.
  intros Ht. destruct (served_behind_debit _ _ _ _ _ _ _ _ _ _ _ _ Ht) as (-> & Hb & route & sender & est & -> & Hrun).
  pose proof (run_metered _ _ _ _ Hrun) as (body' & Hb' & Hx & n & Hn & ->).
  assert (body' = body) as -> by congruence.
  apply run_evidence in Hrun as (Hl & bytes & Hp & Ho & Hpay & Hd).
  split; [done|]. split; [done|]. by exists bytes, route, sender, n.
Qed.

(** * Projections of a trace *)

(** The sessions closed, the senders of accepted payments, the debits asked
    for, the estimates given and the results of [Serve], in order. *)
Definition ev_closes (x : event) : list (string * string) :=
  match x with Ev (EPayee (CloseSession s w)) _ => [(s, w)] | _ => [] end.
Definition ev_debits (x : event) : list Z :=
  match x with Ev (EPayee (DebitBalance _ _ n)) _ => [n] | _ => [] end.
Definition payee_payments (c : payee_call) : payee_resp c -> list string :=
  match c with
  | ProcessPayment _ _ => fun a => match a with Ok pp => [pp_Sender pp] | Err _ => [] end
  | _ => fun _ => []
  end.
Definition ev_payments (x : event) : list string :=
  match x with Ev e a =>
    match e return resp e -> list string with EPayee c => payee_payments c | _ => fun _ => [] end a
  end.
Definition module_estimates (c : module_call) : module_resp c -> list Z :=
  match c with
  | EstimateWorkUnits _ _ => fun a => match a with Ok n => [n] | Err _ => [] end
  | _ => fun _ => []
  end.
Definition ev_estimates (x : event) : list Z :=
  match x with Ev e a =>
    match e return resp e -> list Z with EModule c => module_estimates c | _ => fun _ => [] end a
  end.
Definition module_serves (c : module_call) : module_resp c -> list serve_result :=
  match c with Serve _ _ _ _ _ => fun a => [a] | _ => fun _ => [] end.
Definition ev_serves (x : event) : list serve_result :=
  match x with Ev e a =>
    match e return resp e -> list serve_result with EModule c => module_serves c | _ => fun _ => [] end a
  end.

Definition closes (t : list event) : list (string * string) := t ≫= ev_closes.
Definition debits (t : list event) : list Z := t ≫= ev_debits.
Definition payments (t : list event) : list string := t ≫= ev_payments.
Definition estimates (t : list event) : list Z := t ≫= ev_estimates.
Definition serves (t : list event) : list serve_result := t ≫= ev_serves.

(** A quiet event is in none of them. *)
Lemma quiet_projections e a : ~ session_eff e ->
  ev_closes (Ev e a) = [] /\ ev_debits (Ev e a) = [] /\ ev_payments (Ev e a) = [] /\
  ev_estimates (Ev e a) = [] /\ ev_serves (Ev e a) = [].
Proof. intros He. destruct e; try done; simpl in He; tauto. Qed.

Lemma projections_snoc t x :
  closes (t ++ [x]) = closes t ++ ev_closes x /\ debits (t ++ [x]) = debits t ++ ev_debits x /\
  payments (t ++ [x]) = payments t ++ ev_payments x /\
  estimates (t ++ [x]) = estimates t ++ ev_estimates x /\ serves (t ++ [x]) = serves t ++ ev_serves x.
Proof. unfold closes, debits, payments, estimates, serves. by rewrite !bind_app; simpl; rewrite !app_nil_r. Qed.

(** Rewrite the projections of a trace extended by one event. *)
Ltac project_snoc :=
  match goal with
  | |- context [?t ++ [?x]] =>
      let Hc := fresh in let Hd := fresh in let Hp := fresh in let He := fresh in let Hs := fresh in
      destruct (projections_snoc t x) as (Hc & Hd & Hp & He & Hs);
      rewrite ?Hc, ?Hd, ?Hp, ?He, ?Hs; clear Hc Hd Hp He Hs
  end.

Ltac quiet_snoc e a :=
  let Hc := fresh in let Hd := fresh in let Hp := fresh in let He := fresh in let Hs := fresh in
  destruct (quiet_projections e a) as (Hc & Hd & Hp & He & Hs); [done|];
  rewrite ?Hc, ?Hd, ?Hp, ?He, ?Hs, ?app_nil_r; done.

Section Accounts.
Context (deps : paidRouteDeps) (r : request).

Definition closed_inv (t : list event) (ph : phase) : Prop :=
  match ph with
  | Idle | Routed _ | Opened _ _ => payments t = [] /\ closes t = []
  | Paid _ _ s | Estimated _ _ s _ | Debited _ _ s _ | Served s _ _ | Closing s =>
      payments t = [s] /\ closes t = []
  | Done =>
      (payments t = [] /\ closes t = []) \/
      exists s bytes, payment_bytes r = Some bytes /\ payments t = [s] /\ closes t = [(s, deriveWorkID bytes)]
  end.

Lemma run_closed t ph : steps (session_step deps r) Idle t ph -> closed_inv t ph.
Proof.
  apply (steps_invariant _ closed_inv); [done|]. clear. intros t g x g' HI Hs.
  unfold closed_inv in *. project_snoc. destruct Hs as [ph e a He| | |? ? ? ? a| | | | | |? ? ? ? ? ? a| | | | |].
  { quiet_snoc e a. }
  all: cbn [ev_closes ev_payments payee_payments]; rewrite ?app_nil_r; try naive_solver.
  - destruct (is_ok a); naive_solver.
  - by destruct HI as [-> ->].
  - destruct HI as [-> ->]. right. by eexists _, _.
  - destruct HI as [-> ->]. right. by eexists _, _.
Qed.

(** The second debit a served request owes. *)
Definition owed (est : Z) (res : serve_result) : list Z :=
  match sv_err res with
  | Some _ => []
  | None => if est <? sv_actual res then [wrap64 (sv_actual res - est)] else []
  end.

Definition settled (t : list event) : Prop :=
  (serves t = [] /\ (debits t = [] \/ exists n, estimates t = [n] /\ debits t = [Z.max 0 n])) \/
  exists n res, estimates t = [n] /\ serves t = [res] /\ debits t = Z.max 0 n :: owed (Z.max 0 n) res.

Definition billing_inv (t : list event) (ph : phase) : Prop :=
  match ph with
  | Idle | Routed _ | Opened _ _ | Paid _ _ _ => serves t = [] /\ debits t = [] /\ estimates t = []
  | Estimated _ _ _ est =>
      serves t = [] /\ debits t = [] /\ exists n, estimates t = [n] /\ est = Z.max 0 n
  | Debited _ _ _ est =>
      serves t = [] /\ debits t = [est] /\ exists n, estimates t = [n] /\ est = Z.max 0 n
  | Served _ est actual =>
      debits t = [est] /\ exists n res, estimates t = [n] /\ est = Z.max 0 n /\ serves t = [res] /\
        sv_err res = None /\ sv_actual res = actual
  | Closing _ | Done => settled t
  end.

Lemma run_billing t ph : steps (session_step deps r) Idle t ph -> billing_inv t ph.
Proof.
  apply (steps_invariant _ billing_inv); [done|]. clear. intros t g x g' HI Hs.
  unfold billing_inv, settled in *. project_snoc. destruct Hs as [ph e a He| | |? ? ? ? a| | | | | |? ? ? ? ? ? a| | | | |].
  { quiet_snoc e a. }
  all: cbn [ev_debits ev_serves module_serves ev_estimates module_estimates]; rewrite ?app_nil_r.
  all: try (destruct HI as (-> & -> & HI)); try match goal with |- context [is_ok ?a] => destruct (is_ok a) end; try naive_solver.
  - rewrite HI. eauto 10.
  - right. destruct HI as (n & -> & ->). exists n, res. split_and!; try done.
    unfold owed. by match goal with H : is_Some _ |- _ => destruct H as [e ->] end.
  - destruct HI as (-> & n & res & -> & -> & -> & Herr & <-). right. exists n, res.
    split_and!; try done. unfold owed. rewrite Herr. destruct (Z.ltb_spec (Z.max 0 n) (sv_actual res)); [done|lia].
  - destruct HI as (-> & n & res & -> & -> & -> & Herr & <-). right. exists n, res.
    split_and!; try done. unfold owed. rewrite Herr. destruct (Z.ltb_spec (Z.max 0 n) (sv_actual res)); [lia|done].
Qed.

(** After the close the protocol is over. *)
Lemma run_done t ph :
  steps (session_step deps r) Done t ph -> Forall (fun x => match x with Ev e _ => ~ session_eff e end) t.
Proof.
  remember Done as g eqn:Hg. induction 1 as [|g x g1 t g2 Hx _ IH]; [constructor|]. subst.
  assert (H : g1 = Done /\ match x with Ev e _ => ~ session_eff e end).
  { clear IH. remember Done as g eqn:Hg. by destruct Hx. }
  destruct H as [-> H]. constructor; [done|]. by apply IH.
Qed.
Lemma close_step ph x ph' :
  session_step deps r ph x ph' ->
  match x with Ev (EPayee (CloseSession _ _)) _ => ph' = Done | _ => True end.
Proof.
  destruct 1; try done. destruct e as [| | | | | | | | | | | | |[]| | |]; simpl in *; tauto.
Qed.
End Accounts.

(** C10. The payment protocol.  Every behaviour of the middleware is a run of the
    session state machine from its initial state to a state in which no session
    is left to close: model, open, pay, estimate, debit, serve, reconcile, close,
    with the arguments and in the order [session_step] fixes, and nothing else.  That
    order is the code's: the flow in docs/design-docs/capability-modules.md has the
    payment processed before the model is extracted and routed, and
    docs/product-specs/chat_completions.md reconciles an interrupted stream, where here
    a [Serve] that failed is only closed. *)
Theorem session_refinement (deps : paidRouteDeps) (flusher : bool) (r : request) (t : list event) x :
  Tr (paymentMiddleware deps flusher r) t x ->
  exists ph, steps (session_step deps r) Idle t ph /\ stopped ph.
Proof. apply middleware_runs. Qed.

(** C7. Billing.  The debits a request asks the daemon for are the clamped
    estimate, and after a [Serve] without an error exactly the excess of the
    actual units over it when there is one; nothing else is ever debited, and so
    nothing behind a [Serve] that failed, whatever units it returned with its error.
    (The units are [int64] values.  docs/product-specs/chat_completions.md says that an
    interrupted stream is reconciled with its last usage: the code drops it.) *)
Theorem billing_exact (deps : paidRouteDeps) (flusher : bool) (r : request) (t : list event) x :
  Tr (paymentMiddleware deps flusher r) t x ->
  Forall in_int64 (estimates t) -> Forall in_int64 (sv_actual <$> serves t) ->
  (serves t = [] /\ (debits t = [] \/ exists n, estimates t = [n] /\ debits t = [Z.max 0 n])) \/
  exists n res, estimates t = [n] /\ serves t = [res] /\
    debits t = Z.max 0 n ::
      match sv_err res with
      | Some _ => []
      | None => if Z.max 0 n <? sv_actual res then [sv_actual res - Z.max 0 n] else []
      end.
Proof.
  intros Ht Hn Ha. destruct (middleware_runs _ _ _ _ _ Ht) as (ph & Hs & Hph).
  apply run_billing in Hs.
  assert (Hset : settled t) by (destruct ph; simpl in *; try done; left; naive_solver).
  destruct Hset as [Hset|(n & res & Hest & Hsv & Hd)]; [by left|right].
  exists n, res. split_and!; [done|done|]. rewrite Hd. f_equal. unfold owed.
  destruct (sv_err res); [done|]. destruct (Z.ltb_spec (Z.max 0 n) (sv_actual res)); [|done].
  rewrite Hest in Hn. rewrite Hsv in Ha. apply Forall_inv in Hn, Ha. cbn in Ha.
  rewrite wrap64_id; [done|]. int64_lia.
Qed.

(** C8. A session is closed exactly once for every accepted payment: with the
    sender the daemon named and the request's work id, never without a payment,
    and after it no call to the daemon or to the module is made. *)
Theorem session_closed_once (deps : paidRouteDeps) (flusher : bool) (r : request) (t : list event) x :
  Tr (paymentMiddleware deps flusher r) t x ->
  ((payments t = [] /\ closes t = []) \/
   exists sender bytes, payment_bytes r = Some bytes /\ payments t = [sender] /\
     closes t = [(sender, deriveWorkID bytes)]) /\
  forall t1 s w a t2, t = t1 ++ Ev (EPayee (CloseSession s w)) a :: t2 ->
    Forall (fun y => match y with Ev e _ => ~ session_eff e end) t2.
Proof.
  intros Ht. destruct (middleware_runs _ _ _ _ _ Ht) as (ph & Hs & Hph). split.
  - apply run_closed in Hs. destruct ph; simpl in *; tauto.
  - intros t1 s w a t2 ->. apply steps_app_inv in Hs as (ph1 & _ & H2).
    inversion H2 as [|? ? g1 ? ? Hx Ht2]; subst.
    apply close_step in Hx. subst. by eapply run_done.
Qed.

(** * A request that is paid, served and reconciled *)

Definition demo_deps : paidRouteDeps := {|
  d_Capability := "openai:/v1/chat/completions"; d_Unit := UnitToken; d_cfg := demo_config;
  d_sem := true; d_recorder := Some LiveRecorder |}.
Definition demo_request : request :=
  Request [("Livepeer-Payment", "aGVsbG8=")] (Reader "{}" ErrEOF).
Definition demo_run := paymentMiddleware demo_deps true demo_request.
Definition demo_trace : list event := trace_of demo_env demo_run env0.

Lemma demo_trace_Tr : Tr demo_run demo_trace (result_of demo_env demo_run env0).
Proof. apply trace_of_Tr. Qed.

Lemma session_refinement_witness :
  exists ph, steps (session_step demo_deps demo_request) Idle demo_trace ph /\ stopped ph.
Proof. exact (session_refinement demo_deps true demo_request demo_trace _ demo_trace_Tr). Defined.

Example demo_debits : debits demo_trace = [10; 2]. Proof. vm_compute. reflexivity. Qed.

Definition demo_before : list event := take 9 demo_trace.
Definition demo_serve : event :=
  Ev (EModule (Serve (StatusWriter 0 false true) demo_request "{}" "llama-3" "http://10.0.0.3:8000"))
     (ServeResult (StatusWriter 200 true true) 12 None).
Lemma demo_trace_split : demo_trace = demo_before ++ demo_serve :: drop 10 demo_trace.
Proof. vm_compute. reflexivity. Qed.
Lemma demo_trace_split_Tr :
  Tr demo_run (demo_before ++ demo_serve :: drop 10 demo_trace) (result_of demo_env demo_run env0).
Proof. rewrite <- demo_trace_split. apply demo_trace_Tr. Qed.

Lemma payment_gate_witness :
  demo_request = demo_request /\ request_body demo_request = Ok "{}" /\
  exists bytes route sender n,
    payment_bytes demo_request = Some bytes /\
    In (Ev (EModule (ExtractModel "{}")) (Ok "llama-3")) demo_before /\
    Lookup (d_cfg demo_deps) (d_Capability demo_deps) "llama-3" = Some route /\
    "http://10.0.0.3:8000" = mr_BackendURL route /\
    accepted_open bytes route demo_before /\ accepted_payment bytes sender demo_before /\
    In (Ev (EModule (EstimateWorkUnits "{}" "llama-3")) (Ok n)) demo_before /\
    accepted_debit bytes sender (Z.max 0 n) demo_before.
Proof.
  exact (payment_gate demo_deps true demo_request demo_before (drop 10 demo_trace) _ _ demo_request "{}"
    "llama-3" "http://10.0.0.3:8000" _ demo_trace_split_Tr).
Defined.

Lemma billing_exact_witness :
  (serves demo_trace = [] /\ (debits demo_trace = [] \/
     exists n, estimates demo_trace = [n] /\ debits demo_trace = [Z.max 0 n])) \/
  exists n res, estimates demo_trace = [n] /\ serves demo_trace = [res] /\
    debits demo_trace = Z.max 0 n ::
      match sv_err res with
      | Some _ => []
      | None => if Z.max 0 n <? sv_actual res then [sv_actual res - Z.max 0 n] else []
      end.
Proof.
  refine (billing_exact demo_deps true demo_request demo_trace _ demo_trace_Tr _ _).
  - replace (estimates demo_trace) with [10] by (vm_compute; reflexivity).
    repeat constructor; vm_compute; discriminate.
  - replace (sv_actual <$> serves demo_trace) with [12] by (vm_compute; reflexivity).
    repeat constructor; vm_compute; discriminate.
Defined.

Lemma session_closed_once_witness :
  ((payments demo_trace = [] /\ closes demo_trace = []) \/
   exists sender bytes, payment_bytes demo_request = Some bytes /\ payments demo_trace = [sender] /\
     closes demo_trace = [(sender, deriveWorkID bytes)]) /\
  forall t1 s w a t2, demo_trace = t1 ++ Ev (EPayee (CloseSession s w)) a :: t2 ->
    Forall (fun y => match y with Ev e _ => ~ session_eff e end) t2.
Proof. exact (session_closed_once demo_deps true demo_request demo_trace _ demo_trace_Tr). Defined.
