(* ===== verification/Contract.v ===== *)
(** What a paid request answers and records: the error contract of the
    middleware, its request metrics, and the slot of the semaphore. *)
From stdpp Require Import base gmap strings list.
From Stdlib Require Import ZArith Lia Ascii String.
From S2P Require Import Prelude.
From S2P Require Import GoStrings.
From S2P Require Import GoConv.
From S2P Require Import GoUnmarshal.
From S2P Require Import Types.
From S2P Require Import Prog.
From S2P Require Import Config.
From S2P Require Import ResponseWriter.
From S2P Require Import Env.
From S2P Require Import Middleware.
From S2P Require Import Session.

(** * The error contract *)

(** Refusals decided by the request alone. *)
Definition request_refusal (r : request) : option (Z * string) :=
  match request_body r with
  | Err _ => Some (400, "invalid_request")
  | Ok _ => match payment_bytes r with
            | None => Some (402, "missing_or_invalid_payment")
            | Some _ => None
            end
  end.

Section Refusal.
Context (deps : paidRouteDeps) (r : request).

(** Refusals decided by the configuration once the model is known. *)
Definition route_refusal (model : ModelID) : option (Z * string) :=
  match Lookup (d_cfg deps) (d_Capability deps) model with
  | None => Some (404, "capability_not_found")
  | Some route => match BigSetString (mr_PricePerWorkUnitWei route) with
                  | None => Some (500, "internal_error")
                  | Some _ => None
                  end
  end.

Definition module_refusal (c : module_call) : module_resp c -> option (option (Z * string)) :=
  match c with
  | ExtractModel _ => fun a => Some (match a with Ok m => route_refusal m | Err _ => Some (400, "invalid_request") end)
  | EstimateWorkUnits _ _ => fun a => Some (match a with Ok _ => None | Err _ => Some (400, "invalid_request") end)
  | Serve _ _ _ _ _ => fun _ => None
  end.
Definition payee_refusal (c : payee_call) : payee_resp c -> option (option (Z * string)) :=
  match c with
  | OpenSession _ => fun a => Some (if is_ok a then None else Some (502, "backend_unavailable"))
  | ProcessPayment _ _ => fun a => Some (if is_ok a then None else Some (402, "payment_rejected"))
  | DebitBalance _ _ _ => fun a =>
      Some (match a with
            | Err _ => Some (502, "backend_unavailable")
            | Ok db => if db_BalanceWei db <? 0 then Some (402, "insufficient_balance") else None
            end)
  | _ => fun _ => None
  end.
(** The refusal an event decides, if it is one that decides. *)
Definition decides (x : event) : option (option (Z * string)) :=
  match x with Ev e a =>
    match e return resp e -> option (option (Z * string)) with
    | ESemTryAcquire => fun free => if (free : bool) then None else Some (Some (503, "capacity_exhausted"))
    | EModule c => module_refusal c
    | EPayee c => payee_refusal c
    | _ => fun _ => None
    end a
  end.

(** The refusal in force after a trace. *)
Definition refusal (t : list event) : option (Z * string) :=
  fold_left (fun c x => default c (decides x)) t (request_refusal r).
End Refusal.

(** What the middleware itself wrote: headers and bodies, in order. *)
Definition ev_replies (x : event) : list (Z + string) :=
  match x with
  | Ev (EWriteHeader code) _ => [inl code]
  | Ev (EWrite b) _ => [inr b]
  | _ => []
  end.
Definition replies (t : list event) : list (Z + string) := t ≫= ev_replies.

Section Contract.
Context (deps : paidRouteDeps) (r : request).

(** The ghost state: the refusal in force, the replies, the serves. *)
Record reply_ghost := ReplyGhost {
  rg_refusal : option (Z * string); rg_replies : list (Z + string); rg_serves : list serve_result }.
Definition reply_mon : monitor reply_ghost := fun g x =>
  Next (ReplyGhost (default (rg_refusal g) (decides deps x)) (rg_replies g ++ ev_replies x)
          (rg_serves g ++ ev_serves x)).

Lemma reply_mon_run c w s t :
  mon_run reply_mon (ReplyGhost c w s) t =
  Next (ReplyGhost (fold_left (fun c x => default c (decides deps x)) t c) (w ++ replies t) (s ++ serves t)).
Proof.
  unfold replies, serves. revert c w s. induction t as [|x t IH]; intros c w s; simpl.
  - by rewrite !app_nil_r.
  - rewrite IH. simpl. by rewrite <- !app_assoc.
Qed.

(** Refused with the error in force, or served with nothing written. *)
Definition reply_post {A} (g : reply_ghost) (_ : A) : Prop :=
  match rg_serves g with
  | [] => exists status code detail, rg_refusal g = Some (status, code) /\
            rg_replies g = [inl status; inr (error_body code detail +:+ nl)]
  | _ => rg_replies g = []
  end.

(** One event, then the rest. *)
Lemma reply_event {B} e (f : resp e -> prog B) (Q : reply_ghost -> B -> Prop) c w s :
  (forall a, safe reply_mon (f a) Q
     (ReplyGhost (default c (decides deps (Ev e a))) (w ++ ev_replies (Ev e a)) (s ++ ev_serves (Ev e a)))) ->
  safe reply_mon (bind (trigger e) f) Q (ReplyGhost c w s).
Proof. done. Qed.

Ltac reply_cbn :=
  cbn [from_option id decides module_refusal payee_refusal is_ok ev_replies ev_serves module_serves app].

(** Effects that neither decide nor reply. *)
Definition plain_eff (e : eff) : Prop :=
  match e with
  | ESemTryAcquire | EModule _ | EPayee _ | EWriteHeader _ | EWrite _ => False
  | _ => True
  end.
Lemma safe_plain {A} (p : prog A) (Q : reply_ghost -> A -> Prop) g :
  emits plain_eff p -> (forall a, Q g a) -> safe reply_mon p Q g.
Proof.
  apply emits_safe. intros e a He. unfold reply_mon. destruct g.
  by destruct e; try done; simpl; rewrite !app_nil_r.
Qed.
Lemma safe_plain_seq {A B} (p : prog A) (f : A -> prog B) (Q : reply_ghost -> B -> Prop) g :
  emits plain_eff p -> (forall a, safe reply_mon (f a) Q g) -> safe reply_mon (bind p f) Q g.
Proof. intros Hp Hf. apply safe_bind. by apply safe_plain. Qed.

(** The error answer under the refusal in force. *)
Lemma safe_refuse sw status code detail :
  safe reply_mon (writeJSONError sw status code detail) reply_post (ReplyGhost (Some (status, code)) [] []).
Proof. unfold reply_post. intros a1 a2 a3. simpl. by exists status, code, detail. Qed.

Ltac plain_solve :=
  repeat first
    [ apply emits_rec_do; exact I
    | apply emits_bind; [|intros ?]
    | progress simpl; tauto
    | split; [exact I|intros ?] ].

Lemma reply_serve sw body model route workID sender est c :
  safe reply_mon (serve_and_reconcile deps r sw body model route workID sender est) reply_post
    (ReplyGhost c [] []).
Proof.
  unfold serve_and_reconcile. apply reply_event. intros res. reply_cbn.
  assert (Hpost : forall c, reply_post (ReplyGhost c [] [res]) (sv_writer res)) by done.
  destruct (sv_err res) as [[e|msg]|]; [by apply safe_plain; [plain_solve|]|done|].
  apply safe_plain_seq; [destruct (0 <? sv_actual res); plain_solve|]. intros _.
  destruct (est <? sv_actual res); [|done]. apply reply_event. intros a. reply_cbn.
  destruct a; [done|]. by apply safe_plain; [plain_solve|].
Qed.

Lemma reply_debit sw body model route workID sender c :
  safe reply_mon (debit_and_serve deps r sw body model route workID sender) reply_post
    (ReplyGhost c [] []).
Proof.
  unfold debit_and_serve. apply reply_event. intros [n|e]; [|apply safe_refuse].
  apply reply_event. intros [db|e].
  - reply_cbn. destruct (db_BalanceWei db <? 0); [|apply reply_serve].
    apply safe_plain_seq; [plain_solve|]. intros _.
    apply safe_plain_seq; [plain_solve|]. intros _. apply safe_refuse.
  - apply safe_plain_seq; [plain_solve|]. intros _. apply safe_refuse.
Qed.

(** Plain defers keep the answer. *)
Lemma safe_defer_plain {A} (p : prog A) (d : A -> prog unit) g :
  (forall a, emits plain_eff (d a)) -> safe reply_mon p reply_post g ->
  safe reply_mon (with_defer p d) reply_post g.
Proof.
  intros Hd Hp. unfold with_defer. eapply safe_seq; [exact Hp|]. intros g' a Hg.
  by apply safe_plain_seq.
Qed.

Lemma reply_open sw body bytes model route :
  Lookup (d_cfg deps) (d_Capability deps) model = Some route ->
  safe reply_mon (open_and_pay deps r sw body bytes model route) reply_post
    (ReplyGhost (route_refusal deps model) [] []).
Proof.
  intros Hl. unfold open_and_pay, route_refusal. rewrite Hl.
  destruct (BigSetString _) as [price|]; [|apply safe_refuse].
  apply reply_event. intros [os|e]; [|apply safe_refuse].
  apply reply_event. intros [pp|e].
  - unfold with_defer. eapply safe_seq; [apply reply_debit|]. intros g sw' Hg.
    unfold close_session. apply safe_bind. destruct g as [c w s]. apply reply_event. intros a. reply_cbn. rewrite !app_nil_r.
    destruct a; [done|]. by apply safe_plain; [plain_solve|].
  - apply safe_plain_seq; [plain_solve|]. intros _.
    apply safe_plain_seq; [plain_solve|]. intros _. apply safe_refuse.
Qed.

Lemma reply_then (sw : statusWriter) status code detail (label : string) :
  safe reply_mon (sw ← writeJSONError sw status code detail; Ret (sw, label)) reply_post
    (ReplyGhost (Some (status, code)) [] []).
Proof. eapply safe_seq; [apply safe_refuse|]. done. Qed.

Lemma reply_pipeline sw :
  safe reply_mon (pipeline deps r sw) reply_post (ReplyGhost (request_refusal r) [] []).
Proof.
  unfold pipeline, request_refusal, payment_bytes. fold (request_body r).
  destruct (request_body r) as [body|e]; [|apply reply_then].
  destruct (str_nil _).
  { apply safe_plain_seq; [plain_solve|]. intros _. apply reply_then. }
  destruct (base64_decode _) as [bytes|].
  2:{ apply safe_plain_seq; [plain_solve|]. intros _. apply reply_then. }
  apply reply_event. intros [model|e]; [|apply reply_then]. reply_cbn.
  destruct (Lookup _ _ _) as [route|] eqn:Hl.
  - eapply safe_seq; [by apply reply_open|]. done.
  - unfold route_refusal. rewrite Hl. apply reply_then.
Qed.

Lemma reply_admitted start sw :
  safe reply_mon (admitted deps r start sw) reply_post (ReplyGhost (request_refusal r) [] []).
Proof.
  apply safe_defer_plain; [|apply reply_pipeline]. intros x.
  unfold request_metrics, classifyOutcome, since, now. plain_solve.
Qed.

Lemma reply_middleware flusher :
  safe reply_mon (paymentMiddleware deps flusher r) reply_post (ReplyGhost (request_refusal r) [] []).
Proof.
  unfold paymentMiddleware. apply safe_plain_seq; [plain_solve|]. intros start.
  destruct (d_sem deps); [|apply reply_admitted].
  apply reply_event. intros []; reply_cbn.
  - apply safe_plain_seq; [plain_solve|]. intros n.
    apply safe_plain_seq; [plain_solve|]. intros _.
    apply safe_defer_plain; [|apply reply_admitted]. intros x. unfold release_slot. plain_solve.
  - unfold reject_capacity. apply safe_plain_seq; [plain_solve|]. intros _.
    eapply safe_seq; [apply safe_refuse|]. intros g sw' Hg.
    apply safe_plain; [|done]. unfold since, now. plain_solve.
Qed.
End Contract.

(** C9. The error contract.  A request that is not served is answered exactly
    once, with the status and the JSON error code of the check that refused it:
    503 when no slot is free, 400 for an unreadable body, model or estimate, 402
    for a missing, undecodable or rejected payment or a negative balance, 404 for
    an unrouted model, 500 for an unusable price, 502 when the daemon fails; a
    request that is served is answered by its module alone. *)
Theorem error_contract (deps : paidRouteDeps) (flusher : bool) (r : request) (t : list event) x :
  Tr (paymentMiddleware deps flusher r) t x ->
  match serves t with
  | [] => exists status code detail, refusal deps r t = Some (status, code) /\
            replies t = [inl status; inr (error_body code detail +:+ nl)]
  | _ => replies t = []
  end.
Proof.
  intros Ht. pose proof (safe_sound _ _ _ _ _ _ (reply_middleware deps r flusher) Ht) as H.
  rewrite reply_mon_run in H. exact H.
Qed.

Definition unpaid_request : request := Request [] (Reader "{}" ErrEOF).
Definition unpaid_run := paymentMiddleware demo_deps true unpaid_request.
Definition unpaid_trace : list event := trace_of demo_env unpaid_run env0.

Lemma error_contract_witness :
  exists status code detail, refusal demo_deps unpaid_request unpaid_trace = Some (status, code) /\
    replies unpaid_trace = [inl status; inr (error_body code detail +:+ nl)].
Proof.
  exact (error_contract demo_deps true unpaid_request unpaid_trace _ (trace_of_Tr demo_env unpaid_run env0)).
Defined.

Example unpaid_refusal :
  refusal demo_deps unpaid_request unpaid_trace = Some (402, "missing_or_invalid_payment").
Proof. vm_compute. reflexivity. Qed.
