(* ===== verification/Slot.v ===== *)
(** The request metrics and the concurrency slot of a paid request, and the
    order of its deferred functions. *)
From stdpp Require Import base gmap strings list.
From Stdlib Require Import ZArith Lia Ascii String.
From S2P Require Import Prelude.
From S2P Require Import GoStrings.
From S2P Require Import GoConv.
From S2P Require Import GoUnmarshal.
From S2P Require Import Types.
From S2P Require Import Prog.
From S2P Require Import Config.
From S2P Require Import ResponseWriter.
From S2P Require Import Env.
From S2P Require Import Middleware.
From S2P Require Import Session.

(** The recorder methods of the middleware's body, without the request metrics
    and the gauge of the slot. *)
Definition body_rec (c : rec_call) : Prop :=
  match c with IncPaymentRejection _ | AddWorkUnits _ _ _ _ => True | _ => False end.
Definition body_eff (e : eff) : Prop :=
  match e with
  | ERec c => body_rec c
  | ELog _ _ | ESetHeader _ _ | EWriteHeader _ | EWrite _ | EModule _ | EPayee _ => True
  | _ => False
  end.

Ltac emits_solve :=
  repeat first
    [ exact I
    | progress intros
    | apply emits_rec_do
    | apply emits_writeJSONError
    | apply emits_bind
    | match goal with |- emits _ (match ?x with _ => _ end) => destruct x end
    | match goal with |- emits _ (trigger _) => split end
    | progress cbn [emits] ].

Lemma pipeline_body_eff deps r sw : emits body_eff (pipeline deps r sw).
Proof.
  unfold pipeline, open_and_pay, debit_and_serve, serve_and_reconcile, close_session, with_defer,
    payee_, module_, log.
  emits_solve.
Qed.

(** * Request metrics *)

Definition ev_requests (x : event) : list rec_call :=
  match x with
  | Ev (ERec (IncRequest c m o)) _ => [IncRequest c m o]
  | Ev (ERec (ObserveRequest c m o d)) _ => [ObserveRequest c m o d]
  | _ => []
  end.
Definition ev_ctx (x : event) : list (option error) :=
  match x with Ev e a =>
    match e return resp e -> list (option error) with ECtxErr => fun a => [a] | _ => fun _ => [] end a
  end.
Definition module_models (c : module_call) : module_resp c -> list ModelID :=
  match c with
  | ExtractModel _ => fun a => match a with Ok model => [model] | Err _ => [] end
  | _ => fun _ => []
  end.
Definition ev_models (x : event) : list ModelID :=
  match x with Ev e a =>
    match e return resp e -> list ModelID with EModule c => module_models c | _ => fun _ => [] end a
  end.
Definition ev_clock (x : event) : list Z :=
  match x with Ev e a =>
    match e return resp e -> list Z with ENow => fun t => [t] | _ => fun _ => [] end a
  end.
(** The request metrics, what the context answered, the models extracted and the
    readings of the clock, in order. *)
Definition requests (t : list event) : list rec_call := t ≫= ev_requests.
Definition ctx_answers (t : list event) : list (option error) := t ≫= ev_ctx.
Definition models (t : list event) : list ModelID := t ≫= ev_models.
Definition clock (t : list event) : list Z := t ≫= ev_clock.

Record meter := Meter {
  mt_requests : list rec_call; mt_ctx : list (option error); mt_models : list ModelID; mt_clock : list Z }.
Definition meter_app (g g' : meter) : meter :=
  Meter (mt_requests g ++ mt_requests g') (mt_ctx g ++ mt_ctx g') (mt_models g ++ mt_models g') (mt_clock g ++ mt_clock g').
Definition ev_meter (x : event) : meter := Meter (ev_requests x) (ev_ctx x) (ev_models x) (ev_clock x).
Definition meter_of (t : list event) : meter := Meter (requests t) (ctx_answers t) (models t) (clock t).
Definition meter0 : meter := Meter [] [] [] [].
Lemma meter_app_r g : meter_app g meter0 = g.
Proof. destruct g. unfold meter_app. simpl. by rewrite !app_nil_r. Qed.

Definition metrics_mon : monitor meter := fun g x => Next (meter_app g (ev_meter x)).
Lemma metrics_mon_run g t : mon_run metrics_mon g t = Next (meter_app g (meter_of t)).
Proof.
  revert g. induction t as [|x t IH]; intros g; [by rewrite meter_app_r|]. cbn [mon_run metrics_mon]. rewrite IH.
  unfold meter_app, meter_of, ev_meter, requests, ctx_answers, models, clock. csimpl. by rewrite !app_assoc.
Qed.

(** Effects that none of them shows. *)
Definition unmetered (e : eff) : Prop :=
  match e with
  | ERec (IncRequest _ _ _) | ERec (ObserveRequest _ _ _ _) | ECtxErr | ENow | EModule (ExtractModel _) => False
  | _ => True
  end.
Lemma unmetered_step g e a : unmetered e -> metrics_mon g (Ev e a) = Next g.
Proof.
  intros He. unfold metrics_mon. replace (ev_meter (Ev e a)) with meter0; [by rewrite meter_app_r|].
  by destruct e as [| | | | |[]| | | | | | |[]| | | |].
Qed.
Lemma safe_unmetered {A} (p : prog A) (Q : meter -> A -> Prop) g :
  emits unmetered p -> (forall a, Q g a) -> safe metrics_mon p Q g.
Proof. apply emits_safe. intros e a He. by apply unmetered_step. Qed.
Lemma unmetered_seq {A B} (p : prog A) (f : A -> prog B) (Q : meter -> B -> Prop) g :
  emits unmetered p -> (forall a, safe metrics_mon (f a) Q g) -> safe metrics_mon (bind p f) Q g.
Proof. intros Hp Hf. apply safe_bind. by apply safe_unmetered. Qed.

(** The buckets of docs/design-docs/metrics.md, as ranges; what is none of a success, a
    client error or a payment rejection counts as [5xx]. *)
Definition in_bucket (status : Z) (outcome : string) : Prop :=
  (200 <= status < 300 /\ outcome = "2xx") \/
  (status = 402 /\ outcome = "402") \/
  (400 <= status < 500 /\ status <> 402 /\ outcome = "4xx") \/
  (~ 200 <= status < 300 /\ ~ 400 <= status < 500 /\ outcome = "5xx").
(** A request whose context has ended, by its deadline or by a cancellation. *)
Definition ended (err : option error) : Prop :=
  exists e, err = Some e /\ (errors_Is e ErrCanceled = true \/ errors_Is e ErrDeadlineExceeded = true).
Definition outcome_spec (ctx : list (option error)) (status : Z) (outcome : string) : Prop :=
  (Exists ended ctx /\ outcome = "canceled") \/ (~ Exists ended ctx /\ in_bucket status outcome).

Lemma status_bucket_spec status : in_bucket status (status_bucket status).
Proof.
  unfold in_bucket, status_bucket.
  destruct (Z.leb_spec 200 status), (Z.ltb_spec status 300); simpl;
    repeat match goal with |- context [status =? ?n] => destruct (Z.eqb_spec status n) end; try lia; try tauto;
    destruct (Z.leb_spec 400 status), (Z.ltb_spec status 500); simpl; try lia; try tauto;
    destruct (Z.leb_spec 500 status), (Z.ltb_spec status 600); simpl; right; right; right; split_and!; (lia || done).
Qed.
Lemma outcome_of_spec err status : outcome_spec [err] status (outcome_of err status).
Proof.
  assert (Hone : Exists ended [err] <-> ended err) by (split; [intros H; by inversion H as [|? ? H']; subst; [|inversion H']|by left]).
  unfold outcome_spec, outcome_of. rewrite Hone. destruct err as [e|].
  - destruct (errors_Is e ErrCanceled) eqn:E1; cbn [orb]; [left; split; [by exists e; auto|done]|].
    destruct (errors_Is e ErrDeadlineExceeded) eqn:E2; [left; split; [by exists e; auto|done]|right].
    split; [|apply status_bucket_spec]. intros (e' & [= <-] & [H|H]); congruence.
  - right. split; [by intros (e & [=] & _)|apply status_bucket_spec].
Qed.

Section Metrics.
Context (deps : paidRouteDeps) (r : request).
Context (Hrec : d_recorder deps = Some LiveRecorder).

(** The label of a request: the model its module extracted, if it did. *)
Definition label_of (l : list ModelID) : string := match l with [] => LabelUnset | model :: _ => model end.

(** One counter and one histogram, with the same labels. *)
Definition metered_once (g : meter) (x : statusWriter * string) : Prop :=
  exists start stop o,
    mt_requests g = [IncRequest (d_Capability deps) (snd x) o; ObserveRequest (d_Capability deps) (snd x) o (stop - start)] /\
    mt_clock g = [start; stop] /\ snd x = label_of (mt_models g) /\
    outcome_spec (mt_ctx g) (sw_status (fst x)) o.

(** Before the deferred metrics: the start is read, and the label is the model. *)
Definition labelled (start : Z) (g : meter) (x : statusWriter * string) : Prop :=
  exists l, g = Meter [] [] l [start] /\ snd x = label_of l.

Lemma unmetered_error (sw : statusWriter) status code detail :
  emits unmetered (writeJSONError sw status code detail).
Proof. by apply emits_writeJSONError. Qed.
Lemma labelled_error start l sw status code detail label :
  label = label_of l ->
  safe metrics_mon (sw ← writeJSONError sw status code detail; Ret (sw, label)) (labelled start) (Meter [] [] l [start]).
Proof. intros ->. apply unmetered_seq; [apply unmetered_error|]. intros sw'. by exists l. Qed.

Lemma open_unmetered sw body bytes model route : emits unmetered (open_and_pay deps r sw body bytes model route).
Proof.
  unfold open_and_pay, debit_and_serve, serve_and_reconcile, close_session, with_defer, payee_, module_, log. emits_solve.
Qed.

Lemma labelled_pipeline start sw :
  safe metrics_mon (pipeline deps r sw) (labelled start) (Meter [] [] [] [start]).
Proof.
  unfold pipeline. destruct (ReadAll _) as [body|e]; [|by apply labelled_error].
  destruct (str_nil _).
  { apply unmetered_seq; [by apply emits_rec_do|]. intros _. by apply labelled_error. }
  destruct (base64_decode _) as [bytes|].
  2:{ apply unmetered_seq; [by apply emits_rec_do|]. intros _. by apply labelled_error. }
  apply safe_event. intros [model|e]; cbn; [|by apply labelled_error].
  destruct (Lookup _ _ _) as [route|]; [|by apply labelled_error].
  apply unmetered_seq; [apply open_unmetered|]. intros sw'. by exists [model].
Qed.

Lemma metered_admitted start sw :
  safe metrics_mon (admitted deps r start sw) metered_once (Meter [] [] [] [start]).
Proof.
  unfold admitted, with_defer. eapply safe_seq; [apply labelled_pipeline|]. intros g [sw' label] (l & -> & Hl).
  simpl in Hl. unfold request_metrics, classifyOutcome, recorder_of. rewrite Hrec. simpl.
  intros err [] stop []. exists start, stop, (outcome_of err (sw_status sw')).
  unfold meter_app. simpl. rewrite !app_nil_r. split_and!; try done. apply outcome_of_spec.
Qed.

Lemma metered_middleware flusher :
  safe metrics_mon (paymentMiddleware deps flusher r) metered_once meter0.
Proof.
  unfold paymentMiddleware. apply safe_event. intros start. cbn beta iota delta [metrics_mon].
  change (meter_app meter0 (ev_meter (Ev ENow start))) with (Meter [] [] [] [start]).
  destruct (d_sem deps); [|apply metered_admitted].
  apply unmetered_seq; [done|]. intros [].
  - apply unmetered_seq; [done|]. intros n.
    apply unmetered_seq; [by destruct recorder_of|]. intros _.
    unfold with_defer. eapply safe_seq; [apply metered_admitted|]. intros g x Hg.
    apply unmetered_seq; [unfold release_slot; emits_solve|done].
  - unfold reject_capacity, recorder_of. rewrite Hrec. simpl.
    intros [] [] [] a [] stop []. exists start, stop, OutcomeRequest5xx. split_and!; try done.
    right. split; [by intros H; inversion H|]. right. right. right. simpl. split_and!; [lia|lia|done].
Qed.
End Metrics.



(** * The slot *)

Definition slot_eff (e : eff) : Prop :=
  match e with ESemTryAcquire | ESemLen | ESemRelease => True | _ => False end.

Lemma admitted_no_slot deps r start sw : emits (fun e => ~ slot_eff e) (admitted deps r start sw).
Proof.
  unfold admitted, with_defer. apply emits_bind.
  - eapply emits_mono; [|apply pipeline_body_eff]. intros [] He; simpl in *; tauto.
  - intros x. apply emits_bind; [|done].
    unfold request_metrics, classifyOutcome, since, now. by destruct (recorder_of deps); simpl; tauto.
Qed.

Lemma rec_do_trace rec n t u :
  Tr (rec_do rec (SetInflightRequests n)) t u ->
  Forall (fun y => match y with Ev e _ => exists n, e = ERec (SetInflightRequests n) end) t.
Proof.
  intros Ht. eapply (emits_Tr (fun e => exists n, e = ERec (SetInflightRequests n))); [|exact Ht].
  apply emits_rec_do. by eexists.
Qed.

(** C13. The slot of a request.  With a semaphore, a request either finds no slot
    and then never touches the semaphore, the daemon or the module; or it takes
    exactly one slot before anything else and gives it back as its very last
    action (with the gauge), so that the close of the session and the request
    metrics happen while the slot is still held. *)
Theorem slot_bracket (deps : paidRouteDeps) (flusher : bool) (r : request) (t : list event) x :
  d_sem deps = true -> Tr (paymentMiddleware deps flusher r) t x ->
  exists start,
    (exists t', t = Ev ENow start :: Ev ESemTryAcquire false :: t' /\
       Forall (fun y => match y with Ev e _ => ~ slot_eff e /\ ~ session_eff e end) t') \/
    (exists n1 n2 t1 t2 tail,
       t = Ev ENow start :: Ev ESemTryAcquire true :: Ev ESemLen n1 :: t1 ++ t2 ++
           Ev ESemRelease tt :: Ev ESemLen n2 :: tail /\
       Forall (fun y => match y with Ev e _ => exists n, e = ERec (SetInflightRequests n) end) (t1 ++ tail) /\
       Forall (fun y => match y with Ev e _ => ~ slot_eff e end) t2 /\
       (exists sw, Tr (admitted deps r start sw) t2 x)).
Proof.
  intros Hsem Ht. unfold paymentMiddleware in Ht. rewrite Hsem in Ht.
  destruct Ht as (start & t' & -> & Ht). exists start.
  destruct Ht as (free & t1 & -> & Ht). destruct free.
  - right. destruct Ht as (n1 & t2 & -> & Ht). cbn [bind] in Ht.
    apply Tr_bind in Ht as (? & t2' & n & -> & [-> ->] & Ht).
    apply Tr_bind in Ht as (tr & t3 & u & -> & Hr & Ht). unfold with_defer in Ht.
    apply Tr_bind in Ht as (ta & t4 & x' & -> & Ha & Ht).
    apply Tr_bind in Ht as (td & t5 & v & -> & Hd & Hret). destruct Hret as [-> ->]. rewrite app_nil_r.
    destruct Hd as (u1 & t6 & -> & n2 & tail & -> & Hd). destruct u1. exists n1, n2, tr, ta, tail.
    split_and!; [done|..].
    + apply Forall_app. split; [by eapply rec_do_trace|by eapply rec_do_trace].
    + eapply emits_Tr; [apply admitted_no_slot|exact Ha].
    + by eexists.
  - left. exists t1. split; [done|].
    change (Tr (reject_capacity deps start (StatusWriter 0 false flusher)) t1 x) in Ht.
    eapply (emits_Tr (fun e => ~ slot_eff e /\ ~ session_eff e)); [|exact Ht].
    unfold reject_capacity, since, now.
    apply emits_bind; [apply emits_rec_do; split; exact id|intros ?].
    apply emits_bind; [apply emits_writeJSONError; intros; split; exact id|intros ?].
    apply emits_bind; [apply emits_rec_do; split; exact id|intros ?].
    apply emits_bind; [split; [split; exact id|done]|intros ?].
    apply emits_bind; [apply emits_rec_do; split; exact id|done].
Qed.

Lemma slot_bracket_witness :
  exists start,
    (exists t', demo_trace = Ev ENow start :: Ev ESemTryAcquire false :: t' /\
       Forall (fun y => match y with Ev e _ => ~ slot_eff e /\ ~ session_eff e end) t') \/
    (exists n1 n2 t1 t2 tail,
       demo_trace = Ev ENow start :: Ev ESemTryAcquire true :: Ev ESemLen n1 :: t1 ++ t2 ++
           Ev ESemRelease tt :: Ev ESemLen n2 :: tail /\
       Forall (fun y => match y with Ev e _ => exists n, e = ERec (SetInflightRequests n) end) (t1 ++ tail) /\
       Forall (fun y => match y with Ev e _ => ~ slot_eff e end) t2 /\
       (exists sw, Tr (admitted demo_deps demo_request start sw) t2 (result_of demo_env demo_run env0))).
Proof. exact (slot_bracket demo_deps true demo_request demo_trace _ eq_refl demo_trace_Tr). Defined.
