(* ===== verification/Stack.v ===== *)
(** The middleware composed with implementations: a capability module behind the
    module interface, the gRPC client behind the payee interface, the HTTP client
    behind the backend interface. *)
From stdpp Require Import base gmap strings list.
From Stdlib Require Import ZArith Lia Ascii String.
From S2P Require Import ChatCompletions.
From S2P Require Import Prelude.
From S2P Require Import GoStrings.
From S2P Require Import GoConv.
From S2P Require Import GoUnmarshal.
From S2P Require Import Types.
From S2P Require Import Prog.
From S2P Require Import Interp.
From S2P Require Import Config.
From S2P Require Import ConfigFacts.
From S2P Require Import Payee.
From S2P Require Import Backend.
From S2P Require Import Tokenizer.
From S2P Require Import ResponseWriter.
From S2P Require Import Env.
From S2P Require Import Module.
From S2P Require Import Middleware.
From S2P Require Import Session.
From S2P Require Import Slot.

(** Every answer type has a value. *)
Definition some_answer (e : eff) : resp e := fst (demo_env e env0).

(** What a program has done when it was left waiting: the events that were answered, and
    the effect that was not, if it is not done. *)
Fixpoint hangs {A} (p : prog A) (t : list event) (waiting : option eff) : Prop :=
  match p with
  | Ret _ => t = [] /\ waiting = None
  | Vis e k => t = [] /\ waiting = Some e \/ exists r t', t = Ev e r :: t' /\ hangs (k r) t' waiting
  end.
(** It is the beginning of a trace, which goes on with the effect that hangs: what is
    proved of the events before an event of any trace holds before one that hangs. *)
Lemma hangs_begins {A} (p : prog A) t e :
  hangs p t (Some e) -> exists r t' a, Tr p (t ++ Ev e r :: t') a.
Proof.
  assert (Hall : forall A (p : prog A), exists t a, Tr p t a).
  { intros B q. induction q as [a|e' k IH]; [by exists [], a|].
    destruct (IH (some_answer e')) as (t' & a & Ht). by exists (Ev e' (some_answer e') :: t'), a, (some_answer e'), t'. }
  revert t. induction p as [a|e' k IH]; intros t; cbn [hangs]; [by intros [_ [=]]|].
  intros [[-> [= <-]]|(r & t' & -> & H)].
  - destruct (Hall _ (k (some_answer e))) as (t' & a & Ht). by exists (some_answer e), t', a, (some_answer e), t'.
  - destruct (IH r t' H) as (r' & t'' & a & Ht). by exists r', t'', a, r, (t' ++ Ev e r' :: t'').
Qed.

(** * Behind the module interface *)

(** What a [Serve] may do, as a class of effects. *)
Definition serve_eff (e : eff) : Prop :=
  match e with
  | EBackend _ | ESetHeader _ _ | EWriteHeader _ | EWrite _ | EFlush | ENow | EStreamClose => True
  | ERec c => module_rec c = true
  | _ => False
  end.

Lemma serve_mon_eff {A} url body (p : prog A) Q g : safe (serve_mon url body) p Q g -> emits serve_eff p.
Proof.
  revert g. induction p as [a|e k IH]; [done|]. intros g H. cbn [safe] in H. split.
  - specialize (H (some_answer e)). destruct e; try done. simpl in H. simpl. by destruct (module_rec c).
  - intros r. specialize (H r). destruct (serve_mon url body g (Ev e r)) eqn:E; [exact (IH r _ H)|done|].
    exfalso. destruct e; simpl in E; repeat case_match; congruence.
Qed.

Section Module.
Context (m : Module) `{!ModuleLaws m}.

Lemma tokenizer_serve_eff e : tokenizer_eff e -> serve_eff e.
Proof. destruct e as [| | | | |[]| | | | | | | | | | |]; intros H; simpl in *; first [reflexivity | exact I | destruct H]. Qed.
Lemma module_serve_eff c : emits serve_eff (mod_methods m c).
Proof.
  destruct c as [body|body model|w r body model url].
  - eapply emits_mono; [exact tokenizer_serve_eff|apply law_ExtractModel].
  - eapply emits_mono; [exact tokenizer_serve_eff|apply law_EstimateWorkUnits].
  - eapply serve_mon_eff, law_Serve.
Qed.
End Module.

(** ** The status the client sees *)

#[export] Instance statusWriter_eq_dec : EqDecision statusWriter.
Proof. solve_decision. Defined.

(** The status writer as the interface sees it: a [Serve] takes it, before anything
    was written, and hands it back. *)
Definition writer_mon : monitor statusWriter := fun s x =>
  match x with Ev e a =>
    match e return resp e -> verdict statusWriter with
    | EModule c =>
        match c return module_resp c -> verdict statusWriter with
        | Serve w _ _ _ _ => fun res =>
            if bool_decide (w = s) && negb (sw_wrote s) then Next (sv_writer res) else Reject
        | _ => fun _ => Next s
        end
    | e => fun _ => Next (sw_step s e)
    end a
  end.


(** The middleware threads the writer through every answer and every [Serve]. *)
Section Writer.
Context (deps : paidRouteDeps) (r : request).

Lemma writer_silent {A} (p : prog A) (Q : statusWriter -> A -> Prop) s :
  emits (fun e => silent_eff e /\ match e with EModule _ => False | _ => True end) p ->
  (forall a, Q s a) -> safe writer_mon p Q s.
Proof.
  apply (emits_safe writer_mon). intros e a [He Hm]. rewrite <- (silent_step s e He) at 2. by destruct e.
Qed.
Lemma writer_silent_seq {A B} (p : prog A) (f : A -> prog B) (Q : statusWriter -> B -> Prop) s :
  emits (fun e => silent_eff e /\ match e with EModule _ => False | _ => True end) p ->
  (forall a, safe writer_mon (f a) Q s) -> safe writer_mon (bind p f) Q s.
Proof. intros Hp Hf. apply safe_bind. by apply writer_silent. Qed.

Lemma writer_error sw status code detail :
  informational status = false ->
  safe writer_mon (writeJSONError sw status code detail) (fun s sw' => s = sw') sw.
Proof. intros Hi ???. cbn. unfold sw_step, statusWriter_record. rewrite Hi. by destruct sw as [? [] ?]. Qed.
Lemma writer_error_then (sw : statusWriter) status code detail (label : string) :
  informational status = false ->
  safe writer_mon (sw ← writeJSONError sw status code detail; Ret (sw, label)) (fun s x => s = fst x) sw.
Proof. intros Hi. eapply safe_seq; [by apply writer_error|]. done. Qed.

Ltac silent_solve :=
  repeat first [ apply emits_rec_do; split; exact I | apply emits_bind; [|intros ?]
               | progress simpl; tauto | split; [split; exact I|intros ?] ].

Lemma writer_serve sw body model route workID sender est :
  sw_wrote sw = false ->
  safe writer_mon (serve_and_reconcile deps r sw body model route workID sender est)
    (fun s sw' => s = sw') sw.
Proof.
  intros Hw. unfold serve_and_reconcile. apply safe_event. intros res. cbn [writer_mon].
  rewrite bool_decide_true, Hw by done. cbn [negb andb].
  destruct (sv_err res) as [[e|msg]|]; [by apply writer_silent_seq; [silent_solve|]|done|].
  apply writer_silent_seq; [destruct (0 <? sv_actual res); silent_solve|]. intros _.
  destruct (est <? sv_actual res); [|done].
  apply writer_silent_seq; [split; [by split|done]|]. intros [a|e]; [done|].
  by apply writer_silent_seq; [silent_solve|].
Qed.

Lemma writer_debit sw body model route workID sender :
  sw_wrote sw = false ->
  safe writer_mon (debit_and_serve deps r sw body model route workID sender) (fun s sw' => s = sw') sw.
Proof.
  intros Hw. unfold debit_and_serve. apply safe_event. intros [n|e]; cbn [writer_mon]; [|by apply writer_error].
  apply writer_silent_seq; [split; [by split|done]|]. intros [db|e].
  - destruct (db_BalanceWei db <? 0); [|by apply writer_serve].
    apply writer_silent_seq; [silent_solve|]. intros _.
    apply writer_silent_seq; [silent_solve|]. intros _. by apply writer_error.
  - apply writer_silent_seq; [silent_solve|]. intros _. by apply writer_error.
Qed.

Lemma writer_defer {A} (p : prog A) (d : A -> prog unit) (Q : statusWriter -> A -> Prop) s :
  (forall a, emits (fun e => silent_eff e /\ match e with EModule _ => False | _ => True end) (d a)) ->
  safe writer_mon p Q s -> safe writer_mon (with_defer p d) Q s.
Proof.
  intros Hd Hp. unfold with_defer. eapply safe_seq; [exact Hp|]. intros s' a HQ.
  by apply writer_silent_seq.
Qed.

Lemma writer_open sw body bytes model route :
  sw_wrote sw = false ->
  safe writer_mon (open_and_pay deps r sw body bytes model route) (fun s sw' => s = sw') sw.
Proof.
  intros Hw. unfold open_and_pay. destruct (BigSetString _); [|by apply writer_error].
  apply writer_silent_seq; [split; [by split|done]|]. intros [a|e]; [|by apply writer_error].
  apply writer_silent_seq; [split; [by split|done]|]. intros [pp|e].
  - apply writer_defer; [|by apply writer_debit]. intros _. unfold close_session.
    apply emits_bind; [split; [by split|done]|]. intros [c|e]; silent_solve.
  - apply writer_silent_seq; [silent_solve|]. intros _.
    apply writer_silent_seq; [silent_solve|]. intros _. by apply writer_error.
Qed.

Lemma writer_pipeline sw : sw_wrote sw = false -> safe writer_mon (pipeline deps r sw) (fun s x => s = fst x) sw.
Proof.
  intros Hw. unfold pipeline. destruct (ReadAll _) as [body|e]; [|by apply writer_error_then].
  destruct (str_nil _).
  { apply writer_silent_seq; [silent_solve|]. intros _. by apply writer_error_then. }
  destruct (base64_decode _) as [bytes|].
  2:{ apply writer_silent_seq; [silent_solve|]. intros _. by apply writer_error_then. }
  apply safe_event. intros [model|e]; cbn [writer_mon]; [|by apply writer_error_then].
  destruct (Lookup _ _ _) as [route|]; [|by apply writer_error_then].
  eapply safe_seq; [by apply writer_open|]. done.
Qed.

Lemma writer_admitted start sw :
  sw_wrote sw = false ->
  safe writer_mon (admitted deps r start sw) (fun s x => s = fst x) sw.
Proof.
  intros Hw. apply writer_defer; [|by apply writer_pipeline]. intros x.
  unfold request_metrics, classifyOutcome, since, now. silent_solve.
Qed.

Lemma writer_middleware flusher :
  safe writer_mon (paymentMiddleware deps flusher r) (fun s x => s = fst x) (StatusWriter 0 false flusher).
Proof.
  unfold paymentMiddleware. apply writer_silent_seq; [split; [by split|done]|]. intros start.
  destruct (d_sem deps); [|by apply writer_admitted].
  apply writer_silent_seq; [split; [by split|done]|]. intros [].
  - apply writer_silent_seq; [silent_solve|]. intros n.
    apply writer_silent_seq; [silent_solve|]. intros _.
    apply writer_defer; [|by apply writer_admitted]. intros x. unfold release_slot. silent_solve.
  - unfold reject_capacity. apply writer_silent_seq; [silent_solve|]. intros _.
    eapply safe_seq; [by apply writer_error|]. intros s sw' ->.
    apply writer_silent_seq; [silent_solve|]. intros _.
    apply writer_silent_seq; [unfold since, now; silent_solve|]. intros d.
    by apply writer_silent_seq; [silent_solve|].
Qed.
(** Nothing is on the wire when a [Serve] starts. *)
Lemma writer_mon_decides s t : mon_run writer_mon s t <> Vacuous.
Proof.
  revert s. induction t as [|[e a] t IH]; intros s; [done|]. cbn [mon_run].
  destruct (writer_mon s (Ev e a)) eqn:E; [apply IH|done|].
  destruct e; try done. destruct c; try done. simpl in E. by destruct (_ && _).
Qed.
Lemma serve_unwritten flusher a w rq body model url res b x :
  Tr (paymentMiddleware deps flusher r) (a ++ Ev (EModule (Serve w rq body model url)) res :: b) x ->
  sw_wrote w = false.
Proof.
  intros Ht. pose proof (safe_sound _ _ _ _ _ _ (writer_middleware flusher) Ht) as H.
  rewrite mon_run_app in H. destruct (mon_run writer_mon _ a) as [s| |] eqn:E; [|done|by apply writer_mon_decides in E].
  cbn [mon_run writer_mon] in H. case_bool_decide as Hw; [subst w|done]. by destruct (sw_wrote s).
Qed.
End Writer.

(** The monitor of [tracks]. *)
Definition wire_mon : monitor statusWriter := fun s x => match x with Ev e _ => Next (sw_step s e) end.

Lemma wire_mon_run s t : mon_run wire_mon s t = Next (wire_status s t).
Proof. revert s. induction t as [|[e a] t IH]; intros s; simpl; [done|]. by rewrite IH. Qed.

Lemma serve_wire url body (p : prog serve_result) b w :
  safe (serve_mon url body) p serve_post (ServeGhost b w) ->
  safe wire_mon p (fun s res => agrees s (sv_writer res)) w.
Proof.
  revert b w. induction p as [res|e k IH]; intros b w H; [by destruct H|].
  cbn [safe] in H |- *. intros r. specialize (H r). cbn [wire_mon].
  destruct e; simpl in H; try done; try by eapply IH.
  - rewrite silent_step by done. by eapply IH.
  - rewrite silent_step by done. destruct (module_rec c); [by eapply IH|done].
  - rewrite silent_step by done. by eapply IH.
  - rewrite silent_step by done. destruct (negb b && _); [by eapply IH|done].
Qed.

Section Composed.
Context (m : Module) `{!ModuleLaws m}.
Context (deps : paidRouteDeps) (r : request).

(** The middleware with the module plugged in. *)
Definition paid_handler (flusher : bool) : prog (statusWriter * string) :=
  interp (module_handler (mod_methods m)) (paymentMiddleware deps flusher r).

Lemma trigger_wire e s wire :
  agrees wire s -> match e with EModule _ => False | _ => True end ->
  safe wire_mon (trigger e) (fun wire' a => exists s', writer_mon s (Ev e a) = Next s' /\ agrees wire' s') wire.
Proof.
  intros Ha He a. cbn. exists (sw_step s e). split; [by destruct e|].
  destruct Ha as [->|[Hw Hf]]; [by left|]. right. unfold sw_step. by rewrite Hw.
Qed.
Lemma tokenizer_wire {A} (p : prog A) wire :
  emits tokenizer_eff p -> safe wire_mon p (fun wire' _ => wire' = wire) wire.
Proof.
  intros Hp. eapply (emits_safe wire_mon tokenizer_eff); [|done|done].
  intros e a He. cbn. rewrite silent_step; [done|]. by destruct e.
Qed.
Lemma handler_wire e s wire :
  agrees wire s -> (forall a, writer_mon s (Ev e a) <> Reject) ->
  safe wire_mon (module_handler (mod_methods m) e)
    (fun wire' a => exists s', writer_mon s (Ev e a) = Next s' /\ agrees wire' s') wire.
Proof.
  intros Ha Hr. destruct e; try by apply trigger_wire.
  cbn [module_handler]. destruct c as [body|body model|w rq body model url]; cbn [writer_mon].
  - eapply safe_mono; [|apply tokenizer_wire, law_ExtractModel]. intros wire' a ->. by exists s.
  - eapply safe_mono; [|apply tokenizer_wire, law_EstimateWorkUnits]. intros wire' a ->. by exists s.
  - destruct (decide (w = s /\ sw_wrote s = false)) as [[-> Hw]|Hne].
    + rewrite bool_decide_true, Hw by done. cbn [negb andb].
      destruct Ha as [->|[Hw' _]]; [|congruence]. eapply safe_mono; [|by eapply serve_wire, law_Serve].
      intros wire' res Hag. by exists (sv_writer res).
    + exfalso. apply (Hr (some_answer _)). cbn [writer_mon]. case_bool_decide as E; [|done].
      destruct (sw_wrote s) eqn:Hw; [done|]. by destruct Hne.
Qed.

Lemma paid_handler_wire flusher :
  safe wire_mon (paid_handler flusher) (fun wire x => agrees wire (fst x)) (StatusWriter 0 false flusher).
Proof.
  apply (safe_interp_rel writer_mon wire_mon (fun s wire => agrees wire s) _ _ (fun s x => s = fst x) _
    (StatusWriter 0 false flusher)).
  - intros e s wire. apply handler_wire.
  - by intros s wire x Ha ->.
  - apply agrees_refl.
  - apply writer_middleware.
Qed.

(** The request metrics do not see the module. *)
Lemma module_meter t0 t :
  expands (module_handler (mod_methods m)) t0 t -> requests t = requests t0 /\ ctx_answers t = ctx_answers t0.
Proof.
  intros Hexp.
  assert (Hq : forall c s b, Tr (mod_methods m c) s b -> requests s = [] /\ ctx_answers s = []).
  { intros c s b Hs. pose proof (emits_Tr _ _ _ _ (module_serve_eff m c) Hs) as H. clear Hs.
    induction H as [|[e a] s He _ [IH1 IH2]]; [done|]. unfold requests, ctx_answers in *. csimpl. rewrite IH1, IH2.
    by destruct e as [| | | | |[]| | | | | | | | | | |]. }
  split; (eapply expands_project; [|exact Hexp]); intros e b s _ Hs;
    (destruct e; [..|]; try (destruct Hs as (b' & s' & -> & -> & ->); csimpl; by rewrite ?app_nil_r)); by apply (Hq _ _ _ Hs).
Qed.
End Composed.


(** * The backend is reached only through the gate *)

Section BackendGate.
Context (m : Module) `{!ModuleLaws m}.
Context (deps : paidRouteDeps) (r : request).

(** A backend call inside a module call is one [Serve] makes. *)
Lemma serve_targets url body (p : prog serve_result) Q g t a c ans :
  safe (serve_mon url body) p Q g -> Tr p t a -> In (Ev (EBackend c) ans) t -> backend_target c = (url, body).
Proof.
  revert g t. induction p as [res|e k IH]; intros g t H Ht Hin.
  { destruct Ht as [-> _]. by destruct Hin. }
  destruct Ht as (b & t' & -> & Ht). cbn [safe] in H. specialize (H b).
  destruct Hin as [Heq|Hin].
  - assert (He : e = EBackend c) by congruence. clear Heq. subst e. simpl in H.
    destruct (negb _); [|done]. simpl in H. by destruct (decide (backend_target c = (url, body)));
      [|rewrite bool_decide_false in H].
  - destruct (serve_mon url body g (Ev e b)) eqn:E; [by eapply IH|done|].
    exfalso. destruct e; simpl in E; repeat case_match; congruence.
Qed.

Lemma module_segment c s a d ans :
  Tr (mod_methods m c) s a -> In (Ev (EBackend d) ans) s ->
  exists w rq body model url, c = Serve w rq body model url /\
    backend_target d = (target_url url (mod_HTTPPath m), body).
Proof.
  intros Hs Hin. destruct c as [body|body model|w rq body model url].
  - pose proof (emits_Tr _ _ _ _ (law_ExtractModel body) Hs) as H.
    rewrite List.Forall_forall in H. by destruct (H _ Hin).
  - pose proof (emits_Tr _ _ _ _ (law_EstimateWorkUnits body model) Hs) as H.
    rewrite List.Forall_forall in H. by destruct (H _ Hin).
  - exists w, rq, body, model, url. split; [done|].
    eapply serve_targets; [apply law_Serve|exact Hs|exact Hin].
Qed.

Lemma backend_step ph x ph' :
  session_step deps r ph x ph' -> match x with Ev (EBackend _) _ => False | _ => True end.
Proof. destruct 1; try done. destruct e; simpl in *; tauto. Qed.

(** The interface call behind a backend call is a module call. *)
Lemma segment_is_module flusher t0a e b t0b x c ans s :
  Tr (paymentMiddleware deps flusher r) (t0a ++ Ev e b :: t0b) x ->
  Tr (module_handler (mod_methods m) e) s b -> In (Ev (EBackend c) ans) s ->
  exists mc, e = EModule mc.
Proof.
  intros Ht0 Hseg Hin.
  assert (Htrig : Tr (trigger e) s b -> e = EBackend c).
  { intros (a & t' & -> & -> & _). destruct Hin as [Hin|[]]. congruence. }
  destruct e; try (specialize (Htrig Hseg); congruence); [by eexists|].
  exfalso. destruct (middleware_runs _ _ _ _ _ Ht0) as (ph & Hs & _).
  apply steps_app_inv in Hs as (ph1 & _ & H2). inversion H2 as [|? ? g1 ? ? Hx _]; subst.
  exact (backend_step _ _ _ Hx).
Qed.
End BackendGate.

(** What a backend call of a paid route has behind it: a run of the protocol up to the
    accepted debit, with the module plugged in, and the beginning of the one [Serve],
    which sends the request's body to the route's backend at the module's path. *)
Lemma backend_paid (m : Module) `{!ModuleLaws m} (deps : paidRouteDeps) (flusher : bool) (r : request)
    (t1 t2 : list event) (c : backend_call) (ans : backend_resp c) x :
  Tr (paid_handler m deps r flusher) (t1 ++ Ev (EBackend c) ans :: t2) x ->
  exists t0 t1a s1 s2 w body model route sender est res,
    steps (session_step deps r) Idle t0 (Debited model route sender est) /\
    expands (module_handler (mod_methods m)) t0 t1a /\ t1 = t1a ++ s1 /\
    request_body r = Ok body /\
    backend_target c = (target_url (mr_BackendURL route) (mod_HTTPPath m), body) /\
    Tr (mod_methods m (Serve w r body model (mr_BackendURL route))) (s1 ++ Ev (EBackend c) ans :: s2) res.
Proof.
  intros Ht. apply interp_Tr in Ht as (t0 & Ht0 & Hexp).
  apply expands_split in Hexp as (t0a & e & b & t0b & t1a & s1 & s2 & -> & Hseg & Hexp & ->).
  assert (Hin : In (Ev (EBackend c) ans) (s1 ++ Ev (EBackend c) ans :: s2)) by (apply in_app_iff; right; by left).
  assert (exists mc, e = EModule mc) as (mc & ->) by (eapply (segment_is_module m); [exact Ht0|exact Hseg|exact Hin]).
  destruct (module_segment m _ _ _ _ _ Hseg Hin) as (w & rq & body & model & url & -> & Htarget).
  apply served_behind_debit in Ht0 as (-> & Hb & route & sender & est & -> & Hrun).
  exists t0a, t1a, s1, s2, w, body, model, route, sender, est, b. by split_and!.
Qed.

Definition demo_chat_module : Module :=
  ChatCompletions.module (Tokenizer.NewWordCount 133) iface_backend (Some LiveRecorder) 2048.
Definition demo_paid_request : request :=
  Request [("Livepeer-Payment", "aGVsbG8=")]
    (Reader ("{" +:+ dq "model" +:+ ":" +:+ dq "llama-3" +:+ "}") ErrEOF).
Definition demo_paid_run := paid_handler demo_chat_module demo_deps demo_paid_request true.
Definition demo_paid_trace : list event := trace_of demo_env demo_paid_run env0.

#[export] Instance demo_chat_laws : ModuleLaws demo_chat_module.
Proof. apply chat_laws, wordCount_laws. Qed.


(** * Over the gRPC client *)

(** The branch of the middleware for a negative balance. *)
Definition negative_branch (e : eff) : bool :=
  match e with
  | ERec (IncPaymentRejection reason) => bool_decide (reason = PaymentRejectInsufficientBalance)
  | ELog LevelInfo _ => true
  | _ => false
  end.
Definition negative_answer (c : payee_call) : payee_resp c -> bool :=
  match c with
  | DebitBalance _ _ _ => fun a => match a with Ok db => db_BalanceWei db <? 0 | Err _ => false end
  | _ => fun _ => false
  end.

(** It is taken only when a debit is answered with a negative balance. *)
Definition negative_mon : monitor unit := fun g x =>
  match x with Ev e a =>
    if negative_branch e then Reject
    else match e return resp e -> verdict unit with
         | EPayee c => fun a => if negative_answer c a then Vacuous else Next g
         | _ => fun _ => Next g
         end a
  end.
Definition no_negative_mon : monitor unit := fun g x =>
  match x with Ev e _ => if negative_branch e then Reject else Next g end.

Definition not_negative (e : eff) : Prop :=
  negative_branch e = false /\ match e with EPayee _ => False | _ => True end.

Section Negative.
Context (deps : paidRouteDeps) (r : request).

Lemma negative_quiet {A} (p : prog A) (Q : unit -> A -> Prop) g :
  emits not_negative p -> (forall a, Q g a) -> safe negative_mon p Q g.
Proof.
  apply emits_safe. intros e a [He Hp]. unfold negative_mon. rewrite He. by destruct e.
Qed.
Lemma negative_quiet_seq {A B} (p : prog A) (f : A -> prog B) (Q : unit -> B -> Prop) g :
  emits not_negative p -> (forall a, safe negative_mon (f a) Q g) -> safe negative_mon (bind p f) Q g.
Proof. intros Hp Hf. apply safe_bind. by apply negative_quiet. Qed.
(** A payee call other than the debit of the estimate. *)
Lemma negative_payee {B} c (f : payee_resp c -> prog B) (Q : unit -> B -> Prop) g :
  (forall a, safe negative_mon (f a) Q g) -> safe negative_mon (bind (payee_ c) f) Q g.
Proof. intros Hf. apply safe_event. intros a. simpl. by destruct (negative_answer c a). Qed.

Ltac not_negative_solve :=
  repeat first
    [ apply emits_rec_do; by split
    | apply emits_writeJSONError; intros; by split
    | apply emits_bind; [|intros ?]
    | progress simpl; done
    | split; [by split|intros ?] ].

Abbreviation ok := (fun (_ : unit) _ => True).

Lemma negative_serve sw body model route workID sender est :
  safe negative_mon (serve_and_reconcile deps r sw body model route workID sender est) ok tt.
Proof.
  unfold serve_and_reconcile. apply negative_quiet_seq; [not_negative_solve|]. intros res.
  destruct (sv_err res) as [[e|msg]|]; [apply negative_quiet; [not_negative_solve|done]|done|].
  apply negative_quiet_seq; [destruct (0 <? sv_actual res); not_negative_solve|]. intros _.
  destruct (est <? sv_actual res); [|done]. apply negative_payee. intros [a|e]; [done|].
  apply negative_quiet; [not_negative_solve|done].
Qed.

Lemma negative_debit sw body model route workID sender :
  safe negative_mon (debit_and_serve deps r sw body model route workID sender) ok tt.
Proof.
  unfold debit_and_serve. apply negative_quiet_seq; [not_negative_solve|].
  intros [n|e]; [|apply negative_quiet; [not_negative_solve|done]].
  apply safe_event. intros [db|e]; simpl.
  - destruct (db_BalanceWei db <? 0); [done|]. apply negative_serve.
  - apply negative_quiet_seq; [not_negative_solve|]. intros _.
    apply negative_quiet; [not_negative_solve|done].
Qed.

Lemma negative_pipeline sw : safe negative_mon (pipeline deps r sw) ok tt.
Proof.
  unfold pipeline, open_and_pay, with_defer, close_session.
  destruct (ReadAll _); [|apply negative_quiet; [not_negative_solve|done]].
  destruct (str_nil _); [apply negative_quiet; [not_negative_solve|done]|].
  destruct (base64_decode _); [|apply negative_quiet; [not_negative_solve|done]].
  apply negative_quiet_seq; [not_negative_solve|].
  intros [model|e]; [|apply negative_quiet; [not_negative_solve|done]].
  destruct (Lookup _ _ _); [|apply negative_quiet; [not_negative_solve|done]].
  apply (safe_seq _ _ _ ok); [|done].
  destruct (BigSetString _); [|apply negative_quiet; [not_negative_solve|done]].
  apply negative_payee. intros [o|e]; [|apply negative_quiet; [not_negative_solve|done]].
  apply negative_payee. intros [pp|e]; [|apply negative_quiet; [not_negative_solve|done]].
  apply (safe_seq _ _ _ ok); [apply negative_debit|]. intros [] sw' _.
  apply safe_bind. apply negative_payee. intros [c|e]; [done|].
  apply negative_quiet; [not_negative_solve|done].
Qed.

Lemma negative_middleware flusher : safe negative_mon (paymentMiddleware deps flusher r) ok tt.
Proof.
  assert (Ha : forall start sw, safe negative_mon (admitted deps r start sw) ok tt).
  { intros start sw. unfold admitted, with_defer. apply (safe_seq _ _ _ ok); [apply negative_pipeline|].
    intros [] x _. apply negative_quiet; [|done]. unfold request_metrics, classifyOutcome, since, now.
    not_negative_solve. }
  unfold paymentMiddleware. apply negative_quiet_seq; [not_negative_solve|]. intros start.
  destruct (d_sem deps); [|apply Ha]. apply negative_quiet_seq; [not_negative_solve|]. intros [].
  - apply negative_quiet_seq; [not_negative_solve|]. intros n.
    apply negative_quiet_seq; [not_negative_solve|]. intros _.
    unfold with_defer. apply (safe_seq _ _ _ ok); [apply Ha|]. intros [] x _.
    apply negative_quiet; [|done]. unfold release_slot. not_negative_solve.
  - apply negative_quiet; [|done]. unfold reject_capacity, since, now. not_negative_solve.
Qed.
End Negative.

(** The daemon's balance is read as an unsigned number. *)
Lemma grpc_debit_nonneg sender workID units :
  safe no_negative_mon (grpc_DebitBalance sender workID units)
    (fun _ a => negative_answer (DebitBalance sender workID units) a = false) tt.
Proof.
  intros [b|e]; simpl; [|done]. apply Z.ltb_ge, BigSetBytes_nonneg.
Qed.

Lemma metered_grpc_safe c rec :
  safe no_negative_mon (Payee.WithMetrics grpcClient rec c) (fun _ a => negative_answer c a = false) tt.
Proof.
  assert (Hg : safe no_negative_mon (grpcClient c) (fun _ a => negative_answer c a = false) tt).
  { destruct c; try (by intros a; simpl). apply grpc_debit_nonneg. }
  destruct rec as [rec|]; [|exact Hg]. simpl. unfold Payee.meteredClient.
  assert (Hm : forall A method (p : prog (res A)) (Q : unit -> res A -> Prop),
    safe no_negative_mon p Q tt -> safe no_negative_mon (metered_rpc rec method p) Q tt).
  { intros A method p Q Hp. unfold metered_rpc. apply safe_event. intros start.
    apply safe_bind. eapply safe_mono; [|exact Hp]. intros [] a HQ.
    destruct rec; simpl; [by intros d|]. intros _ d _. exact HQ. }
  destruct c; apply Hm; exact Hg.
Qed.

(** C35. Over the production gRPC client the middleware never refuses a request
    for insufficient balance: the client reads the daemon's balance as an
    unsigned big-endian number, so the answer to the debit is never negative,
    whatever the daemon sends, and the rejection is neither logged nor counted. *)
Theorem grpc_never_insufficient (deps : paidRouteDeps) (rec : option Recorder) (flusher : bool) (r : request)
    (t : list event) x :
  Tr (interp (payee_handler (Payee.WithMetrics grpcClient rec)) (paymentMiddleware deps flusher r)) t x ->
  Forall (fun y => match y with Ev e _ => negative_branch e = false end) t.
Proof.
  intros Ht.
  assert (Hs : safe no_negative_mon
    (interp (payee_handler (Payee.WithMetrics grpcClient rec)) (paymentMiddleware deps flusher r))
    (fun _ _ => True) tt).
  { apply (safe_interp_refine negative_mon); [|apply negative_middleware].
    intros e [] Hr.
    assert (Hb : negative_branch e = false).
    { destruct (negative_branch e) eqn:E; [|done]. exfalso. apply (Hr (some_answer e)). simpl. by rewrite E. }
    assert (Htrig : safe no_negative_mon (trigger e) (fun _ _ => True) tt) by (intros a; simpl; by rewrite Hb).
    destruct e; try (eapply safe_mono; [|exact Htrig]; intros [] a _; simpl; simpl in Hb; by rewrite ?Hb).
    eapply safe_mono; [|apply metered_grpc_safe]. intros [] a Ha. simpl. by rewrite Ha. }
  revert Ht. generalize (interp (payee_handler (Payee.WithMetrics grpcClient rec)) (paymentMiddleware deps flusher r)), Hs.
  clear. intros p. revert t. induction p as [a|e k IH]; intros t H Ht.
  - by destruct Ht as [-> _].
  - destruct Ht as (b & t' & -> & Ht). cbn [safe] in H. specialize (H b). simpl in H.
    destruct (negative_branch e) eqn:E; [done|]. constructor; [done|]. by eapply IH.
Qed.

Definition demo_grpc_run := interp (payee_handler (Payee.WithMetrics grpcClient None)) demo_run.
Lemma grpc_never_insufficient_witness :
  Forall (fun y => match y with Ev e _ => negative_branch e = false end) (trace_of demo_env demo_grpc_run env0).
Proof.
  exact (grpc_never_insufficient demo_deps None true demo_request _ _ (trace_of_Tr demo_env demo_grpc_run env0)).
Defined.
