(* ===== verification/Semaphore.v ===== *)
(** Concurrent paid requests sharing the semaphore of the mux, a buffered
    channel of capacity [cap]: an interleaving semantics of any number of
    handlers, each step one effect of one of them, with requests arriving at any
    time. *)
From stdpp Require Import base gmap strings list.
From Stdlib Require Import ZArith Lia Ascii String.
From S2P Require Import Prelude.
From S2P Require Import GoUnmarshal.
From S2P Require Import Types.
From S2P Require Import Prog.
From S2P Require Import Interp.
From S2P Require Import ResponseWriter.
From S2P Require Import Env.
From S2P Require Import Module.
From S2P Require Import Middleware.
From S2P Require Import Session.
From S2P Require Import Slot.
From S2P Require Import Stack.

(** * One request *)

Inductive slot_state := Before | Holding | After.
#[export] Instance slot_state_eq_dec : EqDecision slot_state.
Proof. solve_decision. Defined.

(** A request tries once, works only while it holds a slot, and returns it. *)
Definition slot_mon : monitor slot_state := fun st x =>
  match x with Ev e a =>
    match e return resp e -> verdict slot_state with
    | ESemTryAcquire => fun free =>
        match st with Before => Next (if (free : bool) then Holding else After) | _ => Reject end
    | ESemRelease => fun _ => match st with Holding => Next After | _ => Reject end
    | EModule _ | EPayee _ | EBackend _ | EGrpc _ | EHttpDo _ => fun _ =>
        match st with Holding => Next Holding | _ => Reject end
    | _ => fun _ => Next st
    end a
  end.

(** A handler that keeps the discipline from a state of the slot. *)
Definition disciplined {A} (p : prog A) (st : slot_state) : Prop :=
  safe slot_mon p (fun st' _ => st' = After) st.

Lemma slot_holding {A} (p : prog A) (Q : slot_state -> A -> Prop) :
  emits (fun e => ~ slot_eff e) p -> (forall a, Q Holding a) -> safe slot_mon p Q Holding.
Proof.
  intros Hp HQ. induction p as [a|e k IH]; [apply HQ|]. destruct Hp as [He Hk]. intros r.
  cbn [slot_mon]. destruct e; simpl in He; try tauto; by apply IH.
Qed.
Lemma slot_quiet {A} (p : prog A) (Q : slot_state -> A -> Prop) st :
  emits (fun e => (~ slot_eff e \/ e = ESemLen) /\ ~ session_eff e) p ->
  (forall a, Q st a) -> safe slot_mon p Q st.
Proof.
  apply emits_safe. intros e a [He Hs]. destruct e; simpl in *; try done; destruct He as [He|He];
    tauto || done.
Qed.

Lemma middleware_disciplined deps flusher r :
  d_sem deps = true -> disciplined (paymentMiddleware deps flusher r) Before.
Proof.
  intros Hsem. unfold disciplined, paymentMiddleware. rewrite Hsem.
  apply safe_event. intros start. cbn [slot_mon]. apply safe_event. intros []; cbn [slot_mon].
  - apply safe_event. intros n. cbn [slot_mon].
    eapply (safe_seq _ _ _ (fun st _ => st = Holding)).
    { apply slot_quiet; [|done]. apply emits_rec_do. simpl. tauto. }
    intros ? _ ->. unfold with_defer. eapply (safe_seq _ _ _ (fun st _ => st = Holding)).
    { apply slot_holding; [apply admitted_no_slot|done]. }
    intros ? x ->. eapply (safe_seq _ _ _ (fun st _ => st = After)); [|done].
    unfold release_slot. apply safe_event. intros []. cbn [slot_mon].
    apply safe_event. intros n'. cbn [slot_mon].
    apply slot_quiet; [|done]. apply emits_rec_do. simpl. tauto.
  - apply slot_quiet; [|done]. unfold reject_capacity, since, now.
    apply emits_bind; [apply emits_rec_do; simpl; tauto|intros _].
    apply emits_bind; [apply emits_writeJSONError; simpl; tauto|intros sw].
    apply emits_bind; [apply emits_rec_do; simpl; tauto|intros _].
    apply emits_bind; [simpl; tauto|intros d].
    apply emits_bind; [apply emits_rec_do; simpl; tauto|done].
Qed.

(** So does the middleware with a module plugged in. *)
Lemma paid_handler_disciplined (m : Module) `{!ModuleLaws m} deps flusher r :
  d_sem deps = true -> disciplined (paid_handler m deps r flusher) Before.
Proof.
  intros Hsem. apply (safe_interp_refine slot_mon); [|by apply middleware_disciplined].
  intros e st Hr.
  assert (Htrig : safe slot_mon (trigger e) (fun st' a => slot_mon st (Ev e a) = Next st') st).
  { intros a. specialize (Hr a). destruct (slot_mon st (Ev e a)) eqn:E; [done|done|].
    exfalso. destruct e, st; simpl in E; repeat case_match; congruence. }
  destruct e; try exact Htrig. specialize (Hr (some_answer _)). destruct st; try done.
  apply slot_holding; [|done]. eapply emits_mono; [|by apply module_serve_eff].
  intros e He. destruct e; simpl in *; tauto.
Qed.

(** * Many requests *)

Section Pool.
Context {A : Type} (cap : nat).
(** The handlers requests start. *)
Context (starts : prog A -> Prop).
Context (Hstarts : forall p, starts p -> disciplined p Before).

(** The number of slots taken, and what is left to run of every request. *)
Abbreviation pool := (nat * list (prog A))%type.

(** Who moves: a request arrives, the pool rests, or a request is scheduled. *)
Inductive turn := Arrive | Idle | Request (i : nat).

Inductive pool_turn : turn -> pool -> pool -> Prop :=
| ps_arrive n ts p : starts p -> pool_turn Arrive (n, ts) (n, ts ++ [p])
| ps_idle s : pool_turn Idle s s
| ps_acquire n ts i k :
    ts !! i = Some (Vis ESemTryAcquire k) -> (n < cap)%nat ->
    pool_turn (Request i) (n, ts) (S n, <[i := k true]> ts)
| ps_full n ts i k :
    ts !! i = Some (Vis ESemTryAcquire k) -> (cap <= n)%nat ->
    pool_turn (Request i) (n, ts) (n, <[i := k false]> ts)
| ps_release n ts i k :
    ts !! i = Some (Vis ESemRelease k) -> pool_turn (Request i) (S n, ts) (n, <[i := k tt]> ts)
| ps_len n ts i k :
    ts !! i = Some (Vis ESemLen k) -> pool_turn (Request i) (n, ts) (n, <[i := k (Z.of_nat n)]> ts)
| ps_other n ts i e k a :
    ts !! i = Some (Vis e k) -> ~ slot_eff e -> pool_turn (Request i) (n, ts) (n, <[i := k a]> ts).

Definition pool_step (s s' : pool) : Prop := exists l, pool_turn l s s'.

Definition reachable (s : pool) : Prop := rtc pool_step (0%nat, []) s.

Definition holding (st : slot_state) : nat := if decide (st = Holding) then 1%nat else 0%nat.
Fixpoint holders (sts : list slot_state) : nat :=
  match sts with [] => 0%nat | st :: sts' => (holding st + holders sts')%nat end.

(** Every request is in a state of the discipline, and the slots taken are the
    ones held. *)
Definition pool_inv (s : pool) : Prop :=
  exists sts, Forall2 disciplined (snd s) sts /\ fst s = holders sts /\ (fst s <= cap)%nat.

Lemma holders_insert sts i st st' :
  sts !! i = Some st -> (holders (<[i := st']> sts) + holding st = holders sts + holding st')%nat.
Proof.
  revert i. induction sts as [|s sts IH]; intros [|i] H; simpl in *; simplify_eq; [lia|].
  specialize (IH i H). lia.
Qed.
Lemma holders_app sts sts' : holders (sts ++ sts') = (holders sts + holders sts')%nat.
Proof. induction sts; simpl; lia. Qed.
Lemma holders_lookup sts i : sts !! i = Some Holding -> (0 < holders sts)%nat.
Proof.
  revert i. induction sts as [|s sts IH]; intros [|i] H; simpl in *; simplify_eq; [unfold holding; by case_decide; [lia|]|].
  specialize (IH i H). lia.
Qed.

(** One request makes a step: its state moves along. *)
Lemma pool_inv_update n n' ts sts i e k a :
  Forall2 disciplined ts sts -> n = holders sts -> ts !! i = Some (Vis e k) ->
  (forall st st', slot_mon st (Ev e a) = Next st' -> (n' + holding st = n + holding st')%nat /\ (n' <= cap)%nat) ->
  pool_inv (n', <[i := k a]> ts).
Proof.
  intros Hd Hn Hi Hc. destruct (Forall2_lookup_l _ _ _ _ _ Hd Hi) as (st & Hst & Hsafe).
  specialize (Hsafe a). destruct (slot_mon st (Ev e a)) as [st'| |] eqn:Hm; [|done|].
  - destruct (Hc _ _ Hm) as [Hh Hle]. exists (<[i := st']> sts). split_and!; [|simpl|done].
    + by apply Forall2_insert.
    + pose proof (holders_insert sts i st st' Hst). lia.
  - exfalso. clear -Hm. destruct e, st; simpl in Hm; repeat case_match; congruence.
Qed.

Lemma pool_inv_step s s' : pool_inv s -> pool_step s s' -> pool_inv s'.
Proof.
  intros (sts & Hd & Hn & Hcap) [l Hs].
  destruct Hs as [n ts p Hp|s|n ts i k Hi Hlt|n ts i k Hi Hge|n ts i k Hi|n ts i k Hi|n ts i e k a Hi He];
    simpl in Hd, Hn, Hcap.
  - exists (sts ++ [Before]). split_and!; [|simpl; rewrite holders_app; simpl; unfold holding; simpl; lia|done].
    apply Forall2_app; [done|]. constructor; [by apply Hstarts|constructor].
  - by exists sts.
  - eapply pool_inv_update; [done..|]. intros st st' Hm. destruct st; simpl in Hm; simplify_eq.
    unfold holding. simpl. lia.
  - eapply pool_inv_update; [done..|]. intros st st' Hm. destruct st; simpl in Hm; simplify_eq.
    unfold holding. simpl. lia.
  - eapply pool_inv_update; [done..|]. intros st st' Hm. destruct st; simpl in Hm; simplify_eq.
    unfold holding. simpl. lia.
  - eapply pool_inv_update; [done..|]. intros st st' Hm. destruct st; simpl in Hm; simplify_eq; lia.
  - eapply pool_inv_update; [done..|]. intros st st' Hm.
    assert (st' = st) as -> by (destruct e, st; simpl in *; try tauto; congruence). lia.
Qed.

Lemma reachable_inv s : reachable s -> pool_inv s.
Proof.
  unfold reachable. intros H. remember (0%nat, []) as s0. assert (Hi : pool_inv s0).
  { subst. exists []. split_and!; simpl; [constructor|done|lia]. }
  clear Heqs0. induction H; [done|]. apply IHrtc. by eapply pool_inv_step.
Qed.

(** A request whose next effect is a call to the module, the daemon or the
    backend. *)
Definition working (p : prog A) : bool :=
  match p with
  | Vis (EModule _) _ | Vis (EPayee _) _ | Vis (EBackend _) _ | Vis (EGrpc _) _ | Vis (EHttpDo _) _ => true
  | _ => false
  end.
Definition at_release (p : prog A) : bool := match p with Vis ESemRelease _ => true | _ => false end.
Definition finished (p : prog A) : bool := match p with Ret _ => true | _ => false end.

Lemma busy_holding p st : disciplined p st -> working p || at_release p = true -> st = Holding.
Proof.
  intros Hd Hw. destruct p as [a|e k]; [done|]. specialize (Hd (some_answer e)).
  destruct e; try done; by destruct st.
Qed.

Lemma busy_le ts sts :
  Forall2 disciplined ts sts -> (length (filter (fun p => working p || at_release p = true) ts) <= holders sts)%nat.
Proof.
  induction 1 as [|p st ts sts Hp _ IH]; simpl; [lia|]. rewrite filter_cons. case_decide as Hw; [|lia].
  simpl. rewrite (busy_holding _ _ Hp Hw). unfold holding. simpl. lia.
Qed.

Lemma finished_free ts sts :
  Forall2 disciplined ts sts -> Forall (fun p => finished p = true) ts -> holders sts = 0%nat.
Proof.
  induction 1 as [|p st ts sts Hp _ IH]; intros Hf; [done|]. inversion Hf; subst. simpl.
  rewrite IH by done. destruct p; [|done]. by rewrite (Hp : st = After).
Qed.
End Pool.

(** The paid routes of a worker: its modules behind one semaphore. *)
Definition paid_request (p : prog (statusWriter * string)) : Prop :=
  exists (m : Module) deps r flusher, ModuleLaws m /\ d_sem deps = true /\ p = paid_handler m deps r flusher.

(** C11. The concurrency bound.  However paid requests arrive and interleave, the
    slots taken never exceed the capacity, and no more requests than slots are
    taken are at work (in a module, at the daemon or at a backend) or about to
    give a slot back; so giving back never blocks, and when all requests have
    finished every slot is free again. *)
Theorem inflight_bounded (cap : nat) (n : nat) (ts : list (prog (statusWriter * string))) :
  reachable cap paid_request (n, ts) ->
  (n <= cap)%nat /\
  (length (filter (fun p => working p || at_release p = true) ts) <= n)%nat /\
  (Forall (fun p => finished p = true) ts -> n = 0%nat).
Proof.
  intros Hr. apply reachable_inv in Hr as (sts & Hd & Hn & Hcap).
  - simpl in *. subst n. split_and!; [done|by apply busy_le|]. by apply finished_free.
  - intros p (m & deps & r & flusher & Hm & Hsem & ->). by apply paid_handler_disciplined.
Qed.

(** One request has taken the only slot. *)
Lemma demo_pool : exists ts, reachable 1 paid_request (1%nat, ts) /\ length ts = 1%nat.
Proof.
  eexists. split.
  - eapply rtc_l.
    { exists Arrive. apply ps_arrive. exists demo_chat_module, demo_deps, demo_paid_request, true.
      split; [apply demo_chat_laws|]. by split. }
    eapply rtc_l; [eexists; eapply ps_other with (i := 0%nat) (e := ENow) (a := 0); [reflexivity|by intros []]|].
    eapply rtc_l; [eexists; eapply ps_acquire with (i := 0%nat); [reflexivity|lia]|].
    apply rtc_refl.
  - reflexivity.
Qed.

Lemma inflight_bounded_witness :
  exists ts : list (prog (statusWriter * string)), length ts = 1%nat /\ (1 <= 1)%nat /\
    (length (filter (fun p => working p || at_release p = true) ts) <= 1)%nat /\
    (Forall (fun p => finished p = true) ts -> 1%nat = 0%nat).
Proof.
  destruct demo_pool as (ts & Hr & Hl). exists ts. split; [exact Hl|].
  exact (inflight_bounded 1 1 ts Hr).
Defined.
