(* ===== verification/Liveness.v ===== *)
(** Progress of the paid requests that share the semaphore, when calls may never be
    answered: a request that hangs keeps its slot, and every other one returns and gives
    its slot back. *)
From stdpp Require Import base gmap strings list.
From Stdlib Require Import ZArith Lia Ascii String.
From S2P Require Import Prelude.
From S2P Require Import Types.
From S2P Require Import Prog.
From S2P Require Import Interp.
From S2P Require Import Env.
From S2P Require Import Module.
From S2P Require Import Middleware.
From S2P Require Import Session.
From S2P Require Import Slot.
From S2P Require Import Stack.
From S2P Require Import Semaphore.

Section Progress.
Context {A : Type} (cap : nat) (starts : prog A -> Prop).
Context (Hstarts : forall p, starts p -> disciplined p Before).

(** The next turn of a request, with the answers of the demonstration
    environment where the effect is not one of the semaphore. *)
Definition advance (i : nat) (s : nat * list (prog A)) : nat * list (prog A) :=
  let '(n, ts) := s in
  match ts !! i with
  | Some (Vis e k) =>
      match e return (resp e -> prog A) -> nat * list (prog A) with
      | ESemTryAcquire => fun k =>
          if (n <? cap)%nat then (S n, <[i := k true]> ts) else (n, <[i := k false]> ts)
      | ESemRelease => fun k => (pred n, <[i := k tt]> ts)
      | ESemLen => fun k => (n, <[i := k (Z.of_nat n)]> ts)
      | e => fun k => (n, <[i := k (some_answer e)]> ts)
      end k
  | _ => s
  end.

(** Whether the request [i] has returned. *)
Definition done_at (s : nat * list (prog A)) (i : nat) : Prop :=
  exists p, snd s !! i = Some p /\ finished p = true.

(** A request that has not returned can always move. *)
Lemma advance_turn s i p :
  reachable cap starts s -> snd s !! i = Some p -> finished p = false ->
  pool_turn cap starts (Request i) s (advance i s).
Proof.
  intros Hr Hi Hf. destruct (reachable_inv _ _ Hstarts _ Hr) as (sts & Hd & Hn & _).
  destruct s as [n ts], p as [a|e k]; [done|]. simpl in *. rewrite Hi.
  destruct (Forall2_lookup_l _ _ _ _ _ Hd Hi) as (st & Hst & Hp).
  destruct e; try (apply ps_other; [done|by intros []]).
  - destruct (Nat.ltb_spec n cap); [by apply ps_acquire|by apply ps_full].
  - by apply ps_len.
  - rewrite (busy_holding _ _ Hp eq_refl) in Hst. apply holders_lookup in Hst.
    destruct n as [|n]; [lia|]. by apply ps_release.
Qed.

(** What a turn leaves of a request. *)
Lemma turn_keeps l s s' i p :
  pool_turn cap starts l s s' -> l <> Request i -> snd s !! i = Some p -> snd s' !! i = Some p.
Proof.
  intros Ht Hl Hi. destruct Ht; simpl in *; try done; try (rewrite list_lookup_insert_ne; [done|congruence]).
  by apply lookup_app_l_Some.
Qed.
Definition continues (p q : prog A) : Prop :=
  match p with Ret _ => False | Vis _ k => exists a, q = k a end.
Lemma turn_moves s s' i p :
  pool_turn cap starts (Request i) s s' -> snd s !! i = Some p ->
  exists q, continues p q /\ snd s' !! i = Some q.
Proof.
  intros Ht Hi. inversion Ht as [| |? ? ? ? Hk|? ? ? ? Hk|? ? ? ? Hk|? ? ? ? Hk|? ? ? ? ? ? Hk]; subst;
    simpl in *; rewrite Hk in Hi; injection Hi as <-;
    rewrite list_lookup_insert_eq by (by eapply lookup_lt_Some);
    (eexists; split; [by eexists|done]).
Qed.

(** ** Infinite executions *)

(** Turn after turn, from a reachable pool. *)
Record execution (f : nat -> nat * list (prog A)) (l : nat -> turn) : Prop := {
  ex_start : reachable cap starts (f 0%nat);
  ex_turn t : pool_turn cap starts (l t) (f t) (f (S t)) }.

(** The scheduler does not forget a request that has not returned. *)
Definition fair (f : nat -> nat * list (prog A)) (l : nat -> turn) (i : nat) : Prop :=
  forall t, exists t', (t <= t')%nat /\ (l t' = Request i \/ done_at (f t') i).

Lemma execution_reachable f l t : execution f l -> reachable cap starts (f t).
Proof.
  intros [H0 Ht]. induction t as [|t IH]; [done|]. eapply rtc_r; [exact IH|]. by exists (l t).
Qed.

#[export] Instance turn_eq_dec : EqDecision turn.
Proof. solve_decision. Defined.

(** A request stays as it is until its turn. *)
Lemma first_turn f l i p t t' :
  execution f l -> snd (f t) !! i = Some p -> (t <= t')%nat -> l t' = Request i ->
  exists u, (t <= u)%nat /\ l u = Request i /\ snd (f u) !! i = Some p.
Proof.
  intros Hx Hi Hle Hl. remember (t' - t)%nat as d. revert t Hi Hle Heqd.
  induction d as [|d IH]; intros t Hi Hle Hd; [exists t; by replace t with t' in * by lia|].
  destruct (decide (l t = Request i)) as [He|He]; [by exists t|].
  destruct (IH (S t)) as (u & Hu & ? & ?); [by eapply turn_keeps; [apply Hx|..]|lia|lia|].
  exists u. split_and!; [lia|done|done].
Qed.

Lemma fair_done f l i p t :
  execution f l -> fair f l i -> snd (f t) !! i = Some p -> exists t', (t <= t')%nat /\ done_at (f t') i.
Proof.
  intros Hx Hfair. revert t. induction p as [a|e k IH]; intros t Hi.
  - exists t. split; [done|]. by exists (Ret a).
  - destruct (Hfair t) as (t' & Hle & [Hl|Hdone]); [|by exists t'].
    destruct (first_turn f l i _ t t' Hx Hi Hle Hl) as (u & Hu & Hlu & Hiu).
    pose proof (ex_turn _ _ Hx u) as Hturn. rewrite Hlu in Hturn.
    destruct (turn_moves _ _ _ _ Hturn Hiu) as (q & [a ->] & Ha).
    destruct (IH a _ Ha) as (v & Hv & Hdone). exists v. split; [lia|done].
Qed.

(** What has returned stays so. *)
Lemma done_stays f l i t u : execution f l -> (t <= u)%nat -> done_at (f t) i -> done_at (f u) i.
Proof.
  intros Hx Hle Hd. induction Hle as [|u _ (p & Hi & Hp)]; [done|]. exists p. split; [|done].
  destruct (decide (l u = Request i)) as [E|Hne]; [|by eapply turn_keeps; [apply Hx|..]].
  pose proof (ex_turn _ _ Hx u) as Ht. rewrite E in Ht. destruct (turn_moves _ _ _ _ Ht Hi) as (q & Hc & _). by destruct p.
Qed.

(** Without arrivals the requests are the same ones. *)
Lemma turn_length lbl s s' : pool_turn cap starts lbl s s' -> lbl <> Arrive -> length (snd s') = length (snd s).
Proof. intros Ht. destruct Ht; simpl; rewrite ?length_insert; done. Qed.
Lemma length_stays f l t u :
  execution f l -> (forall v, (t <= v)%nat -> l v <> Arrive) -> (t <= u)%nat ->
  length (snd (f u)) = length (snd (f t)).
Proof.
  intros Hx Hna Hle. induction Hle as [|u Hle IH]; [done|]. rewrite <- IH.
  eapply turn_length; [apply Hx|by apply Hna].
Qed.

(** Finitely many requests that each return have all returned at some time. *)
Lemma all_done f l (P : nat -> Prop) `{!forall i, Decision (P i)} n t :
  execution f l -> (forall i, (i < n)%nat -> P i -> exists t', (t <= t')%nat /\ done_at (f t') i) ->
  exists t', (t <= t')%nat /\ forall i u, (i < n)%nat -> P i -> (t' <= u)%nat -> done_at (f u) i.
Proof.
  intros Hx. induction n as [|n IH]; intros Hd; [exists t; split; [done|lia]|].
  destruct IH as (t1 & Hle & H1); [intros i Hi; apply Hd; lia|].
  destruct (decide (P n)) as [Hn|Hn].
  - destruct (Hd n (Nat.lt_succ_diag_r n) Hn) as (t2 & Hle2 & H2). exists (t1 + t2)%nat. split; [lia|].
    intros i u Hi HP Hu. destruct (decide (i = n)) as [->|]; [by eapply (done_stays _ _ _ t2); [|lia|]|apply H1; [lia|done|lia]].
  - exists t1. split; [done|]. intros i u Hi HP Hu. destruct (decide (i = n)) as [->|]; [done|apply H1; [lia|done|lia]].
Qed.

(** Slots are held by some of the requests that may hold one. *)
Lemma holders_bound (sts : list slot_state) (hung : list nat) :
  (forall i, sts !! i = Some Holding -> i ∈ hung) -> (holders sts <= length hung)%nat.
Proof.
  revert hung. induction sts as [|st sts IH] using rev_ind; intros hung Hh; [simpl; lia|].
  rewrite holders_app. cbn [holders]. rewrite Nat.add_0_r.
  assert (Hrest : forall i, sts !! i = Some Holding -> i ∈ filter (fun j => j <> length sts) hung).
  { intros i Hi. apply list_elem_of_filter. split; [apply lookup_lt_Some in Hi; lia|].
    apply Hh. by apply lookup_app_l_Some. }
  specialize (IH _ Hrest). unfold holding. case_decide as E.
  - subst st. enough (length (filter (fun j => j <> length sts) hung) < length hung)%nat by lia.
    apply length_filter_lt with (x := length sts); [|tauto]. apply Hh.
    rewrite lookup_app_r by lia. by rewrite Nat.sub_diag.
  - pose proof (length_filter (fun j => j <> length sts) hung). lia.
Qed.
Lemma done_slots f l u hung :
  execution f l -> (forall i, (i < length (snd (f u)))%nat -> i ∉ hung -> done_at (f u) i) ->
  (fst (f u) <= length hung)%nat.
Proof.
  intros Hx Hd. destruct (reachable_inv _ _ Hstarts _ (execution_reachable _ _ u Hx)) as (sts & Hf & -> & _).
  apply holders_bound. intros i Hi. destruct (decide (i ∈ hung)) as [|Hn]; [done|exfalso].
  destruct (Forall2_lookup_r _ _ _ _ _ Hf Hi) as (p & Hp & Hdisc).
  destruct (Hd i) as (q & Hq & Hfin); [by eapply lookup_lt_Some|done|].
  rewrite Hp in Hq. injection Hq as <-. destruct p as [a|]; [|done]. discriminate (Hdisc : Holding = After).
Qed.
End Progress.


(** Two requests on two slots: the second one has taken its slot and hangs, the first
    one is scheduled until it returns. *)
Definition demo_paid : prog (statusWriter * string) := paid_handler demo_chat_module demo_deps demo_paid_request true.
Definition demo_start : nat * list (prog (statusWriter * string)) :=
  Nat.iter 2 (advance 2 1) (0%nat, [demo_paid; demo_paid]).
Definition demo_pool_at (t : nat) : nat * list (prog (statusWriter * string)) :=
  Nat.iter t (advance 2 0) demo_start.
Definition demo_turn (t : nat) : turn :=
  match snd (demo_pool_at t) !! 0%nat with Some (Vis _ _) => Request 0 | _ => Idle end.

Lemma demo_paid_request_ok : paid_request demo_paid.
Proof. exists demo_chat_module, demo_deps, demo_paid_request, true. split; [apply demo_chat_laws|done]. Qed.
Lemma demo_request_disciplined p : paid_request p -> disciplined p Before.
Proof. intros (m & deps & r & flusher & Hm & Hsem & ->). by apply paid_handler_disciplined. Qed.

(** A step of the demonstration. *)
Lemma demo_advance i s e k :
  reachable 2 paid_request s -> snd s !! i = Some (Vis e k) -> reachable 2 paid_request (advance 2 i s).
Proof.
  intros Hr Hi. eapply rtc_r; [exact Hr|]. exists (Request i).
  by eapply advance_turn; [apply demo_request_disciplined|..].
Qed.
Lemma demo_start_reachable : reachable 2 paid_request demo_start.
Proof.
  assert (H0 : reachable 2 paid_request (0%nat, [demo_paid; demo_paid])).
  { eapply rtc_l; [exists Arrive; apply ps_arrive, demo_paid_request_ok|].
    apply rtc_once. exists Arrive. apply (ps_arrive _ _ 0 [demo_paid]), demo_paid_request_ok. }
  eapply (demo_advance 1 _ _ _); [|reflexivity]. eapply (demo_advance 1 _ _ _); [exact H0|reflexivity].
Qed.
Example demo_start_slot : fst demo_start = 1%nat. Proof. reflexivity. Qed.

Lemma demo_next t :
  reachable 2 paid_request (demo_pool_at t) ->
  pool_turn 2 paid_request (demo_turn t) (demo_pool_at t) (demo_pool_at (S t)).
Proof.
  intros Hr. unfold demo_turn. change (demo_pool_at (S t)) with (advance 2 0 (demo_pool_at t)).
  destruct (snd (demo_pool_at t) !! 0%nat) as [[a|e k]|] eqn:E.
  - unfold advance. destruct (demo_pool_at t) as [n ts]. simpl in E. rewrite E. apply ps_idle.
  - eapply advance_turn; [apply demo_request_disciplined|done|exact E|done].
  - unfold advance. destruct (demo_pool_at t) as [n ts]. simpl in E. rewrite E. apply ps_idle.
Qed.

Lemma demo_execution : execution 2 paid_request demo_pool_at demo_turn.
Proof.
  assert (Hr : forall t, reachable 2 paid_request (demo_pool_at t)).
  { induction t as [|t IH]; [apply demo_start_reachable|].
    eapply rtc_r; [exact IH|]. eexists. by apply demo_next. }
  split; [apply demo_start_reachable|]. intros t. by apply demo_next.
Qed.

Lemma demo_no_arrival t : demo_turn t <> Arrive.
Proof. unfold demo_turn. by destruct (snd (demo_pool_at t) !! 0%nat) as [[a|e k]|]. Qed.
Lemma demo_present t : exists p, snd (demo_pool_at t) !! 0%nat = Some p.
Proof.
  apply lookup_lt_is_Some_2.
  rewrite (length_stays _ _ _ _ 0 t demo_execution (fun v _ => demo_no_arrival v)); [|lia].
  vm_compute. lia.
Qed.

Lemma demo_fair : fair demo_pool_at demo_turn 0.
Proof.
  intros t. exists t. split; [done|]. destruct (demo_present t) as [[a|e k] Hp].
  - right. by exists (Ret a).
  - left. unfold demo_turn. by rewrite Hp.
Qed.

