(* ===== verification/Mux.v ===== *)
(** [internal/runtime/http/mux.go]: the registration of routes.  The payee
    client of a [Mux] is the interface every handler calls, its logger is
    [ELog]; [http.ServeMux] is modelled on the patterns the worker registers, a
    method and a literal path, for requests with a clean path. *)
From stdpp Require Import base gmap strings list sorting.
From Stdlib Require Import ZArith Lia Ascii String.
From S2P Require Import Prelude.
From S2P Require Import GoStrings.
From S2P Require Import GoConv.
From S2P Require Import Types.
From S2P Require Import Prog.
From S2P Require Import Config.
From S2P Require Import ResponseWriter.
From S2P Require Import Module.
From S2P Require Import Middleware.
From S2P Require Import Session.
From S2P Require Import Stack.

(** * Panics *)

(** Code that may panic with a message. *)
Inductive may_panic (A : Type) := Normal (a : A) | Panics (msg : string).
Arguments Normal {A} a.
Arguments Panics {A} msg.
#[export] Instance may_panic_ret : MRet may_panic := fun A a => Normal a.
#[export] Instance may_panic_bind : MBind may_panic := fun A B f m =>
  match m with Normal a => f a | Panics msg => Panics msg end.

Lemma may_panic_bind_Done {A B} (m : may_panic A) (f : A -> may_panic B) b :
  m ≫= f = Normal b <-> exists a, m = Normal a /\ f a = Normal b.
Proof. destruct m; simpl; naive_solver. Qed.

(** * http.ServeMux *)

(** A handler writes through the server's own writer; the flag tells whether
    that writer flushes. *)
Definition HandlerFunc : Type := bool -> request -> prog unit.

(** [NotFound] and the answer to a known path with another method. *)
Definition NotFound : HandlerFunc := fun _ _ => http_Error tt "404 page not found" 404.
Definition MethodNotAllowed (allow : string) : HandlerFunc := fun _ _ =>
  _ ← Header_Set "Allow" allow;
  http_Error tt "Method Not Allowed" 405.

(** The registered patterns, [method path], with their handlers. *)
Abbreviation serve_mux := (list (string * HandlerFunc)).

Definition pattern (method path : string) : string := method +:+ " " +:+ path.
Definition mux_find (inner : serve_mux) (key : string) : option HandlerFunc :=
  (fun x => snd (snd x)) <$> list_find (fun kh => fst kh = key) inner.

(** A pattern registered twice is a conflict. *)
Definition HandleFunc (key : string) (h : HandlerFunc) (inner : serve_mux) : may_panic serve_mux :=
  match mux_find inner key with
  | Some _ => Panics ("pattern " +:+ Quote key +:+ " conflicts with pattern " +:+ Quote key)
  | None => Normal (inner ++ [(key, h)])
  end.

(** The method and the path of a pattern: the text up to its first space and the
    rest. *)
Definition pattern_parts (key : string) : string * string :=
  match IndexByte key " " with
  | Some n => (str_take n key, str_drop (S n) key)
  | None => (EmptyString, key)
  end.

(** [slices.Sort] of strings. *)
Definition sort_strings (l : list string) : list string :=
  merge_sort String.le l.

(** The methods that would match a path, for the [Allow] header: those of its
    patterns, and [HEAD] with [GET], each once and in order. *)
Definition methods_of (inner : serve_mux) (path : string) : list string :=
  let ms := omap (fun kh => let '(m, p) := pattern_parts (fst kh) in
                            if String.eqb p path then Some m else None) inner in
  let ms := if bool_decide ("GET" ∈ ms) then "HEAD" :: ms else ms in
  sort_strings (remove_dups ms).

(** Dispatch of a request with a clean path: a [GET] pattern serves [HEAD]. *)
Definition ServeMux_Handler (inner : serve_mux) (method path : string) : HandlerFunc :=
  match mux_find inner (pattern method path) with
  | Some h => h
  | None =>
      match (if String.eqb method "HEAD" then mux_find inner (pattern "GET" path) else None) with
      | Some h => h
      | None =>
          match methods_of inner path with
          | [] => NotFound
          | ms => MethodNotAllowed (Join ms ", ")
          end
      end
  end.

(** * Mux *)

Record Mux := {
  mx_cfg : Config;
  mx_recorder : Recorder;
  mx_inner : serve_mux;
  mx_registered : gset string;
  mx_paidCapabilities : gset CapabilityID;
  mx_paidSem : Z }.

Definition NewMux (cfg : Config) : Mux :=
  let maxConcurrent := ws_MaxConcurrentRequests (cfg_Worker cfg) in
  let maxConcurrent := if maxConcurrent <=? 0 then 1 else maxConcurrent in
  {| mx_cfg := cfg; mx_recorder := NewNoop; mx_inner := []; mx_registered := ∅;
     mx_paidCapabilities := ∅; mx_paidSem := maxConcurrent |}.

Definition WithRecorder (rec : option Recorder) (m : Mux) : Mux :=
  {| mx_cfg := mx_cfg m; mx_recorder := default NewNoop rec; mx_inner := mx_inner m;
     mx_registered := mx_registered m; mx_paidCapabilities := mx_paidCapabilities m;
     mx_paidSem := mx_paidSem m |}.

(** [len(m.paidSem)] and [cap(m.paidSem)]. *)
Definition InflightPaid : prog Z := trigger ESemLen.
Definition MaxConcurrentPaid (m : Mux) : Z := mx_paidSem m.

Definition Register (method path : string) (h : HandlerFunc) (m : Mux) : may_panic Mux :=
  let key := pattern method path in
  if bool_decide (key ∈ mx_registered m)
  then Panics ("Mux.Register: duplicate route " +:+ Quote key)
  else
    inner ← HandleFunc key h (mx_inner m);
    Normal {| mx_cfg := mx_cfg m; mx_recorder := mx_recorder m; mx_inner := inner;
            mx_registered := {[key]} ∪ mx_registered m;
            mx_paidCapabilities := mx_paidCapabilities m; mx_paidSem := mx_paidSem m |}.

(** The dependencies a paid route closes over. *)
Definition paid_deps (cfg : Config) (rec : Recorder) (md : Module) : paidRouteDeps := {|
  d_Capability := mod_Capability md; d_Unit := mod_Unit md; d_cfg := cfg; d_sem := true;
  d_recorder := Some rec |}.
Definition paid_route (cfg : Config) (rec : Recorder) (md : Module) : HandlerFunc := fun flusher r =>
  _ ← paid_handler md (paid_deps cfg rec md) r flusher; Ret tt.

Definition RegisterPaidRoute (md : Module) (m : Mux) : may_panic Mux :=
  let key := pattern (mod_HTTPMethod md) (mod_HTTPPath md) in
  if bool_decide (key ∈ mx_registered m)
  then Panics ("Mux.RegisterPaidRoute: duplicate route " +:+ Quote key)
  else
    inner ← HandleFunc key (paid_route (mx_cfg m) (mx_recorder m) md) (mx_inner m);
    Normal {| mx_cfg := mx_cfg m; mx_recorder := mx_recorder m; mx_inner := inner;
            mx_registered := {[key]} ∪ mx_registered m;
            mx_paidCapabilities := {[mod_Capability md]} ∪ mx_paidCapabilities m;
            mx_paidSem := mx_paidSem m |}.

Definition HasPaidCapability (m : Mux) (c : CapabilityID) : bool := bool_decide (c ∈ mx_paidCapabilities m).

(** [Handler()]: the handler of the server. *)
Definition Handler (m : Mux) (method path : string) : HandlerFunc := ServeMux_Handler (mx_inner m) method path.

(** * Sequences of registrations *)

Inductive registration := UnpaidRoute (method path : string) (h : HandlerFunc) | PaidRoute (md : Module).

Definition reg_key (x : registration) : string :=
  match x with
  | UnpaidRoute method path _ => pattern method path
  | PaidRoute md => pattern (mod_HTTPMethod md) (mod_HTTPPath md)
  end.
Definition register (x : registration) (m : Mux) : may_panic Mux :=
  match x with UnpaidRoute method path h => Register method path h m | PaidRoute md => RegisterPaidRoute md m end.
Fixpoint registers (l : list registration) (m : Mux) : may_panic Mux :=
  match l with [] => Normal m | x :: l' => m' ← register x m; registers l' m' end.

Lemma registers_app l1 l2 m : registers (l1 ++ l2) m = m' ← registers l1 m; registers l2 m'.
Proof.
  revert m. induction l1 as [|x l1 IH]; intros m; [done|]. cbn [registers app].
  destruct (register x m); [apply IH|done].
Qed.

(** The handler a registration binds. *)
Definition reg_handler (cfg : Config) (rec : Recorder) (x : registration) : HandlerFunc :=
  match x with UnpaidRoute _ _ h => h | PaidRoute md => paid_route cfg rec md end.
Definition reg_capability (x : registration) : list CapabilityID :=
  match x with UnpaidRoute _ _ _ => [] | PaidRoute md => [mod_Capability md] end.

(** The mux after the registrations [l]. *)
Record mux_of (cfg : Config) (rec : Recorder) (l : list registration) (m : Mux) : Prop := {
  mo_cfg : mx_cfg m = cfg;
  mo_recorder : mx_recorder m = rec;
  mo_inner : mx_inner m = (fun x => (reg_key x, reg_handler cfg rec x)) <$> l;
  mo_registered : forall key, key ∈ mx_registered m <-> key ∈ reg_key <$> l;
  mo_capabilities : forall c, c ∈ mx_paidCapabilities m <-> c ∈ l ≫= reg_capability;
  mo_distinct : NoDup (reg_key <$> l) }.

Lemma mux_of_new cfg rec : mux_of cfg rec [] (WithRecorder (Some rec) (NewMux cfg)).
Proof. split; simpl; try done; try set_solver. constructor. Qed.

Lemma mux_find_In inner key h : mux_find inner key = Some h -> (key, h) ∈ inner.
Proof.
  unfold mux_find. intros H. apply fmap_Some in H as ([i [k h']] & H & ->).
  apply list_find_Some in H as (Hi & E & _). simpl in *. subst. by eapply list_elem_of_lookup_2.
Qed.
Lemma mux_find_None inner key : mux_find inner key = None <-> key ∉ inner.*1.
Proof.
  unfold mux_find. rewrite fmap_None, list_find_None, list_elem_of_fmap, Forall_forall.
  split; [intros H ([k h] & E & Hin); simpl in *; subst; by eapply (H _ Hin)|].
  intros H [k h] Hin E. apply H. exists (k, h). done.
Qed.
Lemma mux_find_NoDup inner key h : NoDup inner.*1 -> (key, h) ∈ inner -> mux_find inner key = Some h.
Proof.
  intros Hn Hin. destruct (mux_find inner key) as [h'|] eqn:E.
  - apply mux_find_In, list_elem_of_lookup in E as [i Hi]. apply list_elem_of_lookup in Hin as [j Hj].
    assert (i = j) as <- by (eapply (NoDup_lookup inner.*1 _ _ key); [done|..]; rewrite list_lookup_fmap;
      [by rewrite Hi|by rewrite Hj]).
    congruence.
  - apply mux_find_None in E. destruct E. apply list_elem_of_fmap. by exists (key, h).
Qed.

(** * Registration is exact *)

Lemma register_step cfg rec l m x m' :
  mux_of cfg rec l m -> register x m = Normal m' -> mux_of cfg rec (l ++ [x]) m'.
Proof.
  intros [Hc Hr Hi Hreg Hcap Hd] H.
  assert (exists inner, reg_key x ∉ mx_registered m /\
    HandleFunc (reg_key x) (reg_handler cfg rec x) (mx_inner m) = Normal inner /\
    mx_cfg m' = cfg /\ mx_recorder m' = rec /\ mx_inner m' = inner /\
    mx_registered m' = {[reg_key x]} ∪ mx_registered m /\
    (forall c, c ∈ mx_paidCapabilities m' <-> c ∈ mx_paidCapabilities m \/ c ∈ reg_capability x))
    as (inner & Hnew & Hin & Hc' & Hr' & Hi' & Hreg' & Hcap').
  { destruct x as [method path h|md]; simpl in H; unfold Register, RegisterPaidRoute in H;
      case_bool_decide as Hb; try done; apply may_panic_bind_Done in H as (inner & Hin & H);
      simplify_eq; exists inner; simpl; split_and!; try done; set_solver. }
  unfold HandleFunc in Hin. destruct (mux_find _ _); [done|]. injection Hin as E. rewrite <- E in Hi'.
  split; rewrite ?fmap_app; simpl; try done.
  - by rewrite Hi', Hi.
  - intros key. rewrite Hreg'. set_solver.
  - intros c. rewrite Hcap', Hcap, bind_app. simpl. set_solver.
  - apply NoDup_app. split_and!; [done| |apply NoDup_singleton]. intros key Hk. set_solver.
Qed.

Lemma register_fresh cfg rec l m x :
  mux_of cfg rec l m -> reg_key x ∉ reg_key <$> l -> exists m', register x m = Normal m'.
Proof.
  intros [Hc Hr Hi Hreg Hcap Hd] Hx.
  assert (Hf : mux_find (mx_inner m) (reg_key x) = None).
  { apply mux_find_None. rewrite Hi, <- list_fmap_compose. exact Hx. }
  destruct x as [method path h|md]; simpl in *; unfold Register, RegisterPaidRoute, HandleFunc;
    rewrite bool_decide_false by (by rewrite Hreg); rewrite Hf; eexists; reflexivity.
Qed.

Lemma registers_of cfg rec l m rest m' :
  mux_of cfg rec l m -> registers rest m = Normal m' -> mux_of cfg rec (l ++ rest) m'.
Proof.
  revert l m. induction rest as [|x rest IH]; intros l m Hm H; simpl in H.
  - simplify_eq. by rewrite app_nil_r.
  - apply may_panic_bind_Done in H as (m1 & H1 & H). rewrite cons_middle, app_assoc.
    eapply IH; [|exact H]. by eapply register_step.
Qed.

Lemma registers_total cfg rec l m rest :
  mux_of cfg rec l m -> NoDup (reg_key <$> (l ++ rest)) -> exists m', registers rest m = Normal m'.
Proof.
  revert l m. induction rest as [|x rest IH]; intros l m Hm Hn; simpl; [by eexists|].
  destruct (register_fresh cfg rec l m x Hm) as [m1 H1].
  - rewrite fmap_app in Hn. simpl in Hn. apply NoDup_app in Hn as (_ & H & _).
    intros Hin. apply (H _ Hin). left.
  - rewrite H1. simpl. eapply (IH (l ++ [x])); [by eapply register_step|].
    by rewrite <- app_assoc.
Qed.

Lemma mux_of_find cfg rec l m key h :
  mux_of cfg rec l m ->
  mux_find (mx_inner m) key = Some h <-> exists x, x ∈ l /\ key = reg_key x /\ h = reg_handler cfg rec x.
Proof.
  intros [_ _ Hi _ _ Hd]. rewrite Hi. split.
  - intros H. apply mux_find_In, list_elem_of_fmap in H as (x & E & Hx). simplify_eq. eauto.
  - intros (x & Hx & -> & ->). apply mux_find_NoDup.
    + by rewrite <- list_fmap_compose.
    + apply list_elem_of_fmap. by exists x.
Qed.

(** * Dispatch *)

Lemma pattern_parts_pattern m p : IndexByte m " " = None -> pattern_parts (pattern m p) = (m, p).
Proof.
  intros Hm. unfold pattern_parts, pattern. change (" " +:+ p) with (String " " p).
  rewrite IndexByte_app by done. clear Hm. f_equal; induction m as [|c m IH]; try done.
  rewrite str_app_cons. cbn [String.length str_take]. by rewrite IH.
Qed.
Lemma pattern_inj m p m' p' :
  IndexByte m " " = None -> IndexByte m' " " = None -> pattern m p = pattern m' p' -> m = m' /\ p = p'.
Proof. intros Hm Hm' E. apply (f_equal pattern_parts) in E. rewrite !pattern_parts_pattern in E by done. by injection E. Qed.

(** The patterns in question: a method that is a token, and a path of plain
    segments, without wildcards, escapes, dots or a slash at the end. *)
Definition method_token (m : string) : bool := negb (str_nil m) && str_forall token_char m.
Definition plain_segment (s : string) : bool :=
  negb (str_nil s) && negb (String.eqb s ".") && negb (String.eqb s "..") &&
  str_forall (fun c => negb (existsb (Ascii.eqb c) ["{"; "}"; "%"]%char)) s.
Definition route_path (p : string) : bool :=
  HasPrefix p "/" && forallb plain_segment (Split (str_drop 1 p) "/").
(** The path of a request that is clean, so that the mux does not redirect it: the
    last segment may be empty. *)
Definition clean_path (p : string) : bool :=
  let segments := Split (str_drop 1 p) "/" in
  HasPrefix p "/" && forallb plain_segment (removelast segments) &&
  (str_nil (List.last segments EmptyString) || plain_segment (List.last segments EmptyString)).

Lemma method_token_no_space m : method_token m = true -> IndexByte m " " = None.
Proof.
  unfold method_token. intros H. apply andb_true_iff in H as [_ H].
  induction m as [|c m IH]; [done|]. cbn [str_forall IndexByte] in *. apply andb_true_iff in H as [Hc H].
  rewrite (IH H). destruct (Ascii.eqb_spec c " "); [by subst|done].
Qed.

Definition reg_method (x : registration) : string :=
  match x with UnpaidRoute method _ _ => method | PaidRoute md => mod_HTTPMethod md end.
Definition reg_path (x : registration) : string :=
  match x with UnpaidRoute _ path _ => path | PaidRoute md => mod_HTTPPath md end.
Definition plain_route (x : registration) : bool := method_token (reg_method x) && route_path (reg_path x).

Lemma reg_key_pattern x : reg_key x = pattern (reg_method x) (reg_path x).
Proof. by destruct x. Qed.

(** Whether a route of the list answers a method at a path, and the methods it
    makes the mux offer there. *)
Definition routed (l : list registration) (method path : string) : Prop :=
  exists x, x ∈ l /\ reg_method x = method /\ reg_path x = path.
Definition offered (l : list registration) (path method : string) : Prop :=
  routed l method path \/ method = "HEAD" /\ routed l "GET" path.

(** Where the requests go, as a table over the registrations: the route of that
    method and path; for HEAD without a route of its own, the GET route; for a path
    with routes of other methods only, 405 with those methods in order; for any
    other path, 404. *)
Inductive dispatched (cfg : Config) (rec : Recorder) (l : list registration) (method path : string)
  : HandlerFunc -> Prop :=
| to_route x :
    x ∈ l -> reg_method x = method -> reg_path x = path ->
    dispatched cfg rec l method path (reg_handler cfg rec x)
| to_get x :
    method = "HEAD" -> ~ routed l "HEAD" path ->
    x ∈ l -> reg_method x = "GET" -> reg_path x = path ->
    dispatched cfg rec l method path (reg_handler cfg rec x)
| to_405 ms :
    ~ offered l path method -> ms <> [] -> NoDup ms ->
    StronglySorted String.le ms -> (forall m, m ∈ ms <-> offered l path m) ->
    dispatched cfg rec l method path (MethodNotAllowed (Join ms ", "))
| to_404 :
    (forall m, ~ routed l m path) -> dispatched cfg rec l method path NotFound.

Section Dispatch.
Context (cfg : Config) (rec : Recorder) (l : list registration) (m : Mux).
Context (Hof : mux_of cfg rec l m) (Hplain : Forall (fun x => plain_route x = true) l).

Lemma plain_no_space x : x ∈ l -> IndexByte (reg_method x) " " = None.
Proof.
  intros Hx. rewrite Forall_forall in Hplain. specialize (Hplain x Hx).
  apply andb_true_iff in Hplain as [H _]. by apply method_token_no_space.
Qed.

Lemma find_route method path h :
  IndexByte method " " = None -> mux_find (mx_inner m) (pattern method path) = Some h ->
  exists x, x ∈ l /\ reg_method x = method /\ reg_path x = path /\ h = reg_handler cfg rec x.
Proof.
  intros Hm H. apply (mux_of_find _ _ _ _ _ _ Hof) in H as (x & Hx & Hk & ->). exists x.
  rewrite reg_key_pattern in Hk. apply pattern_inj in Hk as [-> ->]; [done|done|by apply plain_no_space].
Qed.
Lemma find_no_route method path :
  mux_find (mx_inner m) (pattern method path) = None -> ~ routed l method path.
Proof.
  intros H (x & Hx & <- & <-). rewrite <- reg_key_pattern in H.
  assert (Hs : mux_find (mx_inner m) (reg_key x) = Some (reg_handler cfg rec x))
    by (apply (mux_of_find _ _ _ _ _ _ Hof); by exists x).
  congruence.
Qed.

Lemma methods_of_offered path method : method ∈ methods_of (mx_inner m) path <-> offered l path method.
Proof.
  assert (Hin : forall method, method ∈ omap (fun kh => let '(m, p) := pattern_parts (fst kh) in
      if String.eqb p path then Some m else None) (mx_inner m) <-> routed l method path).
  { intros me. rewrite list_elem_of_omap, (mo_inner _ _ _ _ Hof). unfold routed. split.
    - intros (kh & Hkh & E). apply list_elem_of_fmap in Hkh as (x & -> & Hx). cbn [fst] in E.
      rewrite reg_key_pattern, pattern_parts_pattern in E by by apply plain_no_space.
      destruct (String.eqb_spec (reg_path x) path); [|done]. injection E as <-. eauto.
    - intros (x & Hx & <- & <-). exists (reg_key x, reg_handler cfg rec x).
      split; [apply list_elem_of_fmap; by exists x|]. cbn [fst].
      rewrite reg_key_pattern, pattern_parts_pattern by by apply plain_no_space. by rewrite String.eqb_refl. }
  unfold methods_of, sort_strings, offered. rewrite merge_sort_Permutation, elem_of_remove_dups.
  case_bool_decide as Hget; rewrite ?elem_of_cons, Hin in *; tauto.
Qed.

Lemma methods_of_sorted path :
  NoDup (methods_of (mx_inner m) path) /\
  StronglySorted String.le (methods_of (mx_inner m) path).
Proof.
  unfold methods_of, sort_strings. split.
  - rewrite merge_sort_Permutation. apply NoDup_remove_dups.
  - apply (StronglySorted_merge_sort String.le).
Qed.

Lemma handler_dispatched method path :
  IndexByte method " " = None -> dispatched cfg rec l method path (Handler m method path).
Proof.
  intros Hm. unfold Handler, ServeMux_Handler.
  destruct (mux_find (mx_inner m) (pattern method path)) as [h|] eqn:E.
  { destruct (find_route _ _ _ Hm E) as (x & Hx & Hmeth & Hpath & ->). by apply to_route. }
  pose proof (find_no_route _ _ E) as Hno.
  destruct (if String.eqb method "HEAD" then _ else None) as [h|] eqn:E'.
  { destruct (String.eqb_spec method "HEAD") as [->|]; [|done].
    destruct (find_route "GET" path h eq_refl E') as (x & Hx & Hmeth & Hpath & ->). by apply to_get. }
  assert (Hoff : ~ offered l path method).
  { intros [H|[-> H]]; [done|]. by apply find_no_route in E'. }
  destruct (methods_of_sorted path) as [Hnd Hs]. pose proof (methods_of_offered path) as Hel.
  destruct (methods_of (mx_inner m) path) as [|m0 ms] eqn:Ems.
  - apply to_404. intros m' H. assert (Hc : m' ∈ []) by (apply Hel; by left). by apply not_elem_of_nil in Hc.
  - by apply to_405.
Qed.
End Dispatch.

(** C21. Routes are bound exactly as registered.  A sequence of registrations of plain
    routes goes through without a panic exactly when no two share a method and path;
    then a request with a method and a clean path goes where the table [dispatched]
    says, to its own route (the payment middleware around the module for a paid one),
    from HEAD to a GET route, to a 405 that lists the methods of the path, or to a 404;
    and the capabilities the mux reports as paid are those of the modules. *)
Theorem routes_exact (cfg : Config) (rec : Recorder) (l : list registration) :
  Forall (fun x => plain_route x = true) l ->
  (NoDup (reg_key <$> l) <-> exists m, registers l (WithRecorder (Some rec) (NewMux cfg)) = Normal m) /\
  forall m, registers l (WithRecorder (Some rec) (NewMux cfg)) = Normal m ->
    (forall method path, method_token method = true -> clean_path path = true ->
       dispatched cfg rec l method path (Handler m method path)) /\
    (forall c, HasPaidCapability m c = true <-> exists md, PaidRoute md ∈ l /\ mod_Capability md = c).
Proof.
  intros Hplain. pose proof (mux_of_new cfg rec) as H0. split.
  - split; intros H; [by eapply (registers_total cfg rec [])|].
    destruct H as [m Hm]. exact (mo_distinct _ _ _ _ (registers_of _ _ _ _ _ _ H0 Hm)).
  - intros m Hm. apply (registers_of cfg rec []) in Hm; [|done]. simpl in Hm. split.
    + intros method path Hmeth _. apply (handler_dispatched cfg rec l m Hm Hplain). by apply method_token_no_space.
    + intros c. unfold HasPaidCapability. rewrite bool_decide_eq_true, (mo_capabilities _ _ _ _ Hm).
      rewrite list_elem_of_bind. split.
      * intros (x & Hc & Hx). destruct x as [|md]; simpl in Hc; [set_solver|].
        exists md. split; [done|]. set_solver.
      * intros (md & Hin & <-). exists (PaidRoute md). simpl. set_solver.
Qed.

(** The witness: a health check and the chat module; the paid route is offered with
    its method, and a GET route with HEAD. *)
Definition demo_registrations : list registration :=
  [UnpaidRoute "GET" "/health" (fun _ _ => json_Encode tt "ok"); PaidRoute demo_chat_module].
Definition demo_mux : Mux :=
  match registers demo_registrations (WithRecorder (Some LiveRecorder) (NewMux (d_cfg demo_deps))) with
  | Normal m => m
  | Panics _ => NewMux (d_cfg demo_deps)
  end.
Example demo_allow : methods_of (mx_inner demo_mux) "/health" = ["GET"; "HEAD"].
Proof. vm_compute. reflexivity. Qed.

Lemma routes_exact_witness :
  registers demo_registrations (WithRecorder (Some LiveRecorder) (NewMux (d_cfg demo_deps))) = Normal demo_mux /\
  (exists m, registers demo_registrations (WithRecorder (Some LiveRecorder) (NewMux (d_cfg demo_deps))) = Normal m) /\
  dispatched (d_cfg demo_deps) LiveRecorder demo_registrations "POST" "/v1/chat/completions"
    (Handler demo_mux "POST" "/v1/chat/completions") /\
  dispatched (d_cfg demo_deps) LiveRecorder demo_registrations "HEAD" "/health" (Handler demo_mux "HEAD" "/health") /\
  dispatched (d_cfg demo_deps) LiveRecorder demo_registrations "GET" "/v1/chat/completions"
    (Handler demo_mux "GET" "/v1/chat/completions") /\
  dispatched (d_cfg demo_deps) LiveRecorder demo_registrations "GET" "/" (Handler demo_mux "GET" "/").
Proof.
  assert (Hp : Forall (fun x => plain_route x = true) demo_registrations) by (repeat constructor).
  assert (Hn : NoDup (reg_key <$> demo_registrations)) by (apply (bool_decide_eq_true_1 _); vm_compute; reflexivity).
  destruct (routes_exact (d_cfg demo_deps) LiveRecorder demo_registrations Hp) as [Hiff Hall].
  assert (Hm : registers demo_registrations (WithRecorder (Some LiveRecorder) (NewMux (d_cfg demo_deps))) = Normal demo_mux)
    by reflexivity.
  destruct (Hall demo_mux Hm) as [Hd _]. split; [exact Hm|]. split; [apply Hiff; exact Hn|].
  split_and!; apply Hd; reflexivity.
Defined.
