(* ===== verification/Handlers.v ===== *)
(** [internal/runtime/http/handlers.go]: the unpaid routes.  The handlers write
    through the server's own writer.  Closing the request's body is not
    modelled. *)
From stdpp Require Import base gmap strings list.
From Stdlib Require Import ZArith Lia Ascii String.
From S2P Require Import Prelude.
From S2P Require Import GoStrings.
From S2P Require Import GoConv.
From S2P Require Import GoUnmarshal.
From S2P Require Import Types.
From S2P Require Import Prog.
From S2P Require Import Config.
From S2P Require Import ConfigFacts.
From S2P Require Import ResponseWriter.
From S2P Require Import Env.
From S2P Require Import Session.
From S2P Require Import Stack.
From S2P Require Import Contract.
From S2P Require Import Mux.

Definition maxTicketParamsBodyBytes : Z := Z.shiftl 8 10.

(** * Bearer authorisation *)

(** [subtle.ConstantTimeCompare]: 0 at once for different lengths, else 1 when
    the bytes differ nowhere. *)
Fixpoint xor_all (x y : string) (v : Z) : Z :=
  match x, y with
  | String a x', String b y' => xor_all x' y' (Z.lor v (Z.lxor (byte_z a) (byte_z b)))
  | _, _ => v
  end.
Definition ConstantTimeCompare (x y : string) : Z :=
  if negb (slen x =? slen y) then 0 else if xor_all x y 0 =? 0 then 1 else 0.

Definition requireBearerAuth (r : request) (authToken : string) : prog bool :=
  if str_nil authToken then Ret true
  else
    let gotAuth := Header_Get (rq_header r) "Authorization" in
    let want := "Bearer " +:+ authToken in
    if negb (ConstantTimeCompare gotAuth want =? 1) then
      _ ← writeJSONError tt 401 "unauthorized" "missing or invalid bearer token";
      Ret false
    else Ret true.

(** * /health *)

Definition health_json (cfg : Config) (max_concurrent inflight : Z) : string := json_members [
  ("api_version", FormatInt (cfg_APIVersion cfg));
  ("inflight", FormatInt inflight);
  ("max_concurrent", FormatInt max_concurrent);
  ("protocol_version", FormatInt (cfg_ProtocolVersion cfg));
  ("status", marshal_string "ok") ].

Definition healthHandler (cfg : Config) (mux : Mux) (r : request) : prog unit :=
  _ ← Header_Set "Content-Type" "application/json";
  inflight ← InflightPaid;
  json_Encode tt (health_json cfg (MaxConcurrentPaid mux) inflight).

(** * /registry/offerings *)

Record offeringJSON := {
  of_ID : string; of_PricePerWorkUnitWei : string; of_Constraints : json_object }.
Record registryCapabilityJSON := {
  rc_Name : string; rc_WorkUnit : string; rc_Extra : json_object; rc_Offerings : list offeringJSON }.
Record registryOfferingsJSON := {
  ro_WorkerEthAddress : string; ro_Capabilities : list registryCapabilityJSON }.

(** [omitEmptyMap]: [None] is the nil interface, which [omitempty] drops. *)
Definition omitEmptyMap (m : json_object) : json_object :=
  match m with None | Some [] => None | Some l => Some l end.

Definition offerings_of (cfg : Config) : registryOfferingsJSON := {|
  ro_WorkerEthAddress := cfg_WorkerEthAddress cfg;
  ro_Capabilities := (fun c => {|
    rc_Name := ce_Capability c; rc_WorkUnit := ce_WorkUnit c; rc_Extra := omitEmptyMap (ce_Extra c);
    rc_Offerings := (fun o => {|
      of_ID := oe_Model o; of_PricePerWorkUnitWei := oe_PricePerWorkUnitWei o;
      of_Constraints := omitEmptyMap (oe_Constraints o) |}) <$> ce_Offerings c |})
    <$> cc_Ordered (cfg_Capabilities cfg) |}.

(** Encoding; an opaque value may refuse. *)
Fixpoint res_list {A} (l : list (res A)) : res (list A) :=
  match l with [] => Ok [] | r :: l' => a ← r; l'' ← res_list l'; Ok (a :: l'') end.
Definition json_of_map (m : list (string * yaml_value)) : res string :=
  l ← res_list ((fun kv => (fun v => (fst kv, v)) <$> y_json (snd kv)) <$> m); Ok (json_members l).
(** The member for an [omitempty] map. *)
Definition opt_member (name : string) (m : json_object) : res (list (string * string)) :=
  match m with None => Ok [] | Some l => v ← json_of_map l; Ok [(name, v)] end.
Definition json_of_offering (o : offeringJSON) : res string :=
  constraints ← opt_member "constraints" (of_Constraints o);
  Ok (json_members ([("id", marshal_string (of_ID o));
                     ("price_per_work_unit_wei", marshal_string (of_PricePerWorkUnitWei o))] ++ constraints)).
Definition json_of_capability (c : registryCapabilityJSON) : res string :=
  extra ← opt_member "extra" (rc_Extra c);
  offerings ← res_list (json_of_offering <$> rc_Offerings c);
  Ok (json_members ([("name", marshal_string (rc_Name c)); ("work_unit", marshal_string (rc_WorkUnit c))]
                    ++ extra ++ [("offerings", json_elements offerings)])).
Definition json_of_offerings (out : registryOfferingsJSON) : res string :=
  capabilities ← res_list (json_of_capability <$> ro_Capabilities out);
  Ok (json_members ((if str_nil (ro_WorkerEthAddress out) then []
                     else [("worker_eth_address", marshal_string (ro_WorkerEthAddress out))])
                    ++ [("capabilities", json_elements capabilities)])).

(** A value that cannot be encoded leaves the response without a body. *)
Definition registryOfferingsHandler (cfg : Config) (r : request) : prog unit :=
  ok ← requireBearerAuth r (cfg_AuthToken cfg);
  if negb (ok : bool) then Ret tt
  else
    _ ← Header_Set "Content-Type" "application/json";
    match json_of_offerings (offerings_of cfg) with
    | Ok text => json_Encode tt text
    | Err _ => Ret tt
    end.

(** * /v1/payment/ticket-params *)

Record ticketParamsRequestJSON := {
  tr_SenderETHAddress : string; tr_RecipientETHAddress : string; tr_FaceValueWei : string;
  tr_Capability : string; tr_Offering : string }.
Definition tr_zero : ticketParamsRequestJSON := {|
  tr_SenderETHAddress := ""; tr_RecipientETHAddress := ""; tr_FaceValueWei := "";
  tr_Capability := ""; tr_Offering := "" |}.
Definition tr_fields : list (string * decoder ticketParamsRequestJSON) := [
  field "sender_eth_address" tr_SenderETHAddress (fun v r => {|
    tr_SenderETHAddress := v; tr_RecipientETHAddress := tr_RecipientETHAddress r;
    tr_FaceValueWei := tr_FaceValueWei r; tr_Capability := tr_Capability r; tr_Offering := tr_Offering r |}) dec_string;
  field "recipient_eth_address" tr_RecipientETHAddress (fun v r => {|
    tr_SenderETHAddress := tr_SenderETHAddress r; tr_RecipientETHAddress := v;
    tr_FaceValueWei := tr_FaceValueWei r; tr_Capability := tr_Capability r; tr_Offering := tr_Offering r |}) dec_string;
  field "face_value_wei" tr_FaceValueWei (fun v r => {|
    tr_SenderETHAddress := tr_SenderETHAddress r; tr_RecipientETHAddress := tr_RecipientETHAddress r;
    tr_FaceValueWei := v; tr_Capability := tr_Capability r; tr_Offering := tr_Offering r |}) dec_string;
  field "capability" tr_Capability (fun v r => {|
    tr_SenderETHAddress := tr_SenderETHAddress r; tr_RecipientETHAddress := tr_RecipientETHAddress r;
    tr_FaceValueWei := tr_FaceValueWei r; tr_Capability := v; tr_Offering := tr_Offering r |}) dec_string;
  field "offering" tr_Offering (fun v r => {|
    tr_SenderETHAddress := tr_SenderETHAddress r; tr_RecipientETHAddress := tr_RecipientETHAddress r;
    tr_FaceValueWei := tr_FaceValueWei r; tr_Capability := tr_Capability r; tr_Offering := v |}) dec_string ].

Record ticketExpirationParamsJSON := { tj_CreationRound : Z; tj_CreationRoundBlockHash : string }.
Record ticketParamsJSON := {
  tj_Recipient : string; tj_FaceValue : string; tj_WinProb : string; tj_RecipientRandHash : string;
  tj_Seed : string; tj_ExpirationBlock : string; tj_ExpirationParams : ticketExpirationParamsJSON }.
Record ticketParamsResponseJSON := { tj_TicketParams : ticketParamsJSON }.

(** [ensureSingleJSONDocument], with the decoder's rest of the body. *)
Definition ensureSingleJSONDocument (dec : reader) : res unit :=
  match fst (Decode_strict (A := unit) [] tt dec) with
  | Ok _ => Err (ErrText "request body must contain exactly one JSON object")
  | Err ErrEOF => Ok tt
  | Err e => Err (ErrWrap "invalid JSON body" e)
  end.

Definition parseHexAddress (field value : string) : res string :=
  let trimmed := TrimSpace value in
  if negb (HasPrefix trimmed "0x") && negb (HasPrefix trimmed "0X")
  then Err (ErrText (field +:+ " must be a 0x-prefixed hex address"))
  else
    let raw := str_drop 2 trimmed in
    if negb (slen raw =? 40) then Err (ErrText (field +:+ " must be exactly 20 bytes (40 hex chars)"))
    else match hex_decode raw with
         | None => Err (ErrText (field +:+ " must be a valid hex address"))
         | Some out => Ok out
         end.

Definition parseTicketParamsRequest (inp : ticketParamsRequestJSON) : res GetTicketParamsRequest :=
  sender ← parseHexAddress "sender_eth_address" (tr_SenderETHAddress inp);
  recipient ← parseHexAddress "recipient_eth_address" (tr_RecipientETHAddress inp);
  match BigSetString (TrimSpace (tr_FaceValueWei inp)) with
  | None => Err (ErrText "face_value_wei must be a decimal integer")
  | Some faceValue =>
      if faceValue <=? 0 then Err (ErrText "face_value_wei must be > 0")
      else if str_nil (TrimSpace (tr_Capability inp)) then Err (ErrText "capability is required")
      else if str_nil (TrimSpace (tr_Offering inp)) then Err (ErrText "offering is required")
      else Ok {| gt_Sender := sender; gt_Recipient := recipient; gt_FaceValue := faceValue;
                 gt_Capability := TrimSpace (tr_Capability inp); gt_Offering := TrimSpace (tr_Offering inp) |}
  end.

Definition writeTicketParamsProxyError (err : error) : prog unit :=
  match status_Code err with
  | CodeInvalidArgument => writeJSONError tt 400 "invalid_request" (Error err)
  | CodeUnavailable | CodeDeadlineExceeded => writeJSONError tt 503 "payment_daemon_unavailable" (Error err)
  | _ => writeJSONError tt 500 "ticket_params_unavailable" (Error err)
  end.

Definition bytesToHexString (b : string) : string :=
  if slen b =? 0 then "0x" else "0x" +:+ hex_encode b.
Definition bytesToDecimalString (b : string) : string :=
  if slen b =? 0 then "0" else FormatInt (BigSetBytes b).

Definition renderTicketParamsJSON (tp : TicketParams) : ticketParamsJSON := {|
  tj_Recipient := bytesToHexString (tp_Recipient tp);
  tj_FaceValue := bytesToDecimalString (tp_FaceValueWei tp);
  tj_WinProb := bytesToHexString (tp_WinProb tp);
  tj_RecipientRandHash := bytesToHexString (tp_RecipientRandHash tp);
  tj_Seed := bytesToHexString (tp_Seed tp);
  tj_ExpirationBlock := bytesToDecimalString (tp_ExpirationBlock tp);
  tj_ExpirationParams := {|
    tj_CreationRound := te_CreationRound (tp_ExpirationParams tp);
    tj_CreationRoundBlockHash := bytesToHexString (te_CreationRoundBlockHash (tp_ExpirationParams tp)) |} |}.

(** The encodings of the three response types. *)
Definition json_of_expiration (e : ticketExpirationParamsJSON) : string := json_members [
  ("creation_round", FormatInt (tj_CreationRound e));
  ("creation_round_block_hash", marshal_string (tj_CreationRoundBlockHash e)) ].
Definition json_of_ticket_params (tp : ticketParamsJSON) : string := json_members [
  ("recipient", marshal_string (tj_Recipient tp));
  ("face_value", marshal_string (tj_FaceValue tp));
  ("win_prob", marshal_string (tj_WinProb tp));
  ("recipient_rand_hash", marshal_string (tj_RecipientRandHash tp));
  ("seed", marshal_string (tj_Seed tp));
  ("expiration_block", marshal_string (tj_ExpirationBlock tp));
  ("expiration_params", json_of_expiration (tj_ExpirationParams tp)) ].
Definition json_of_response (x : ticketParamsResponseJSON) : string :=
  json_members [("ticket_params", json_of_ticket_params (tj_TicketParams x))].

Definition ticketParamsHandler (cfg : Config) (r : request) : prog unit :=
  ok ← requireBearerAuth r (cfg_AuthToken cfg);
  if negb (ok : bool) then Ret tt
  else
    let '(req, dec) := Decode_strict tr_fields tr_zero (MaxBytesReader (rq_body r) maxTicketParamsBodyBytes) in
    match req with
    | Err e => writeJSONError tt 400 "invalid_request" ("invalid JSON body: " +:+ Error e)
    | Ok req =>
        match ensureSingleJSONDocument dec with
        | Err e => writeJSONError tt 400 "invalid_request" (Error e)
        | Ok _ =>
            match parseTicketParamsRequest req with
            | Err e => writeJSONError tt 400 "invalid_request" (Error e)
            | Ok daemonReq =>
                params ← payee_ (GetTicketParams daemonReq);
                match params with
                | Err e => writeTicketParamsProxyError e
                | Ok params =>
                    _ ← Header_Set "Content-Type" "application/json";
                    json_Encode tt (json_of_response {| tj_TicketParams := renderTicketParamsJSON params |})
                end
            end
        end
    end.

Definition RegisterUnpaidHandlers (m : Mux) (cfg : Config) : may_panic Mux :=
  m1 ← Register "GET" "/health" (fun _ => healthHandler cfg m) m;
  m2 ← Register "GET" "/registry/offerings" (fun _ => registryOfferingsHandler cfg) m1;
  Register "POST" "/v1/payment/ticket-params" (fun _ => ticketParamsHandler cfg) m2.

(** * Authorisation *)

Lemma xor_all_zero x y v :
  String.length x = String.length y -> 0 <= v -> xor_all x y v = 0 <-> v = 0 /\ x = y.
Proof.
  revert y v. induction x as [|a x IH]; intros [|b y] v Hl Hv; simpl in *; try done; [tauto|].
  pose proof (byte_z_range a). pose proof (byte_z_range b).
  assert (Hx : 0 <= Z.lxor (byte_z a) (byte_z b)) by (apply Z.lxor_nonneg; lia).
  rewrite IH by (try lia; apply Z.lor_nonneg; lia). rewrite Z.lor_eq_0_iff, Z.lxor_eq_0_iff. split.
  - intros [[-> E] ->]. split; [done|]. f_equal. by rewrite <- (z_byte_byte_z a), E, z_byte_byte_z.
  - intros [-> E]. by simplify_eq.
Qed.

Lemma ConstantTimeCompare_spec x y : ConstantTimeCompare x y = 1 <-> x = y.
Proof.
  unfold ConstantTimeCompare, slen.
  destruct (Z.eqb_spec (Z.of_nat (String.length x)) (Z.of_nat (String.length y))) as [E|E]; simpl.
  - destruct (Z.eqb_spec (xor_all x y 0) 0) as [Hz|Hz].
    + apply xor_all_zero in Hz; [tauto|lia|done].
    + split; [done|]. intros ->. destruct Hz. apply xor_all_zero; [done|done|tauto].
  - split; [done|]. by intros ->.
Qed.

(** The request may use the registry and ticket routes. *)
Definition authorised (cfg : Config) (r : request) : bool :=
  str_nil (cfg_AuthToken cfg) ||
  String.eqb (Header_Get (rq_header r) "Authorization") ("Bearer " +:+ cfg_AuthToken cfg).

(** The calls to the daemon a trace holds. *)
Definition ev_asked (x : event) : list payee_call := match x with Ev (EPayee c) _ => [c] | _ => [] end.
Definition asked (t : list event) : list payee_call := t ≫= ev_asked.

Lemma replies_app t1 t2 : replies (t1 ++ t2) = replies t1 ++ replies t2.
Proof. apply bind_app. Qed.
Lemma asked_app t1 t2 : asked (t1 ++ t2) = asked t1 ++ asked t2.
Proof. apply bind_app. Qed.

Lemma Tr_event {B} e (f : resp e -> prog B) t b :
  Tr (bind (trigger e) f) t b -> exists a t', t = Ev e a :: t' /\ Tr (f a) t' b.
Proof. done. Qed.

Lemma Tr_json_Encode text t u :
  Tr (json_Encode tt text) t u -> replies t = [inr (text +:+ nl)] /\ asked t = [].
Proof. intros (r & t' & -> & -> & _). done. Qed.

Lemma Tr_writeJSONError status code detail t u :
  Tr (writeJSONError tt status code detail) t u ->
  replies t = [inl status; inr (error_body code detail +:+ nl)] /\ asked t = [].
Proof.
  intros H. apply Tr_event in H as (r1 & t1 & -> & H).
  apply Tr_bind in H as (t2 & t3 & w & -> & H2 & H3). destruct H2 as (r2 & t2' & -> & -> & ->).
  apply Tr_json_Encode in H3 as [Hr Ha]. split; [|exact Ha].
  change (replies ([] ++ t3)) with (replies t3). simpl. by f_equal.
Qed.

(** Behind the authorisation check a handler goes on only when it passed. *)
Lemma Tr_authorised {A} cfg r (f : bool -> prog A) t a :
  Tr (bind (requireBearerAuth r (cfg_AuthToken cfg)) f) t a ->
  if authorised cfg r then Tr (f true) t a
  else exists t1 t2, t = t1 ++ t2 /\ Tr (f false) t2 a /\
         replies t1 = [inl 401; inr (error_body "unauthorized" "missing or invalid bearer token" +:+ nl)] /\
         asked t1 = [].
Proof.
  unfold requireBearerAuth, authorised. destruct (str_nil _); [done|]. cbn [orb].
  destruct (String.eqb_spec (Header_Get (rq_header r) "Authorization") ("Bearer " +:+ cfg_AuthToken cfg)) as [E|E].
  - rewrite (proj2 (ConstantTimeCompare_spec _ _)) by exact E. done.
  - destruct (Z.eqb_spec (ConstantTimeCompare (Header_Get (rq_header r) "Authorization")
      ("Bearer " +:+ cfg_AuthToken cfg)) 1) as [E1|E1]; [by apply ConstantTimeCompare_spec in E1|].
    cbn [negb]. intros H. apply Tr_bind in H as (t1 & t2 & b & -> & H1 & H2).
    apply Tr_bind in H1 as (t3 & t4 & u & -> & H3 & [-> ->]).
    exists t3, t2. rewrite app_nil_r. apply Tr_writeJSONError in H3. tauto.
Qed.

(** * The ticket parameters route *)

(** What the body of a request asks for. *)
Definition ticket_request (r : request) : res GetTicketParamsRequest :=
  let '(req, rest) := Decode_strict tr_fields tr_zero (MaxBytesReader (rq_body r) maxTicketParamsBodyBytes) in
  req ← req;
  _ ← ensureSingleJSONDocument rest;
  parseTicketParamsRequest req.

(** The answer to an error of the daemon. *)
Definition proxy_answer (c : grpc_code) : Z * string :=
  match c with
  | CodeInvalidArgument => (400, "invalid_request")
  | CodeUnavailable | CodeDeadlineExceeded => (503, "payment_daemon_unavailable")
  | _ => (500, "ticket_params_unavailable")
  end.

Lemma Tr_proxy_error e t u :
  Tr (writeTicketParamsProxyError e) t u ->
  replies t = [inl (fst (proxy_answer (status_Code e)));
               inr (error_body (snd (proxy_answer (status_Code e))) (Error e) +:+ nl)] /\ asked t = [].
Proof. unfold writeTicketParamsProxyError. destruct (status_Code e); apply Tr_writeJSONError. Qed.

(** C22. The ticket route.  Every behaviour answers exactly once: 401 without the
    bearer token, 400 for a body that is not one JSON object with a valid
    request, and in both cases the daemon is not asked; else the daemon is asked
    once for exactly the parsed request, its parameters are rendered, and its
    error is mapped by its gRPC code to 400, 503 or 500. *)
Theorem ticket_params_contract (cfg : Config) (r : request) (t : list event) (u : unit) :
  Tr (ticketParamsHandler cfg r) t u ->
  match authorised cfg r, ticket_request r with
  | false, _ => asked t = [] /\
      replies t = [inl 401; inr (error_body "unauthorized" "missing or invalid bearer token" +:+ nl)]
  | true, Err _ => asked t = [] /\
      exists detail, replies t = [inl 400; inr (error_body "invalid_request" detail +:+ nl)]
  | true, Ok req => asked t = [GetTicketParams req] /\
      exists ans, Ev (EPayee (GetTicketParams req)) ans ∈ t /\
        replies t = match (ans : res TicketParams) with
                    | Ok tp => [inr (json_of_response {| tj_TicketParams := renderTicketParamsJSON tp |} +:+ nl)]
                    | Err e => [inl (fst (proxy_answer (status_Code e)));
                                inr (error_body (snd (proxy_answer (status_Code e))) (Error e) +:+ nl)]
                    end
  end.
Proof.
  intros H. apply Tr_authorised in H. destruct (authorised cfg r); cbn [negb] in H.
  2: { destruct H as (t1 & t2 & -> & [-> _] & H1 & H2). by rewrite app_nil_r. }
  unfold ticket_request. destruct (Decode_strict _ _ _) as [[req|e] rest]; cbn [mbind res_bind].
  2: { apply Tr_writeJSONError in H as [H1 H2]. eauto. }
  destruct (ensureSingleJSONDocument rest) as [[]|e]; cbn [mbind res_bind].
  2: { apply Tr_writeJSONError in H as [H1 H2]. eauto. }
  destruct (parseTicketParamsRequest req) as [daemonReq|e].
  2: { apply Tr_writeJSONError in H as [H1 H2]. eauto. }
  apply Tr_event in H as ([tp|e] & t' & -> & H).
  - apply Tr_event in H as (a & t2 & -> & H). apply Tr_json_Encode in H as [H1 H2]. split.
    + change (GetTicketParams daemonReq :: asked t2 = [GetTicketParams daemonReq]). by rewrite H2.
    + exists (Ok tp). split; [left|exact H1].
  - apply Tr_proxy_error in H as [H1 H2]. split.
    + change (GetTicketParams daemonReq :: asked t' = [GetTicketParams daemonReq]). by rewrite H2.
    + exists (Err e). split; [left|exact H1].
Qed.

(** ** Parsing and rendering *)

(** The text is an address of these bytes. *)
Definition is_address (text bytes : string) : Prop :=
  exists p raw, TrimSpace text = p +:+ raw /\ (p = "0x" \/ p = "0X") /\
    hex_decode raw = Some bytes /\ slen bytes = 20.

Lemma hex_decode_length s b : hex_decode s = Some b -> slen s = 2 * slen b.
Proof.
  unfold slen. enough (H : forall n s b, (String.length s <= n)%nat -> hex_decode s = Some b ->
    Z.of_nat (String.length s) = 2 * Z.of_nat (String.length b)) by exact (H _ s b (le_n _)).
  clear s b. induction n as [|n IH]; intros [|x [|y s']] b Hn H; simpl in H, Hn; simplify_eq; try done; try lia.
  destruct (hex_val x), (hex_val y); try done. simpl in H.
  destruct (hex_decode s') as [b'|] eqn:E; simpl in H; simplify_eq.
  cbn [String.length]. specialize (IH s' b' ltac:(lia) E). lia.
Qed.

Lemma HasPrefix_drop s p : HasPrefix s p = true -> s = p +:+ str_drop (String.length p) s.
Proof.
  revert s. induction p as [|c p IH]; intros [|d s] H; simpl in *; try done.
  apply andb_true_iff in H as [H1 H2]. apply Ascii.eqb_eq in H1 as ->. rewrite str_app_cons. f_equal. by apply IH.
Qed.

Lemma parseHexAddress_Ok field value b : parseHexAddress field value = Ok b <-> is_address value b.
Proof.
  unfold parseHexAddress, is_address. split.
  - destruct (negb (HasPrefix (TrimSpace value) "0x") && _) eqn:Hp; [done|].
    destruct (Z.eqb_spec (slen (str_drop 2 (TrimSpace value))) 40) as [Hl|]; [cbn [negb]|done].
    destruct (hex_decode _) as [out|] eqn:Hd; [|done]. intros [= <-].
    assert (exists p, (p = "0x" \/ p = "0X") /\ HasPrefix (TrimSpace value) p = true) as (p & Hpp & Hpre).
    { apply andb_false_iff in Hp as [Hp|Hp]; apply negb_false_iff in Hp; eauto. }
    exists p, (str_drop 2 (TrimSpace value)). split_and!; [|done|done|].
    + apply HasPrefix_drop in Hpre. by destruct Hpp as [-> | ->].
    + apply hex_decode_length in Hd. lia.
  - intros (p & raw & -> & Hp & Hd & Hl).
    assert (str_drop 2 (p +:+ raw) = raw /\
      negb (HasPrefix (p +:+ raw) "0x") && negb (HasPrefix (p +:+ raw) "0X") = false) as [-> ->]
      by (destruct Hp as [-> | ->]; destruct raw; split; reflexivity).
    pose proof (hex_decode_length _ _ Hd) as Hr. rewrite Hl in Hr. rewrite Hr, Hd. done.
Qed.

(** C26. What a ticket request must be.  It is accepted exactly when both
    addresses are 20 bytes written as 40 hex digits behind 0x or 0X, the face
    value is a positive decimal integer and capability and offering are not
    blank, space around each being ignored; and the daemon is then asked with
    those bytes and values. *)
Theorem ticket_request_decides (inp : ticketParamsRequestJSON) (req : GetTicketParamsRequest) :
  parseTicketParamsRequest inp = Ok req <->
  is_address (tr_SenderETHAddress inp) (gt_Sender req) /\
  is_address (tr_RecipientETHAddress inp) (gt_Recipient req) /\
  BigSetString (TrimSpace (tr_FaceValueWei inp)) = Some (gt_FaceValue req) /\ 0 < gt_FaceValue req /\
  gt_Capability req = TrimSpace (tr_Capability inp) /\ gt_Capability req <> "" /\
  gt_Offering req = TrimSpace (tr_Offering inp) /\ gt_Offering req <> "".
Proof.
  unfold parseTicketParamsRequest. rewrite res_bind_Ok. split.
  - intros (s & Hs & H). apply res_bind_Ok in H as (rc & Hr & H).
    apply parseHexAddress_Ok in Hs, Hr. destruct (BigSetString _) as [v|]; [|done].
    destruct (Z.leb_spec v 0); [done|]. destruct (TrimSpace (tr_Capability inp)) eqn:Hc; [done|].
    destruct (TrimSpace (tr_Offering inp)) eqn:Ho; [done|]. cbn [str_nil] in H. simplify_eq. simpl.
    split_and!; done || lia.
  - destruct req as [s rc v cap off]; simpl. intros (Hs & Hr & -> & Hv & -> & Hc & -> & Ho).
    exists s. split; [by apply parseHexAddress_Ok|]. apply res_bind_Ok. exists rc.
    split; [by apply parseHexAddress_Ok|]. destruct (Z.leb_spec v 0); [lia|].
    destruct (TrimSpace (tr_Capability inp)); [done|]. by destruct (TrimSpace (tr_Offering inp)).
Qed.

Lemma hex_encode_plain s :
  str_forall (fun c => is_ascii c && negb (is_space_rune (byte_z c))) (hex_encode s) = true.
Proof.
  induction s as [|c s IH]; [reflexivity|]. cbn [hex_encode str_forall]. rewrite IH, andb_true_r.
  pose proof (byte_z_range c).
  assert (Hd : forall d, 0 <= d < 16 ->
    is_ascii (hex_digit d) && negb (is_space_rune (byte_z (hex_digit d))) = true).
  { intros d Hd'. assert (Hx : d = 0 \/ d = 1 \/ d = 2 \/ d = 3 \/ d = 4 \/ d = 5 \/ d = 6 \/ d = 7 \/ d = 8
      \/ d = 9 \/ d = 10 \/ d = 11 \/ d = 12 \/ d = 13 \/ d = 14 \/ d = 15) by lia.
    destruct_or?; subst; reflexivity. }
  rewrite !Hd; [done|apply Z.mod_pos_bound; lia|].
  split; [apply Z.div_pos; lia|apply Z.div_lt_upper_bound; lia].
Qed.

Lemma bytesToHexString_eq b : bytesToHexString b = "0x" +:+ hex_encode b.
Proof. unfold bytesToHexString. by destruct b. Qed.
Lemma bytesToHexString_decode b : hex_decode (str_drop 2 (bytesToHexString b)) = Some b.
Proof. rewrite bytesToHexString_eq. apply hex_decode_encode. Qed.
Lemma bytesToDecimalString_read b : BigSetString (bytesToDecimalString b) = Some (BigSetBytes b).
Proof.
  unfold bytesToDecimalString. destruct b; [reflexivity|]. cbn [slen String.length Z.of_nat Z.eqb].
  apply BigSetString_FormatInt.
Qed.
Lemma bytesToHexString_address b : slen b = 20 -> is_address (bytesToHexString b) b.
Proof.
  intros Hl. exists "0x", (hex_encode b). split_and!; [|by left|apply hex_decode_encode|done].
  rewrite bytesToHexString_eq. apply TrimSpace_id. cbn [str_forall append]. apply hex_encode_plain.
Qed.

(** C27. The rendering of ticket parameters loses nothing: every byte field reads
    back from its hex text, every amount and block number reads back as the
    number the daemon sent, and a rendered recipient is an address that the
    ticket route itself accepts in a request. *)
Theorem ticket_params_rendering (tp : TicketParams) (j : ticketParamsJSON) :
  j = renderTicketParamsJSON tp ->
  let e := tj_ExpirationParams j in
  hex_decode (str_drop 2 (tj_Recipient j)) = Some (tp_Recipient tp) /\
  hex_decode (str_drop 2 (tj_WinProb j)) = Some (tp_WinProb tp) /\
  hex_decode (str_drop 2 (tj_RecipientRandHash j)) = Some (tp_RecipientRandHash tp) /\
  hex_decode (str_drop 2 (tj_Seed j)) = Some (tp_Seed tp) /\
  BigSetString (tj_FaceValue j) = Some (BigSetBytes (tp_FaceValueWei tp)) /\
  BigSetString (tj_ExpirationBlock j) = Some (BigSetBytes (tp_ExpirationBlock tp)) /\
  tj_CreationRound e = te_CreationRound (tp_ExpirationParams tp) /\
  hex_decode (str_drop 2 (tj_CreationRoundBlockHash e)) = Some (te_CreationRoundBlockHash (tp_ExpirationParams tp)) /\
  (slen (tp_Recipient tp) = 20 -> parseHexAddress "recipient_eth_address" (tj_Recipient j) = Ok (tp_Recipient tp)).
Proof.
  intros ->. cbn [renderTicketParamsJSON tj_Recipient tj_WinProb tj_RecipientRandHash tj_Seed tj_FaceValue
    tj_ExpirationBlock tj_ExpirationParams tj_CreationRound tj_CreationRoundBlockHash].
  split_and!; auto using bytesToHexString_decode, bytesToDecimalString_read.
  intros Hl. by apply parseHexAddress_Ok, bytesToHexString_address.
Qed.

(** * The offerings route *)

(** C25. What is advertised is what is served.  For a configuration loaded from
    worker.yaml, the offerings document lists a model of a capability at a price
    exactly when the routing table of the paid routes has that model at that
    price, and the capabilities come in the order of the file. *)
Theorem offerings_match_routes os_Open yaml_Decode path (cfg : Config) :
  Load os_Open yaml_Decode path = Ok cfg ->
  (rc_Name <$> ro_Capabilities (offerings_of cfg)) = (ce_Capability <$> cc_Ordered (cfg_Capabilities cfg)) /\
  forall cap model price,
    (exists c o, c ∈ ro_Capabilities (offerings_of cfg) /\ rc_Name c = cap /\
       o ∈ rc_Offerings c /\ of_ID o = model /\ of_PricePerWorkUnitWei o = price) <->
    (exists r, Lookup cfg cap model = Some r /\ mr_PricePerWorkUnitWei r = price).
Proof.
  intros H. destruct (loaded_lookup _ _ _ _ H) as [_ Hl]. split.
  { cbn [offerings_of ro_Capabilities]. by rewrite <- list_fmap_compose. }
  intros cap model price. cbn [offerings_of ro_Capabilities]. split.
  - intros (c & o & Hc & <- & Ho & <- & <-).
    apply list_elem_of_fmap in Hc as (e & -> & He). cbn [rc_Offerings rc_Name] in *.
    apply list_elem_of_fmap in Ho as (m & -> & Hm). cbn [of_ID of_PricePerWorkUnitWei].
    exists (route_of e m). split; [|done]. apply Hl. eauto 10.
  - intros (r & Hr & <-). apply Hl in Hr as (e & m & He & Hm & <- & <- & ->).
    eexists _, _. split_and!; [apply list_elem_of_fmap; eexists; split; [reflexivity|exact He]|done|..].
    + apply list_elem_of_fmap. eexists. split; [reflexivity|exact Hm].
    + done.
    + done.
Qed.

(** * Witnesses *)

Definition demo_address : string := "0x0102030405060708090a0b0c0d0e0f1011121314".
Definition demo_ticket_body : string :=
  json_members [("sender_eth_address", dq demo_address); ("recipient_eth_address", dq (" " +:+ demo_address));
    ("face_value_wei", dq "1000"); ("capability", dq "openai:/v1/chat/completions"); ("offering", dq "llama-3")].
Definition demo_ticket_request : request :=
  Request [("Authorization", "Bearer " +:+ cfg_AuthToken demo_config)] (Reader demo_ticket_body ErrEOF).
Definition demo_daemon_request : GetTicketParamsRequest := {|
  gt_Sender := default "" (hex_decode (str_drop 2 demo_address));
  gt_Recipient := default "" (hex_decode (str_drop 2 demo_address));
  gt_FaceValue := 1000; gt_Capability := "openai:/v1/chat/completions"; gt_Offering := "llama-3" |}.
Example demo_ticket_parses : ticket_request demo_ticket_request = Ok demo_daemon_request.
Proof. vm_compute. reflexivity. Qed.

Definition demo_ticket_run := ticketParamsHandler demo_config demo_ticket_request.
Lemma ticket_params_contract_witness :
  asked (trace_of demo_env demo_ticket_run env0) = [GetTicketParams demo_daemon_request].
Proof.
  assert (Ha : authorised demo_config demo_ticket_request = true) by (vm_compute; reflexivity).
  pose proof (ticket_params_contract demo_config demo_ticket_request _ _ (trace_of_Tr demo_env demo_ticket_run env0)) as H.
  rewrite Ha, demo_ticket_parses in H. exact (proj1 H).
Defined.

Definition demo_ticket_params : TicketParams := {|
  tp_Recipient := gt_Recipient demo_daemon_request; tp_FaceValueWei := BigBytes 258; tp_WinProb := "";
  tp_RecipientRandHash := "r"; tp_Seed := "s"; tp_ExpirationBlock := BigBytes 77;
  tp_ExpirationParams := {| te_CreationRound := 3; te_CreationRoundBlockHash := "h" |} |}.
Lemma ticket_params_rendering_witness :
  parseHexAddress "recipient_eth_address" (tj_Recipient (renderTicketParamsJSON demo_ticket_params))
  = Ok (gt_Recipient demo_daemon_request).
Proof.
  destruct (ticket_params_rendering demo_ticket_params (renderTicketParamsJSON demo_ticket_params) eq_refl)
    as (_ & _ & _ & _ & _ & _ & _ & _ & H).
  exact (H ltac:(vm_compute; reflexivity)).
Defined.

Lemma offerings_match_routes_witness :
  exists c o, c ∈ ro_Capabilities (offerings_of demo_config) /\ rc_Name c = "openai:/v1/chat/completions" /\
    o ∈ rc_Offerings c /\ of_ID o = "llama-3" /\ of_PricePerWorkUnitWei o = "5000000".
Proof.
  apply (proj2 (offerings_match_routes demo_open demo_decode "worker.yaml" demo_config demo_loads)).
  exists demo_route. split; [exact demo_lookup|reflexivity].
Defined.
