(* ===== verification/Main.v ===== *)
(** [cmd/openai-worker-node/main.go]: the composition root.  [startup] is [run]
    up to the start of the server, given the flags [parse_flags] read from the
    arguments ([None] for a usage error); the rest of [run] is Lifecycle, but for
    the goroutine that samples the uptime ([uptime_goroutine]). *)
From stdpp Require Import base gmap strings list.
From Stdlib Require Import ZArith Lia Ascii String.
From S2P Require Import Prelude.
From S2P Require Import GoStrings.
From S2P Require Import GoConv.
From S2P Require Import GoUrl.
From S2P Require Import GoFloat.
From S2P Require Import GoFlag.
From S2P Require Import Types.
From S2P Require Import Prog.
From S2P Require Import Interp.
From S2P Require Import Config.
From S2P Require Import Payee.
From S2P Require Import Backend.
From S2P Require Import Tokenizer.
From S2P Require Import Module.
From S2P Require Import Multipart.
From S2P Require Import Mux.
From S2P Require Import Handlers.
From S2P Require ChatCompletions.
From S2P Require Embeddings.
From S2P Require ImagesGenerations.
From S2P Require ImagesEdits.
From S2P Require AudioSpeech.
From S2P Require AudioTranscriptions.

(** * net.SplitHostPort *)

Definition addr_error {A} (hostport why : string) : res A :=
  Err (ErrText ("address " +:+ hostport +:+ ": " +:+ why)).

(** The checks behind a host that ends at [k] and begins at [j]. *)
Definition split_port (hostport host : string) (i j k : nat) : res (string * string) :=
  match IndexByte (str_drop j hostport) "[" with
  | Some _ => addr_error hostport "unexpected '[' in address"
  | None =>
      match IndexByte (str_drop k hostport) "]" with
      | Some _ => addr_error hostport "unexpected ']' in address"
      | None => Ok (host, str_drop (S i) hostport)
      end
  end.

Definition SplitHostPort (hostport : string) : res (string * string) :=
  match LastIndex hostport ":" with
  | None => addr_error hostport "missing port in address"
  | Some i =>
      if HasPrefix hostport "[" then
        match IndexByte hostport "]" with
        | None => addr_error hostport "missing ']' in address"
        | Some end_ =>
            if (S end_ =? String.length hostport)%nat then addr_error hostport "missing port in address"
            else if (S end_ =? i)%nat
            then split_port hostport (str_drop 1 (str_take end_ hostport)) i 1 (S end_)
            else if HasPrefix (str_drop (S end_) hostport) ":"
            then addr_error hostport "too many colons in address"
            else addr_error hostport "missing port in address"
        end
      else
        let host := str_take i hostport in
        match IndexByte host ":" with
        | Some _ => addr_error hostport "too many colons in address"
        | None => split_port hostport host i 0 0
        end
  end.

Definition validateMetricsListen (addr : string) : res unit :=
  if str_nil addr then Ok tt
  else
    '(_, port) ← SplitHostPort addr;
    if str_nil port then Err (ErrText "port required (e.g. :9093)")
    else
      p ← wrap_err "port not an integer" (Atoi port);
      if (p <? 1024) || (65535 <? p)
      then Err (ErrText ("port " +:+ FormatInt p +:+ " outside [1024, 65535]"))
      else Ok tt.

(** * buildLogger: the minimum level, and whether the name was unknown *)

Inductive slog_level := SlogDebug | SlogInfo | SlogWarn | SlogError.
Definition buildLogger (level : string) : slog_level * bool :=
  if String.eqb level "debug" then (SlogDebug, false)
  else if String.eqb level "info" then (SlogInfo, false)
  else if String.eqb level "warn" then (SlogWarn, false)
  else if String.eqb level "error" then (SlogError, false)
  else (SlogInfo, true).

(** * The flags *)

Record flags := { fl_config : string; fl_log_level : string; fl_metrics_listen : string; fl_max_series : Z }.

Definition default_flags : flags := {|
  fl_config := "/etc/livepeer/worker.yaml"; fl_log_level := "info"; fl_metrics_listen := "";
  fl_max_series := 10000 |}.

(** The value of one flag; [None] when it is not defined or not an integer. *)
Definition set_flag (name value : string) (fl : flags) : option flags :=
  if String.eqb name "config" then
    Some {| fl_config := value; fl_log_level := fl_log_level fl; fl_metrics_listen := fl_metrics_listen fl;
            fl_max_series := fl_max_series fl |}
  else if String.eqb name "log-level" then
    Some {| fl_config := fl_config fl; fl_log_level := value; fl_metrics_listen := fl_metrics_listen fl;
            fl_max_series := fl_max_series fl |}
  else if String.eqb name "metrics-listen" then
    Some {| fl_config := fl_config fl; fl_log_level := fl_log_level fl; fl_metrics_listen := value;
            fl_max_series := fl_max_series fl |}
  else if String.eqb name "metrics-max-series-per-metric" then
    n ← ParseInt0 value;
    Some {| fl_config := fl_config fl; fl_log_level := fl_log_level fl;
            fl_metrics_listen := fl_metrics_listen fl; fl_max_series := n |}
  else None.

(** [fs.Parse(args)]. *)
Definition parse_flags (args : list string) : option flags := Parse set_flag args default_flags.

(** Flags given as separate arguments or attached with an equals sign, with one
    dash or two, are read as given; a later one wins; the rest keep their default. *)
Lemma parse_flags_given config level listen n :
  in_int64 n ->
  parse_flags ["--config"; config; "-log-level=" +:+ level; "--metrics-listen"; "ignored";
               "--metrics-listen=" +:+ listen; "-metrics-max-series-per-metric"; FormatInt n]
  = Some {| fl_config := config; fl_log_level := level; fl_metrics_listen := listen; fl_max_series := n |}.
Proof.
  intros Hn. unfold parse_flags. cbn -[ParseInt0 FormatInt]. by rewrite ParseInt0_FormatInt.
Qed.

(** * Modules *)

Section Modules.
Context (int64_of_large : float64 -> Z).

(** The module of a capability: the switch of [registerModules]. *)
Definition module_for (capability : CapabilityID) (tok : Tokenizer) (backend : BackendClient) (rec : Recorder)
  : option Module :=
  if String.eqb capability ChatCompletions.Capability then
    Some (ChatCompletions.New tok backend (Some rec))
  else if String.eqb capability Embeddings.Capability then
    Some (Embeddings.New tok backend (Some rec))
  else if String.eqb capability ImagesGenerations.Capability then
    Some (ImagesGenerations.New backend (Some rec))
  else if String.eqb capability AudioSpeech.Capability then
    Some (AudioSpeech.New backend (Some rec))
  else if String.eqb capability ImagesEdits.Capability then
    Some (ImagesEdits.New backend (Some rec))
  else if String.eqb capability AudioTranscriptions.Capability then
    Some (AudioTranscriptions.New int64_of_large backend (Some rec))
  else None.

(** [registerModules], without its log lines: the mux and the count. *)
Fixpoint register_entries (entries : list CapabilityEntry) (tok : Tokenizer) (backend : BackendClient)
    (rec : Recorder) (mux : Mux) (registered : Z) : may_panic (Mux * Z) :=
  match entries with
  | [] => Normal (mux, registered)
  | entry :: entries' =>
      match module_for (ce_Capability entry) tok backend rec with
      | Some md =>
          mux ← RegisterPaidRoute md mux;
          register_entries entries' tok backend rec mux (registered + 1)
      | None => register_entries entries' tok backend rec mux registered
      end
  end.
Definition registerModules (mux : Mux) (cfg : Config) (tok : Tokenizer) (backend : BackendClient)
    (rec : Recorder) : may_panic (Mux * Z) :=
  register_entries (cc_Ordered (cfg_Capabilities cfg)) tok backend rec mux 0.

Definition missingCapabilityModules (mux : Mux) (cfg : Config) : list CapabilityID :=
  List.filter (fun c => negb (HasPaidCapability mux c)) (ce_Capability <$> cc_Ordered (cfg_Capabilities cfg)).

(** * run *)

(** The libraries behind the startup, and the build information. *)
Context (os_Open : string -> res string) (yaml_Decode : nat -> string -> res yamlConfig).
Context (grpc_NewClient : string -> res unit).
Context {Enc : Type} (default_encoding : res Enc) (first_encoding : string -> res Enc).
Context (tiktoken_Encode : Enc -> string -> list Z).
Context (version go_version : string).

(** The tokenizer of the modules; [default_encoding] is what the library answered at the
    start, [first_encoding] what it answers first for each model. *)
Definition worker_tokenizer (rec : Recorder) : Tokenizer :=
  Tokenizer.WithMetrics
    (tiktoken_tokenizer tiktoken_Encode
       (NewTiktoken (Some (NewWordCount 133)) default_encoding) first_encoding)
    (Some rec).

(** The payee client of the worker. *)
Definition worker_payee (rec : Recorder) : PayeeClient := Payee.WithMetrics grpcClient (Some rec).

(** A worker ready to serve. *)
Record worker := { wk_cfg : Config; wk_recorder : Recorder; wk_mux : Mux }.

(** Step 3: the cross-check of the catalogs; [Some code] stops the process. *)
Definition cross_check (cfg : Config) (rec : Recorder) : prog (option Z) :=
  if ws_VerifyDaemonConsistencyOnStart (cfg_Worker cfg) then
    daemonCatalog ← worker_payee rec ListCapabilities;
    match (daemonCatalog : res ListCapabilitiesResult) with
    | Err _ => _ ← log LevelError "ListCapabilities"; Ret (Some 1)
    | Ok daemonCatalog =>
        match VerifyDaemonCatalog (Some cfg) daemonCatalog with
        | Err _ => _ ← log LevelError "daemon catalog mismatch"; Ret (Some 1)
        | Ok _ => _ ← log LevelInfo "daemon catalog verified"; Ret None
        end
    end
  else _ ← log LevelWarn "daemon consistency verification DISABLED by config"; Ret None.

(** Step 5: the mux with its handlers and modules. *)
Definition build_mux (cfg : Config) (rec : Recorder) : may_panic (Mux * Z) :=
  mux ← RegisterUnpaidHandlers (WithRecorder (Some rec) (NewMux cfg)) cfg;
  registerModules mux cfg (worker_tokenizer rec) iface_backend rec.

Definition ready (cfg : Config) (rec : Recorder) : prog (may_panic (Z + worker)) :=
  match build_mux cfg rec with
  | Panics msg => Ret (Panics msg)
  | Normal (mux, registered) =>
      if registered =? 0 then
        _ ← log LevelError "no capability modules registered"; Ret (Normal (inl 1))
      else
        match missingCapabilityModules mux cfg with
        | _ :: _ => _ ← log LevelError "config declares capabilities with no module backing"; Ret (Normal (inl 1))
        | [] => Ret (Normal (inr {| wk_cfg := cfg; wk_recorder := rec; wk_mux := mux |}))
        end
  end.

(** [run] up to the server: an exit code, or the worker. *)
Definition startup (args : option flags) : prog (may_panic (Z + worker)) :=
  match args with
  | None => Ret (Normal (inl 2))
  | Some fl =>
      match validateMetricsListen (fl_metrics_listen fl) with
      | Err _ => Ret (Normal (inl 2))
      | Ok _ =>
          match Load os_Open yaml_Decode (fl_config fl) with
          | Err _ => _ ← log LevelError "load config"; Ret (Normal (inl 1))
          | Ok cfg =>
              _ ← log LevelInfo "config loaded";
              let rec := if str_nil (fl_metrics_listen fl) then NewNoop else LiveRecorder in
              _ ← rec_do rec (SetBuildInfo version (FormatInt (cfg_ProtocolVersion cfg)) go_version);
              _ ← rec_do rec (SetMaxConcurrent (ws_MaxConcurrentRequests (cfg_Worker cfg)));
              match Dial grpc_NewClient (ws_PaymentDaemonSocket (cfg_Worker cfg)) with
              | Err _ => _ ← log LevelError "dial payment daemon"; Ret (Normal (inl 1))
              | Ok _ =>
                  code ← cross_check cfg rec;
                  match (code : option Z) with
                  | Some code => Ret (Normal (inl code))
                  | None => ready cfg rec
                  end
              end
          end
      end
  end.

(** A request at a running worker: the mux with the gRPC client behind the payee
    interface and the fetch client behind the backend interface. *)
Definition root_handler (rec : Recorder) : handler := fun e =>
  match e as e return prog (resp e) with
  | EPayee c => worker_payee rec c
  | EBackend c => fetchClient c
  | e => trigger e
  end.
Definition serve_request (w : worker) (method path : string) (flusher : bool) (r : request) : prog unit :=
  interp (root_handler (wk_recorder w)) (Handler (wk_mux w) method path flusher r).
End Modules.

(** * The uptime goroutine *)

(** A sample of the uptime, and the goroutine: one sample at the start and one for
    each of the [ticks] the ticker delivers before [uptimeDone] is closed. *)
Definition uptime_sample (rec : Recorder) (uptimeStart : Z) : prog unit :=
  d ← since uptimeStart; rec_do rec (SetUptimeSeconds d).
Fixpoint uptime_goroutine (rec : Recorder) (uptimeStart : Z) (ticks : nat) : prog unit :=
  _ ← uptime_sample rec uptimeStart;
  match ticks with O => Ret tt | S ticks => uptime_goroutine rec uptimeStart ticks end.

Definition uptime_events (uptimeStart t : Z) : list event :=
  [Ev ENow t; Ev (ERec (SetUptimeSeconds (t - uptimeStart))) tt].

(** The goroutine does nothing but sample: once per tick and once before the first. *)
Lemma uptime_goroutine_Tr uptimeStart ticks tr :
  Tr (uptime_goroutine LiveRecorder uptimeStart ticks) tr tt <->
  exists times, length times = S ticks /\ tr = times ≫= uptime_events uptimeStart.
Proof.
  revert tr. induction ticks as [|ticks IH]; intros tr.
  - split.
    + intros (t & ? & -> & [] & ? & -> & -> & _). by exists [t].
    + intros (times & Hl & ->). destruct times as [|t [|]]; [done| |done]. exists t. eexists. split; [done|].
      exists tt. by eexists.
  - split.
    + intros (t & ? & -> & [] & ? & -> & H). apply IH in H as (times & Hl & ->).
      exists (t :: times). split; [simpl; by rewrite Hl|done].
    + intros (times & Hl & ->). destruct times as [|t times]; [done|]. exists t. eexists. split; [done|].
      exists tt. eexists. split; [done|]. apply IH. exists times. split; [|done]. by injection Hl.
Qed.
