(* ===== verification/Worker.v ===== *)
(** The running worker: what the startup establishes, and what the routes of a started
    worker do with a request, down to the clients behind the interfaces. *)
From stdpp Require Import base gmap strings list.
From Stdlib Require Import ZArith Lia Ascii String.
From S2P Require Import Prelude.
From S2P Require Import GoStrings.
From S2P Require Import GoConv.
From S2P Require Import GoUrl.
From S2P Require Import GoFloat.
From S2P Require Import GoUnmarshal.
From S2P Require Import Types.
From S2P Require Import Prog.
From S2P Require Import Interp.
From S2P Require Import Config.
From S2P Require Import ConfigFacts.
From S2P Require Import Payee.
From S2P Require Import Backend.
From S2P Require Import Tokenizer.
From S2P Require Import Module.
From S2P Require Import Multipart.
From S2P Require Import ResponseWriter.
From S2P Require Import Middleware.
From S2P Require Import Session.
From S2P Require Import Slot.
From S2P Require Import Stack.
From S2P Require Import Env.
From S2P Require Import Mux.
From S2P Require Import Handlers.
From S2P Require Import Main.
From S2P Require ChatCompletions.
From S2P Require Embeddings.
From S2P Require ImagesGenerations.
From S2P Require ImagesEdits.
From S2P Require AudioSpeech.
From S2P Require AudioTranscriptions.

Section Worker.
Context (int64_of_large : float64 -> Z).
Context (os_Open : string -> res string) (yaml_Decode : nat -> string -> res yamlConfig).
Context (grpc_NewClient : string -> res unit).
Context {Enc : Type} (default_encoding : res Enc) (first_encoding : string -> res Enc).
Context (tiktoken_Encode : Enc -> string -> list Z).
Context (version go_version : string).

Abbreviation module_for := (Main.module_for int64_of_large).
Abbreviation worker_tokenizer :=
  (Main.worker_tokenizer default_encoding first_encoding tiktoken_Encode).
Abbreviation build_mux := (Main.build_mux int64_of_large
  default_encoding first_encoding tiktoken_Encode).
Abbreviation ready := (Main.ready int64_of_large
  default_encoding first_encoding tiktoken_Encode).
Abbreviation startup := (Main.startup int64_of_large os_Open yaml_Decode
  grpc_NewClient default_encoding first_encoding tiktoken_Encode version go_version).

(** * The routes of the worker *)

#[export] Instance worker_tokenizer_laws rec : TokenizerLaws (worker_tokenizer rec).
Proof. apply WithMetrics_laws, tiktoken_laws. by split. Qed.

Ltac laws := first
  [ apply ChatCompletions.chat_laws; assumption | apply Embeddings.embeddings_laws; assumption
  | apply ImagesGenerations.images_generations_laws | apply AudioSpeech.audio_speech_laws
  | apply ImagesEdits.images_edits_laws | apply AudioTranscriptions.audio_transcriptions_laws ].

(** A module the switch picks: its capability names its path. *)
Lemma module_for_Some capability tok rec md :
  TokenizerLaws tok -> module_for capability tok iface_backend rec = Some md ->
  mod_Capability md = capability /\ mod_HTTPMethod md = "POST" /\
  capability = "openai:" +:+ mod_HTTPPath md /\ mod_HTTPPath md <> "/v1/payment/ticket-params" /\
  ModuleLaws md.
Proof.
  intros Htok. unfold Main.module_for.
  repeat (match goal with |- (if String.eqb capability ?c then _ else _) = _ -> _ =>
    destruct (String.eqb_spec capability c) as [->|_] end;
    [intros [= <-]; split_and!; [reflexivity|reflexivity|reflexivity|discriminate|laws]|]).
  done.
Qed.

(** The modules of a catalog, in its order. *)
Definition modules_of (entries : list CapabilityEntry) (rec : Recorder) : list Module :=
  omap (fun e => module_for (ce_Capability e) (worker_tokenizer rec) iface_backend rec) entries.

Definition unpaid_routes (cfg : Config) (m : Mux) : list registration := [
  UnpaidRoute "GET" "/health" (fun _ => healthHandler cfg m);
  UnpaidRoute "GET" "/registry/offerings" (fun _ => registryOfferingsHandler cfg);
  UnpaidRoute "POST" "/v1/payment/ticket-params" (fun _ => ticketParamsHandler cfg) ].

Definition worker_routes (cfg : Config) (rec : Recorder) : list registration :=
  unpaid_routes cfg (WithRecorder (Some rec) (NewMux cfg)) ++
  (PaidRoute <$> modules_of (cc_Ordered (cfg_Capabilities cfg)) rec).

Lemma register_entries_registers entries tok rec m n :
  register_entries int64_of_large entries tok iface_backend rec m n =
  m' ← registers (PaidRoute <$> omap (fun e => module_for (ce_Capability e) tok iface_backend rec) entries) m;
  Normal (m', n + Z.of_nat (length (omap (fun e => module_for (ce_Capability e) tok iface_backend rec) entries))).
Proof.
  revert m n. induction entries as [|e entries IH]; intros m n; csimpl.
  { cbn. by rewrite Z.add_0_r. }
  destruct (module_for _ _ _ _) as [md|]; [|apply IH]. csimpl. cbn [registers register].
  destruct (RegisterPaidRoute md m) as [m'|]; [|done]. cbn [mbind may_panic_bind]. rewrite IH.
  destruct (registers _ m'); [|done]. cbn [mbind may_panic_bind]. do 2 f_equal. lia.
Qed.

Lemma build_mux_registers cfg rec :
  build_mux cfg rec =
  m ← registers (worker_routes cfg rec) (WithRecorder (Some rec) (NewMux cfg));
  Normal (m, Z.of_nat (length (modules_of (cc_Ordered (cfg_Capabilities cfg)) rec))).
Proof.
  unfold Main.build_mux, registerModules, worker_routes. rewrite registers_app.
  replace (registers (unpaid_routes cfg (WithRecorder (Some rec) (NewMux cfg))) (WithRecorder (Some rec) (NewMux cfg)))
    with (RegisterUnpaidHandlers (WithRecorder (Some rec) (NewMux cfg)) cfg).
  - destruct (RegisterUnpaidHandlers _ _) as [m|]; [|done]. cbn [mbind may_panic_bind].
    by rewrite register_entries_registers.
  - unfold RegisterUnpaidHandlers, unpaid_routes. cbn [registers register].
    destruct (Register "GET" "/health" _ _) as [m1|]; [|done]. cbn [mbind may_panic_bind].
    destruct (Register _ _ _ m1) as [m2|]; [|done]. cbn [mbind may_panic_bind].
    by destruct (Register _ _ _ m2).
Qed.

(** ** The routes are distinct *)

Lemma modules_of_elem entries rec md :
  md ∈ modules_of entries rec <->
  exists e, e ∈ entries /\ module_for (ce_Capability e) (worker_tokenizer rec) iface_backend rec = Some md.
Proof.
  unfold modules_of. rewrite list_elem_of_omap. done.
Qed.

Lemma modules_of_key entries rec md :
  md ∈ modules_of entries rec ->
  reg_key (PaidRoute md) = pattern "POST" (mod_HTTPPath md) /\ mod_Capability md = "openai:" +:+ mod_HTTPPath md /\
  mod_HTTPPath md <> "/v1/payment/ticket-params" /\ ModuleLaws md /\
  exists e, e ∈ entries /\ ce_Capability e = mod_Capability md.
Proof.
  intros H. apply modules_of_elem in H as (e & He & Hm).
  destruct (module_for_Some _ _ _ _ (worker_tokenizer_laws rec) Hm) as (Hc & Hmeth & Hpath & Hne & Hl).
  cbn [reg_key]. rewrite Hmeth, Hc. split_and!; eauto.
Qed.

Lemma str_app_inj s a b : s +:+ a = s +:+ b -> a = b.
Proof. induction s as [|c s IH]; simpl; intros H; [done|]. injection H. auto. Qed.

Lemma modules_of_capabilities entries rec :
  NoDup (ce_Capability <$> entries) -> NoDup (mod_Capability <$> modules_of entries rec).
Proof.
  induction entries as [|e entries IH]; csimpl; intros Hn; [constructor|].
  apply NoDup_cons in Hn as [He Hn].
  unfold modules_of. csimpl. destruct (module_for _ _ _ _) as [md|] eqn:Hm; [|by apply IH]. csimpl.
  apply NoDup_cons. split; [|by apply IH]. intros Hin. apply list_elem_of_fmap in Hin as (md' & E & Hmd').
  destruct (modules_of_key _ _ _ Hmd') as (_ & _ & _ & _ & e' & He' & Hc').
  apply (module_for_Some _ _ _ _ (worker_tokenizer_laws rec)) in Hm as (Hc & _).
  apply He. apply list_elem_of_fmap. exists e'. split; [congruence|done].
Qed.

Lemma worker_routes_distinct cfg rec :
  catalog_distinct (cc_Ordered (cfg_Capabilities cfg)) -> NoDup (reg_key <$> worker_routes cfg rec).
Proof.
  intros [Hc _]. apply (modules_of_capabilities _ rec) in Hc.
  unfold worker_routes. rewrite fmap_app, <- list_fmap_compose. apply NoDup_app. split_and!.
  - apply (bool_decide_eq_true_1 _). vm_compute. reflexivity.
  - intros key Hu Hp. apply list_elem_of_fmap in Hp as (md & -> & Hmd).
    destruct (modules_of_key _ _ _ Hmd) as (Hk & _ & Hne & _). unfold compose in Hu. rewrite Hk in Hu.
    unfold pattern in Hu. simpl in Hu. apply list_elem_of_In in Hu.
    destruct Hu as [Hu|[Hu|[Hu|[]]]]; [done|done|]. apply Hne. by injection Hu.
  - apply NoDup_fmap_2_strong; [|by eapply NoDup_fmap_1].
    intros md md' Hmd Hmd' E. unfold compose in E.
    destruct (modules_of_key _ _ _ Hmd) as (Hk & Hp & _). destruct (modules_of_key _ _ _ Hmd') as (Hk' & Hp' & _).
    rewrite Hk, Hk' in E. apply str_app_inj, str_app_inj in E.
    assert (mod_Capability md = mod_Capability md') as Ecap by congruence.
    apply list_elem_of_lookup in Hmd as [i Hi]. apply list_elem_of_lookup in Hmd' as [j Hj].
    assert (i = j) as <- by (eapply (NoDup_lookup _ _ _ (mod_Capability md)); [exact Hc|..];
      rewrite list_lookup_fmap; [by rewrite Hi|rewrite Hj; simpl; congruence]).
    congruence.
Qed.

(** The mux of a catalog without duplicates is built, with exactly its routes. *)
Lemma build_mux_total cfg rec :
  catalog_distinct (cc_Ordered (cfg_Capabilities cfg)) ->
  exists m, build_mux cfg rec = Normal (m, Z.of_nat (length (modules_of (cc_Ordered (cfg_Capabilities cfg)) rec))) /\
    mux_of cfg rec (worker_routes cfg rec) m.
Proof.
  intros Hd. apply (worker_routes_distinct _ rec) in Hd.
  destruct (registers_total cfg rec [] _ (worker_routes cfg rec) (mux_of_new cfg rec) Hd) as [m Hm].
  exists m. rewrite build_mux_registers, Hm. split; [done|].
  by apply (registers_of cfg rec [] _ _ _ (mux_of_new cfg rec) Hm).
Qed.

(** * The startup *)

Lemma Tr_metered_rpc {A} rec method (p : prog (res A)) t r :
  Tr (metered_rpc rec method p) t r -> exists t1 t0 t2, t = t1 ++ t0 ++ t2 /\ Tr p t0 r.
Proof.
  intros H. apply Tr_event in H as (n & t' & -> & H).
  apply Tr_bind in H as (t0 & t2 & r' & -> & H0 & H). exists [Ev ENow n], t0, t2. split; [done|].
  apply Tr_bind in H as (? & ? & ? & -> & _ & H). apply Tr_bind in H as (? & ? & ? & -> & _ & H).
  apply Tr_bind in H as (? & ? & ? & -> & _ & [-> ->]). done.
Qed.

(** The gRPC call behind a call of the worker's payee client. *)
Lemma Tr_worker_payee rec c t a :
  Tr (worker_payee rec c) t a -> exists t1 t0 t2, t = t1 ++ t0 ++ t2 /\ Tr (grpcClient c) t0 a.
Proof. destruct c; apply Tr_metered_rpc. Qed.

(** What the cross-check saw when it let the worker start. *)
Lemma cross_check_passed cfg rec t :
  Tr (cross_check cfg rec) t None -> ws_VerifyDaemonConsistencyOnStart (cfg_Worker cfg) = true ->
  exists caps, In (Ev (EGrpc GrpcListCapabilities) (Ok caps)) t /\
    ((fun c => {| dc_Capability := pb_Capability c; dc_WorkUnit := pb_WorkUnit c;
                  dc_Offerings := project_offering_price <$> pb_Offerings c |}) <$> caps)
    = catalog_view <$> cc_Ordered (cfg_Capabilities cfg).
Proof.
  unfold cross_check. intros H Hv. rewrite Hv in H.
  apply Tr_bind in H as (s & t' & r & -> & Hs & H).
  apply (Tr_worker_payee rec ListCapabilities) in Hs as (t1 & t0 & t2 & -> & Hs).
  destruct Hs as (resp & s' & -> & -> & Hr).
  destruct resp as [caps|e]; cbn [wrap_err fmap res_fmap] in Hr; subst r.
  - exists caps. split; [rewrite !in_app_iff; left; right; left; by left|].
    destruct (VerifyDaemonCatalog _ _) as [[]|e] eqn:E; [by apply verify_catalogs in E|].
    destruct H as (? & ? & _ & _ & H). discriminate H.
  - destruct H as (? & ? & _ & _ & H). discriminate H.
Qed.

Lemma ready_worker cfg rec t w :
  catalog_distinct (cc_Ordered (cfg_Capabilities cfg)) ->
  Tr (ready cfg rec) t (Normal (inr w)) ->
  wk_cfg w = cfg /\ wk_recorder w = rec /\ mux_of cfg rec (worker_routes cfg rec) (wk_mux w) /\
  missingCapabilityModules (wk_mux w) cfg = [].
Proof.
  intros Hd. destruct (build_mux_total cfg rec Hd) as (m & Hm & Hof). unfold Main.ready. rewrite Hm.
  destruct (_ =? 0); [by intros (? & ? & _ & _ & H)|].
  destruct (missingCapabilityModules m cfg) eqn:Emiss; [|by intros (? & ? & _ & _ & H)].
  intros [_ H]. simplify_eq. done.
Qed.
Lemma ready_returns cfg rec :
  catalog_distinct (cc_Ordered (cfg_Capabilities cfg)) ->
  returns (ready cfg rec) (fun x => x = Normal (inl 1) \/ exists w, x = Normal (inr w)).
Proof.
  intros Hd. destruct (build_mux_total cfg rec Hd) as (m & Hm & _). unfold Main.ready. rewrite Hm.
  destruct (_ =? 0); [by left|]. destruct (missingCapabilityModules m cfg); [right; by eexists|by left].
Qed.

(** A startup that succeeds went through every step. *)
Lemma startup_steps args t w :
  Tr (startup args) t (Normal (inr w)) ->
  exists fl cfg rec t1 t2, args = Some fl /\ Load os_Open yaml_Decode (fl_config fl) = Ok cfg /\
    (forall x, In x t1 -> In x t) /\ Tr (cross_check cfg rec) t1 None /\ Tr (ready cfg rec) t2 (Normal (inr w)).
Proof.
  unfold Main.startup. destruct args as [fl|]; [|by intros [_ H]].
  destruct (validateMetricsListen _) as [[]|e]; [|by intros [_ H]].
  destruct (Load _ _ _) as [cfg|e] eqn:Hload; [|by intros (? & ? & _ & _ & H)].
  intros H. apply Tr_event in H as (? & s1 & -> & H).
  apply Tr_bind in H as (s2 & s3 & ? & -> & _ & H). apply Tr_bind in H as (s4 & s5 & ? & -> & _ & H).
  destruct (Dial _ _) as [[]|e]; [|by destruct H as (? & ? & _ & _ & H)].
  apply Tr_bind in H as (s6 & s7 & code & -> & Hcheck & H).
  destruct code as [code|]; [by destruct H as [_ H]|].
  exists fl, cfg, (if str_nil (fl_metrics_listen fl) then NewNoop else LiveRecorder), s6, s7.
  split_and!; try done. intros y Hy. right. rewrite !in_app_iff. tauto.
Qed.

(** C16. Fail closed.  When the process starts serving, its configuration was
    loaded and validated; unless the operator switched the cross-check off, the
    daemon was asked for its catalog and answered, as projected from the gRPC
    message, exactly the worker's own; and every configured capability is bound,
    at its own path, to the payment middleware around its module. *)
Theorem startup_fail_closed (args : option flags) (t : list event) (w : worker) :
  Tr (startup args) t (Normal (inr w)) ->
  (exists fl, args = Some fl /\ Load os_Open yaml_Decode (fl_config fl) = Ok (wk_cfg w)) /\
  (ws_VerifyDaemonConsistencyOnStart (cfg_Worker (wk_cfg w)) = true ->
   exists caps, In (Ev (EGrpc GrpcListCapabilities) (Ok caps)) t /\
     ((fun c => {| dc_Capability := pb_Capability c; dc_WorkUnit := pb_WorkUnit c;
                   dc_Offerings := project_offering_price <$> pb_Offerings c |}) <$> caps)
     = catalog_view <$> cc_Ordered (cfg_Capabilities (wk_cfg w))) /\
  (forall e, e ∈ cc_Ordered (cfg_Capabilities (wk_cfg w)) ->
     exists md, mod_Capability md = ce_Capability e /\
       mux_find (mx_inner (wk_mux w)) (pattern "POST" (mod_HTTPPath md))
       = Some (paid_route (wk_cfg w) (wk_recorder w) md)).
Proof.
  intros H. apply startup_steps in H as (fl & cfg & rec & t1 & t2 & -> & Hload & Hin & Hcheck & Hready).
  destruct (loaded_lookup _ _ _ _ Hload) as [Hd _].
  apply ready_worker in Hready as (-> & -> & Hof & Hmiss); [|done]. split_and!; [eauto|..].
  - intros Hv. destruct (cross_check_passed _ _ _ Hcheck Hv) as (caps & Hc & E). eauto.
  - intros e He. assert (HasPaidCapability (wk_mux w) (ce_Capability e) = true) as Hhas.
    { destruct (HasPaidCapability (wk_mux w) (ce_Capability e)) eqn:E; [done|exfalso].
      assert (In (ce_Capability e) (missingCapabilityModules (wk_mux w) cfg)) as Hmissing.
      { unfold missingCapabilityModules. apply filter_In. rewrite E. split; [|done].
        apply in_map_iff. exists e. split; [done|]. by apply list_elem_of_In. }
      by rewrite Hmiss in Hmissing. }
    unfold HasPaidCapability in Hhas. apply bool_decide_eq_true in Hhas.
    rewrite (mo_capabilities _ _ _ _ Hof) in Hhas. apply list_elem_of_bind in Hhas as (x & Hc & Hx).
    destruct x as [|md]; apply list_elem_of_In in Hc; [done|]. destruct Hc as [Hc|[]].
    exists md. split; [done|]. apply (mux_of_find _ _ _ _ _ _ Hof). exists (PaidRoute md).
    unfold worker_routes in Hx. rewrite elem_of_app in Hx. destruct Hx as [Hx|Hx].
    { apply list_elem_of_In in Hx. by destruct Hx as [Hx|[Hx|[Hx|[]]]]. }
    split_and!; [unfold worker_routes; rewrite elem_of_app; by right| |done].
    apply list_elem_of_fmap in Hx as (md' & E & Hx). injection E as ->.
    by destruct (modules_of_key _ _ _ Hx) as (-> & _).
Qed.

(** C23. The startup always comes to an end without a panic: whatever the files,
    the daemon and the flags, it either exits with code 1 or 2 or hands over a
    worker; in particular no two routes of a validated configuration collide. *)
Theorem startup_never_panics (args : option flags) (t : list event) (x : may_panic (Z + worker)) :
  Tr (startup args) t x ->
  x = Normal (inl 1) \/ x = Normal (inl 2) \/ exists w, x = Normal (inr w).
Proof.
  refine (returns_Tr _ (fun x => x = Normal (inl 1) \/ x = Normal (inl 2) \/ exists w, x = Normal (inr w)) t x _).
  unfold Main.startup.
  destruct args as [fl|]; [|by right; left]. destruct (validateMetricsListen _) as [[]|e]; [|by right; left].
  destruct (Load _ _ _) as [cfg|e] eqn:Hload; [|by intros ?; left].
  destruct (loaded_lookup _ _ _ _ Hload) as [Hd _].
  apply safe_event. intros _. set (rec := if str_nil _ then _ else _).
  apply (returns_bind _ _ (fun _ => True)); [by destruct rec|intros _ _].
  apply (returns_bind _ _ (fun _ => True)); [by destruct rec|intros _ _].
  destruct (Dial _ _) as [[]|e]; [|by intros ?; left].
  apply (returns_bind _ _ (fun code => code = None \/ code = Some 1)).
  - unfold cross_check. destruct (ws_VerifyDaemonConsistencyOnStart _); [|by intros ?; left].
    apply (returns_bind _ _ (fun _ => True)).
    { unfold returns. eapply (emits_safe _ (fun _ => True)); try done. apply emits_True. }
    intros [caps|e] _; [|by intros ?; right].
    destruct (VerifyDaemonCatalog _ _) as [[]|e]; intros ?; [by left|by right].
  - intros code [-> | ->]; [|by left]. eapply safe_mono; [|by apply ready_returns].
    intros _ y [->|[w ->]]; [by left|right; right; by exists w].
Qed.
End Worker.

(** * The effects of the routes *)

(** Effects at the interfaces: no gRPC call, no HTTP request. *)
Definition interface_eff (e : eff) : Prop := match e with EGrpc _ | EHttpDo _ => False | _ => True end.
(** What an unpaid route does, besides asking the daemon for ticket parameters. *)
Definition unpaid_eff (e : eff) : Prop :=
  match e with
  | ESetHeader _ _ | EWriteHeader _ | EWrite _ | ESemLen | EPayee (GetTicketParams _) => True
  | _ => False
  end.

Lemma emits_net_writer (P : eff -> Prop) status code detail :
  (forall e, unpaid_eff e -> P e) -> emits P (writeJSONError tt status code detail).
Proof. intros HP. repeat first [apply HP; exact I | split | intros ?]. Qed.

(** The middleware itself stays at the interfaces, and never calls a backend. *)
Definition middleware_eff (e : eff) : Prop :=
  match e with EGrpc _ | EHttpDo _ | EBackend _ => False | _ => True end.
Lemma middleware_interface deps flusher r : emits middleware_eff (paymentMiddleware deps flusher r).
Proof.
  unfold paymentMiddleware, reject_capacity, release_slot, admitted, request_metrics, classifyOutcome,
    since, now, with_defer.
  destruct (d_sem deps); emits_solve; try (eapply emits_mono; [|apply pipeline_body_eff]; by intros []).
Qed.

Lemma paid_handler_interface (m : Module) `{!ModuleLaws m} deps r flusher :
  emits interface_eff (paid_handler m deps r flusher).
Proof.
  apply (emits_interp middleware_eff); [|apply middleware_interface].
  intros e He. destruct e; try (by destruct He); try (by split).
  eapply emits_mono; [|by apply module_serve_eff]. by intros [].
Qed.

Lemma unpaid_http_Error msg code : emits unpaid_eff (http_Error tt msg code).
Proof. unfold http_Error. repeat first [exact I | split | intros ?]. Qed.
Lemma unpaid_json_Encode text : emits unpaid_eff (json_Encode tt text).
Proof. unfold json_Encode. repeat first [exact I | split | intros ?]. Qed.
Lemma unpaid_error status code detail : emits unpaid_eff (writeJSONError tt status code detail).
Proof. by apply emits_net_writer. Qed.

Lemma unpaid_auth r token : emits unpaid_eff (requireBearerAuth r token).
Proof.
  unfold requireBearerAuth. destruct (str_nil token); [exact I|]. destruct (negb _); [|exact I].
  apply emits_bind; [apply unpaid_error|by intros ?].
Qed.
Lemma unpaid_health cfg m r : emits unpaid_eff (healthHandler cfg m r).
Proof.
  unfold healthHandler. apply emits_bind; [by split|intros _]. apply emits_bind; [by split|intros n].
  apply unpaid_json_Encode.
Qed.
Lemma unpaid_offerings cfg r : emits unpaid_eff (registryOfferingsHandler cfg r).
Proof.
  unfold registryOfferingsHandler. apply emits_bind; [apply unpaid_auth|intros []; [|exact I]].
  apply emits_bind; [by split|intros _]. destruct (json_of_offerings _); [apply unpaid_json_Encode|exact I].
Qed.
Lemma unpaid_ticket_params cfg r : emits unpaid_eff (ticketParamsHandler cfg r).
Proof.
  unfold ticketParamsHandler. apply emits_bind; [apply unpaid_auth|intros []; [|exact I]].
  cbn [negb]. destruct (Decode_strict _ _ _) as [[req|e] rest]; [|apply unpaid_error].
  destruct (ensureSingleJSONDocument rest) as [[]|e]; [|apply unpaid_error].
  destruct (parseTicketParamsRequest req) as [d|e]; [|apply unpaid_error].
  apply emits_bind; [by split|]. intros [tp|e].
  - apply emits_bind; [by split|intros _]. apply unpaid_json_Encode.
  - unfold writeTicketParamsProxyError. destruct (status_Code e); apply unpaid_error.
Qed.

(** * Dispatch *)

(** A request reaches a paid route at the path of its module, with POST, or a
    handler that does what unpaid routes do. *)
Lemma dispatch_cases cfg rec routes m method path flusher r :
  mux_of cfg rec routes m -> IndexByte method " " = None ->
  (forall md, PaidRoute md ∈ routes -> reg_key (PaidRoute md) = pattern "POST" (mod_HTTPPath md)) ->
  (forall x f, x ∈ routes -> match x with
                             | UnpaidRoute _ _ h => emits unpaid_eff (h f r)
                             | PaidRoute _ => True
                             end) ->
  (exists md, PaidRoute md ∈ routes /\ method = "POST" /\ path = mod_HTTPPath md /\
     Handler m method path flusher r = paid_route cfg rec md flusher r) \/
  emits unpaid_eff (Handler m method path flusher r).
Proof.
  intros Hof Hm Hkey Hunpaid. unfold Handler, ServeMux_Handler.
  assert (Hfind : forall method' h, IndexByte method' " " = None ->
    mux_find (mx_inner m) (pattern method' path) = Some h ->
    (exists md, PaidRoute md ∈ routes /\ method' = "POST" /\ path = mod_HTTPPath md /\
       h = paid_route cfg rec md) \/ emits unpaid_eff (h flusher r)).
  { intros method' h Hm' H. apply (mux_of_find _ _ _ _ _ _ Hof) in H as (x & Hx & Hk & ->).
    destruct x as [? ? h|md]; [right; exact (Hunpaid _ flusher Hx)|left].
    rewrite (Hkey md Hx) in Hk. apply pattern_inj in Hk as [-> ->]; [eauto 10|done|done]. }
  destruct (mux_find (mx_inner m) (pattern method path)) as [h|] eqn:E.
  { destruct (Hfind _ _ Hm E) as [(md & H1 & H2 & H3 & ->)|H]; eauto 10. }
  destruct (String.eqb method "HEAD").
  - destruct (mux_find (mx_inner m) (pattern "GET" path)) as [h|] eqn:E'.
    + right. destruct (Hfind "GET" h eq_refl E') as [(md & _ & [=] & _)|H]; done.
    + right. destruct (methods_of _ _); [apply unpaid_http_Error|].
      apply emits_bind; [by split|intros _; apply unpaid_http_Error].
  - right. destruct (methods_of _ _); [apply unpaid_http_Error|].
    apply emits_bind; [by split|intros _; apply unpaid_http_Error].
Qed.

(** * The implementations at the root *)

Lemma emits_metered {A} (P : eff -> Prop) rec method (p : prog (res A)) :
  P ENow -> (forall c, P (ERec c)) -> emits P p -> emits P (metered_rpc rec method p).
Proof.
  intros Hn Hr Hp. unfold metered_rpc, since, now. apply emits_bind; [by split|intros start].
  apply emits_bind; [exact Hp|intros r]. apply emits_bind; [by apply emits_rec_do|intros _].
  apply emits_bind; [by split|intros d]. apply emits_bind; [by apply emits_rec_do|by intros].
Qed.
Lemma worker_payee_no_http rec c :
  emits (fun e => match e with EHttpDo _ => False | _ => True end) (worker_payee rec c).
Proof. destruct c; apply emits_metered; try done; by repeat first [exact I | split | intros ?]. Qed.

(** The fetch client sends HTTP requests and closes streams; a request of a backend
    call goes to its URL with its body. *)
Definition fetch_eff (c : backend_call) (e : eff) : Prop :=
  match e with EHttpDo rq => (hq_url rq, hq_body rq) = backend_target c | EStreamClose => True | _ => False end.
Lemma fetch_emits c : emits (fetch_eff c) (fetchClient c).
Proof.
  destruct c as [url body|url ct body|url body]; cbn [fetchClient]; unfold fetch_DoJSON, fetch_DoRaw, fetch_DoStream, NewRequest;
    (destruct (url_Parse url); cbn [mbind res_bind]; [|exact I]);
    (apply emits_bind; [by split|intros [resp|e]; [cbv beta iota|exact I]]).
  - apply emits_bind; [by destruct (stream_ReadAll (hp_body resp)) as [buf [e|]]|by split].
  - apply emits_bind; [by destruct (stream_ReadAll (hp_body resp)) as [buf [e|]]|by split].
  - by destruct (_ || _).
Qed.
Lemma fetch_target c s a rq ans :
  Tr (fetchClient c) s a -> In (Ev (EHttpDo rq) ans) s -> (hq_url rq, hq_body rq) = backend_target c.
Proof.
  intros Ht Hin. pose proof (emits_Tr _ _ _ _ (fetch_emits c) Ht) as H. rewrite List.Forall_forall in H. exact (H _ Hin).
Qed.

(** An accepted call of the payee interface is an accepted gRPC call. *)
Lemma expands_event h t0 t e r :
  In (Ev e r) t0 -> expands h t0 t -> exists s, Tr (h e) s r /\ forall x, In x s -> In x t.
Proof.
  revert t. induction t0 as [|[e' r'] t0 IH]; [done|]. intros t [E|Hin] (s & t' & -> & Hs & Ht).
  - change (match Ev e' r' with Ev e r => Tr (h e) s r end) in Hs. rewrite E in Hs.
    exists s. split; [exact Hs|]. intros x Hx. apply in_app_iff. by left.
  - destruct (IH _ Hin Ht) as (s' & H1 & H2). exists s'. split; [done|].
    intros x Hx. apply in_app_iff. right. auto.
Qed.

(** * The worker as a whole *)

Section Served.
Context (int64_of_large : float64 -> Z).
Context (os_Open : string -> res string) (yaml_Decode : nat -> string -> res yamlConfig).
Context (grpc_NewClient : string -> res unit).
Context {Enc : Type} (default_encoding : res Enc) (first_encoding : string -> res Enc).
Context (tiktoken_Encode : Enc -> string -> list Z).
Context (version go_version : string).

Abbreviation startup := (Main.startup int64_of_large os_Open yaml_Decode
  grpc_NewClient default_encoding first_encoding tiktoken_Encode version go_version).
Abbreviation worker_routes := (Worker.worker_routes int64_of_large
  default_encoding first_encoding tiktoken_Encode).

(** A started worker routes its paid routes through the middleware, and nothing
    else reaches a backend. *)
Lemma worker_dispatch args ts w method path flusher r :
  Tr (startup args) ts (Normal (inr w)) -> IndexByte method " " = None ->
  (exists md, ModuleLaws md /\ mod_Capability md = "openai:" +:+ path /\ mod_HTTPPath md = path /\ method = "POST" /\
     Handler (wk_mux w) method path flusher r = paid_route (wk_cfg w) (wk_recorder w) md flusher r /\
     module_for int64_of_large (mod_Capability md)
       (worker_tokenizer default_encoding first_encoding tiktoken_Encode (wk_recorder w))
       iface_backend (wk_recorder w) = Some md) \/
  emits unpaid_eff (Handler (wk_mux w) method path flusher r).
Proof.
  intros Hs Hm. apply startup_steps in Hs as (fl & cfg & rec & t1 & t2 & -> & Hload & _ & _ & Hready).
  destruct (loaded_lookup _ _ _ _ Hload) as [Hd _].
  apply ready_worker in Hready as (-> & -> & Hof & _); [|done].
  assert (Hmods : forall md, PaidRoute md ∈ worker_routes cfg rec ->
    md ∈ modules_of int64_of_large default_encoding first_encoding
           tiktoken_Encode (cc_Ordered (cfg_Capabilities cfg)) rec).
  { intros md Hin. unfold Worker.worker_routes in Hin. apply elem_of_app in Hin as [Hin|Hin].
    - apply list_elem_of_In in Hin. by destruct Hin as [E|[E|[E|[]]]].
    - apply list_elem_of_fmap in Hin as (md' & E & Hin). by injection E as ->. }
  destruct (dispatch_cases cfg rec _ _ method path flusher r Hof Hm) as [(md & Hin & -> & -> & ->)|H]; [| | |by right].
  - intros md Hin. by destruct (modules_of_key _ _ _ _ _ _ _ (Hmods md Hin)) as [-> _].
  - intros [m p h|md] f Hin; [|done]. unfold Worker.worker_routes in Hin. apply elem_of_app in Hin as [Hin|Hin].
    + apply list_elem_of_In in Hin. destruct Hin as [E|[E|[E|[]]]]; injection E as <- <- <-;
        [apply unpaid_health|apply unpaid_offerings|apply unpaid_ticket_params].
    + apply list_elem_of_fmap in Hin as (md' & E & _). discriminate E.
  - left. pose proof (Hmods md Hin) as Hmd. destruct (modules_of_key _ _ _ _ _ _ _ Hmd) as (_ & Hc & _ & Hl & _).
    apply modules_of_elem in Hmd as (e & _ & Hfor). exists md. split_and!; try done.
    destruct (module_for_Some _ _ _ _ _ (worker_tokenizer_laws _ _ _ rec) Hfor) as (-> & _). done.
Qed.

(** An HTTP request of the process is one a backend call of a route makes. *)
Lemma http_behind_backend rec (p : prog unit) t1 rq ans t2 u :
  emits interface_eff p -> Tr (interp (root_handler rec) p) (t1 ++ Ev (EHttpDo rq) ans :: t2) u ->
  exists t0a c b t0b t1a s s', Tr p (t0a ++ Ev (EBackend c) b :: t0b) u /\
    (hq_url rq, hq_body rq) = backend_target c /\ expands (root_handler rec) t0a t1a /\ t1 = t1a ++ s /\
    Tr (fetchClient c) (s ++ Ev (EHttpDo rq) ans :: s') b /\
    expands (root_handler rec) (t0a ++ Ev (EBackend c) b :: t0b) (t1 ++ Ev (EHttpDo rq) ans :: t2).
Proof.
  intros Hp Ht. apply interp_Tr in Ht as (t0 & Ht0 & Hexp).
  pose proof Hexp as Hall.
  apply expands_split in Hexp as (t0a & e & b & t0b & t1a & s1 & s2 & -> & Hseg & Hexp & ->).
  assert (Hin : In (Ev (EHttpDo rq) ans) (s1 ++ Ev (EHttpDo rq) ans :: s2)) by (apply in_app_iff; right; by left).
  assert (He : interface_eff e).
  { pose proof (emits_Tr _ _ _ _ Hp Ht0) as H. rewrite List.Forall_forall in H.
    apply (H (Ev e b)). apply in_app_iff. right. by left. }
  assert (Htrig : Tr (trigger e) (s1 ++ Ev (EHttpDo rq) ans :: s2) b -> e = EHttpDo rq).
  { intros (a & t' & E & -> & _). rewrite E in Hin. destruct Hin as [Hin|[]]. congruence. }
  destruct e; try (specialize (Htrig Hseg); congruence); try done.
  - pose proof (emits_Tr _ _ _ _ (worker_payee_no_http rec c) Hseg) as H.
    rewrite List.Forall_forall in H. by destruct (H _ Hin).
  - exists t0a, c, b, t0b, t1a, s1, s2. split_and!; try done. by eapply fetch_target.
Qed.
End Served.

(** * Witnesses: a worker that starts and serves one request *)

Definition demo_args : option flags := Some {|
  fl_config := "worker.yaml"; fl_log_level := "info"; fl_metrics_listen := ":9093"; fl_max_series := 10000 |}.
Definition demo_startup := startup (fun _ => 0) demo_open demo_decode (fun _ => Ok tt)
  (Ok "cl100k_base") demo_first_encoding demo_encode "dev" "go1.25" demo_args.
Definition demo_startup_trace : list event := trace_of demo_env demo_startup env0.
Definition no_worker : worker := {|
  wk_cfg := demo_config; wk_recorder := NewNoop; wk_mux := NewMux demo_config |}.
Definition worker_of (x : may_panic (Z + worker)) : worker :=
  match x with Normal (inr w) => w | _ => no_worker end.
Definition is_worker (x : may_panic (Z + worker)) : bool :=
  match x with Normal (inr _) => true | _ => false end.
Lemma worker_of_eq x : is_worker x = true -> x = Normal (inr (worker_of x)).
Proof. by destruct x as [[|]|]. Qed.
Definition demo_worker : worker := worker_of (result_of demo_env demo_startup env0).

Lemma demo_started : Tr demo_startup demo_startup_trace (Normal (inr demo_worker)).
Proof.
  unfold demo_worker. rewrite <- worker_of_eq by (vm_compute; reflexivity). apply trace_of_Tr.
Qed.

Lemma startup_fail_closed_witness :
  exists caps, In (Ev (EGrpc GrpcListCapabilities) (Ok caps)) demo_startup_trace /\
    ((fun c => {| dc_Capability := pb_Capability c; dc_WorkUnit := pb_WorkUnit c;
                  dc_Offerings := project_offering_price <$> pb_Offerings c |}) <$> caps)
    = catalog_view <$> cc_Ordered (cfg_Capabilities (wk_cfg demo_worker)).
Proof.
  destruct (startup_fail_closed _ _ _ _ _ _ _ _ _ demo_args demo_startup_trace demo_worker demo_started)
    as (_ & H & _).
  exact (H ltac:(vm_compute; reflexivity)).
Defined.

Lemma startup_never_panics_witness :
  let x := Normal (inr demo_worker) in
  x = Normal (inl 1) \/ x = Normal (inl 2) \/ exists w, x = Normal (inr w).
Proof.
  exact (startup_never_panics _ _ _ _ _ _ _ _ _ demo_args demo_startup_trace _ demo_started).
Defined.

Definition demo_serving := serve_request demo_worker "POST" "/v1/chat/completions" true demo_paid_request.
Definition demo_serving_trace : list event := trace_of demo_env demo_serving env0.
Definition is_http (x : event) : bool := match x with Ev (EHttpDo _) _ => true | _ => false end.
Fixpoint before_http (t : list event) : list event :=
  match t with [] => [] | x :: t' => if is_http x then [] else x :: before_http t' end.
Definition demo_http_before : list event := before_http demo_serving_trace.
Definition demo_http_request : http_request := {|
  hq_url := "http://10.0.0.3:8000/v1/chat/completions"; hq_headers := [("Content-Type", "application/json")];
  hq_body := "{" +:+ dq "model" +:+ ":" +:+ dq "llama-3" +:+ "}" |}.
