(* ===== verification/Listener.v ===== *)
(** [internal/runtime/metrics/listener.go]: the metrics listener.  [NewListener]
    builds its routes; [Serve] is the state machine of its three goroutines, the
    caller, the one that waits for the cancellation and the one that serves, with
    the two channels between them. *)
From stdpp Require Import base gmap strings list relations.
From Stdlib Require Import ZArith Lia Ascii String.
From S2P Require Import Prelude.
From S2P Require Import GoStrings.
From S2P Require Import GoConv.
From S2P Require Import Types.
From S2P Require Import Prog.
From S2P Require Import ResponseWriter.
From S2P Require Import Mux.

(** * Construction *)

(** [Recorder.Handler()]: the exposition of the Prometheus recorder is the
    client library's. *)
Definition Recorder_Handler (promhttp : HandlerFunc) (rec : Recorder) : HandlerFunc :=
  match rec with
  | NewNoop => fun _ _ =>
      http_Error tt "metrics listener not enabled (start the worker with --metrics-listen)" 404
  | LiveRecorder => promhttp
  end.

(** [Logger]: the adapter of a [*slog.Logger] that may be nil, and the default. *)
Inductive Logger := SlogLogger (L : bool) | discardLogger.
Definition Logger_at (lvl : log_level) (l : Logger) (msg : string) : prog unit :=
  match l with SlogLogger true => log lvl msg | SlogLogger false | discardLogger => Ret tt end.
Definition Logger_Info : Logger -> string -> prog unit := Logger_at LevelInfo.
Definition Logger_Warn : Logger -> string -> prog unit := Logger_at LevelWarn.

(** [Config]. *)
Record ListenerConfig := {
  ln_Addr : string; ln_Path : string; ln_Recorder : option Recorder; ln_Logger : option Logger;
  ln_ReadHeaderTimeout : Z }.

(** The server of a listener: its routes, patterns without a method. *)
Record Listener := { li_cfg : ListenerConfig; li_routes : serve_mux }.

Definition healthz_handler : HandlerFunc := fun _ _ =>
  _ ← trigger (EWriteHeader 200); _ ← trigger (EWrite ("ok" +:+ nl)); Ret tt.
Definition index_page (path : string) : string :=
  "openai-worker-node metrics" +:+ nl +:+ nl +:+ "endpoints:" +:+ nl +:+ "  " +:+ path +:+ nl +:+
  "  /healthz" +:+ nl.
(** The handler of [/]: every path no other pattern matches. *)
Definition index_handler (path urlPath : string) : HandlerFunc :=
  if String.eqb urlPath "/" then fun _ _ =>
    _ ← trigger (EWriteHeader 200); _ ← trigger (EWrite (index_page path)); Ret tt
  else NotFound.

Definition with_defaults (cfg : ListenerConfig) : ListenerConfig := {|
  ln_Addr := ln_Addr cfg;
  ln_Path := if str_nil (ln_Path cfg) then "/metrics" else ln_Path cfg;
  ln_Recorder := ln_Recorder cfg;
  ln_Logger := Some (default discardLogger (ln_Logger cfg));
  ln_ReadHeaderTimeout :=
    if ln_ReadHeaderTimeout cfg <=? 0 then 5000000000 else ln_ReadHeaderTimeout cfg |}.

Section Routes.
Context (promhttp : HandlerFunc).

(** [urlPath] is the path of the request the routes are asked for: the handler
    of [/] looks at it. *)
Definition listener_routes (cfg : ListenerConfig) (rec : Recorder) (urlPath : string) : may_panic serve_mux :=
  routes ← HandleFunc (ln_Path cfg) (Recorder_Handler promhttp rec) [];
  routes ← HandleFunc "/healthz" healthz_handler routes;
  HandleFunc "/" (index_handler (ln_Path cfg) urlPath) routes.

(** [NewListener]: no listener for an empty address. *)
Definition NewListener (cfg : ListenerConfig) (urlPath : string) : may_panic (res (option Listener)) :=
  if str_nil (ln_Addr cfg) then Normal (Ok None)
  else
    match ln_Recorder cfg with
    | None => Normal (Err (ErrText "metrics listener: nil Recorder"))
    | Some rec =>
        let cfg := with_defaults cfg in
        routes ← listener_routes cfg rec urlPath;
        Normal (Ok (Some {| li_cfg := cfg; li_routes := routes |}))
    end.

(** [Addr]: the address [net.Listen] bound, none before [Serve]. *)
Definition Listener_Addr (l : option Listener) (netLn : option string) : string :=
  match l, netLn with Some _, Some addr => addr | _, _ => "" end.

(** The handler of a clean path: a literal pattern, or [/] for all others. *)
Definition listener_handler (l : Listener) (path : string) : HandlerFunc :=
  match mux_find (li_routes l) path with
  | Some h => h
  | None => default NotFound (mux_find (li_routes l) "/")
  end.
End Routes.

(** ** The routes *)

(** The listener of [main]: the address, the recorder and the logger are set. *)
Definition main_listener_config (addr : string) (rec : Recorder) : ListenerConfig := {|
  ln_Addr := addr; ln_Path := ""; ln_Recorder := Some rec; ln_Logger := Some (SlogLogger true);
  ln_ReadHeaderTimeout := 0 |}.

Lemma listener_serves promhttp addr rec path :
  str_nil addr = false ->
  exists l, NewListener promhttp (main_listener_config addr rec) path = Normal (Ok (Some l)) /\
    listener_handler l path =
      (if String.eqb path "/metrics" then Recorder_Handler promhttp rec
       else if String.eqb path "/healthz" then healthz_handler
       else index_handler "/metrics" path).
Proof.
  intros Ha. unfold NewListener. simpl. rewrite Ha. eexists. split; [reflexivity|].
  unfold listener_handler, mux_find. simpl.
  repeat case_decide; subst; simpl; try done;
    repeat match goal with |- context [String.eqb ?a ?b] => destruct (String.eqb_spec a b); subst; simpl end;
    congruence || done.
Qed.
(** A path the listener uses itself makes the constructor panic. *)
Lemma listener_path_conflict promhttp rec path :
  NewListener promhttp {| ln_Addr := ":9093"; ln_Path := "/healthz"; ln_Recorder := Some rec;
                          ln_Logger := None; ln_ReadHeaderTimeout := 0 |} path =
  Panics ("pattern " +:+ Quote "/healthz" +:+ " conflicts with pattern " +:+ Quote "/healthz").
Proof. reflexivity. Qed.

(** * Serve *)

(** What [http.Server.Serve] returns: never nil. *)
Inductive srv_error := ErrServerClosed | SrvErr (e : error).

(** Where the caller is: binding, in the first select, in the second one (the
    listener has stopped), or back. *)
Inductive serve_pc := Binding | Selecting | Draining | Returned (err : option error).
(** The goroutine that waits for the cancellation and then calls [Stop]; it is
    started behind [net.Listen]. *)
Inductive stop_pc := StopNone | StopWaiting | StopShutdown | StopDone.

(** [ls_ctx]: the context is cancelled; [ls_down]: the server is shutting down;
    [ls_serving]: the serving goroutine has not sent yet; [ls_stopErr]: the
    buffer of the channel. *)
Record lstate := LState {
  ls_ctx : bool; ls_main : serve_pc; ls_stop : stop_pc; ls_down : bool; ls_serving : bool;
  ls_stopErr : option srv_error }.

(** Before [net.Listen]; nothing else runs. *)
Definition serve_init : lstate := LState false Binding StopNone false false None.

(** The value [Serve] returns for an error of the server. *)
Definition serve_return (err : srv_error) : option error :=
  match err with ErrServerClosed => None | SrvErr e => Some e end.

Inductive lstep (addr : string) : lstate -> lstate -> Prop :=
(** the environment cancels the context *)
| l_cancel m s d v c : lstep addr (LState false m s d v c) (LState true m s d v c)
(** [net.Listen] *)
| l_bind x : lstep addr (LState x Binding StopNone false false None)
                        (LState x Selecting StopWaiting false true None)
| l_bind_error x e :
    lstep addr (LState x Binding StopNone false false None)
               (LState x (Returned (Some (ErrWrap ("metrics listener: bind " +:+ addr) e))) StopNone
                  false false None)
(** [Stop]: [Shutdown] marks the server, waits at most two seconds, and its
    error is only logged *)
| l_stop m v c : lstep addr (LState true m StopWaiting false v c) (LState true m StopShutdown true v c)
| l_stopped x m d v c : lstep addr (LState x m StopShutdown d v c) (LState x m StopDone d v c)
(** the server fails, or finds it is shutting down *)
| l_serve_error x m s e :
    lstep addr (LState x m s false true None) (LState x m s false false (Some (SrvErr e)))
| l_serve_closed x m s :
    lstep addr (LState x m s true true None) (LState x m s true false (Some ErrServerClosed))
(** the first select *)
| l_recv_err x s d v err :
    lstep addr (LState x Selecting s d v (Some err)) (LState x (Returned (serve_return err)) s d v None)
| l_recv_stopped x d v c :
    lstep addr (LState x Selecting StopDone d v c) (LState x Draining StopDone d v c)
(** the second select: the error of the server, or 100 ms *)
| l_drain_err x s d v err :
    lstep addr (LState x Draining s d v (Some err)) (LState x (Returned (serve_return err)) s d v None)
| l_drain_timeout x s d v c :
    lstep addr (LState x Draining s d v c) (LState x (Returned (serve_return ErrServerClosed)) s d v c).

(** ** Properties *)

Definition returned (m : serve_pc) : bool := match m with Returned _ => true | _ => false end.

(** What is true on the way. *)
Record linv (s : lstate) : Prop := {
  lv_binding : ls_main s = Binding -> ls_stop s = StopNone /\ ls_serving s = false /\ ls_stopErr s = None;
  lv_stop : ls_stop s = StopNone -> ls_main s = Binding \/ returned (ls_main s) = true;
  lv_down : ls_down s = true <-> ls_stop s = StopShutdown \/ ls_stop s = StopDone;
  lv_ctx : ls_down s = true -> ls_ctx s = true;
  lv_closed : ls_stopErr s = Some ErrServerClosed -> ls_down s = true;
  lv_draining : ls_main s = Draining -> ls_stop s = StopDone;
  lv_nil : ls_main s = Returned None -> ls_ctx s = true }.

Lemma linv_init : linv serve_init.
Proof. by split; naive_solver. Qed.
Lemma linv_step addr s s' : linv s -> lstep addr s s' -> linv s'.
Proof.
  intros [H1 H2 H3 H4 H5 H6 H7] Hs.
  destruct Hs; simpl in *; split; simpl in *; try (intuition congruence).
  all: match goal with err : srv_error |- _ => destruct err end; simpl in *; intuition congruence.
Qed.
Lemma linv_reach addr s : rtc (lstep addr) serve_init s -> linv s.
Proof.
  revert s. apply rtc_ind_r; [apply linv_init|]. intros ??? Hs IH. by eapply linv_step.
Qed.

(** Every goroutine only moves forward. *)
Definition lsize (s : lstate) : nat :=
  ((if ls_ctx s then 0 else 1) +
   match ls_main s with Binding => 6 | Selecting => 2 | Draining => 1 | Returned _ => 0 end +
   match ls_stop s with StopNone | StopDone => 0 | StopWaiting => 2 | StopShutdown => 1 end +
   if ls_serving s then 1 else 0)%nat.
Lemma lsize_step addr s s' : lstep addr s s' -> (lsize s' < lsize s)%nat.
Proof. destruct 1; unfold lsize; simpl; lia. Qed.

(** Once it is cancelled, it can only go on to return. *)
Lemma listener_moves addr s :
  linv s -> ls_ctx s = true -> returned (ls_main s) = false -> exists s', lstep addr s s'.
Proof.
  intros Hi Hc Hr. destruct s as [x m st d v c]. simpl in *. subst x. destruct m; try done.
  - destruct (lv_binding _ Hi eq_refl) as (? & ? & ?). simpl in *. subst.
    destruct d; [destruct (proj1 (lv_down _ Hi) eq_refl); done|]. eexists. apply l_bind.
  - destruct st.
    + by destruct (lv_stop _ Hi eq_refl).
    + destruct d; [by destruct (proj1 (lv_down _ Hi) eq_refl)|]. eexists. apply l_stop.
    + eexists. apply l_stopped.
    + eexists. apply l_recv_stopped.
  - eexists. apply l_drain_timeout.
Qed.

(** [Serve] of the metrics listener, however its goroutines, its network and
    the cancellation interleave: at most seven steps are made in all, it returns nil
    only when it was cancelled, and a cancelled listener that has nothing left to do
    has returned. *)
Theorem metrics_listener_stops (addr : string) (n : nat) (s : lstate) :
  nsteps (lstep addr) n serve_init s ->
  (n <= 7)%nat /\
  (ls_main s = Returned None -> ls_ctx s = true) /\
  (ls_ctx s = true -> (forall s', ~ lstep addr s s') -> returned (ls_main s) = true).
Proof.
  intros Hn. assert (Hi : linv s) by (apply (linv_reach addr), rtc_nsteps; by exists n). split_and!.
  - assert (H : forall m s1 s2, nsteps (lstep addr) m s1 s2 -> (m + lsize s2 <= lsize s1)%nat).
    { clear. induction 1 as [|m s1 s2 s3 Hs _ IH]; [lia|]. apply lsize_step in Hs. lia. }
    apply H in Hn. unfold lsize at 2 in Hn. simpl in Hn. lia.
  - apply (lv_nil _ Hi).
  - intros Hc Hmax. destruct (returned (ls_main s)) eqn:E; [done|].
    destruct (listener_moves addr s Hi Hc E) as [s' Hs']. by destruct (Hmax s').
Qed.

(** Bound, serving, cancelled, stopped: back with nil. *)
Lemma metrics_listener_stops_witness :
  exists s, nsteps (lstep ":9093") 6 serve_init s /\ ls_main s = Returned None /\ (6 <= 7)%nat /\
    ls_ctx s = true.
Proof.
  eexists. assert (H : nsteps (lstep ":9093") 6 serve_init
    (LState true (Returned None) StopDone true true None)).
  { eapply nsteps_l; [apply l_bind|]. eapply nsteps_l; [apply l_cancel|].
    eapply nsteps_l; [apply l_stop|]. eapply nsteps_l; [apply l_stopped|].
    eapply nsteps_l; [apply l_recv_stopped|]. eapply nsteps_l; [apply l_drain_timeout|]. constructor. }
  split; [exact H|]. destruct (metrics_listener_stops ":9093" 6 _ H) as (H1 & H2 & _).
  split; [reflexivity|]. split; [exact H1|]. exact (H2 eq_refl).
Defined.
