(* ===== verification/Lifecycle.v ===== *)
(** The life of a serving worker: [internal/runtime/http/server.go] and the end
    of [run] in [cmd/openai-worker-node/main.go], with the goroutines of the server
    and of the metrics listener (Listener) and the channels they answer on. *)
From stdpp Require Import base gmap strings list relations.
From Stdlib Require Import ZArith Lia Ascii String.
From S2P Require Import Prelude.
From S2P Require Import Types.
From S2P Require Import Config.
From S2P Require Import Mux.
From S2P Require Import Listener.

(** * server.go *)

(** The server around the mux; times are nanoseconds. *)
Record Server := { srv_mux : Mux; srv_Addr : string; srv_Handler : string -> string -> HandlerFunc;
                   srv_ReadHeaderTimeout : Z }.
Definition NewServer (mux : Mux) (listen : string) : Server := {|
  srv_mux := mux; srv_Addr := listen; srv_Handler := Handler mux; srv_ReadHeaderTimeout := 5000000000 |}.

(** [Start]: the value it returns for what [ListenAndServe] returned. *)
Definition Server_Start (err : srv_error) : option error :=
  match err with ErrServerClosed => None | SrvErr e => Some (ErrWrap "http server" e) end.

(** * The end of run *)

(** The main goroutine: in the select, in [srv.Shutdown], waiting for the metrics
    listener, draining the server, gone. *)
Inductive main_pc := MSelect | MShutdown | MWaitMetrics | MWaitServer | MExit (code : Z).

(** [ps_down]: the server is shutting down; [ps_serving]: its goroutine has not
    sent yet; [ps_serverErr] and [ps_metricsErr]: the buffers of the channels;
    [ps_listener]: the metrics listener, if there is one; [ps_sent]: its goroutine
    has sent. *)
Record process := Process {
  ps_main : main_pc; ps_down : bool; ps_serving : bool; ps_serverErr : option (option error);
  ps_listener : option lstate; ps_sent : bool; ps_metricsErr : option (option error) }.

(** Both goroutines are started before the select; [metrics] tells whether
    [--metrics-listen] was given. *)
Definition process_init (metrics : bool) : process :=
  Process MSelect false true None (if metrics then Some serve_init else None) false None.

(** What is observed of a step. *)
Inductive pevent :=
| EvSignal
| EvServer (r : srv_error)
| EvMetrics (r : option error)
| EvShutdown (r : option error)
| EvTau.

(** The return value for what a channel delivers in the select. *)
Definition exit_code (r : option error) : Z := match r with Some _ => 1 | None => 0 end.

Definition cancelMetrics (l : lstate) : lstate :=
  LState true (ls_main l) (ls_stop l) (ls_down l) (ls_serving l) (ls_stopErr l).

Inductive pstep (addr : string) : process -> pevent -> process -> Prop :=
| p_server_fails m c l b d e : (forall code, m <> MExit code) ->
    pstep addr (Process m false true c l b d) (EvServer (SrvErr e))
          (Process m false false (Some (Server_Start (SrvErr e))) l b d)
| p_server_closed m c l b d : (forall code, m <> MExit code) ->
    pstep addr (Process m true true c l b d) (EvServer ErrServerClosed)
          (Process m true false (Some (Server_Start ErrServerClosed)) l b d)
| p_listener m x v c l l' b d : (forall code, m <> MExit code) ->
    lstep addr l l' -> ls_ctx l' = ls_ctx l ->
    pstep addr (Process m x v c (Some l) b d) EvTau (Process m x v c (Some l') b d)
| p_metrics_ends m x v c l d r : (forall code, m <> MExit code) -> ls_main l = Returned r ->
    pstep addr (Process m x v c (Some l) false d) (EvMetrics r) (Process m x v c (Some l) true (Some r))
(** the select *)
| p_select_server x v r l b d :
    pstep addr (Process MSelect x v (Some r) l b d) EvTau (Process (MExit (exit_code r)) x v None l b d)
| p_select_metrics x v c l b r :
    pstep addr (Process MSelect x v c l b (Some r)) EvTau (Process (MExit (exit_code r)) x v c l b None)
| p_signal x v c l b d :
    pstep addr (Process MSelect x v c l b d) EvSignal (Process MShutdown true v c l b d)
(** [srv.Shutdown] returns within 30 seconds *)
| p_shutdown_error x v c l b d e :
    pstep addr (Process MShutdown x v c l b d) (EvShutdown (Some e)) (Process (MExit 1) x v c l b d)
| p_shutdown x v c l b d :
    pstep addr (Process MShutdown x v c l b d) (EvShutdown None)
          (Process (match l with Some _ => MWaitMetrics | None => MWaitServer end) x v c
             (cancelMetrics <$> l) b d)
| p_wait_metrics x v c l b r :
    pstep addr (Process MWaitMetrics x v c l b (Some r)) EvTau (Process MWaitServer x v c l b None)
(** an error of the server is only logged here *)
| p_wait_server x v r l b d :
    pstep addr (Process MWaitServer x v (Some r) l b d) EvTau (Process (MExit 0) x v None l b d).

(** A run and what was observed of it, newest last. *)
Inductive pruns (addr : string) (s : process) : list pevent -> process -> Prop :=
| pruns_nil : pruns addr s [] s
| pruns_snoc t s1 x s2 : pruns addr s t s1 -> pstep addr s1 x s2 -> pruns addr s (t ++ [x]) s2.

(** * What is true on the way *)

Definition exited (m : main_pc) : bool := match m with MExit _ => true | _ => false end.
Definition stopping (m : main_pc) : bool :=
  match m with MWaitMetrics | MWaitServer => true | _ => false end.

(** The listener is cancelled behind the graceful shutdown, and only then. *)
Definition listener_ok (m : main_pc) (l : option lstate) : Prop :=
  match l with
  | None => m <> MWaitMetrics
  | Some l => linv l /\ (exited m = false -> ls_ctx l = stopping m)
  end.

Record pinv (s : process) : Prop := {
  pv_serving : ps_serving s = true -> ps_serverErr s = None;
  pv_server : ps_serving s = false -> ps_serverErr s <> None \/ exited (ps_main s) = true;
  pv_down : exited (ps_main s) = false -> ps_down s = true <-> ps_main s <> MSelect;
  pv_listener : listener_ok (ps_main s) (ps_listener s);
  pv_unsent : ps_sent s = false -> ps_metricsErr s = None;
  pv_sent : ps_sent s = true ->
    ps_metricsErr s <> None \/ ps_main s = MWaitServer \/ exited (ps_main s) = true }.

Lemma running_spec m : (forall code, m <> MExit code) <-> exited m = false.
Proof. split; [by destruct m as [| | | |c]; [..|intros H; destruct (H c)]|by intros H c ->]. Qed.

Lemma linv_cancel l : linv l -> ls_ctx l = false -> linv (cancelMetrics l).
Proof.
  intros Hl Hc. eapply (linv_step ""); [exact Hl|]. destruct l. simpl in *. subst. apply l_cancel.
Qed.

Lemma pinv_init metrics : pinv (process_init metrics).
Proof. pose proof linv_init. destruct metrics; split; simpl; intuition congruence. Qed.

Lemma pinv_step addr s x s' : pinv s -> pstep addr s x s' -> pinv s'.
Proof.
  intros [H1 H2 H3 H4 H5 H6] Hs.
  destruct Hs as [m c l b d e Hm|m c l b d Hm|m y v c l l' b d Hm Hl Hc|m y v c l d r Hm Hr
    |y v r l b d|y v c l b r|y v c l b d|y v c l b d e|y v c l b d|y v c l b r|y v r l b d];
    try rewrite running_spec in Hm; simpl in *.
  3: { split; simpl; try tauto. rewrite Hc. split; [eapply linv_step; [apply H4|done]|apply H4]. }
  8: { destruct l as [l0|]; simpl in *; [|split; simpl; intuition congruence].
       destruct H4 as [Hi Hc]. pose proof (linv_cancel _ Hi (Hc eq_refl)).
       split; simpl; intuition congruence. }
  all: try (destruct l as [l0|]); split; simpl in *; intuition congruence.
Qed.

(** Every step is progress. *)
Definition psize (s : process) : nat :=
  (match ps_main s with
   | MSelect => 4 | MShutdown => 3 | MWaitMetrics => 2 | MWaitServer => 1 | MExit _ => 0 end +
   (if ps_serving s then 1 else 0) + (if ps_sent s then 0 else 1) +
   match ps_listener s with None => 0 | Some l => lsize l end)%nat.

Lemma psize_step addr s x s' : pstep addr s x s' -> (psize s' < psize s)%nat.
Proof.
  destruct 1 as [| |m y v c l l' b d Hm Hl Hc| | | | | |y v c l b d| |];
    try (unfold psize; simpl; lia); try (destruct b; unfold psize; simpl; lia).
  - pose proof (lsize_step _ _ _ Hl). unfold psize. simpl. lia.
  - destruct l as [l|]; unfold psize; simpl; [|lia]. unfold lsize. simpl. destruct (ls_ctx l); lia.
Qed.

(** Behind a signal there is always something left to do, until the exit. *)
Lemma process_moves addr s :
  pinv s -> ps_main s <> MSelect -> exited (ps_main s) = false -> exists x s', pstep addr s x s'.
Proof.
  intros Hi Hm He. assert (Hrun : forall code, ps_main s <> MExit code) by by apply running_spec.
  destruct s as [m y v c l b d]. simpl in *. destruct m; try done.
  - do 2 eexists. apply p_shutdown.
  - pose proof (pv_listener _ Hi) as Hl. simpl in Hl. destruct l as [l|]; [|done]. destruct Hl as [Hl Hc].
    destruct d as [r|]; [do 2 eexists; apply p_wait_metrics|].
    destruct b; [by destruct (pv_sent _ Hi eq_refl) as [|[|]]|].
    destruct (returned (ls_main l)) eqn:Er.
    + destruct (ls_main l) as [| | |r] eqn:El; try done. do 2 eexists. by eapply p_metrics_ends.
    + destruct (listener_moves addr l Hl (Hc eq_refl) Er) as [l' Hl'].
      do 2 eexists. apply p_listener with (l' := l'); [done|done|].
      specialize (Hc eq_refl). simpl in Hc. rewrite Hc. destruct Hl'; done.
  - destruct v.
    + pose proof (pv_serving _ Hi eq_refl) as Hs. simpl in Hs. subst c.
      destruct (pv_down _ Hi eq_refl) as [_ Hd]. simpl in Hd. rewrite (Hd Hm). do 2 eexists. by apply p_server_closed.
    + destruct (pv_server _ Hi eq_refl) as [Hs|Hs]; [|done]. simpl in Hs.
      destruct c as [r|]; [|done]. do 2 eexists. apply p_wait_server.
Qed.

(** * The exit code *)

Definition shutdown_ok (m : main_pc) : bool :=
  match m with MWaitMetrics | MWaitServer | MExit 0 => true | _ => false end.

(** Why a process exits with 1. *)
Definition failure (x : pevent) : Prop :=
  match x with
  | EvServer (SrvErr _) | EvMetrics (Some _) | EvShutdown (Some _) => True
  | _ => False
  end.

(** What the trace has seen. *)
Record phist (t : list pevent) (s : process) : Prop := {
  ph_signal : EvSignal ∈ t <-> ps_down s = true;
  ph_shutdown : EvShutdown None ∈ t <-> shutdown_ok (ps_main s) = true;
  ph_server e : ps_serverErr s = Some (Some e) -> Exists failure t;
  ph_closed : ps_serverErr s = Some None -> ps_down s = true;
  ph_metrics e : ps_metricsErr s = Some (Some e) -> Exists failure t;
  ph_nil : ps_metricsErr s = Some None -> ps_main s <> MSelect;
  ph_exit c : ps_main s = MExit c -> (c = 0 /\ ps_down s = true) \/ (c = 1 /\ Exists failure t) }.

Lemma phist_init metrics : phist [] (process_init metrics).
Proof. split; simpl; try congruence; split; try congruence; intros H; inversion H. Qed.

Lemma elem_of_snoc {A} (t : list A) x y : y ∈ t ++ [x] <-> y ∈ t \/ y = x.
Proof. rewrite elem_of_app, list_elem_of_singleton. done. Qed.
Lemma Exists_snoc {A} (P : A -> Prop) t x : Exists P (t ++ [x]) <-> Exists P t \/ P x.
Proof. rewrite Exists_app, Exists_cons, Exists_nil. tauto. Qed.

Lemma phist_step addr t s x s' : pinv s -> phist t s -> pstep addr s x s' -> phist (t ++ [x]) s'.
Proof.
  intros Hi [H1 H2 H3 H4 H5 H6 H7] Hs. pose proof (pv_down _ Hi) as Hd. pose proof (pv_listener _ Hi) as Hl.
  destruct Hs as [m c l b d e Hm|m c l b d Hm|m y v c l l' b d Hm _ Hc|m y v c l d r Hm Hr
    |y v r l b d|y v c l b r|y v c l b d|y v c l b d e|y v c l b d|y v c l b r|y v r l b d];
    try rewrite running_spec in Hm; try (destruct r as [e|]); simpl in *;
    try (pose proof (H3 _ eq_refl)); try (pose proof (H5 _ eq_refl));
    try (destruct l as [l0|]);
    split; simpl; intros; rewrite ?elem_of_snoc, ?Exists_snoc in *; simpl; simplify_eq/=;
    try (intuition congruence); try (left; by eauto).
  destruct Hl as [Hl Hc]. pose proof (lv_nil _ Hl Hr). intros ->. specialize (Hc Hm). simpl in Hc. congruence.
Qed.

Lemma pruns_facts addr metrics t s :
  pruns addr (process_init metrics) t s ->
  pinv s /\ phist t s /\ (length t + psize s <= psize (process_init metrics))%nat.
Proof.
  induction 1 as [|t s1 x s2 _ (Hi & Hh & Hn) Hs].
  - split_and!; [apply pinv_init|apply phist_init|simpl; lia].
  - split_and!; [by eapply pinv_step|by eapply phist_step|].
    apply psize_step in Hs. rewrite length_app. simpl. lia.
Qed.

(** C20. The exit code of a serving worker, whatever the order of the signal, the
    failures and the goroutines: 0 exactly when a signal came and the graceful
    shutdown succeeded; otherwise 1, and then the server, the metrics listener or the
    shutdown has failed. *)
Theorem exit_code_decided (addr : string) (metrics : bool) (t : list pevent) (s : process) (c : Z) :
  pruns addr (process_init metrics) t s -> ps_main s = MExit c ->
  (c = 0 /\ EvSignal ∈ t /\ EvShutdown None ∈ t) \/
  (c = 1 /\ ~ EvShutdown None ∈ t /\ Exists failure t).
Proof.
  intros Hr Hm. destruct (pruns_facts _ _ _ _ Hr) as (_ & Hh & _).
  pose proof (ph_shutdown _ _ Hh) as Hs. rewrite Hm in Hs.
  destruct (ph_exit _ _ Hh c Hm) as [[-> Hd]|[-> Hf]]; [left|right].
  - split_and!; [done|by apply (ph_signal _ _ Hh)|by apply Hs].
  - split_and!; [done|rewrite Hs; done|done].
Qed.

(** C19. The worker always comes down: a run makes at most thirteen steps, and once
    a signal has come, whatever fails meanwhile, a run that cannot go on has left
    the process with an exit code: no wait of the shutdown is left without its
    message. *)
Theorem shutdown_completes (addr : string) (metrics : bool) (t : list pevent) (s : process) :
  pruns addr (process_init metrics) t s ->
  (length t <= 13)%nat /\
  (EvSignal ∈ t -> (forall x s', ~ pstep addr s x s') -> exists c, ps_main s = MExit c).
Proof.
  intros Hr. destruct (pruns_facts _ _ _ _ Hr) as (Hi & Hh & Hn). split.
  - destruct metrics; unfold psize in Hn at 2; simpl in Hn; unfold lsize in Hn; simpl in Hn; lia.
  - intros Hsig Hmax. destruct (exited (ps_main s)) eqn:He; [destruct (ps_main s); eauto; done|].
    apply (ph_signal _ _ Hh) in Hsig. apply (pv_down _ Hi He) in Hsig.
    destruct (process_moves addr s Hi Hsig He) as (x & s' & Hs). by destruct (Hmax x s').
Qed.

(** A signal, a graceful shutdown, both goroutines drained. *)
Lemma demo_shutdown :
  pruns ":9093" (process_init false) [EvSignal; EvServer ErrServerClosed; EvShutdown None; EvTau]
    (Process (MExit 0) true false None None false None).
Proof.
  apply (pruns_snoc _ _ [EvSignal; EvServer ErrServerClosed; EvShutdown None]
           (Process MWaitServer true false (Some None) None false None) EvTau); [|apply p_wait_server].
  apply (pruns_snoc _ _ [EvSignal; EvServer ErrServerClosed]
           (Process MShutdown true false (Some None) None false None)); [|apply p_shutdown].
  apply (pruns_snoc _ _ [EvSignal] (Process MShutdown true true None None false None));
    [|by apply p_server_closed].
  apply (pruns_snoc _ _ [] (process_init false)); [constructor|apply p_signal].
Qed.

Lemma exit_code_decided_witness :
  (0 = 0 /\ EvSignal ∈ [EvSignal; EvServer ErrServerClosed; EvShutdown None; EvTau] /\
     EvShutdown None ∈ [EvSignal; EvServer ErrServerClosed; EvShutdown None; EvTau]) \/
  (0 = 1 /\ ~ EvShutdown None ∈ [EvSignal; EvServer ErrServerClosed; EvShutdown None; EvTau] /\
     Exists failure [EvSignal; EvServer ErrServerClosed; EvShutdown None; EvTau]).
Proof. exact (exit_code_decided ":9093" false _ _ 0 demo_shutdown eq_refl). Defined.

Lemma demo_stuck x s' : ~ pstep ":9093" (Process (MExit 0) true false None None false None) x s'.
Proof. intros H. inversion H. Qed.
Lemma shutdown_completes_witness :
  (4 <= 13)%nat /\ exists c, ps_main (Process (MExit 0) true false None None false None) = MExit c.
Proof.
  destruct (shutdown_completes ":9093" false _ _ demo_shutdown) as [H1 H2].
  split; [exact H1|]. apply H2; [by left|exact demo_stuck].
Defined.
