(* ===== verification/Lint.v ===== *)
(** [lint/payment-middleware-check]: the build's check that no capability path is
    registered as an unpaid route.  The Go parser and the file system are inputs: a
    syntax tree with the nodes the check looks at, and a tree of directories. *)
From stdpp Require Import base gmap strings list.
From Stdlib Require Import ZArith Lia Ascii String.
From S2P Require Import Prelude.
From S2P Require Import GoStrings.
From S2P Require Import GoConv.
From S2P Require Import GoUrl.

(** * strconv.Unquote, on the string literals of the parser *)

Definition BACKSLASH : ascii := "092"%char.
Definition BACKQUOTE : ascii := "096"%char.

Fixpoint hex_digits (n : nat) (acc : Z) (s : string) : option (Z * string) :=
  match n, s with
  | O, _ => Some (acc, s)
  | S n, String c s' => x ← hex_val c; hex_digits n (Z.lor (Z.shiftl acc 4) x) s'
  | S _, EmptyString => None
  end.
Definition octal_val (c : ascii) : option Z := if in_range 48 55 (byte_z c) then Some (byte_z c - 48) else None.

(** [utf8.ValidRune]. *)
Definition ValidRune (r : Z) : bool := in_range 0 0xD7FF r || in_range 0xE000 0x10FFFF r.

(** [UnquoteChar] behind a backslash, in double quotes: what it stands for, and
    the rest. *)
Definition simple_escape (c : ascii) : option Z :=
  let z := byte_z c in
  if z =? 97 then Some 7 else if z =? 98 then Some 8 else if z =? 102 then Some 12
  else if z =? 110 then Some 10 else if z =? 114 then Some 13 else if z =? 116 then Some 9
  else if z =? 118 then Some 11 else if z =? 92 then Some 92 else if z =? 34 then Some 34 else None.
Definition rune_escape (n : nat) (s : string) : option (string * string) :=
  '(v, rest) ← hex_digits n 0 s;
  if ValidRune v then Some (encode_rune v, rest) else None.
Definition unquote_escape (s : string) : option (string * string) :=
  match s with
  | EmptyString => None
  | String c rest =>
      match simple_escape c with
      | Some v => Some (str1 (z_byte v), rest)
      | None =>
          if Ascii.eqb c "x" then '(v, rest) ← hex_digits 2 0 rest; Some (str1 (z_byte v), rest)
          else if Ascii.eqb c "u" then rune_escape 4 rest
          else if Ascii.eqb c "U" then rune_escape 8 rest
          else
            d0 ← octal_val c;
            match rest with
            | String c1 (String c2 rest) =>
                d1 ← octal_val c1; d2 ← octal_val c2;
                let v := 64 * d0 + 8 * d1 + d2 in
                if v >? 255 then None else Some (str1 (z_byte v), rest)
            | _ => None
            end
      end
  end.
Definition unquote_char (s : string) : option (string * string) :=
  match s with
  | EmptyString => None
  | String c rest =>
      if Ascii.eqb c BACKSLASH then unquote_escape rest
      else if byte_z c <? 0x80 then Some (str1 c, rest)
      else let '(r, w) := decode_rune s in Some (encode_rune r, str_drop w s)
  end.

(** The body of an interpreted literal, up to its closing quote. *)
Fixpoint unquote_body (fuel : nat) (s : string) : option string :=
  match fuel, s with
  | S fuel, String c rest =>
      if Ascii.eqb c DQUOTE then if str_nil rest then Some EmptyString else None
      else if Ascii.eqb c NL then None
      else
        '(chunk, rest) ← unquote_char s;
        t ← unquote_body fuel rest;
        Some (chunk +:+ t)
  | _, _ => None
  end.

Definition Unquote (s : string) : option string :=
  match s with
  | String q body =>
      if Ascii.eqb q BACKQUOTE then
        match IndexByte body BACKQUOTE with
        | Some i => if (S i =? String.length body)%nat
                    then Some (str_filter (fun c => negb (Ascii.eqb c CR)) (str_take i body)) else None
        | None => None
        end
      else if Ascii.eqb q DQUOTE then unquote_body (String.length body) body
      else None
  | EmptyString => None
  end.

Example unquote_plain : Unquote (str1 DQUOTE +:+ "/v1/x" +:+ str1 DQUOTE) = Some "/v1/x".
Proof. reflexivity. Qed.
Example unquote_escaped : Unquote (str1 DQUOTE +:+ "\x2fv\061\u002fx" +:+ str1 DQUOTE) = Some "/v1/x".
Proof. reflexivity. Qed.
Example unquote_raw : Unquote (str1 BACKQUOTE +:+ "/v1\x" +:+ str1 BACKQUOTE) = Some "/v1\x".
Proof. reflexivity. Qed.

(** * go/ast *)

(** The kinds of [token.Token] of a basic literal. *)
Inductive lit_kind := INT | FLOAT | IMAG | CHAR | STRING.

(** A position, with the line directives applied, as [fset.Position] gives it. *)
Record position := { pos_Filename : string; pos_Line : Z }.

(** The nodes the check distinguishes; any other node is its children. *)
Inductive node :=
| CallExpr (pos : position) (fun_ : node) (args : list node)
| SelectorExpr (x : node) (sel : string)
| BasicLit (kind : lit_kind) (value : string)
| OtherNode (children : list node).

(** * check.go *)

Record finding := { f_File : string; f_Line : Z; f_Path : string }.

Definition allowedUnpaidV1Paths : list string := ["/v1/payment/ticket-params"].

Definition format (f : finding) : string :=
  f_File f +:+ ":" +:+ FormatInt (f_Line f) +:+
  ": payment-middleware-check: mux.Register(...) called with capability path " +:+ Quote (f_Path f) +:+ nl +:+
  "  Remediation: paths under /v1/ are paid routes and MUST be registered via RegisterPaidRoute." +:+ nl +:+
  "  See: docs/design-docs/core-beliefs.md " +:+ encode_rune 0xA7 +:+ "3, internal/runtime/http/mux.go".

(** What the callback of [ast.Inspect] appends for one node. *)
Definition inspect_call (n : node) : list finding :=
  match n with
  | CallExpr pos (SelectorExpr _ sel) args =>
      if negb (String.eqb sel "Register") then []
      else
        match args with
        | [_; pathLit; _] =>
            match pathLit with
            | BasicLit STRING value =>
                match Unquote value with
                | None => []
                | Some pathStr =>
                    if negb (HasPrefix pathStr "/v1/") then []
                    else if bool_decide (pathStr ∈ allowedUnpaidV1Paths) then []
                    else [{| f_File := pos_Filename pos; f_Line := pos_Line pos; f_Path := pathStr |}]
                end
            | _ => []
            end
        | _ => []
        end
  | _ => []
  end.

(** [ast.Inspect] with a callback that always goes on: every node, parents
    first. *)
Fixpoint Inspect (n : node) : list finding :=
  inspect_call n ++
  match n with
  | CallExpr _ f args => Inspect f ++ concat (map Inspect args)
  | SelectorExpr x _ => Inspect x
  | BasicLit _ _ => []
  | OtherNode children => concat (map Inspect children)
  end.

(** A file or a directory; reading a file or listing a directory may fail.  The
    entries of a directory are those of [os.ReadDir], in its order. *)
Inductive fs_entry :=
| FsFile (src : res string)
| FsDir (listing : option error) (entries : list (string * fs_entry)).

(** [filepath.Clean], on Unix: the elements of the cleaned path, last first. *)
Definition clean_elem (rooted : bool) (elems : list string) (e : string) : list string :=
  if str_nil e || String.eqb e "." then elems
  else if String.eqb e ".." then
    match elems with
    | top :: elems' => if String.eqb top ".." then e :: elems else elems'
    | [] => if rooted then [] else [e]
    end
  else e :: elems.
Definition filepath_Clean (path : string) : string :=
  let rooted := HasPrefix path "/" in
  let elems := fold_left (clean_elem rooted) (Split path "/") [] in
  match elems with
  | [] => if rooted then "/" else "."
  | _ => (if rooted then "/" else "") +:+ Join (rev elems) "/"
  end.
(** [filepath.Join] of a directory and the name of an entry. *)
Definition filepath_Join (dir name : string) : string := filepath_Clean (dir +:+ "/" +:+ name).
Example join_dot : filepath_Join "." "main.go" = "main.go".
Proof. reflexivity. Qed.
Example join_up : filepath_Join "../a/./b/" "x.go" = "../a/b/x.go".
Proof. reflexivity. Qed.

(** The name [os.Lstat] gives to the root. *)
Definition base_name (path : string) : string :=
  let t := TrimRight path "/" in
  if str_nil t then str_take 1 path
  else match LastIndex t "/" with Some i => str_drop (S i) t | None => t end.

Definition HasSuffix (s suf : string) : bool :=
  (String.length suf <=? String.length s)%nat &&
  String.eqb (str_drop (String.length s - String.length suf) s) suf.

Section Check.
(** [parser.ParseFile] of a path and its source. *)
Context (parser_ParseFile : string -> string -> res node).

Definition checkFile (path : string) (src : res string) : res (list finding) :=
  src ← src;
  file ← parser_ParseFile path src;
  Ok (Inspect file).

Definition skipped_dir (base : string) : bool :=
  bool_decide (base ∈ ["vendor"; ".git"; "lint"]).

(** [filepath.WalkDir] with the callback of [checkTree], at an entry: what is
    appended to the findings, and the error that stops the walk. *)
Fixpoint walk (path name : string) (d : fs_entry) : list finding * option error :=
  match d with
  | FsFile src =>
      if negb (HasSuffix path ".go") then ([], None)
      else match checkFile path src with
           | Ok hits => (hits, None)
           | Err e => ([], Some e)
           end
  | FsDir listing entries =>
      if skipped_dir name then ([], None)
      else
        match listing with
        | Some e => ([], Some e)
        | None =>
            (fix walk_all (l : list (string * fs_entry)) : list finding * option error :=
               match l with
               | [] => ([], None)
               | (name1, d1) :: l' =>
                   match walk (filepath_Join path name1) name1 d1 with
                   | (hits, Some e) => (hits, Some e)
                   | (hits, None) => let '(rest, err) := walk_all l' in (hits ++ rest, err)
                   end
               end) entries
        end
  end.

(** [checkTree]: [os.Lstat] of the root may fail. *)
Definition checkTree (root : string) (d : res fs_entry) : list finding * option error :=
  match d with Err e => ([], Some e) | Ok d => walk root (base_name root) d end.

(** * main.go: the exit code and the findings printed. *)
Definition lint_main (root : string) (d : res fs_entry) : Z * list string :=
  let '(findings, err) := checkTree root d in
  match err with
  | Some e => (2, ["payment-middleware-check: walk " +:+ root +:+ ": " +:+ Error e])
  | None =>
      match findings with
      | [] => (0, [])
      | _ => (1, (format <$> findings) ++
                 [nl +:+ "payment-middleware-check: " +:+ FormatInt (Z.of_nat (length findings)) +:+
                  " violation(s) " +:+ encode_rune 0x2014 +:+
                  " core belief #3 requires paid routes register via RegisterPaidRoute."])
      end
  end.

(** * What the walk reaches *)

(** The entries reached from one: the contents of directories that are not
    skipped. *)
Inductive reached : string -> string -> fs_entry -> string -> string -> fs_entry -> Prop :=
| reached_here path name d : reached path name d path name d
| reached_in path name entries name1 d1 path' name' d' :
    skipped_dir name = false -> In (name1, d1) entries ->
    reached (filepath_Join path name1) name1 d1 path' name' d' ->
    reached path name (FsDir None entries) path' name' d'.

(** What stops the walk at an entry, and what is reported there. *)
Definition fault (path name : string) (d : fs_entry) : Prop :=
  match d with
  | FsFile src => HasSuffix path ".go" = true /\ is_err (checkFile path src) = true
  | FsDir listing _ => skipped_dir name = false /\ listing <> None
  end.
Definition reports (path : string) (d : fs_entry) (f : finding) : Prop :=
  match d with
  | FsFile src => HasSuffix path ".go" = true /\ exists hits, checkFile path src = Ok hits /\ f ∈ hits
  | FsDir _ _ => False
  end.

(** The loop over the entries of a directory, by itself. *)
Fixpoint walk_all (path : string) (l : list (string * fs_entry)) : list finding * option error :=
  match l with
  | [] => ([], None)
  | (name1, d1) :: l' =>
      match walk (filepath_Join path name1) name1 d1 with
      | (hits, Some e) => (hits, Some e)
      | (hits, None) => let '(rest, err) := walk_all path l' in (hits ++ rest, err)
      end
  end.
Lemma walk_dir path name listing entries :
  walk path name (FsDir listing entries) =
  if skipped_dir name then ([], None)
  else match listing with Some e => ([], Some e) | None => walk_all path entries end.
Proof.
  simpl. destruct (skipped_dir name); [done|]. destruct listing; [done|].
  induction entries as [|[n1 d1] l IH]; [done|]. simpl. by rewrite IH.
Qed.
End Check.

(** Induction over directory trees and over syntax trees. *)
Fixpoint fs_entry_nested (P : fs_entry -> Prop) (Hf : forall src, P (FsFile src))
    (Hd : forall listing entries, Forall (fun e => P (snd e)) entries -> P (FsDir listing entries))
    (d : fs_entry) : P d :=
  match d with
  | FsFile src => Hf src
  | FsDir listing entries =>
      Hd listing entries
        ((fix all l : Forall (fun e => P (snd e)) l :=
            match l with
            | [] => List.Forall_nil _
            | e :: l' => List.Forall_cons _ e l' (fs_entry_nested P Hf Hd (snd e)) (all l')
            end) entries)
  end.
Fixpoint node_nested (P : node -> Prop)
    (Hc : forall pos f args, P f -> Forall P args -> P (CallExpr pos f args))
    (Hs : forall x sel, P x -> P (SelectorExpr x sel)) (Hb : forall kind v, P (BasicLit kind v))
    (Ho : forall children, Forall P children -> P (OtherNode children)) (n : node) : P n :=
  let all := fix all l : Forall P l :=
    match l with
    | [] => List.Forall_nil _
    | m :: l' => List.Forall_cons _ m l' (node_nested P Hc Hs Hb Ho m) (all l')
    end in
  match n with
  | CallExpr pos f args => Hc pos f args (node_nested P Hc Hs Hb Ho f) (all args)
  | SelectorExpr x sel => Hs x sel (node_nested P Hc Hs Hb Ho x)
  | BasicLit kind v => Hb kind v
  | OtherNode children => Ho children (all children)
  end.

(** * Properties *)

(** [m] is a node of the tree [n]. *)
Inductive occurs (m : node) : node -> Prop :=
| occurs_here : occurs m m
| occurs_fun pos f args : occurs m f -> occurs m (CallExpr pos f args)
| occurs_arg pos f args a : a ∈ args -> occurs m a -> occurs m (CallExpr pos f args)
| occurs_sel x sel : occurs m x -> occurs m (SelectorExpr x sel)
| occurs_child children c : c ∈ children -> occurs m c -> occurs m (OtherNode children).

(** A call [x.Register(a, lit, c)] whose path is a capability path, and not the
    one allowed. *)
Definition unpaid_registration (m : node) (f : finding) : Prop :=
  exists pos x a lit c,
    m = CallExpr pos (SelectorExpr x "Register") [a; BasicLit STRING lit; c] /\
    Unquote lit = Some (f_Path f) /\ HasPrefix (f_Path f) "/v1/" = true /\
    f_Path f <> "/v1/payment/ticket-params" /\
    f = {| f_File := pos_Filename pos; f_Line := pos_Line pos; f_Path := f_Path f |}.

Lemma inspect_call_iff m f : f ∈ inspect_call m <-> unpaid_registration m f.
Proof.
  split.
  - destruct m as [pos fn args| | |]; try (intros H; by inversion H). simpl.
    destruct fn as [|x sel| |]; try (intros H; by inversion H).
    destruct (String.eqb_spec sel "Register") as [->|]; [|intros H; by inversion H]. simpl.
    destruct args as [|a [|l [|c [|]]]]; try (intros H; by inversion H).
    destruct l as [| |[] lit|]; try (intros H; by inversion H).
    destruct (Unquote lit) as [p|] eqn:E; [|intros H; by inversion H].
    destruct (HasPrefix p "/v1/") eqn:Hp; [|intros H; by inversion H]. simpl.
    case_bool_decide as Ha; [intros H; by inversion H|]. rewrite list_elem_of_singleton. intros ->. simpl.
    exists pos, x, a, lit, c. split_and!; try done. simpl. intros ->. apply Ha. by left.
  - destruct f as [file line path].
    intros (pos & x & a & lit & c & -> & Hu & Hp & Hn & E). simpl in *. injection E as -> ->. rewrite Hu, Hp. simpl.
    rewrite bool_decide_false; [by left|]. unfold allowedUnpaidV1Paths. rewrite list_elem_of_singleton. done.
Qed.

(** The findings below a node. *)
Definition Inspect_below (n : node) : list finding :=
  match n with
  | CallExpr _ f args => Inspect f ++ concat (map Inspect args)
  | SelectorExpr x _ => Inspect x
  | BasicLit _ _ => []
  | OtherNode children => concat (map Inspect children)
  end.
Lemma Inspect_here n f : f ∈ Inspect n <-> unpaid_registration n f \/ f ∈ Inspect_below n.
Proof. by destruct n; cbn [Inspect Inspect_below]; rewrite elem_of_app, inspect_call_iff. Qed.

Lemma concat_map_iff {A} (g : A -> list finding) (P : A -> Prop) l f :
  Forall (fun a => f ∈ g a <-> P a) l -> f ∈ concat (map g l) <-> exists a, a ∈ l /\ P a.
Proof.
  induction 1 as [|a l Ha _ IH]; simpl.
  - split; [intros H; by inversion H|]. intros (a & H & _). by inversion H.
  - rewrite elem_of_app, Ha, IH. set_solver.
Qed.

Lemma Inspect_iff n f : f ∈ Inspect n <-> exists m, occurs m n /\ unpaid_registration m f.
Proof.
  induction n as [pos fn args IHf IHa|x sel IH|kind v|children IH] using node_nested;
    rewrite Inspect_here; cbn [Inspect_below].
  - rewrite elem_of_app, IHf, (concat_map_iff _ _ _ _ IHa). split.
    + intros [H|[(m & H1 & H2)|(a & Ha & m & H1 & H2)]]; eexists; (split; [|eassumption]);
        [apply occurs_here|by apply occurs_fun|by eapply occurs_arg].
    + intros (m & Ho & Hu). inversion Ho; subst; [by left|right; left; by eauto|right; right; by eauto 6].
  - rewrite IH. split.
    + intros [H|(m & H1 & H2)]; eexists; (split; [|eassumption]); [apply occurs_here|by apply occurs_sel].
    + intros (m & Ho & Hu). inversion Ho; subst; [by left|right; by eauto].
  - split.
    + intros [H|H]; [eexists; split; [apply occurs_here|done]|by inversion H].
    + intros (m & Ho & Hu). inversion Ho; subst. by left.
  - rewrite (concat_map_iff _ _ _ _ IH). split.
    + intros [H|(a & Ha & m & H1 & H2)]; eexists; (split; [|eassumption]);
        [apply occurs_here|by eapply occurs_child].
    + intros (m & Ho & Hu). inversion Ho; subst; [by left|right; by eauto 6].
Qed.

Section Walk.
Context (parser_ParseFile : string -> string -> res node).
Notation walk := (walk parser_ParseFile).
Notation walk_all := (walk_all parser_ParseFile).
Notation fault := (fault parser_ParseFile).
Notation reports := (reports parser_ParseFile).

(** An error of the walk is a fault that it came to; without an error there is
    none, and every report has been collected. *)
Definition walk_spec (path name : string) (d : fs_entry) : Prop :=
  (snd (walk path name d) <> None <-> exists p n d', reached path name d p n d' /\ fault p n d') /\
  (snd (walk path name d) = None -> forall f, f ∈ fst (walk path name d) <->
     exists p n d', reached path name d p n d' /\ reports p d' f).

Lemma reached_file path name src p n d' :
  reached path name (FsFile src) p n d' -> p = path /\ n = name /\ d' = FsFile src.
Proof. inversion 1. done. Qed.

Lemma walk_file path name src : walk_spec path name (FsFile src).
Proof.
  assert (Hat : forall P : string -> string -> fs_entry -> Prop,
    (exists p n d', reached path name (FsFile src) p n d' /\ P p n d') <-> P path name (FsFile src)).
  { intros P. split; [by intros (p & n & d' & (-> & -> & ->)%reached_file & HP)|].
    intros HP. exists path, name, (FsFile src). split; [apply reached_here|done]. }
  unfold walk_spec. rewrite (Hat (fun p n d' => fault p n d')).
  setoid_rewrite (fun f => Hat (fun p _ d' => reports p d' f)).
  unfold Lint.fault, Lint.reports. simpl.
  destruct (HasSuffix path ".go"); simpl.
  - destruct (checkFile parser_ParseFile path src) as [hits|e]; simpl; [|naive_solver].
    split; [naive_solver|]. intros _ f. split; [intros H; split; [done|by exists hits]|naive_solver].
  - split; [naive_solver|]. intros _ f. split; [intros H; by inversion H|naive_solver].
Qed.

(** The entries reached from the members of a list. *)
Definition reached_all (path : string) (l : list (string * fs_entry)) p n d' : Prop :=
  exists name1 d1, In (name1, d1) l /\ reached (filepath_Join path name1) name1 d1 p n d'.

Lemma walk_all_spec path l :
  Forall (fun e => forall path name, walk_spec path name (snd e)) l ->
  (snd (walk_all path l) <> None <-> exists p n d', reached_all path l p n d' /\ fault p n d') /\
  (snd (walk_all path l) = None -> forall f, f ∈ fst (walk_all path l) <->
     exists p n d', reached_all path l p n d' /\ reports p d' f).
Proof.
  induction 1 as [|[n1 d1] l Hd _ [IH1 IH2]]; simpl.
  { split; [|intros _ f]; (split; [by try (intros H; by inversion H)|]);
      by intros (p & n & d' & (? & ? & [] & _) & _). }
  assert (Hcons : forall p n d', reached_all path ((n1, d1) :: l) p n d' <->
      reached (filepath_Join path n1) n1 d1 p n d' \/ reached_all path l p n d').
  { intros p n d'. unfold reached_all. simpl. naive_solver. }
  setoid_rewrite Hcons.
  destruct (Hd (filepath_Join path n1) n1) as [H1 H2]. simpl in H1, H2.
  destruct (walk (filepath_Join path n1) n1 d1) as [hits [e|]]; simpl in *.
  - split; [|done]. split; [|done]. intros _. destruct (proj1 H1) as (p & n & d' & Hr & Hf); [done|].
    exists p, n, d'. split; [by left|done].
  - destruct (walk_all path l) as [rest err]. simpl in *. split.
    + rewrite IH1. split; [naive_solver|]. intros (p & n & d' & [Hr|Hr] & Hf); [|by eauto 6].
      destruct (proj2 H1); [by eauto 6|done].
    + intros He f. rewrite elem_of_app, (H2 eq_refl), (IH2 He). naive_solver.
Qed.

Lemma reached_dir path name listing entries p n d' :
  reached path name (FsDir listing entries) p n d' <->
  (p = path /\ n = name /\ d' = FsDir listing entries) \/
  (skipped_dir name = false /\ listing = None /\ reached_all path entries p n d').
Proof.
  split.
  - inversion 1; subst; [by left|]. right. split_and!; [done|done|]. by do 2 eexists.
  - intros [(-> & -> & ->)|(Hs & -> & n1 & d1 & HIn & Hr)]; [apply reached_here|by eapply reached_in].
Qed.

Lemma walk_ok path name d : walk_spec path name d.
Proof.
  revert path name. induction d as [src|listing entries IH] using fs_entry_nested; intros path name.
  { apply walk_file. }
  assert (Hall := walk_all_spec path entries IH). destruct Hall as [H1 H2].
  unfold walk_spec. rewrite walk_dir. setoid_rewrite reached_dir.
  destruct (skipped_dir name) eqn:Hs; simpl.
  - split.
    + split; [done|]. intros (p & n & d' & [(-> & -> & ->)|[? _]] & Hf); [|done].
      destruct Hf as [Hf _]. congruence.
    + intros _ f. split; [intros H; by inversion H|].
      by intros (p & n & d' & [(-> & -> & ->)|[? _]] & Hrep).
  - destruct listing as [e|]; simpl.
    + split; [|done]. split; [|done]. intros _.
      exists path, name, (FsDir (Some e) entries). split; [by left|]. by split.
    + split.
      * rewrite H1. split; [naive_solver|].
        intros (p & n & d' & [(-> & -> & ->)|(_ & _ & Hr)] & Hf); [by destruct Hf|by eauto 6].
      * intros He f. rewrite (H2 He). split; [naive_solver|].
        intros (p & n & d' & [(-> & -> & ->)|(_ & _ & Hr)] & Hrep); [done|by eauto].
Qed.
End Walk.

(** Where the check stops with an error: a Go file it cannot read or parse, or a
    directory it cannot list. *)
Definition unreadable parse root tree : Prop :=
  exists p n d, reached root (base_name root) tree p n d /\ fault parse p n d.
(** A Go file that registers a capability path as an unpaid route. *)
Definition violated (parse : string -> string -> res node) root tree (f : finding) : Prop :=
  exists p n src text file m,
    reached root (base_name root) tree p n (FsFile src) /\ HasSuffix p ".go" = true /\
    src = Ok text /\ parse p text = Ok file /\ occurs m file /\ unpaid_registration m f.

(** C24. What the lint's exit code says, for any parser and any tree of files: 2
    when a file or a directory it comes to cannot be read or parsed; otherwise 1
    when some call in some Go file outside the skipped directories registers a path
    under [/v1/], other than the ticket-params one, by [Register]; otherwise 0. *)
Theorem lint_decides (parse : string -> string -> res node) (root : string) (tree : fs_entry) :
  let code := fst (lint_main parse root (Ok tree)) in
  (code = 2 <-> unreadable parse root tree) /\
  (code = 1 <-> ~ unreadable parse root tree /\ exists f, violated parse root tree f) /\
  (code = 0 <-> ~ unreadable parse root tree /\ ~ exists f, violated parse root tree f).
Proof.
  destruct (walk_ok parse root (base_name root) tree) as [H1 H2].
  assert (Hrep : forall f, (exists p n d, reached root (base_name root) tree p n d /\ reports parse p d f) <->
      violated parse root tree f).
  { intros f. split.
    - intros (p & n & [src|] & Hr & Hf); [|done]. destruct Hf as (Hs & hits & Hc & Hf).
      unfold checkFile in Hc. destruct src as [text|]; [|done]. simpl in Hc.
      destruct (parse p text) as [file|] eqn:Ep; [|done]. simpl in Hc. injection Hc as <-.
      apply Inspect_iff in Hf as (m & Ho & Hu). by exists p, n, (Ok text), text, file, m.
    - intros (p & n & src & text & file & m & Hr & Hs & -> & Ep & Ho & Hu).
      exists p, n, (FsFile (Ok text)). split; [done|]. split; [done|]. exists (Inspect file). split.
      + unfold checkFile. simpl. by rewrite Ep.
      + apply Inspect_iff. eauto. }
  unfold lint_main, checkTree. destruct (walk parse root (base_name root) tree) as [fs [e|]] eqn:Ew; simpl in *.
  - assert (unreadable parse root tree) as Hu by by apply H1. naive_solver.
  - assert (~ unreadable parse root tree) as Hn by (intros Hu; by apply H1 in Hu).
    specialize (H2 eq_refl). setoid_rewrite Hrep in H2.
    destruct fs as [|f fs]; simpl.
    + assert (~ exists f, violated parse root tree f) by (intros [f Hf]; apply H2 in Hf; by inversion Hf).
      naive_solver.
    + assert (exists f, violated parse root tree f) by (exists f; apply H2; by left). naive_solver.
Qed.

(** A tree with a violation outside the skipped directories, and the same one in
    the lint's own directory. *)
Definition demo_call (path : string) : node :=
  CallExpr {| pos_Filename := "main.go"; pos_Line := 7 |}
    (SelectorExpr (OtherNode []) "Register")
    [BasicLit STRING (Quote "POST"); BasicLit STRING (Quote path); OtherNode []].
Definition demo_parse (path src : string) : res node := Ok (OtherNode [demo_call src]).
Definition demo_tree (dir src : string) : fs_entry :=
  FsDir None [("README.md", FsFile (Err ErrEOF)); (dir, FsDir None [("main.go", FsFile (Ok src))])].

Example lint_reports : fst (lint_main demo_parse "." (Ok (demo_tree "cmd" "/v1/chat/completions"))) = 1.
Proof. vm_compute. reflexivity. Qed.
Example lint_allows :
  fst (lint_main demo_parse "." (Ok (demo_tree "cmd" "/v1/payment/ticket-params"))) = 0.
Proof. vm_compute. reflexivity. Qed.
Example lint_skips : fst (lint_main demo_parse "." (Ok (demo_tree "lint" "/v1/chat/completions"))) = 0.
Proof. vm_compute. reflexivity. Qed.
