(* ===== verification/Catalog.v ===== *)
(** The catalog the daemon listed at startup and the sessions the worker opens
    with it: what a request is priced at. *)
From stdpp Require Import base gmap strings list.
From Stdlib Require Import ZArith Lia Ascii String.
From S2P Require Import Prelude.
From S2P Require Import GoStrings.
From S2P Require Import GoConv.
From S2P Require Import GoFloat.
From S2P Require Import GoUnmarshal.
From S2P Require Import Types.
From S2P Require Import Prog.
From S2P Require Import Interp.
From S2P Require Import Config.
From S2P Require Import ConfigFacts.
From S2P Require Import Payee.
From S2P Require Import Backend.
From S2P Require Import Module.
From S2P Require Import ResponseWriter.
From S2P Require Import Middleware.
From S2P Require Import Session.
From S2P Require Import Stack.
From S2P Require Import Env.
From S2P Require Import Mux.
From S2P Require Import Main.
From S2P Require Import Worker.

(** * The sessions a request opens *)

(** The middleware asks for sessions of configured routes only, at their price. *)
Lemma opened_session deps flusher r t x req a :
  Tr (paymentMiddleware deps flusher r) t x -> In (Ev (EPayee (OpenSession req)) a) t ->
  exists bytes model route price, payment_bytes r = Some bytes /\
    Lookup (d_cfg deps) (d_Capability deps) model = Some route /\
    BigSetString (mr_PricePerWorkUnitWei route) = Some price /\
    req = session_for (deriveWorkID bytes) route price.
Proof.
  intros Ht Hin. destruct (middleware_runs _ _ _ _ _ Ht) as (ph & Hs & _).
  destruct (steps_In _ _ _ _ _ Hs Hin) as (g1 & g2 & H).
  inversion H; subst; [by match goal with He : ~ session_eff _ |- _ => destruct He end|]. eauto 10.
Qed.

(** A payee call of a paid route is one of the middleware. *)
Lemma paid_handler_payee (m : Module) `{!ModuleLaws m} deps r flusher t x c a :
  Tr (paid_handler m deps r flusher) t x -> In (Ev (EPayee c) a) t ->
  exists t0, Tr (paymentMiddleware deps flusher r) t0 x /\ In (Ev (EPayee c) a) t0.
Proof.
  intros Ht Hin. apply interp_Tr in Ht as (t0 & Ht0 & Hexp). exists t0. split; [done|].
  destruct (expands_source _ _ _ _ Hexp Hin) as (e & b & s & He & Hs & Hx).
  destruct e; try (by rewrite (trigger_In _ _ _ _ Hs Hx)).
  pose proof (emits_Tr _ _ _ _ (module_serve_eff m c0) Hs) as H. rewrite List.Forall_forall in H.
  by destruct (H _ Hx).
Qed.

(** * The worker's sessions *)

Definition opens (c : payee_call) (workID cap off price unit : string) : Prop :=
  exists req, c = OpenSession req /\ workID = os_WorkID req /\ cap = os_Capability req /\
    off = os_Offering req /\ price = BigBytes (os_PricePerWorkUnitWei req) /\ unit = os_WorkUnit req.

Lemma payee_session rec c t a workID cap off price unit ans :
  Tr (worker_payee rec c) t a -> In (Ev (EGrpc (GrpcOpenSession workID cap off price unit)) ans) t ->
  opens c workID cap off price unit.
Proof.
  set (P e := match e with
    | EGrpc (GrpcOpenSession workID cap off price unit) => opens c workID cap off price unit | _ => True end).
  assert (Hp : emits P (worker_payee rec c)).
  { destruct c as [| | |req| | |]; apply emits_metered; try done; repeat first [exact I | split | intros ?].
    by exists req. }
  intros Ht Hin. pose proof (emits_Tr _ _ _ _ Hp Ht) as H. rewrite List.Forall_forall in H. exact (H _ Hin).
Qed.

(** A gRPC request for a session is one a route makes at the payee interface. *)
Lemma session_behind_payee rec (p : prog unit) t workID cap off price unit ans u :
  emits interface_eff p -> Tr (interp (root_handler rec) p) t u ->
  In (Ev (EGrpc (GrpcOpenSession workID cap off price unit)) ans) t ->
  exists t0 c a, Tr p t0 u /\ In (Ev (EPayee c) a) t0 /\ opens c workID cap off price unit.
Proof.
  intros Hp Ht Hin. apply interp_Tr in Ht as (t0 & Ht0 & Hexp).
  destruct (expands_source _ _ _ _ Hexp Hin) as (e & b & s & Hin0 & Hs & Hx).
  destruct e; try (discriminate (trigger_In _ _ _ _ Hs Hx)).
  - exists t0, c, b. split_and!; [done|done|by eapply payee_session].
  - pose proof (emits_Tr _ _ _ _ (fetch_emits c) Hs) as H. rewrite List.Forall_forall in H. by destruct (H _ Hx).
  - pose proof (emits_Tr _ _ _ _ Hp Ht0) as H. rewrite List.Forall_forall in H. by destruct (H _ Hin0).
Qed.

Section Catalog.
Context (int64_of_large : float64 -> Z).
Context (os_Open : string -> res string) (yaml_Decode : nat -> string -> res yamlConfig).
Context (grpc_NewClient : string -> res unit).
Context {Enc : Type} (default_encoding : res Enc) (first_encoding : string -> res Enc).
Context (tiktoken_Encode : Enc -> string -> list Z).
Context (version go_version : string).

Abbreviation startup := (Main.startup int64_of_large os_Open yaml_Decode
  grpc_NewClient default_encoding first_encoding tiktoken_Encode version go_version).

(** An offering of the catalog the daemon answered with. *)
Definition offered (caps : list pb_CapabilityEntry) (cap unit off : string) (price : Z) : Prop :=
  exists c o, c ∈ caps /\ o ∈ pb_Offerings c /\ pb_Capability c = cap /\ pb_WorkUnit c = unit /\
    pb_Id o = off /\ BigSetString (priceInfoToWeiString (pb_PriceInfo_ o)) = Some price.

(** The routes of a worker that cross-checked its catalog are offered by the daemon. *)
Lemma route_offered cfg caps cap model route price :
  (exists fl, Load os_Open yaml_Decode fl = Ok cfg) ->
  ((fun c => {| dc_Capability := pb_Capability c; dc_WorkUnit := pb_WorkUnit c;
                dc_Offerings := project_offering_price <$> pb_Offerings c |}) <$> caps)
    = catalog_view <$> cc_Ordered (cfg_Capabilities cfg) ->
  Lookup cfg cap model = Some route -> BigSetString (mr_PricePerWorkUnitWei route) = Some price ->
  offered caps (mr_Capability route) (mr_WorkUnit route) (mr_Model route) price.
Proof.
  intros [fl Hload] Hcat Hl Hp. destruct (loaded_lookup _ _ _ _ Hload) as [_ Hlook].
  apply Hlook in Hl as (e & o & He & Ho & _ & _ & ->). cbn [route_of mr_Capability mr_WorkUnit mr_Model mr_PricePerWorkUnitWei] in *.
  apply (list_elem_of_fmap_2 catalog_view) in He. rewrite <- Hcat in He.
  apply list_elem_of_fmap in He as (c & Hc & Hin).
  apply (list_elem_of_fmap_2 offering_view) in Ho. injection Hc as H1 H2 H3. rewrite H3 in Ho.
  apply list_elem_of_fmap in Ho as (po & Hpo & Hino). injection Hpo as H4 H5.
  exists c, po. split_and!; try done. by rewrite <- H5.
Qed.

(** C17. The price of a session.  Every session a started worker asks the daemon to
    open, while it serves a request of any method and path, is for the capability of
    the path and the request's payment, at a positive price; and when the worker
    checked its catalog at startup, the catalog the daemon listed there offers
    exactly that capability, work unit and offering at exactly that price. *)
Theorem sessions_at_catalog_price (args : option flags) (ts : list event) (w : worker) (method path : string)
    (flusher : bool) (r : request) (t : list event) (u : unit) (workID cap off price unit : string) ans :
  Tr (startup args) ts (Normal (inr w)) -> IndexByte method " " = None ->
  Tr (serve_request w method path flusher r) t u ->
  In (Ev (EGrpc (GrpcOpenSession workID cap off price unit)) ans) t ->
  cap = "openai:" +:+ path /\
  (exists bytes, payment_bytes r = Some bytes /\ workID = deriveWorkID bytes) /\
  exists p, price = BigBytes p /\ 0 < p /\
    (ws_VerifyDaemonConsistencyOnStart (cfg_Worker (wk_cfg w)) = true ->
     exists caps, In (Ev (EGrpc GrpcListCapabilities) (Ok caps)) ts /\ offered caps cap unit off p).
Proof.
  intros Hs Hm Ht Hin. unfold serve_request in Ht.
  destruct (worker_dispatch _ _ _ _ _ _ _ _ _ _ _ _ method path flusher r Hs Hm) as [(md & Hl & Hc & _ & _ & Hh & _)|Hu].
  2: { assert (He : emits interface_eff (Handler (wk_mux w) method path flusher r))
         by (eapply emits_mono; [|exact Hu]; by intros []).
       destruct (session_behind_payee _ _ _ _ _ _ _ _ _ _ He Ht Hin) as (t0 & c & a & Ht0 & Hin0 & req & -> & _).
       pose proof (emits_Tr _ _ _ _ Hu Ht0) as H. rewrite List.Forall_forall in H. by destruct (H _ Hin0). }
  rewrite Hh in Ht.
  assert (He : emits interface_eff (paid_route (wk_cfg w) (wk_recorder w) md flusher r))
    by (apply emits_bind; [by apply paid_handler_interface|by intros]).
  destruct (session_behind_payee _ _ _ _ _ _ _ _ _ _ He Ht Hin)
    as (t0 & c & a & Ht0 & Hin0 & req & -> & -> & -> & -> & -> & ->).
  apply Tr_bind in Ht0 as (tp & tr & x & -> & Ht0 & [-> _]). rewrite app_nil_r in Hin0.
  destruct (paid_handler_payee _ _ _ _ _ _ _ _ Ht0 Hin0) as (t1 & Ht1 & Hin1).
  destruct (opened_session _ _ _ _ _ _ _ Ht1 Hin1) as (bytes & model & route & p & Hb & Hlk & Hp & ->).
  cbn [paid_deps d_cfg d_Capability] in Hlk. rewrite Hc in Hlk.
  apply startup_steps in Hs as (fl & cfg & rec & ts1 & ts2 & _ & Hload & Hsub & Hcheck & Hready).
  destruct (loaded_lookup _ _ _ _ Hload) as [Hd Hlook]. apply ready_worker in Hready as (Hcfg & _); [|done].
  rewrite Hcfg in *.
  destruct (loaded_route _ _ _ _ _ _ _ Hload Hlk) as ((p' & Hp' & Hpos) & _).
  rewrite Hp in Hp'. injection Hp' as <-. cbn [session_for os_WorkID os_Capability os_Offering os_PricePerWorkUnitWei os_WorkUnit].
  split; [|split; [by eexists|exists p; split_and!; [done..|]]].
  - apply Hlook in Hlk as (e & o & _ & _ & <- & _ & ->). done.
  - intros Hv. destruct (cross_check_passed _ _ _ Hcheck Hv) as (caps & Hcaps & E). exists caps.
    split; [auto|]. eapply route_offered; eauto.
Qed.
End Catalog.

Definition demo_workID : WorkID := deriveWorkID "hello".
Lemma demo_opened :
  In (Ev (EGrpc (GrpcOpenSession demo_workID "openai:/v1/chat/completions" "llama-3" (BigBytes 5000000) "token"))
        (Ok OUTCOME_OPENED)) demo_serving_trace.
Proof. apply (nth_error_In _ 5). vm_compute. reflexivity. Qed.

Lemma sessions_at_catalog_price_witness :
  "openai:/v1/chat/completions" = "openai:" +:+ "/v1/chat/completions" /\
  (exists bytes, payment_bytes demo_paid_request = Some bytes /\ demo_workID = deriveWorkID bytes) /\
  exists p, BigBytes 5000000 = BigBytes p /\ 0 < p /\
    (ws_VerifyDaemonConsistencyOnStart (cfg_Worker (wk_cfg demo_worker)) = true ->
     exists caps, In (Ev (EGrpc GrpcListCapabilities) (Ok caps)) demo_startup_trace /\
       offered caps "openai:/v1/chat/completions" "token" "llama-3" p).
Proof.
  exact (sessions_at_catalog_price _ _ _ _ _ _ _ _ _ demo_args demo_startup_trace demo_worker "POST"
    "/v1/chat/completions" true demo_paid_request demo_serving_trace (result_of demo_env demo_serving env0)
    demo_workID "openai:/v1/chat/completions" "llama-3" (BigBytes 5000000) "token" (Ok OUTCOME_OPENED)
    demo_started eq_refl (trace_of_Tr _ _ _) demo_opened).
Defined.
