(* ===== verification/Daemon.v ===== *)
(** What the payment daemon sees: the gRPC calls of a request, in order, with whether
    each was accepted, and the script they follow. *)
From stdpp Require Import base gmap strings list.
From Stdlib Require Import ZArith Lia Ascii String.
From S2P Require Import Prelude.
From S2P Require Import GoStrings.
From S2P Require Import GoConv.
From S2P Require Import GoFloat.
From S2P Require Import GoUnmarshal.
From S2P Require Import Types.
From S2P Require Import Prog.
From S2P Require Import Interp.
From S2P Require Import Config.
From S2P Require Import ConfigFacts.
From S2P Require Import Payee.
From S2P Require Import Backend.
From S2P Require Import Tokenizer.
From S2P Require Import Module.
From S2P Require Import Multipart.
From S2P Require Import ResponseWriter.
From S2P Require Import Middleware.
From S2P Require Import Session.
From S2P Require Import Stack.
From S2P Require Import Env.
From S2P Require Import Mux.
From S2P Require Import Handlers.
From S2P Require Import Main.
From S2P Require Import Worker.

(** * The calls of a trace *)

(** A call and whether it was accepted; the calls outside a session count as so. *)
Definition grpc_ok (c : grpc_call) : grpc_resp c -> bool :=
  match c with
  | GrpcOpenSession _ _ _ _ _ | GrpcProcessPayment _ _ | GrpcDebitBalance _ _ _ | GrpcCloseSession _ _ => is_ok
  | _ => fun _ => true
  end.
Definition ev_grpc (x : event) : list (grpc_call * bool) :=
  match x with Ev e a =>
    match e return resp e -> list (grpc_call * bool) with EGrpc c => fun a => [(c, grpc_ok c a)] | _ => fun _ => [] end a
  end.
Definition grpc_calls (t : list event) : list (grpc_call * bool) := t ≫= ev_grpc.

(** The request message of a call of the payee interface. *)
Definition grpc_of (c : payee_call) : grpc_call :=
  match c with
  | ListCapabilities => GrpcListCapabilities
  | GetQuote s c => GrpcGetQuote s c
  | GetTicketParams r => GrpcGetTicketParams (gt_Sender r) (gt_Recipient r) (BigBytes (gt_FaceValue r)) (gt_Capability r) (gt_Offering r)
  | OpenSession r => GrpcOpenSession (os_WorkID r) (os_Capability r) (os_Offering r) (BigBytes (os_PricePerWorkUnitWei r)) (os_WorkUnit r)
  | ProcessPayment b w => GrpcProcessPayment b w
  | DebitBalance s w n => GrpcDebitBalance s w n
  | CloseSession s w => GrpcCloseSession s w
  end.
Definition payee_ok (c : payee_call) : payee_resp c -> bool :=
  match c with
  | OpenSession _ => is_ok | ProcessPayment _ _ => is_ok | DebitBalance _ _ _ => is_ok | CloseSession _ _ => is_ok
  | _ => fun _ => true
  end.
Definition ev_payee (x : event) : list (grpc_call * bool) :=
  match x with Ev e a =>
    match e return resp e -> list (grpc_call * bool) with EPayee c => fun a => [(grpc_of c, payee_ok c a)] | _ => fun _ => [] end a
  end.
Definition payee_calls (t : list event) : list (grpc_call * bool) := t ≫= ev_payee.

(** * The clients at the root *)

Section Root.
Context (rec : Recorder).

Lemma recorder_no_rpc c s u : Tr (rec_do rec c) s u -> grpc_calls s = [].
Proof. destruct rec; [by intros [-> _]|]. by intros (x & s' & -> & -> & _). Qed.
Lemma rpc_calls {A} method (p : prog (res A)) s a l :
  (forall s1, Tr p s1 a -> grpc_calls s1 = l) -> Tr (metered_rpc rec method p) s a -> grpc_calls s = l.
Proof.
  intros Hp Ht. apply metered_rpc_Tr in Ht as (start & stop & s1 & s2 & s3 & -> & H1 & H2 & H3).
  unfold grpc_calls. csimpl. rewrite !bind_app. csimpl.
  fold (grpc_calls s1) (grpc_calls s2) (grpc_calls s3).
  by rewrite (Hp _ H1), (recorder_no_rpc _ _ _ H2), (recorder_no_rpc _ _ _ H3), app_nil_r.
Qed.
(** A call of the payee client is its one gRPC call, accepted if it was. *)
Lemma worker_payee_calls c s b : Tr (worker_payee rec c) s b -> grpc_calls s = ev_payee (Ev (EPayee c) b).
Proof. destruct c; apply rpc_calls; intros s1 (x & s2 & -> & -> & Hb); try done; by destruct x; simplify_eq/=. Qed.

Lemma root_calls t0 t :
  Forall (fun x => match x with Ev e _ => interface_eff e end) t0 -> expands (root_handler rec) t0 t ->
  grpc_calls t = payee_calls t0.
Proof.
  intros Hi Hexp. eapply expands_project; [|exact Hexp]. intros e b s Hin Hs.
  assert (He : interface_eff e) by (rewrite Forall_forall in Hi; by apply (Hi (Ev e b)), list_elem_of_In).
  destruct e; try done; try (by destruct Hs as (b' & s' & -> & -> & ->)); [by apply worker_payee_calls|].
  pose proof (emits_Tr _ _ _ _ (fetch_emits c) Hs) as H. clear Hs.
  induction H as [|[e a] s Ha _ IH]; [done|]. csimpl. rewrite IH. by destruct e.
Qed.
End Root.

(** A module asks the daemon nothing. *)
Lemma module_calls m `{!ModuleLaws m} t0 t :
  expands (module_handler (mod_methods m)) t0 t -> payee_calls t = payee_calls t0.
Proof.
  apply expands_project. intros e b s _ Hs.
  destruct e; try (destruct Hs as (b' & s' & -> & -> & ->); csimpl; first [done | by rewrite app_nil_r]).
  pose proof (emits_Tr _ _ _ _ (module_serve_eff m c) Hs) as H. clear Hs.
  induction H as [|[e a] s He _ IH]; [done|]. csimpl. rewrite IH. by destruct e.
Qed.

(** * The script of a session *)

(** The first two calls of a session, and a debit. *)
Definition open_call (workID : WorkID) (route : ModelRoute) (price : Z) : grpc_call :=
  GrpcOpenSession workID (mr_Capability route) (mr_Model route) (BigBytes price) (mr_WorkUnit route).
Definition debit_calls (sender workID : string) (ds : list (Z * bool)) : list (grpc_call * bool) :=
  (fun d => (GrpcDebitBalance sender workID (fst d), snd d)) <$> ds.

(** At most two debits, the second one only behind an accepted one. *)
Definition debits_ok (ds : list (Z * bool)) : Prop :=
  match ds with [] | [_] => True | [d; _] => snd d = true | _ => False end.

Inductive script (workID : WorkID) (bytes : string) (route : ModelRoute) (price : Z) : list (grpc_call * bool) -> Prop :=
| script_not_opened : script workID bytes route price [(open_call workID route price, false)]
| script_not_paid : script workID bytes route price
    [(open_call workID route price, true); (GrpcProcessPayment bytes workID, false)]
| script_closed sender ds closed : debits_ok ds -> script workID bytes route price
    ((open_call workID route price, true) :: (GrpcProcessPayment bytes workID, true) ::
     debit_calls sender workID ds ++ [(GrpcCloseSession sender workID, closed)]).

Section Run.
Context (deps : paidRouteDeps) (r : request).

(** The session of a run has the work id of the payment, and a route of the
    configuration with its price. *)
Definition session_of (model : ModelID) (route : ModelRoute) (bytes : string) (price : Z) : Prop :=
  payment_bytes r = Some bytes /\ Lookup (d_cfg deps) (d_Capability deps) model = Some route /\
  BigSetString (mr_PricePerWorkUnitWei route) = Some price.
Definition paid_calls (sender : string) (bytes : string) (route : ModelRoute) (price : Z) (ds : list (Z * bool)) :=
  (open_call (deriveWorkID bytes) route price, true) :: (GrpcProcessPayment bytes (deriveWorkID bytes), true) ::
  debit_calls sender (deriveWorkID bytes) ds.

Definition calls_inv (t : list event) (ph : phase) : Prop :=
  match ph with
  | Idle | Routed _ => payee_calls t = []
  | Opened model route => exists bytes price, session_of model route bytes price /\
      payee_calls t = [(open_call (deriveWorkID bytes) route price, true)]
  | Paid model route sender | Estimated model route sender _ => exists bytes price, session_of model route bytes price /\
      payee_calls t = paid_calls sender bytes route price []
  | Debited model route sender est => exists bytes price, session_of model route bytes price /\
      payee_calls t = paid_calls sender bytes route price [(est, true)]
  | Served sender est _ => exists model route bytes price, session_of model route bytes price /\
      payee_calls t = paid_calls sender bytes route price [(est, true)]
  | Closing sender => exists model route bytes price ds, session_of model route bytes price /\ debits_ok ds /\
      payee_calls t = paid_calls sender bytes route price ds
  | Done => payee_calls t = [] \/ exists model route bytes price, session_of model route bytes price /\
      script (deriveWorkID bytes) bytes route price (payee_calls t)
  end.

Lemma payee_calls_snoc t x : payee_calls (t ++ [x]) = payee_calls t ++ ev_payee x.
Proof. unfold payee_calls. rewrite bind_app. csimpl. by rewrite app_nil_r. Qed.
Lemma quiet_calls e a : ~ session_eff e -> ev_payee (Ev e a) = [].
Proof. intros He. destruct e; try done; simpl in He; tauto. Qed.

Lemma run_calls t ph : steps (session_step deps r) Idle t ph -> calls_inv t ph.
Proof.
  apply (steps_invariant _ calls_inv); [done|]. clear. intros t g x g' HI Hs.
  unfold calls_inv in *. rewrite payee_calls_snoc. destruct Hs as [ph e a He| | |? ? ? ? a| | | | | |? ? ? ? ? a| | | | |].
  { rewrite (quiet_calls _ _ He), app_nil_r. exact HI. }
  all: cbn [ev_payee payee_ok is_ok grpc_of]; rewrite ?app_nil_r.
  - done.
  - by left.
  - rewrite HI. destruct a as [a|e]; cbn [is_ok].
    + exists bytes, price. by split_and!.
    + right. exists model, route, bytes, price. split; [done|apply script_not_opened].
  - destruct HI as (b & p & (Hb & Hl & Hp) & ->). assert (b = bytes) as -> by congruence. exists bytes, p. by split_and!.
  - destruct HI as (b & p & (Hb & Hl & Hp) & ->). assert (b = bytes) as -> by congruence. right. exists model, route, bytes, p. split; [done|apply script_not_paid].
  - done.
  - destruct HI as (b & p & Hs & ->). by exists model, route, b, p, [].
  - destruct HI as (b & p & (Hb & Hl & Hp) & ->). assert (b = bytes) as -> by congruence. exists bytes, p. by split_and!.
  - destruct HI as (b & p & (Hb & Hl & Hp) & ->). assert (b = bytes) as -> by congruence. exists model, route, bytes, p, [(est, is_ok a)]. by split_and!.
  - destruct HI as (b & p & Hs & ->). by exists model, route, b, p.
  - destruct HI as (b & p & Hs & ->). by exists model, route, b, p, [(est, true)].
  - destruct HI as (model & route & b & p & (Hb & Hl & Hp) & ->). assert (b = bytes) as -> by congruence.
    exists model, route, bytes, p, [(est, true); (wrap64 (actual - est), is_ok a)]. by split_and!.
  - destruct HI as (model & route & b & p & ds & (Hb & Hl & Hp) & Hds & ->). assert (b = bytes) as -> by congruence. right.
    exists model, route, bytes, p. split; [done|by apply (script_closed _ _ _ _ sender ds)].
  - destruct HI as (model & route & b & p & (Hb & Hl & Hp) & ->). assert (b = bytes) as -> by congruence. right.
    exists model, route, bytes, p. split; [done|]. by apply (script_closed _ _ _ _ sender [(est, true)]).
Qed.
End Run.

(** * The worker *)

Section Worker.
Context (int64_of_large : float64 -> Z).
Context (os_Open : string -> res string) (yaml_Decode : nat -> string -> res yamlConfig).
Context (grpc_NewClient : string -> res unit).
Context {Enc : Type} (default_encoding : res Enc) (first_encoding : string -> res Enc).
Context (tiktoken_Encode : Enc -> string -> list Z).
Context (version go_version : string).

Abbreviation startup := (Main.startup int64_of_large os_Open yaml_Decode
  grpc_NewClient default_encoding first_encoding tiktoken_Encode version go_version).

(** C3. What the daemon sees of a request.  The gRPC calls a started worker makes while
    it serves a request are one of these, in this order and nothing else: no call;
    calls for ticket parameters, which open no session; or the script of one session,
    for the work id of the request's payment and a route of the path's capability at
    its configured price: a session that is refused; a session whose payment is
    refused; or, when the payment is accepted, at most two debits, the second only
    behind an accepted first one, and then the close of that session, with the same
    sender, as the last call. *)
Theorem daemon_sees_script (args : option flags) (ts : list event) (w : worker) (method path : string)
    (flusher : bool) (r : request) (t : list event) (u : unit) :
  Tr (startup args) ts (Normal (inr w)) -> IndexByte method " " = None ->
  Tr (serve_request w method path flusher r) t u ->
  grpc_calls t = [] \/
  (grpc_calls t <> [] /\ Forall (fun c => exists s rc f cap off, fst c = GrpcGetTicketParams s rc f cap off) (grpc_calls t)) \/
  exists bytes model route price, payment_bytes r = Some bytes /\
    Lookup (wk_cfg w) ("openai:" +:+ path) model = Some route /\
    BigSetString (mr_PricePerWorkUnitWei route) = Some price /\
    script (deriveWorkID bytes) bytes route price (grpc_calls t).
Proof.
  intros Hs Hm Ht. unfold serve_request in Ht. apply interp_Tr in Ht as (t0 & Ht0 & Hexp).
  destruct (worker_dispatch _ _ _ _ _ _ _ _ _ _ _ _ method path flusher r Hs Hm)
    as [(md & Hl & Hc & _ & _ & Hh & _)|Hu].
  - rewrite Hh in Ht0. apply Tr_bind in Ht0 as (tp & tr & x & -> & Ht0 & [-> _]). rewrite app_nil_r in Hexp.
    pose proof (emits_Tr _ _ _ _ (paid_handler_interface md (paid_deps (wk_cfg w) (wk_recorder w) md) r flusher) Ht0) as Hi.
    rewrite (root_calls _ _ _ Hi Hexp).
    apply interp_Tr in Ht0 as (t1 & Ht1 & Hexp1). rewrite (module_calls md _ _ Hexp1).
    destruct (middleware_runs _ _ _ _ _ Ht1) as (ph & Hrun & Hstop). apply run_calls in Hrun.
    destruct ph; try done; simpl in Hrun; [by left|by left|].
    destruct Hrun as [?|(model & route & bytes & price & (? & Hlook & ?) & ?)]; [by left|right; right].
    cbn [paid_deps d_cfg d_Capability] in Hlook. rewrite Hc in Hlook. by exists bytes, model, route, price.
  - pose proof (emits_Tr _ _ _ _ Hu Ht0) as H.
    assert (Hi : Forall (fun x => match x with Ev e _ => interface_eff e end) t0)
      by (eapply Forall_impl; [exact H|]; intros [e b]; by destruct e).
    rewrite (root_calls _ _ _ Hi Hexp).
    assert (Hall : Forall (fun c => exists s rc f cap off, fst c = GrpcGetTicketParams s rc f cap off) (payee_calls t0)).
    { clear -H. induction H as [|[e b] t He _ IH]; [constructor|]. unfold payee_calls. csimpl. apply Forall_app.
      split; [|exact IH]. destruct e as [| | | | | | | | | | | | |[]| | |]; try done; try by destruct He.
      constructor; [by repeat eexists|constructor]. }
    destruct (payee_calls t0) as [|c l]; [by left|right; left]. by split.
Qed.
End Worker.

Lemma daemon_sees_script_witness :
  grpc_calls demo_serving_trace = [] \/
  (grpc_calls demo_serving_trace <> [] /\
   Forall (fun c => exists s rc f cap off, fst c = GrpcGetTicketParams s rc f cap off) (grpc_calls demo_serving_trace)) \/
  exists bytes model route price, payment_bytes demo_paid_request = Some bytes /\
    Lookup (wk_cfg demo_worker) ("openai:" +:+ "/v1/chat/completions") model = Some route /\
    BigSetString (mr_PricePerWorkUnitWei route) = Some price /\
    script (deriveWorkID bytes) bytes route price (grpc_calls demo_serving_trace).
Proof.
  exact (daemon_sees_script _ _ _ _ _ _ _ _ _ demo_args demo_startup_trace demo_worker "POST"
    "/v1/chat/completions" true demo_paid_request demo_serving_trace (result_of demo_env demo_serving env0)
    demo_started eq_refl (trace_of_Tr _ _ _)).
Defined.
Example demo_script : length (grpc_calls demo_serving_trace) = 4%nat.
Proof. vm_compute. reflexivity. Qed.
