(* ===== verification/Relay.v ===== *)
(** Buffered answers: what a module that does not stream sends to the client is the
    backend's answer, from the module up to the HTTP exchange of the worker. *)
From stdpp Require Import base gmap strings list.
From Stdlib Require Import ZArith Lia Ascii String.
From S2P Require Import Prelude.
From S2P Require Import GoStrings.
From S2P Require Import GoConv.
From S2P Require Import GoUrl.
From S2P Require Import GoFloat.
From S2P Require Import GoUnmarshal.
From S2P Require Import Types.
From S2P Require Import Prog.
From S2P Require Import Interp.
From S2P Require Import Config.
From S2P Require Import Payee.
From S2P Require Import Backend.
From S2P Require Import Tokenizer.
From S2P Require Import ResponseWriter.
From S2P Require Import Module.
From S2P Require Import Multipart.
From S2P Require Import Middleware.
From S2P Require Import Session.
From S2P Require Import Contract.
From S2P Require Import Stack.
From S2P Require Import Env.
From S2P Require Import Mux.
From S2P Require Import Handlers.
From S2P Require Import Main.
From S2P Require Import Worker.
From S2P Require Import Local.
From S2P Require ChatCompletions.
From S2P Require Embeddings.
From S2P Require ImagesGenerations.
From S2P Require ImagesEdits.
From S2P Require AudioSpeech.
From S2P Require AudioTranscriptions.

(** * The law *)

(** The buffered answers of a backend in a trace. *)
Definition raw_of (c : backend_call) : backend_resp c -> list raw_result :=
  match c with DoStream _ _ => fun _ => [] | _ => fun rr => [rr] end.
Definition ev_raw (x : event) : list raw_result :=
  match x with Ev e a =>
    match e return resp e -> list raw_result with EBackend c => raw_of c | _ => fun _ => [] end a
  end.
Definition raw_answers (t : list event) : list raw_result := t ≫= ev_raw.

(** What the client is sent for one: its status and its body, or a 502; nothing for a
    status net/http does not write. *)
Definition raw_reply (rr : raw_result) : list (Z + string) :=
  match rr_err rr with
  | Some _ => [inl 502; inr ("backend error" +:+ nl)]
  | None => if checkWriteHeaderCode (rr_status rr) then [inl (rr_status rr); inr (rr_body rr)] else []
  end.
Definition relayed (ws : list (Z + string)) (res : serve_result) (rr : raw_result) : Prop :=
  ws = raw_reply rr /\ (sv_err res = None <-> rr_err rr = None /\ checkWriteHeaderCode (rr_status rr) = true).

Class RelayLaws (m : Module) : Prop :=
  law_relay : forall w r body model url t res,
    sw_wrote w = false -> Tr (mod_methods m (Serve w r body model url)) t res ->
    Forall (relayed (replies t) res) (raw_answers t).

(** * Its instances *)

(** The ghost state: the buffered answers and the replies. *)
Definition relay_ghost : Type := list raw_result * list (Z + string).
Definition raw_mon : monitor relay_ghost := fun g x => Next (fst g ++ ev_raw x, snd g ++ ev_replies x).
Definition raw_post (g : relay_ghost) (res : serve_result) : Prop := Forall (relayed (snd g) res) (fst g).

Lemma raw_mon_run l ws t : mon_run raw_mon (l, ws) t = Next (l ++ raw_answers t, ws ++ replies t).
Proof.
  revert l ws. induction t as [|x t IH]; intros l ws; [by rewrite !app_nil_r|].
  cbn [mon_run raw_mon fst snd]. rewrite IH. unfold raw_answers, replies. csimpl. by rewrite !app_assoc.
Qed.

Lemma relay_laws_intro (m : Module) :
  (forall w r body model url, sw_wrote w = false ->
     safe raw_mon (mod_methods m (Serve w r body model url)) raw_post ([], [])) ->
  RelayLaws m.
Proof.
  intros H w r body model url t res Hw Ht. pose proof (safe_sound _ _ _ _ _ _ (H w r body model url Hw) Ht) as Hs.
  by rewrite raw_mon_run in Hs.
Qed.

(** Effects that neither answer nor reply. *)
Definition silent (e : eff) : Prop := match e with ENow | ERec _ | EStreamClose | ESetHeader _ _ | EFlush => True | _ => False end.

Lemma raw_silent {A} (p : prog A) (Q : relay_ghost -> A -> Prop) g :
  emits silent p -> (forall a, Q g a) -> safe raw_mon p Q g.
Proof. apply emits_safe. intros e a He. unfold raw_mon. destruct g, e; try done; simpl; by rewrite !app_nil_r. Qed.
(** What is local to the module is no backend's answer. *)
Lemma raw_local (p : prog serve_result) ws : emits local_eff p -> safe raw_mon p raw_post ([], ws).
Proof.
  revert ws. induction p as [res|e k IH]; intros ws; [constructor|]. intros [He Hk] a. cbn [raw_mon fst snd].
  replace (ev_raw (Ev e a)) with (@nil raw_result) by (by destruct e). by apply IH.
Qed.

Lemma record_silent rec cap model start status err : emits silent (recordOutcome rec cap model start status err).
Proof. unfold recordOutcome, since, now. destruct rec, err as [e|]; simpl; repeat case_match; repeat (split || intros ?); done. Qed.

(** A buffered call, metered or not, then its two answers. *)
Lemma raw_backend rec cap model c (k : backend_resp c -> prog serve_result) :
  (forall a, safe raw_mon (k a) raw_post (raw_of c a, [])) ->
  safe raw_mon (bind (backendFor iface_backend rec cap model c) k) raw_post ([], []).
Proof.
  intros Hk. destruct rec as [rec|]; [|exact Hk].
  change (safe raw_mon (bind (meteredClient iface_backend rec cap model c) k) raw_post ([], [])).
  assert (Hm : safe raw_mon (meteredClient iface_backend rec cap model c) (fun g a => g = (raw_of c a, [])) ([], [])).
  { assert (Hi : safe raw_mon (iface_backend c) (fun g a => g = (raw_of c a, [])) ([], [])) by by intros a.
    assert (Hn : safe raw_mon now (fun g _ => g = ([], [])) ([], [])) by by intros a.
    destruct c; cbn [meteredClient]; unfold metered_raw, metered_stream;
      (eapply safe_seq; [exact Hn|]; intros g start ->; eapply safe_seq; [exact Hi|]; intros g a ->;
       apply safe_bind, raw_silent; [apply record_silent|by intros _]). }
  eapply safe_seq; [exact Hm|]. by intros g a ->.
Qed.

Lemma raw_error (w : statusWriter) prefix rr e :
  rr_err rr = Some e -> safe raw_mon (serve_backend_error w prefix e) raw_post ([rr], []).
Proof.
  intros He. simpl. intros _ _ _ a. constructor; [|constructor]. cbn [fst snd]. split.
  - unfold raw_reply. by rewrite He.
  - rewrite He. simpl. split; [done|by intros []].
Qed.
Lemma raw_json (w : statusWriter) rr actual :
  sw_wrote w = false -> rr_err rr = None ->
  safe raw_mon (write_json w (rr_status rr) (rr_body rr) actual) raw_post ([rr], []).
Proof.
  intros Hw He. unfold write_json. intros []. cbn [raw_mon fst snd].
  assert (Hp : header_panics (rr_status rr) w = negb (checkWriteHeaderCode (rr_status rr)))
    by (unfold header_panics; by rewrite Hw, andb_true_r).
  destruct (checkWriteHeaderCode (rr_status rr)) eqn:Hc.
  - rewrite WriteHeader_then_writes by done. intros [] err. constructor; [|constructor]. unfold relayed, raw_reply.
    by rewrite He, Hc.
  - destruct (WriteHeader_then_panics _ _ (fun w => '(w, _) ← Write (rr_body rr) w; Ret (ServeResult w actual None)) Hp)
      as [msg ->].
    constructor; [|constructor]. unfold relayed, raw_reply. rewrite He, Hc. cbn. split; [done|]. by split; [|intros []].
Qed.

#[export] Instance embeddings_relay tok rec : RelayLaws (Embeddings.module tok iface_backend rec).
Proof.
  apply relay_laws_intro. intros w r body model url Hw. apply (raw_backend _ _ _ (DoJSON _ _)). intros rr.
  destruct (rr_err rr) eqn:E; [by apply raw_error|by apply raw_json].
Qed.
#[export] Instance images_generations_relay rec : RelayLaws (ImagesGenerations.module iface_backend rec).
Proof.
  apply relay_laws_intro. intros w r body model url Hw. apply (raw_backend _ _ _ (DoJSON _ _)). intros rr.
  destruct (rr_err rr) eqn:E; [by apply raw_error|by apply raw_json].
Qed.
#[export] Instance images_edits_relay rec : RelayLaws (ImagesEdits.module iface_backend rec).
Proof.
  apply relay_laws_intro. intros w r body model url Hw. simpl. unfold ImagesEdits.Module_Serve.
  destruct (negb _); [by apply raw_local; repeat (split || intros ?)|].
  apply (raw_backend _ _ _ (DoRaw _ _ _)). intros rr.
  destruct (rr_err rr) eqn:E; [by apply raw_error|by apply raw_json].
Qed.
#[export] Instance audio_transcriptions_relay f rec ceil :
  RelayLaws (AudioTranscriptions.module f iface_backend rec ceil).
Proof.
  apply relay_laws_intro. intros w r body model url Hw. simpl. unfold AudioTranscriptions.Module_Serve.
  destruct (negb _); [by apply raw_local; repeat (split || intros ?)|].
  apply (raw_backend _ _ _ (DoRaw _ _ _)). intros rr.
  destruct (rr_err rr) eqn:E; [by apply raw_error|by apply raw_json].
Qed.

#[export] Instance chat_relay tok rec def : RelayLaws (ChatCompletions.module tok iface_backend rec def).
Proof.
  apply relay_laws_intro. intros w r body model url Hw.
  cbn [ChatCompletions.module mod_methods ChatCompletions.methods]. unfold ChatCompletions.Module_Serve.
  destruct (ChatCompletions.parse_request body) as [rq|e]; [|by apply raw_local].
  destruct (ChatCompletions.Stream rq).
  - apply (raw_backend _ _ _ (DoStream _ _)). intros sr. apply raw_local.
    destruct (sr_err sr); [apply local_backend_error|apply local_closing, wire_relay_stream].
  - apply (raw_backend _ _ _ (DoJSON _ _)). intros rr.
    destruct (rr_err rr) eqn:E; [by apply raw_error|by apply raw_json].
Qed.
#[export] Instance audio_speech_relay rec : RelayLaws (AudioSpeech.module iface_backend rec).
Proof.
  apply relay_laws_intro. intros w r body model url Hw. apply (raw_backend _ _ _ (DoStream _ _)). intros sr.
  apply raw_local. destruct (sr_err sr); [apply local_backend_error|apply local_closing, wire_pipe_stream].
Qed.

(** * Behind the middleware *)

Lemma expands_mid h t0a e b t0b t :
  expands h (t0a ++ Ev e b :: t0b) t ->
  exists ta s tb, t = ta ++ s ++ tb /\ expands h t0a ta /\ Tr (h e) s b /\ expands h t0b tb.
Proof.
  revert t. induction t0a as [|[e' b'] t0a IH]; intros t.
  - intros (s & tb & -> & Hs & Htb). exists [], s, tb. done.
  - intros (s' & t' & -> & Hs' & Ht'). destruct (IH _ Ht') as (ta & s & tb & -> & Ha & Hs & Hb).
    exists (s' ++ ta), s, tb. split_and!; [by rewrite app_assoc|exists s', ta; done|done|done].
Qed.

Lemma raw_answers_app t1 t2 : raw_answers (t1 ++ t2) = raw_answers t1 ++ raw_answers t2.
Proof. apply bind_app. Qed.

(** The one [Serve] of a trace. *)
Lemma serves_split t res :
  serves t = [res] ->
  exists a w r body model url b, t = a ++ Ev (EModule (Serve w r body model url)) res :: b /\
    serves a = [] /\ serves b = [].
Proof.
  induction t as [|x t IH]; [done|]. unfold serves. csimpl. intros H.
  destruct (ev_serves x) as [|y l] eqn:Ex.
  - destruct (IH H) as (a & w & r & body & model & url & b & -> & Ha & Hb).
    exists (x :: a), w, r, body, model, url, b. split_and!; [done| |done]. unfold serves. csimpl. by rewrite Ex.
  - destruct x as [e a]. destruct e; try done. destruct c as [| |w r body model url]; try done.
    cbn in Ex. injection Ex as <- <-. injection H as -> H. by exists [], w, r, body, model, url, t.
Qed.

Section Handler.
Context (m : Module) `{!ModuleLaws m} `{!RelayLaws m}.

(** What happens off the stage: no backend is asked and the client is sent nothing. *)
Definition offstage (e : eff) : Prop := match e with EBackend _ | EWriteHeader _ | EWrite _ => False | _ => True end.
Definition quiet (t : list event) : Prop := Forall (fun x => match x with Ev e _ => offstage e end) t.
Lemma offstage_projections t : quiet t -> raw_answers t = [] /\ replies t = [].
Proof.
  induction 1 as [|[e b] t He _ [IH1 IH2]]; [done|]. unfold raw_answers, replies in *. csimpl. rewrite IH1, IH2.
  by destruct e.
Qed.

(** Outside the [Serve] the client is sent what the middleware sends. *)
Lemma unserved_quiet t0 t :
  serves t0 = [] -> Forall (fun x => match x with Ev e _ => middleware_eff e end) t0 ->
  expands (module_handler (mod_methods m)) t0 t ->
  Forall (fun x => match x with Ev (EBackend _) _ => False | _ => True end) t /\ (replies t0 = [] -> quiet t).
Proof.
  revert t. induction t0 as [|[e b] t0 IH]; intros t Hs Hm; [intros ->; by repeat constructor|].
  intros (s & t' & -> & Hseg & Hexp). inversion Hm as [|? ? He Hm']; subst.
  unfold serves in Hs. csimpl in Hs. apply app_nil in Hs as [Hs0 Hs].
  destruct (IH t' Hs Hm' Hexp) as [Hb Hq]. change (replies (Ev e b :: t0)) with (ev_replies (Ev e b) ++ replies t0).
  enough (Forall (fun x => match x with Ev (EBackend _) _ => False | _ => True end) s /\
          (ev_replies (Ev e b) = [] -> quiet s)) as [H1 H2].
  { split; [by apply Forall_app|]. intros H. apply app_nil in H as [? ?]. apply Forall_app. split; [by apply H2|by apply Hq]. }
  assert (Hp : forall {A} (p : prog A) a, emits tokenizer_eff p -> Tr p s a ->
    Forall (fun x => match x with Ev (EBackend _) _ => False | _ => True end) s /\ quiet s).
  { intros A p a Hp Ht. pose proof (emits_Tr _ _ _ _ Hp Ht) as H.
    split; (eapply Forall_impl; [exact H|]); intros [e' a'] He'; by destruct e' as [| | | | |[]| | | | | | | | | | |]. }
  destruct e; try done; try (destruct Hseg as (b' & s' & -> & -> & ->); split; [by constructor|]; intros; first [done | by repeat constructor]).
  destruct c as [body|body model|w r body model url]; [| |done];
    (edestruct Hp as [H1 H2]; [|exact Hseg|by split]); [apply law_ExtractModel|apply law_EstimateWorkUnits].
Qed.

(** A request that is served is its [Serve] between what is off stage. *)
Lemma served_segment deps r flusher t0 x t res :
  Tr (paymentMiddleware deps flusher r) t0 x -> expands (module_handler (mod_methods m)) t0 t -> serves t0 = [res] ->
  exists ta s tb w r' body model url, t = ta ++ s ++ tb /\ In (Ev (EModule (Serve w r' body model url)) res) t0 /\
    sw_wrote w = false /\ Tr (mod_methods m (Serve w r' body model url)) s res /\ quiet ta /\ quiet tb.
Proof.
  intros Ht0 Hexp Hres. pose proof (emits_Tr _ _ _ _ (middleware_interface deps flusher r) Ht0) as Hm.
  pose proof (safe_sound _ _ _ _ _ _ (reply_middleware deps r flusher) Ht0) as Hrep.
  rewrite reply_mon_run in Hrep. unfold reply_post in Hrep. cbn [rg_serves rg_replies rg_refusal app] in Hrep.
  rewrite Hres in Hrep. destruct (serves_split _ _ Hres) as (a & w & r' & body & model & url & b & -> & Ha & Hb).
  apply expands_mid in Hexp as (ta & s & tb & -> & Hea & Hs' & Heb).
  apply Forall_app in Hm as [Hma Hmb]. inversion Hmb as [|? ? _ Hmb']; subst.
  rewrite replies_app in Hrep. apply app_nil in Hrep as [Hwa Hwb]. change (replies b = []) in Hwb.
  pose proof (serve_unwritten _ _ _ _ _ _ _ _ _ _ _ _ Ht0) as Hw.
  exists ta, s, tb, w, r', body, model, url.
  split_and!; [done|apply in_app_iff; right; by left|done|done|by apply (unserved_quiet a)|by apply (unserved_quiet b)].
Qed.

(** A paid request asks no backend, or it is one [Serve] between what is off stage. *)
Lemma paid_segment deps r flusher t x :
  Tr (paid_handler m deps r flusher) t x ->
  Forall (fun x => match x with Ev (EBackend _) _ => False | _ => True end) t \/
  exists ta s tb w r' body model url res, t = ta ++ s ++ tb /\
    sw_wrote w = false /\ Tr (mod_methods m (Serve w r' body model url)) s res /\ quiet ta /\ quiet tb.
Proof.
  intros Ht. apply interp_Tr in Ht as (t0 & Ht0 & Hexp).
  pose proof (emits_Tr _ _ _ _ (middleware_interface deps flusher r) Ht0) as Hm.
  destruct (middleware_runs _ _ _ _ _ Ht0) as (ph & Hs & Hstop).
  assert (Hone : serves t0 = [] \/ exists res, serves t0 = [res]).
  { apply run_billing in Hs. destruct ph; try done; simpl in Hs; destruct_and?; [by left..|].
    destruct Hs as [[Hs _]|(n & res & _ & Hs & _)]; [by left|right; by exists res]. }
  destruct Hone as [Hnone|[res Hres]]; [left; by apply (unserved_quiet t0)|right].
  destruct (served_segment _ _ _ _ _ _ _ Ht0 Hexp Hres) as (ta & s & tb & w & r' & body & model & url & H).
  exists ta, s, tb, w, r', body, model, url, res. naive_solver.
Qed.

(** A buffered backend answer is what the client of the route is sent. *)
Lemma paid_relay deps r flusher t x rr :
  Tr (paid_handler m deps r flusher) t x -> In rr (raw_answers t) -> replies t = raw_reply rr.
Proof.
  intros Ht Hin. destruct (paid_segment _ _ _ _ _ Ht) as [Hnone|(ta & s & tb & w & r' & body & model & url & res & -> & Hw & Hs & Ha & Hb)].
  { exfalso. apply list_elem_of_In, list_elem_of_bind in Hin as ([e b] & Hr & Hx).
    rewrite Forall_forall in Hnone. specialize (Hnone _ Hx). destruct e; try done; by apply not_elem_of_nil in Hr. }
  destruct (offstage_projections _ Ha) as [Ra Wa]. destruct (offstage_projections _ Hb) as [Rb Wb].
  rewrite !raw_answers_app, Ra, Rb, app_nil_r in Hin. rewrite !replies_app, Wa, Wb, app_nil_r.
  pose proof (law_relay _ _ _ _ _ _ _ Hw Hs) as Hl. rewrite Forall_forall in Hl. by apply Hl, list_elem_of_In.
Qed.
End Handler.

(** * Behind the fetch client *)

(** The answer to a buffered HTTP request, as the client is sent it. *)
Definition http_reply (ans : res http_response) : list (Z + string) :=
  match ans with
  | Err _ => [inl 502; inr ("backend error" +:+ nl)]
  | Ok resp =>
      match stream_ReadAll (hp_body resp) with
      | (_, Some _) => [inl 502; inr ("backend error" +:+ nl)]
      | (buf, None) => if checkWriteHeaderCode (hp_status resp) then [inl (hp_status resp); inr buf] else []
      end
  end.

(** The HTTP answers of a trace. *)
Definition http_answer (x : event) : option (res http_response) :=
  match x with Ev e a =>
    match e return resp e -> option (res http_response) with EHttpDo _ => Some | _ => fun _ => None end a
  end.

Lemma fetch_raw_answer url ct body s (b : raw_result) x ans :
  Tr (fetch_DoRaw url ct body) s b -> In x s -> http_answer x = Some ans -> raw_reply b = http_reply ans.
Proof.
  unfold fetch_DoRaw. destruct (NewRequest _ _ _) as [req|e]; [|by intros [-> _]].
  intros Ht Hin Hx. apply Tr_event in Ht as (a & s' & -> & Hs). destruct a as [resp|e].
  - apply Tr_bind in Hs as (s1 & s2 & rr & -> & Hr & Hc). apply Tr_bind in Hc as (s3 & s4 & [] & -> & Hc & [-> ->]).
    destruct Hc as ([] & ? & -> & -> & _). unfold http_reply in *.
    destruct (stream_ReadAll (hp_body resp)) as [buf [e|]] eqn:E; destruct Hr as [-> ->];
      (destruct Hin as [<-|[<-|[]]]; [|discriminate Hx]); injection Hx as <-; by rewrite E.
  - destruct Hs as [-> ->]. destruct Hin as [<-|[]]. by injection Hx as <-.
Qed.
(** Only the request for a stream accepts one. *)
Lemma fetch_stream_accepts url body :
  emits (fun e => match e with EHttpDo rq => Header_Get (hq_headers rq) "Accept" <> "" | _ => True end)
    (fetchClient (DoStream url body)).
Proof.
  cbn [fetchClient]. unfold fetch_DoStream, NewRequest. destruct (url_Parse url); [|done].
  cbn [mbind res_bind]. split; [discriminate|]. intros [resp|e]; [|done]. cbn. by destruct (_ || _).
Qed.

Lemma fetch_answer c s b rq ans :
  Tr (fetchClient c) s b -> In (Ev (EHttpDo rq) ans) s -> Header_Get (hq_headers rq) "Accept" = "" ->
  exists rr, In rr (ev_raw (Ev (EBackend c) b)) /\ raw_reply rr = http_reply ans.
Proof.
  intros Ht Hin Hacc. destruct c as [url body|url ct body|url body].
  1, 2: exists b; split; [by left|by eapply fetch_raw_answer].
  pose proof (emits_Tr _ _ _ _ (fetch_stream_accepts url body) Ht) as H. rewrite List.Forall_forall in H.
  by destruct (H _ Hin).
Qed.

(** The implementations at the root send the client nothing. *)
Definition unheard (e : eff) : Prop := match e with EWriteHeader _ | EWrite _ => False | _ => True end.
Lemma unheard_replies {A} (p : prog A) s a : emits unheard p -> Tr p s a -> replies s = [].
Proof.
  intros Hp Hs. pose proof (emits_Tr _ _ _ _ Hp Hs) as H. clear Hs. induction H as [|[e b] s He _ IH]; [done|].
  unfold replies in *. csimpl. rewrite IH. by destruct e.
Qed.
Lemma root_replies rec t0 t : expands (root_handler rec) t0 t -> replies t = replies t0.
Proof.
  apply expands_project. intros e b s _ Hs.
  destruct e; try (by destruct Hs as (b' & s' & -> & -> & ->)).
  - eapply unheard_replies; [|exact Hs]. destruct c; apply emits_metered; try done; by repeat first [exact I | split | intros ?].
  - eapply unheard_replies; [|exact Hs]. eapply emits_mono; [|apply fetch_emits]. by intros [].
Qed.

Lemma raw_answers_In c b rr t : In rr (ev_raw (Ev (EBackend c) b)) -> In (Ev (EBackend c) b) t -> In rr (raw_answers t).
Proof.
  intros Hr Hin. apply list_elem_of_In. apply list_elem_of_bind. exists (Ev (EBackend c) b).
  split; by apply list_elem_of_In.
Qed.

(** An HTTP exchange of the process is one of a backend call, with its answer. *)
Lemma exchange_behind_backend rec (p : prog unit) t rq ans u :
  emits interface_eff p -> Tr (interp (root_handler rec) p) t u -> In (Ev (EHttpDo rq) ans) t ->
  exists t0 c b s, Tr p t0 u /\ expands (root_handler rec) t0 t /\ In (Ev (EBackend c) b) t0 /\
    Tr (fetchClient c) s b /\ In (Ev (EHttpDo rq) ans) s.
Proof.
  intros Hp Ht Hin. apply interp_Tr in Ht as (t0 & Ht0 & Hexp).
  destruct (expands_source _ _ _ _ Hexp Hin) as (e & b & s & Hin0 & Hs & Hx).
  pose proof (emits_Tr _ _ _ _ Hp Ht0) as He. rewrite List.Forall_forall in He. specialize (He _ Hin0).
  destruct e; try (discriminate (trigger_In _ _ _ _ Hs Hx)); try done.
  - pose proof (emits_Tr _ _ _ _ (worker_payee_no_http rec c) Hs) as H. rewrite List.Forall_forall in H. by destruct (H _ Hx).
  - by exists t0, c, b, s.
Qed.

(** * The worker *)

Lemma module_for_relay f capability tok rec md :
  module_for f capability tok iface_backend rec = Some md -> RelayLaws md.
Proof.
  unfold module_for.
  repeat (match goal with |- (if String.eqb capability ?c then _ else _) = _ -> _ =>
    destruct (String.eqb_spec capability c) as [->|_] end; [intros [= <-]|]); [..|done].
  - apply chat_relay.
  - apply embeddings_relay.
  - apply images_generations_relay.
  - apply audio_speech_relay.
  - apply images_edits_relay.
  - apply audio_transcriptions_relay.
Qed.

Section Worker.
Context (int64_of_large : float64 -> Z).
Context (os_Open : string -> res string) (yaml_Decode : nat -> string -> res yamlConfig).
Context (grpc_NewClient : string -> res unit).
Context {Enc : Type} (default_encoding : res Enc) (first_encoding : string -> res Enc).
Context (tiktoken_Encode : Enc -> string -> list Z).
Context (version go_version : string).

Abbreviation startup := (Main.startup int64_of_large os_Open yaml_Decode
  grpc_NewClient default_encoding first_encoding tiktoken_Encode version go_version).

(** C4. The backend's answer is the client's.  Whatever a started worker serves,
    when it has sent a backend an HTTP request that does not ask for a stream, what the
    handler writes to the client is one answer: the status and the body of that
    exchange, unchanged, an error status of the backend like any other; a 502 with a
    line of plain text, when the exchange failed or the body broke off; nothing at all,
    when net/http does not write the status (below 100) and the handler panics.
    (product-specs/ announces a JSON [backend_unavailable] with 502 for a backend that
    answers 5xx or cannot be reached.) *)
Theorem buffered_answer_relayed (args : option flags) (ts : list event) (w : worker) (method path : string)
    (flusher : bool) (r : request) (t : list event) (u : unit) (rq : http_request) (ans : res http_response) :
  Tr (startup args) ts (Normal (inr w)) -> IndexByte method " " = None ->
  Tr (serve_request w method path flusher r) t u ->
  In (Ev (EHttpDo rq) ans) t -> Header_Get (hq_headers rq) "Accept" = "" ->
  replies t = http_reply ans.
Proof.
  intros Hs Hm Ht Hin Hacc. unfold serve_request in Ht.
  destruct (worker_dispatch _ _ _ _ _ _ _ _ _ _ _ _ method path flusher r Hs Hm)
    as [(md & Hl & _ & _ & _ & Hh & Hfor)|Hu].
  - rewrite Hh in Ht. edestruct exchange_behind_backend as (t0 & c & b & s & Ht0 & Hexp & Hb & Hf & Hx);
      [|exact Ht|exact Hin|]; [apply emits_bind; [by apply paid_handler_interface|by intros]|].
    apply Tr_bind in Ht0 as (tp & tr & x & -> & Ht0 & [-> _]). rewrite app_nil_r in *.
    destruct (fetch_answer _ _ _ _ _ Hf Hx Hacc) as (rr & Hrr & <-). rewrite (root_replies _ _ _ Hexp).
    apply (module_for_relay int64_of_large) in Hfor. apply (paid_relay md _ _ _ _ _ _ Ht0). by eapply raw_answers_In.
  - edestruct exchange_behind_backend as (t0 & c & b & s & Ht0 & _ & Hb & _); [|exact Ht|exact Hin|].
    { eapply emits_mono; [|exact Hu]. by intros []. }
    pose proof (emits_Tr _ _ _ _ Hu Ht0) as H. rewrite List.Forall_forall in H. by destruct (H _ Hb).
Qed.
End Worker.

Lemma buffered_answer_relayed_witness :
  replies demo_serving_trace = [inl 200; inr "{}"].
Proof.
  refine (buffered_answer_relayed _ _ _ _ _ _ _ _ _ demo_args demo_startup_trace demo_worker "POST"
    "/v1/chat/completions" true demo_paid_request demo_serving_trace (result_of demo_env demo_serving env0)
    demo_http_request (Ok (HttpResponse 200 [] (Stream ["{}"] ErrEOF)))
    demo_started eq_refl (trace_of_Tr _ _ _) _ eq_refl).
  apply (nth_error_In _ (length demo_http_before)). vm_compute. reflexivity.
Defined.
