(* ===== verification/Streaming.v ===== *)
(** The answers that come as a stream, chat completions and speech, from the HTTP
    transport to the response writer. *)
From stdpp Require Import base gmap strings list.
From Stdlib Require Import ZArith Lia Ascii String.
From S2P Require Import Prelude.
From S2P Require Import GoStrings.
From S2P Require Import GoConv.
From S2P Require Import GoUrl.
From S2P Require Import GoFloat.
From S2P Require Import GoUnmarshal.
From S2P Require Import Types.
From S2P Require Import Prog.
From S2P Require Import Interp.
From S2P Require Import Config.
From S2P Require Import Payee.
From S2P Require Import Backend.
From S2P Require Import Tokenizer.
From S2P Require Import ResponseWriter.
From S2P Require Import Module.
From S2P Require Import Multipart.
From S2P Require Import Middleware.
From S2P Require Import Session.
From S2P Require Import Contract.
From S2P Require Import Stack.
From S2P Require Import Env.
From S2P Require Import Mux.
From S2P Require Import Handlers.
From S2P Require Import Main.
From S2P Require Import Worker.
From S2P Require Import Local.
From S2P Require Import Relay.
From S2P Require ChatCompletions.
From S2P Require Embeddings.
From S2P Require ImagesGenerations.
From S2P Require ImagesEdits.
From S2P Require AudioSpeech.
From S2P Require AudioTranscriptions.

(** * What a relayed stream looks like to the client *)

Abbreviation writes_ok := ChatCompletions.writes_ok.
Abbreviation client_bytes := ChatCompletions.client_bytes.

(** The status first, then pieces of the body, in order; all of it unless a write
    failed. *)
Definition streamed (ws : list (Z + string)) (ok : bool) (status : Z) (text : string) : Prop :=
  exists bs rest, ws = inl status :: (inr <$> bs) /\ str_concat bs +:+ rest = text /\ (ok = true -> rest = "").

(** The same for any status of a backend: one net/http does not write sends nothing. *)
Definition stream_sent (ws : list (Z + string)) (ok : bool) (status : Z) (text : string) : Prop :=
  if checkWriteHeaderCode status then streamed ws ok status text else ws = [].

Definition stream_of (c : backend_call) : backend_resp c -> list stream_result :=
  match c with DoStream _ _ => fun sr => [sr] | _ => fun _ => [] end.
Definition ev_streams (x : event) : list stream_result :=
  match x with Ev e a =>
    match e return resp e -> list stream_result with EBackend c => stream_of c | _ => fun _ => [] end a
  end.
Definition streams (t : list event) : list stream_result := t ≫= ev_streams.

Definition stream_relayed (t : list event) (sr : stream_result) : Prop :=
  match sr_err sr with
  | Some _ => replies t = [inl 502; inr ("backend error" +:+ nl)]
  | None => stream_sent (replies t) (writes_ok t) (sr_status sr) (str_concat (st_chunks (sr_stream sr)))
  end.

(** What a module promises of the stream it relays. *)
Class StreamLaws (m : Module) : Prop :=
  law_stream : forall w r body model url t res,
    sw_wrote w = false -> Tr (mod_methods m (Serve w r body model url)) t res ->
    Forall (stream_relayed t) (streams t).

(** * Traces of writes *)

Definition ev_writes (x : event) : list string := match x with Ev (EWrite b) _ => [b] | _ => [] end.
Definition write_texts (t : list event) : list string := t ≫= ev_writes.
Definition headless (e : eff) : Prop := match e with EWriteHeader _ => False | _ => True end.

Lemma client_bytes_texts t : client_bytes t = str_concat (write_texts t).
Proof. induction t as [|[e a] t IH]; [done|]. destruct e; try exact IH. unfold write_texts in *. csimpl. simpl. by rewrite IH. Qed.
Lemma headless_replies t :
  Forall (fun x => match x with Ev e _ => headless e end) t -> replies t = inr <$> write_texts t.
Proof.
  induction 1 as [|[e a] t He _ IH]; [done|]. unfold replies, write_texts in *. csimpl. rewrite IH. by destruct e.
Qed.
Lemma writes_ok_app t1 t2 : writes_ok (t1 ++ t2) = writes_ok t1 && writes_ok t2.
Proof. apply forallb_app. Qed.

(** A header, then writes whose text is known. *)
Lemma streamed_intro t1 status t2 text :
  replies t1 = [] -> writes_ok t1 = true -> Forall (fun x => match x with Ev e _ => headless e end) t2 ->
  (exists rest, client_bytes t2 +:+ rest = text) -> (writes_ok t2 = true -> client_bytes t2 = text) ->
  streamed (replies (t1 ++ Ev (EWriteHeader status) tt :: t2)) (writes_ok (t1 ++ Ev (EWriteHeader status) tt :: t2)) status text.
Proof.
  intros Hr Hok Hh [rest Hp] Hall. rewrite replies_app, Hr, writes_ok_app, Hok.
  change (replies (Ev (EWriteHeader status) tt :: t2)) with (inl status :: replies t2).
  change (writes_ok (Ev (EWriteHeader status) tt :: t2)) with (writes_ok t2).
  exists (write_texts t2). rewrite (headless_replies _ Hh). rewrite <- client_bytes_texts.
  destruct (writes_ok t2) eqn:E.
  - exists "". rewrite str_app_nil_r. auto.
  - exists rest. split_and!; [done|done|]. by intros [=].
Qed.

Definition unstreamed (e : eff) : Prop := match e with EBackend (DoStream _ _) => False | _ => True end.
Lemma unstreamed_streams t : Forall (fun x => match x with Ev e _ => unstreamed e end) t -> streams t = [].
Proof.
  induction 1 as [|[e a] t He _ IH]; [done|]. unfold streams in *. csimpl. rewrite IH.
  destruct e as [| | | | | | | | | | | | | |[]| |]; try done; by destruct He.
Qed.
Lemma silent_trace s :
  Forall (fun x => match x with Ev e _ => silent e end) s -> streams s = [] /\ replies s = [] /\ writes_ok s = true.
Proof.
  induction 1 as [|[e a] t He _ (IH1 & IH2 & IH3)]; [done|]. unfold streams, replies in *. csimpl. rewrite IH1, IH2.
  change (writes_ok (Ev e a :: t)) with (ChatCompletions.write_ok (Ev e a) && writes_ok t). rewrite IH3. by destruct e.
Qed.

(** * The backend call of a [Serve] *)

(** Beside the call itself, metered or not, nothing is sent. *)
Lemma backend_trace rec cap model c s a :
  Tr (backendFor iface_backend rec cap model c) s a ->
  streams s = stream_of c a /\ replies s = [] /\ writes_ok s = true.
Proof.
  assert (Hone : forall s, Tr (iface_backend c) s a -> s = [Ev (EBackend c) a]) by by intros s' (x & s2 & -> & -> & ->).
  destruct rec as [rec|]; intros Ht.
  2: { apply Hone in Ht as ->. unfold streams. csimpl. by rewrite app_nil_r. }
  change (Tr (meteredClient iface_backend rec cap model c) s a) in Ht.
  assert (Hs : exists start s2, s = Ev ENow start :: Ev (EBackend c) a :: s2 /\
    Forall (fun x => match x with Ev e _ => silent e end) s2).
  { destruct c; cbn [meteredClient] in Ht; unfold metered_raw, metered_stream in Ht;
      (apply Tr_event in Ht as (start & s1 & -> & Ht); apply Tr_bind in Ht as (s2 & s3 & x & -> & Hx & Ht);
       destruct Hx as (y & s4 & -> & -> & ->); apply Tr_bind in Ht as (s5 & s6 & [] & -> & Hrec & [-> ->]);
       exists start, s5; rewrite app_nil_r; split; [done|]; exact (emits_Tr _ _ _ _ (record_silent _ _ _ _ _ _) Hrec)). }
  destruct Hs as (start & s2 & -> & Hs). destruct (silent_trace _ Hs) as (H1 & H2 & H3).
  unfold streams, replies in *. csimpl. rewrite H1, H2, app_nil_r. by destruct c.
Qed.

Lemma backend_unstreamed rec cap model c :
  unstreamed (EBackend c) -> emits unstreamed (backendFor iface_backend rec cap model c).
Proof.
  intros Hc. destruct rec as [rec|]; [|by split].
  change (emits unstreamed (meteredClient iface_backend rec cap model c)).
  destruct c; cbn [meteredClient]; unfold metered_raw, metered_stream, now; (apply emits_bind; [by split|intros start]);
    (apply emits_bind; [by split|intros r]); (apply emits_bind; [|by intros]);
    (eapply emits_mono; [|apply record_silent]; by intros []).
Qed.
Lemma local_unstreamed {A} (p : prog A) : emits local_eff p -> emits unstreamed p.
Proof. apply emits_mono. by intros []. Qed.

(** A module without streams. *)
Lemma stream_laws_none m :
  (forall w r body model url, emits unstreamed (mod_methods m (Serve w r body model url))) -> StreamLaws m.
Proof.
  intros H w r body model url t res _ Ht. rewrite (unstreamed_streams t); [constructor|].
  exact (emits_Tr _ _ _ _ (H w r body model url) Ht).
Qed.

Lemma close_trace {A} (p : prog A) t a :
  Tr (with_defer p (fun _ => stream_Close)) t a -> exists t', t = t' ++ [Ev EStreamClose tt] /\ Tr p t' a.
Proof.
  intros Ht. apply Tr_bind in Ht as (t1 & t2 & x & -> & Hp & Hc).
  apply Tr_bind in Hc as (t3 & t4 & [] & -> & ([] & ? & -> & -> & _) & [-> ->]). by exists t1.
Qed.
Lemma close_projections t :
  streams (t ++ [Ev EStreamClose tt]) = streams t /\ replies (t ++ [Ev EStreamClose tt]) = replies t /\
  writes_ok (t ++ [Ev EStreamClose tt]) = writes_ok t.
Proof.
  unfold streams. rewrite bind_app, replies_app, writes_ok_app. csimpl. by rewrite !app_nil_r, andb_true_r.
Qed.

(** The [Serve] of a stream: the answer is relayed, or it is an error. *)
Lemma stream_serve rec cap model url body w prefix (relayer : stream_result -> prog serve_result) t res :
  (forall sr t res, Tr (relayer sr) t res ->
    streams t = [] /\ stream_sent (replies t) (writes_ok t) (sr_status sr) (str_concat (st_chunks (sr_stream sr)))) ->
  Tr (bind (backendFor iface_backend rec cap model (DoStream url body)) (fun sr =>
        match sr_err sr with
        | Some e => serve_backend_error w prefix e
        | None => with_defer (relayer sr) (fun _ => stream_Close)
        end)) t res ->
  Forall (stream_relayed t) (streams t).
Proof.
  intros Hrel Ht. apply Tr_bind in Ht as (t1 & t2 & sr & -> & Hb & Ht).
  apply backend_trace in Hb as (Hs & Hr & Hok). unfold streams in *. rewrite bind_app, Hs.
  fold (streams t2). unfold stream_relayed. cbn [stream_of].
  assert (Ht2 : streams t2 = [] /\ match sr_err sr with
    | Some _ => replies t2 = [inl 502; inr ("backend error" +:+ nl)]
    | None => stream_sent (replies t2) (writes_ok t2) (sr_status sr) (str_concat (st_chunks (sr_stream sr))) end).
  { destruct (sr_err sr) as [e|].
    - split.
      + apply unstreamed_streams. eapply emits_Tr; [|exact Ht]. apply local_unstreamed, local_backend_error.
      + simpl in Ht. by destruct Ht as (? & ? & -> & ? & ? & -> & ? & ? & -> & ? & ? & -> & -> & _).
    - apply close_trace in Ht as (t' & -> & Ht). destruct (close_projections t') as (-> & -> & ->). by eapply Hrel. }
  destruct Ht2 as [-> Ht2]. constructor; [|constructor]. rewrite replies_app, writes_ok_app, Hr, Hok. exact Ht2.
Qed.

(** * The two relays *)

Lemma wire_streams {A} (p : prog A) t a : emits wire_eff p -> Tr p t a -> streams t = [].
Proof. intros Hp Ht. apply unstreamed_streams. eapply emits_Tr; [|exact Ht]. eapply emits_mono; [|exact Hp]. by intros []. Qed.
Definition body_eff (e : eff) : Prop := match e with EWrite _ | EFlush => True | _ => False end.
Lemma body_headless {A} (p : prog A) t a :
  emits body_eff p -> Tr p t a -> Forall (fun x => match x with Ev e _ => headless e end) t.
Proof. intros Hp Ht. eapply emits_Tr; [|exact Ht]. eapply emits_mono; [|exact Hp]. by intros []. Qed.

Lemma body_relay lines rest e w u : emits body_eff (ChatCompletions.relay lines rest e w u).
Proof.
  assert (Hline : forall line w u, emits body_eff (ChatCompletions.relay_line line w u)).
  { intros line w' u'. unfold ChatCompletions.relay_line. apply emits_bind; [by split|]. intros [w2 [er|]]; [done|].
    apply emits_bind; [|done]. unfold statusWriter_Flush. by destruct (sw_flusher w2). }
  revert w u. induction lines as [|line lines IH]; intros w u; cbn [ChatCompletions.relay].
  - apply emits_bind; [by destruct (str_nil rest)|]. by intros [[w' u'] [e'|]].
  - apply emits_bind; [done|]. intros [[w' u'] [e'|]]; [done|apply IH].
Qed.
Lemma body_io_Copy chunks e w : emits body_eff (AudioSpeech.io_Copy chunks e w).
Proof.
  revert w. induction chunks as [|c chunks IH]; intros w; cbn [AudioSpeech.io_Copy]; [done|].
  destruct (str_nil c); [apply IH|]. apply emits_bind; [by split|]. intros [w' [e'|]]; [done|apply IH].
Qed.

(** A header from a backend on an unwritten writer: out, or nothing is. *)
Lemma header_then status w k t res :
  sw_wrote w = false -> Tr (WriteHeader_then status w k) t res ->
  header_panics status w = negb (checkWriteHeaderCode status) /\
  (checkWriteHeaderCode status = false /\ t = [] \/
   exists t', checkWriteHeaderCode status = true /\ t = Ev (EWriteHeader status) tt :: t' /\ Tr (k (statusWriter_record status w)) t' res).
Proof.
  intros Hw. assert (Hp : header_panics status w = negb (checkWriteHeaderCode status))
    by (unfold header_panics; by rewrite Hw, andb_true_r).
  destruct (checkWriteHeaderCode status) eqn:Hc; intros Ht; (split; [done|]).
  - right. rewrite WriteHeader_then_writes in Ht by done. apply Tr_event in Ht as ([] & t' & -> & Ht). by exists t'.
  - left. destruct (WriteHeader_then_panics _ _ k Hp) as [msg E]. rewrite E in Ht. by destruct Ht.
Qed.

Lemma chat_streamed status s w t res :
  sw_wrote w = false -> Tr (ChatCompletions.relay_stream status s w) t res ->
  streams t = [] /\ stream_sent (replies t) (writes_ok t) status (str_concat (st_chunks s)).
Proof.
  intros Hw Ht. split; [by eapply wire_streams; [apply wire_relay_stream|]|].
  pose proof (fun Hp => safe_sound _ _ _ _ _ _ (ChatCompletions.relay_stream_relays status s w Hp) Ht) as H. unfold ChatCompletions.relay_stream in Ht.
  apply Tr_event in Ht as ([] & t1 & -> & Ht). apply Tr_event in Ht as ([] & t2 & -> & Ht).
  apply Tr_event in Ht as ([] & t3 & -> & Ht). unfold stream_sent.
  apply header_then in Ht as (Hp & [[Hc ->]|(t5 & Hc & -> & Ht)]); [|..|done]; rewrite Hc in *; [done|].
  specialize (H Hp). rewrite ChatCompletions.relay_mon_run in H. destruct H as (Hpre & Hall & _).
  destruct (ChatCompletions.read_lines _) as [lines rest].
  apply (streamed_intro [_; _; _]); [done|done|eapply body_headless; [apply body_relay|exact Ht]|exact Hpre|].
  intros Hok. by apply Hall.
Qed.

(** [io.Copy] writes the chunks, in order, up to a failed write. *)
Lemma io_Copy_relays chunks e w s :
  safe ChatCompletions.relay_mon (AudioSpeech.io_Copy chunks e w)
    (fun g _ => (exists rest, fst g +:+ rest = s +:+ str_concat chunks) /\ (snd g = true -> fst g = s +:+ str_concat chunks))
    (s, true).
Proof.
  revert s w. induction chunks as [|c chunks IH]; intros s w; cbn [AudioSpeech.io_Copy str_concat].
  { split; [exists ""|intros _]; by rewrite !str_app_nil_r. }
  destruct c as [|a c]; [cbn [str_nil]; rewrite str_app_nil_l; apply IH|]. cbn [str_nil].
  intros [er|]; cbn [ChatCompletions.relay_mon ChatCompletions.write_ok andb bind fst snd].
  - split; [exists (str_concat chunks)|done]. cbn [fst]. by rewrite str_app_assoc.
  - eapply safe_mono; [|apply IH]. intros g x. by rewrite str_app_assoc.
Qed.

Lemma speech_streamed status hs s w t res :
  sw_wrote w = false -> Tr (AudioSpeech.pipe_stream status hs s w) t res ->
  streams t = [] /\ stream_sent (replies t) (writes_ok t) status (str_concat (st_chunks s)).
Proof.
  intros Hw Ht. split; [by eapply wire_streams; [apply wire_pipe_stream|]|].
  unfold AudioSpeech.pipe_stream in Ht. apply Tr_event in Ht as ([] & t1 & -> & Ht). unfold stream_sent.
  apply header_then in Ht as (Hp & [[Hc ->]|(t3 & Hc & -> & Ht)]); [|..|done]; rewrite Hc in *; [done|].
  apply Tr_bind in Ht as (t4 & t5 & [w'' err] & -> & Hcp & Ht).
  assert (t5 = []) as -> by (destruct err; by destruct Ht). rewrite app_nil_r.
  pose proof (safe_sound _ _ _ _ _ _ (io_Copy_relays (st_chunks s) (st_end s) _ "") Hcp) as H.
  rewrite ChatCompletions.relay_mon_run in H. destruct H as [Hpre Hall].
  apply (streamed_intro [_]); [done|done|eapply body_headless; [apply body_io_Copy|exact Hcp]|exact Hpre|exact Hall].
Qed.

(** * The modules *)

#[export] Instance chat_stream_laws tok rec def : StreamLaws (ChatCompletions.module tok iface_backend rec def).
Proof.
  intros w r body model url t res Hw.
  cbn [ChatCompletions.module mod_methods ChatCompletions.methods]. unfold ChatCompletions.Module_Serve.
  destruct (ChatCompletions.parse_request body) as [rq|e]; [|intros [-> _]; constructor].
  destruct (ChatCompletions.Stream rq).
  - apply (stream_serve _ _ _ _ _ _ _ (fun sr => ChatCompletions.relay_stream (sr_status sr) (sr_stream sr) w)).
    intros sr t' res'. by apply chat_streamed.
  - intros Ht. rewrite (unstreamed_streams t); [constructor|]. eapply emits_Tr; [|exact Ht].
    apply emits_bind; [by apply (backend_unstreamed _ _ _ (DoJSON _ _))|]. intros rr. apply local_unstreamed.
    destruct (rr_err rr); [apply local_backend_error|apply local_json].
Qed.
#[export] Instance audio_speech_stream_laws rec : StreamLaws (AudioSpeech.module iface_backend rec).
Proof.
  intros w r body model url t res Hw.
  apply (stream_serve _ _ _ _ _ _ _ (fun sr => AudioSpeech.pipe_stream (sr_status sr) (sr_headers sr) (sr_stream sr) w)).
  intros sr t' res'. by apply speech_streamed.
Qed.

(** A buffered call with its two answers, and a form that is refused. *)
Lemma buffered_unstreamed rec cap model c w prefix (err : backend_resp c -> option error) status body actual :
  unstreamed (EBackend c) ->
  emits unstreamed (bind (backendFor iface_backend rec cap model c) (fun rr =>
    match err rr with
    | Some e => serve_backend_error w prefix e
    | None => write_json w (status rr) (body rr) (actual rr)
    end)).
Proof.
  intros Hc. apply emits_bind; [by apply backend_unstreamed|]. intros rr. apply local_unstreamed.
  destruct (err rr); [apply local_backend_error|apply local_json].
Qed.
#[export] Instance embeddings_stream_laws tok rec : StreamLaws (Embeddings.module tok iface_backend rec).
Proof.
  apply stream_laws_none. intros w r body model url.
  by apply (buffered_unstreamed _ _ _ (DoJSON _ _) _ _ rr_err rr_status rr_body).
Qed.
#[export] Instance images_generations_stream_laws rec : StreamLaws (ImagesGenerations.module iface_backend rec).
Proof.
  apply stream_laws_none. intros w r body model url.
  by apply (buffered_unstreamed _ _ _ (DoJSON _ _) _ _ rr_err rr_status rr_body).
Qed.
#[export] Instance images_edits_stream_laws rec : StreamLaws (ImagesEdits.module iface_backend rec).
Proof.
  apply stream_laws_none. intros w r body model url.
  cbn [ImagesEdits.module mod_methods ImagesEdits.methods]. unfold ImagesEdits.Module_Serve. destruct (negb _).
  - apply local_unstreamed, emits_bind; [apply local_wire, wire_http_Error|done].
  - by apply (buffered_unstreamed _ _ _ (DoRaw _ _ _) _ _ rr_err rr_status rr_body).
Qed.
#[export] Instance audio_transcriptions_stream_laws f rec ceil :
  StreamLaws (AudioTranscriptions.module f iface_backend rec ceil).
Proof.
  apply stream_laws_none. intros w r body model url.
  cbn [AudioTranscriptions.module mod_methods AudioTranscriptions.methods].
  unfold AudioTranscriptions.Module_Serve. destruct (negb _).
  - apply local_unstreamed, emits_bind; [apply local_wire, wire_http_Error|done].
  - by apply (buffered_unstreamed _ _ _ (DoRaw _ _ _) _ _ rr_err rr_status rr_body).
Qed.

Lemma module_for_stream f capability tok rec md :
  module_for f capability tok iface_backend rec = Some md -> StreamLaws md.
Proof.
  unfold module_for.
  repeat (match goal with |- (if String.eqb capability ?c then _ else _) = _ -> _ =>
    destruct (String.eqb_spec capability c) as [->|_] end; [intros [= <-]; apply _|]); done.
Qed.

(** * Behind the middleware, the fetch client and the root *)

Lemma quiet_stream t : quiet t -> streams t = [] /\ writes_ok t = true.
Proof.
  induction 1 as [|[e b] t He _ [IH1 IH2]]; [done|]. unfold streams in *. csimpl. rewrite IH1.
  change (writes_ok (Ev e b :: t)) with (ChatCompletions.write_ok (Ev e b) && writes_ok t). rewrite IH2. by destruct e.
Qed.
Lemma paid_stream m `{!ModuleLaws m} `{!StreamLaws m} deps r flusher t x sr :
  Tr (paid_handler m deps r flusher) t x -> In sr (streams t) -> stream_relayed t sr.
Proof.
  intros Ht Hin. destruct (paid_segment _ _ _ _ _ _ Ht) as [Hnone|(ta & s & tb & w & r' & body & model & url & res & -> & Hw & Hs & Ha & Hb)].
  { rewrite unstreamed_streams in Hin; [done|]. eapply Forall_impl; [exact Hnone|]. intros [e b]. by destruct e. }
  destruct (offstage_projections _ Ha) as [_ Wa]. destruct (offstage_projections _ Hb) as [_ Wb].
  destruct (quiet_stream _ Ha) as [Sa Oa]. destruct (quiet_stream _ Hb) as [Sb Ob].
  unfold streams in Hin. rewrite !bind_app in Hin. fold (streams ta) (streams s) (streams tb) in Hin.
  rewrite Sa, Sb, app_nil_r in Hin. pose proof (law_stream _ _ _ _ _ _ _ Hw Hs) as Hl. rewrite Forall_forall in Hl.
  unfold stream_relayed. rewrite !replies_app, !writes_ok_app, Wa, Wb, Oa, Ob, app_nil_r, andb_true_r.
  apply Hl, list_elem_of_In, Hin.
Qed.

(** An exchange that asks for a stream, as the fetch client answers it. *)
Definition stream_of_http (ans : res http_response) (sr : stream_result) : Prop :=
  match ans with
  | Err _ => is_Some (sr_err sr)
  | Ok resp => sr_err sr = None /\ sr_status sr = hp_status resp /\
      str_concat (st_chunks (sr_stream sr)) = str_concat (st_chunks (hp_body resp))
  end.
Definition ev_stream_http (x : event) (sr : stream_result) : Prop :=
  match x with Ev e a =>
    match e return resp e -> Prop with EHttpDo _ => fun ans => stream_of_http ans sr | _ => fun _ => True end a
  end.
Lemma fetch_stream_http url body s sr : Tr (fetch_DoStream url body) s sr -> Forall (fun x => ev_stream_http x sr) s.
Proof.
  intros Ht. unfold fetch_DoStream, NewRequest in Ht.
  destruct (url_Parse url); cbn [mbind res_bind] in Ht; [|destruct Ht as [-> _]; constructor].
  apply Tr_event in Ht as ([resp|e] & s1 & -> & Ht).
  - destruct (_ || _).
    + cbn [stream_ReadAll] in Ht. apply Tr_bind in Ht as (s2 & s3 & [] & -> & ([] & ? & -> & -> & _) & [-> ->]).
      repeat constructor. simpl. by rewrite str_app_nil_r.
    + destruct Ht as [-> ->]. by repeat constructor.
  - destruct Ht as [-> ->]. constructor; [by eexists|constructor].
Qed.
Lemma raw_accepts url ct body :
  emits (fun e => match e with EHttpDo rq => Header_Get (hq_headers rq) "Accept" = "" | _ => True end) (fetch_DoRaw url ct body).
Proof.
  unfold fetch_DoRaw, NewRequest. destruct (url_Parse url); [|done]. cbn [mbind res_bind]. split; [done|].
  intros [resp|e]; [|done]. cbn. by destruct (st_end (hp_body resp)).
Qed.
Lemma fetch_stream_answer c s b rq ans :
  Tr (fetchClient c) s b -> In (Ev (EHttpDo rq) ans) s -> Header_Get (hq_headers rq) "Accept" <> "" ->
  exists sr, In sr (ev_streams (Ev (EBackend c) b)) /\ stream_of_http ans sr.
Proof.
  intros Ht Hin Hacc. destruct c as [url body|url ct body|url body].
  1, 2: exfalso; pose proof (emits_Tr _ _ _ _ (raw_accepts _ _ _) Ht) as H; rewrite List.Forall_forall in H;
    exact (Hacc (H _ Hin)).
  exists b. split; [by left|]. pose proof (fetch_stream_http _ _ _ _ Ht) as H. rewrite List.Forall_forall in H.
  exact (H _ Hin).
Qed.

(** The implementations at the root write nothing. *)
Definition unwritten (e : eff) : Prop := match e with EWrite _ => False | _ => True end.
Lemma unwritten_ok t : Forall (fun x => match x with Ev e _ => unwritten e end) t -> writes_ok t = true.
Proof.
  induction 1 as [|[e b] t He _ IH]; [done|].
  change (writes_ok (Ev e b :: t)) with (ChatCompletions.write_ok (Ev e b) && writes_ok t). rewrite IH. by destruct e.
Qed.
Lemma root_writes_ok rec t0 t : expands (root_handler rec) t0 t -> writes_ok t = writes_ok t0.
Proof.
  revert t. induction t0 as [|[e b] t0 IH]; intros t; [by intros ->|]. intros (s & t' & -> & Hs & Ht).
  rewrite writes_ok_app, (IH _ Ht).
  change (writes_ok (Ev e b :: t0)) with (ChatCompletions.write_ok (Ev e b) && writes_ok t0). f_equal.
  destruct e; try (destruct Hs as (b' & s' & -> & -> & ->); apply andb_true_r).
  - apply unwritten_ok. eapply emits_Tr; [|exact Hs]. destruct c; apply emits_metered; try done; by repeat first [exact I | split | intros ?].
  - apply unwritten_ok. eapply emits_Tr; [|exact Hs]. eapply emits_mono; [|apply fetch_emits]. by intros [].
Qed.

(** What the client is sent of an exchange that asked for a stream. *)
Definition stream_reply (ws : list (Z + string)) (ok : bool) (ans : res http_response) : Prop :=
  match ans with
  | Err _ => ws = [inl 502; inr ("backend error" +:+ nl)]
  | Ok resp => stream_sent ws ok (hp_status resp) (str_concat (st_chunks (hp_body resp)))
  end.
Lemma stream_reply_of t ans sr : stream_of_http ans sr -> stream_relayed t sr -> stream_reply (replies t) (writes_ok t) ans.
Proof.
  unfold stream_relayed, stream_of_http, stream_reply. destruct ans as [resp|e].
  - by intros (-> & -> & ->).
  - by intros [e' ->].
Qed.

Section Worker.
Context (int64_of_large : float64 -> Z).
Context (os_Open : string -> res string) (yaml_Decode : nat -> string -> res yamlConfig).
Context (grpc_NewClient : string -> res unit).
Context {Enc : Type} (default_encoding : res Enc) (first_encoding : string -> res Enc).
Context (tiktoken_Encode : Enc -> string -> list Z).
Context (version go_version : string).

Abbreviation startup := (Main.startup int64_of_large os_Open yaml_Decode
  grpc_NewClient default_encoding first_encoding tiktoken_Encode version go_version).

(** C5. A stream reaches the client as the backend sent it.  Whatever a started worker
    serves, when it has asked a backend for a stream over HTTP, what the handler writes
    to the client is the status of that exchange, an error status like any other, and
    then pieces of its body, in order and without a byte added, changed or skipped: all
    that came of it, whether or not the backend broke off, unless writing to the client
    failed; a 502 with a line of plain text when the exchange itself failed; nothing at
    all when net/http does not write the status (below 100) and the handler panics.
    (product-specs/ announces a JSON [backend_unavailable] with 502 for a backend that
    answers 5xx or cannot be reached.) *)
Theorem streamed_answer_relayed (args : option flags) (ts : list event) (w : worker) (method path : string)
    (flusher : bool) (r : request) (t : list event) (u : unit) (rq : http_request) (ans : res http_response) :
  Tr (startup args) ts (Normal (inr w)) -> IndexByte method " " = None ->
  Tr (serve_request w method path flusher r) t u ->
  In (Ev (EHttpDo rq) ans) t -> Header_Get (hq_headers rq) "Accept" <> "" ->
  stream_reply (replies t) (writes_ok t) ans.
Proof.
  intros Hs Hm Ht Hin Hacc. unfold serve_request in Ht.
  destruct (worker_dispatch _ _ _ _ _ _ _ _ _ _ _ _ method path flusher r Hs Hm)
    as [(md & Hl & _ & _ & _ & Hh & Hfor)|Hu].
  - rewrite Hh in Ht. edestruct exchange_behind_backend as (t0 & c & b & s & Ht0 & Hexp & Hb & Hf & Hx);
      [|exact Ht|exact Hin|]; [apply emits_bind; [by apply paid_handler_interface|by intros]|].
    apply Tr_bind in Ht0 as (tp & tr & x & -> & Ht0 & [-> _]). rewrite app_nil_r in *.
    destruct (fetch_stream_answer _ _ _ _ _ Hf Hx Hacc) as (sr & Hsr & Hans).
    rewrite (root_replies _ _ _ Hexp), (root_writes_ok _ _ _ Hexp). apply (stream_reply_of _ _ sr Hans).
    apply (module_for_stream int64_of_large) in Hfor. apply (paid_stream md _ _ _ _ _ _ Ht0).
    apply list_elem_of_In, list_elem_of_bind. exists (Ev (EBackend c) b). by split; apply list_elem_of_In.
  - edestruct exchange_behind_backend as (t0 & c & b & s & Ht0 & _ & Hb & _); [|exact Ht|exact Hin|].
    { eapply emits_mono; [|exact Hu]. by intros []. }
    pose proof (emits_Tr _ _ _ _ Hu Ht0) as H. rewrite List.Forall_forall in H. by destruct (H _ Hb).
Qed.
End Worker.

(** A chat request that asks for a stream, and a backend that sends one in two reads. *)
Definition stream_request : request :=
  Request [("Livepeer-Payment", "aGVsbG8=")]
    (Reader ("{" +:+ dq "model" +:+ ":" +:+ dq "llama-3" +:+ "," +:+ dq "stream" +:+ ":true}") ErrEOF).
Definition sse_answer : res http_response :=
  Ok (HttpResponse 200 [("Content-Type", "text/event-stream")] ChatCompletions.demo_sse).
Definition sse_env (e : eff) (w : env) : resp e * env :=
  match e as e return resp e * env -> resp e * env with
  | EHttpDo _ => fun _ => (sse_answer, w)
  | _ => fun x => x
  end (demo_env e w).
Definition streaming := serve_request demo_worker "POST" "/v1/chat/completions" true stream_request.
Definition streaming_trace : list event := trace_of sse_env streaming env0.
Definition stream_http_request : http_request := {|
  hq_url := "http://10.0.0.3:8000/v1/chat/completions";
  hq_headers := [("Content-Type", "application/json"); ("Accept", "text/event-stream")];
  hq_body := "{" +:+ dq "model" +:+ ":" +:+ dq "llama-3" +:+ "," +:+ dq "stream" +:+ ":true}" |}.

Lemma streamed_answer_relayed_witness :
  stream_reply (replies streaming_trace) (writes_ok streaming_trace) sse_answer.
Proof.
  refine (streamed_answer_relayed _ _ _ _ _ _ _ _ _ demo_args demo_startup_trace demo_worker "POST"
    "/v1/chat/completions" true stream_request streaming_trace (result_of sse_env streaming env0)
    stream_http_request sse_answer demo_started eq_refl (trace_of_Tr _ _ _) _ _); [|vm_compute; discriminate].
  apply (nth_error_In _ (length (before_http streaming_trace))). vm_compute. reflexivity.
Defined.
Example streaming_replies : length (replies streaming_trace) = 4%nat.
Proof. vm_compute. reflexivity. Qed.
