(* ===== verification/Metrics.v ===== *)
(** [internal/providers/metrics]: the Prometheus recorder with its cardinality
    cap ([prometheus.go]), and the counting recorder of the tests
    ([testhelpers.go]).  The operations on the client library's vectors are
    values: which series is touched, and how. *)
From stdpp Require Import base gmap strings list sets.
From Stdlib Require Import ZArith Lia Ascii String.
From S2P Require Import Prelude.
From S2P Require Import GoStrings.
From S2P Require Import Types.

(** * The cardinality cap *)

(** An operation of the client library on a series. *)
Inductive prom_op :=
| CounterAdd (name : string) (vals : list string) (delta : Z)
| HistogramObserve (name : string) (vals : list string) (d : Z)
| GaugeSet (name : string) (vals : list string) (v : Z).

(** A call of [onExceed]: the metric, the observed count, the cap. *)
Record cap_hit := CapHit { ch_name : string; ch_observed : Z; ch_cap : Z }.

Record capVec := {
  cv_name : string;
  cv_max : Z;
  cv_seen : gset string;
  cv_count : Z;
  cv_exceeded : bool }.

Definition NUL : ascii := "000"%char.

(** [joinNul]: every value followed by a NUL. *)
Fixpoint joinNul (vs : list string) : string :=
  match vs with [] => EmptyString | v :: vs' => v +:+ String NUL (joinNul vs') end.

(** [newCap]; the vector is registered under its name. *)
Definition newCap (name : string) : capVec := {|
  cv_name := name; cv_max := 0; cv_seen := ∅; cv_count := 0; cv_exceeded := false |}.
Definition withCap (max : Z) (c : capVec) : capVec := {|
  cv_name := cv_name c; cv_max := max; cv_seen := cv_seen c; cv_count := cv_count c;
  cv_exceeded := cv_exceeded c |}.

(** [allow], with the calls of [onExceed] it makes. *)
Definition allow (c : capVec) (vals : list string) : bool * capVec * list cap_hit :=
  if cv_max c <=? 0 then (true, c, [])
  else
    let key := joinNul vals in
    if bool_decide (key ∈ cv_seen c) then (true, c, [])
    else if cv_max c <=? cv_count c then
      (false,
       {| cv_name := cv_name c; cv_max := cv_max c; cv_seen := cv_seen c; cv_count := cv_count c;
          cv_exceeded := true |},
       if cv_exceeded c then [] else [CapHit (cv_name c) (cv_count c) (cv_max c)])
    else
      (true,
       {| cv_name := cv_name c; cv_max := cv_max c; cv_seen := {[key]} ∪ cv_seen c;
          cv_count := wrap64 (cv_count c + 1); cv_exceeded := cv_exceeded c |}, []).

(** [add]; [inc] adds one. *)
Definition cap_add (c : capVec) (delta : Z) (vals : list string) : capVec * list prom_op * list cap_hit :=
  let '(ok, c', hits) := allow c vals in
  (c', if ok then [CounterAdd (cv_name c) vals delta] else [], hits).
Definition cap_inc (c : capVec) (vals : list string) : capVec * list prom_op * list cap_hit := cap_add c 1 vals.

(** * The recorder *)

Inductive counter_id :=
| requests | workUnits | daemonRPCCalls | backendRequests | backendErrors | tokenizerCalls
| capacityRejections | paymentRejections.
#[export] Instance counter_id_eq_dec : EqDecision counter_id.
Proof. solve_decision. Defined.

Definition counter_name (i : counter_id) : string :=
  match i with
  | requests => "requests_total" | workUnits => "work_units_total"
  | daemonRPCCalls => "daemon_rpc_calls_total" | backendRequests => "backend_requests_total"
  | backendErrors => "backend_errors_total" | tokenizerCalls => "tokenizer_calls_total"
  | capacityRejections => "capacity_rejections_total" | paymentRejections => "payment_rejections_total"
  end.

(** The recorder's counters, and whether [OnCapExceeded] was given. *)
Record Prometheus := { p_counters : counter_id -> capVec; p_OnCapExceeded : bool }.

(** [ApplyCap]. *)
Definition ApplyCap (max : Z) (p : Prometheus) : Prometheus :=
  {| p_counters := fun i => withCap max (p_counters p i); p_OnCapExceeded := p_OnCapExceeded p |}.

Definition NewPrometheus (MaxSeriesPerMetric : Z) (OnCapExceeded : bool) : Prometheus :=
  ApplyCap MaxSeriesPerMetric
    {| p_counters := fun i => newCap (counter_name i); p_OnCapExceeded := OnCapExceeded |}.

Definition unset (v : string) : string := if str_nil v then LabelUnset else v.

(** [onCapHit]. *)
Definition onCapHit (p : Prometheus) (hits : list cap_hit) : list cap_hit :=
  if p_OnCapExceeded p then hits else [].

Definition counter_add (p : Prometheus) (i : counter_id) (delta : Z) (vals : list string)
  : Prometheus * list prom_op * list cap_hit :=
  let '(c', ops, hits) := cap_add (p_counters p i) delta vals in
  ({| p_counters := fun j => if decide (j = i) then c' else p_counters p j;
      p_OnCapExceeded := p_OnCapExceeded p |}, ops, onCapHit p hits).

(** The methods; a duration and a time are in nanoseconds. *)
Definition Prometheus_record (p : Prometheus) (c : rec_call) : Prometheus * list prom_op * list cap_hit :=
  match c with
  | IncRequest capability model outcome =>
      counter_add p requests 1 [unset capability; unset model; unset outcome]
  | ObserveRequest capability model outcome d =>
      (p, [HistogramObserve "request_duration_seconds" [unset capability; unset model; unset outcome] d], [])
  | AddWorkUnits capability model unit n =>
      if n <=? 0 then (p, [], [])
      else counter_add p workUnits n [unset capability; unset model; unset unit]
  | IncDaemonRPC method outcome => counter_add p daemonRPCCalls 1 [unset method; unset outcome]
  | ObserveDaemonRPC method outcome d =>
      let m := unset method in
      let o := unset outcome in
      (p, [HistogramObserve "daemon_rpc_duration_seconds" [m; o] d;
           HistogramObserve "daemon_rpc_duration_seconds_fast" [m; o] d], [])
  | IncBackendRequest capability model outcome =>
      counter_add p backendRequests 1 [unset capability; unset model; unset outcome]
  | ObserveBackendRequest capability model d =>
      (p, [HistogramObserve "backend_request_duration_seconds" [unset capability; unset model] d], [])
  | IncBackendError capability model errorClass =>
      counter_add p backendErrors 1 [unset capability; unset model; unset errorClass]
  | SetBackendLastSuccess capability model t =>
      (p, [GaugeSet "backend_last_success_timestamp_seconds" [unset capability; unset model] (t / 1000000000)], [])
  | IncTokenizerCall model outcome => counter_add p tokenizerCalls 1 [unset model; unset outcome]
  | IncCapacityRejection capability => counter_add p capacityRejections 1 [unset capability]
  | SetInflightRequests n => (p, [GaugeSet "inflight_requests" [] n], [])
  | IncPaymentRejection reason => counter_add p paymentRejections 1 [unset reason]
  | SetUptimeSeconds s => (p, [GaugeSet "uptime_seconds" [] s], [])
  | SetBuildInfo version protocolVersion goVersion =>
      (p, [GaugeSet "build_info" [version; protocolVersion; goVersion] 1], [])
  | SetMaxConcurrent n => (p, [GaugeSet "max_concurrent" [] n], [])
  end.

(** A sequence of recorder calls. *)
Fixpoint Prometheus_run (p : Prometheus) (cs : list rec_call) : Prometheus * list prom_op * list cap_hit :=
  match cs with
  | [] => (p, [], [])
  | c :: cs' =>
      let '(p1, ops, hits) := Prometheus_record p c in
      let '(p2, ops', hits') := Prometheus_run p1 cs' in
      (p2, ops ++ ops', hits ++ hits')
  end.

(** * testhelpers.go: Counter *)

(** The atomic integers and the [Last...] values of the struct. *)
Inductive counter_field :=
| Requests | RequestObserves | WorkUnitsAdds | WorkUnitsTotal | DaemonRPCCalls | DaemonRPCObserves
| BackendRequests | BackendObserves | BackendErrors | TokenizerCalls | CapacityRejections | PaymentRejections
| InflightV | MaxConcurrentV.
Inductive last_field :=
| LastRequestOutcome | LastDaemonRPCMethod | LastDaemonRPCOutcome | LastBackendOutcome
| LastBackendErrorClass | LastPaymentReason | LastTokenizerOutcome | LastWorkUnitsUnit.
#[export] Instance counter_field_eq_dec : EqDecision counter_field.
Proof. solve_decision. Defined.
#[export] Instance last_field_eq_dec : EqDecision last_field.
Proof. solve_decision. Defined.

Record Counter := { c_num : counter_field -> Z; c_last : last_field -> option string }.
Definition NewCounter : Counter := {| c_num := fun _ => 0; c_last := fun _ => None |}.

Definition counter_Store (f : counter_field) (n : Z) (c : Counter) : Counter :=
  {| c_num := fun g => if decide (g = f) then n else c_num c g; c_last := c_last c |}.
Definition counter_Add (f : counter_field) (n : Z) (c : Counter) : Counter :=
  counter_Store f (wrap64 (c_num c f + n)) c.
Definition last_Store (f : last_field) (v : string) (c : Counter) : Counter :=
  {| c_num := c_num c; c_last := fun g => if decide (g = f) then Some v else c_last c g |}.

Definition Counter_record (c : Counter) (call : rec_call) : Counter :=
  match call with
  | IncRequest _ _ outcome => last_Store LastRequestOutcome outcome (counter_Add Requests 1 c)
  | ObserveRequest _ _ _ _ => counter_Add RequestObserves 1 c
  | AddWorkUnits _ _ unit n =>
      last_Store LastWorkUnitsUnit unit (counter_Add WorkUnitsTotal n (counter_Add WorkUnitsAdds 1 c))
  | IncDaemonRPC method outcome =>
      last_Store LastDaemonRPCOutcome outcome
        (last_Store LastDaemonRPCMethod method (counter_Add DaemonRPCCalls 1 c))
  | ObserveDaemonRPC _ _ _ => counter_Add DaemonRPCObserves 1 c
  | IncBackendRequest _ _ outcome => last_Store LastBackendOutcome outcome (counter_Add BackendRequests 1 c)
  | ObserveBackendRequest _ _ _ => counter_Add BackendObserves 1 c
  | IncBackendError _ _ errorClass => last_Store LastBackendErrorClass errorClass (counter_Add BackendErrors 1 c)
  | IncTokenizerCall _ outcome => last_Store LastTokenizerOutcome outcome (counter_Add TokenizerCalls 1 c)
  | IncCapacityRejection _ => counter_Add CapacityRejections 1 c
  | SetInflightRequests n => counter_Store InflightV n c
  | IncPaymentRejection reason => last_Store LastPaymentReason reason (counter_Add PaymentRejections 1 c)
  | SetMaxConcurrent n => counter_Store MaxConcurrentV n c
  | SetBackendLastSuccess _ _ _ | SetUptimeSeconds _ | SetBuildInfo _ _ _ => c
  end.

(** * The cap holds *)

Definition no_nul (s : string) : Prop := IndexByte s NUL = None.

Lemma nul_app_inj a b s t :
  no_nul a -> no_nul b -> a +:+ String NUL s = b +:+ String NUL t -> a = b /\ s = t.
Proof.
  unfold no_nul. revert b. induction a as [|c a IH]; intros [|d b] Ha Hb H.
  - rewrite !str_app_nil_l in H. by simplify_eq.
  - rewrite str_app_nil_l, str_app_cons in H. injection H as <- H. by simpl in Hb.
  - rewrite str_app_nil_l, str_app_cons in H. injection H as -> H. by simpl in Ha.
  - rewrite !str_app_cons in H. injection H as -> H. cbn [IndexByte] in Ha, Hb.
    destruct (Ascii.eqb d NUL); [done|].
    destruct (IndexByte a NUL) eqn:Ea, (IndexByte b NUL) eqn:Eb; try done.
    destruct (IH b eq_refl Eb H) as [-> ->]. done.
Qed.

(** The key of a label tuple determines it. *)
Lemma joinNul_inj vs ws : Forall no_nul vs -> Forall no_nul ws -> joinNul vs = joinNul ws -> vs = ws.
Proof.
  intros Hv. revert ws. induction Hv as [|v vs Hv _ IH]; intros ws Hw H.
  - destruct Hw as [|w ws]; [done|]. simpl in H. destruct w; by try rewrite str_app_cons in H.
  - destruct Hw as [|w ws Hw1 Hw2]; [simpl in H; destruct v; by try rewrite str_app_cons in H|].
    simpl in H. apply nul_app_inj in H as [-> H]; [|done|done]. f_equal. by apply IH.
Qed.

(** Well-formed vectors: the counter counts the keys seen, below the cap, and
    the cap was reported only when it is full. *)
Definition cap_ok (c : capVec) : Prop :=
  0 < cv_max c ->
  cv_count c = Z.of_nat (size (cv_seen c)) /\ cv_count c <= cv_max c /\
  (cv_exceeded c = true -> cv_count c = cv_max c).

Lemma newCap_ok name max : cap_ok (withCap max (newCap name)).
Proof.
  unfold cap_ok. cbn [withCap newCap cv_count cv_max cv_seen cv_exceeded]. intros Hm.
  rewrite size_empty. split_and!; done || lia.
Qed.

(** What [allow] promises: an invariant, and when a tuple is refused. *)
Lemma allow_ok c vals ok c' hits :
  cap_ok c -> in_int64 (cv_max c) -> allow c vals = (ok, c', hits) ->
  cap_ok c' /\ cv_max c' = cv_max c /\ cv_name c' = cv_name c /\ cv_seen c ⊆ cv_seen c' /\
  (ok = true -> 0 < cv_max c -> joinNul vals ∈ cv_seen c') /\
  (ok = false -> 0 < cv_max c /\ cv_count c = cv_max c /\ joinNul vals ∉ cv_seen c /\ cv_exceeded c' = true) /\
  (hits <> [] -> cv_exceeded c = false /\ cv_exceeded c' = true /\ ok = false) /\
  (cv_exceeded c = true -> cv_exceeded c' = true) /\ (length hits <= 1)%nat.
Proof.
  intros Hc Hmax. unfold allow.
  destruct (Z.leb_spec (cv_max c) 0) as [Hz|Hz].
  { intros [= <- <- <-]. split_and!; try done; simpl; lia. }
  destruct (Hc Hz) as (Hn & Hle & Hex).
  case_bool_decide as Hk; [intros [= <- <- <-]; split_and!; try done; simpl; lia|].
  destruct (Z.leb_spec (cv_max c) (cv_count c)).
  - intros [= <- <- <-]. split_and!; simpl; try done.
    + intros _. simpl. split_and!; [done|lia|lia].
    + intros _. split_and!; [done|lia|done|done].
    + by destruct (cv_exceeded c).
    + destruct (cv_exceeded c); simpl; lia.
  - intros [= <- <- <-].
    assert (Hw : wrap64 (cv_count c + 1) = cv_count c + 1) by (apply wrap64_id; int64_lia).
    split_and!; simpl; try done; [|set_solver|set_solver|lia].
    intros _. simpl. rewrite Hw, size_union, size_singleton by set_solver.
    split_and!; [lia|lia|]. intros He. specialize (Hex He). lia.
Qed.

(** * Sequences of recorder calls *)

Definition prom_ok (max : Z) (p : Prometheus) : Prop :=
  forall i, cap_ok (p_counters p i) /\ cv_max (p_counters p i) = max /\ cv_name (p_counters p i) = counter_name i.

Lemma counter_name_inj i j : counter_name i = counter_name j -> i = j.
Proof. by destruct i, j. Qed.

(** The reports of one metric. *)
Definition hits_of (i : counter_id) (hits : list cap_hit) : list cap_hit :=
  filter (fun h => ch_name h = counter_name i) hits.
(** How many reports are still to come. *)
Definition budget (p : Prometheus) (i : counter_id) : nat :=
  if cv_exceeded (p_counters p i) then 0%nat else 1%nat.

(** What a call, and then a sequence of calls, does to every counter. *)
Definition prom_post (max : Z) (p p' : Prometheus) (ops : list prom_op) (hits : list cap_hit) : Prop :=
  prom_ok max p' /\
  forall i, cv_seen (p_counters p i) ⊆ cv_seen (p_counters p' i) /\
    (forall vals delta, CounterAdd (counter_name i) vals delta ∈ ops -> joinNul vals ∈ cv_seen (p_counters p' i)) /\
    (length (hits_of i hits) + budget p' i <= budget p i)%nat.

Lemma prom_post_refl max p ops :
  prom_ok max p -> Forall (fun o => match o with CounterAdd _ _ _ => False | _ => True end) ops ->
  prom_post max p p ops [].
Proof.
  intros Hp Ho. split; [done|]. intros i. split_and!; [done| |done].
  intros vals delta Hin. rewrite Forall_forall in Ho. by destruct (Ho _ Hin).
Qed.

Lemma counter_add_post max p i delta vals p' ops hits :
  0 < max <= int64_max -> prom_ok max p -> counter_add p i delta vals = (p', ops, hits) ->
  prom_post max p p' ops hits.
Proof.
  intros Hmax Hp. unfold counter_add, cap_add.
  destruct (allow (p_counters p i) vals) as [[ok c'] hs] eqn:Ha. intros [= <- <- <-].
  destruct (Hp i) as (Hc & Hm & Hn).
  destruct (allow_ok _ _ _ _ _ Hc ltac:(rewrite Hm; int64_lia) Ha)
    as (Hc' & Hm' & Hn' & Hsub & Hok & _ & Hhit & Hex & Hlen).
  split.
  - intros j. simpl. destruct (decide (j = i)) as [->|]; [|apply Hp]. split_and!; [done|congruence|congruence].
  - intros j. cbn [p_counters]. split_and!.
    + by destruct (decide (j = i)) as [->|].
    + intros vals' d. destruct ok; [|by intros ?%elem_of_nil]. intros ?%list_elem_of_singleton. simplify_eq.
      rewrite Hn in *. destruct (decide (j = i)) as [->|Hne].
      * apply Hok; [done|lia].
      * match goal with H : counter_name _ = counter_name _ |- _ => by apply counter_name_inj in H end.
    + unfold budget. cbn [p_counters].
      assert (Hfil : forall hs', (length (hits_of j (onCapHit p hs')) <= length hs')%nat).
      { intros hs'. unfold onCapHit, hits_of. destruct (p_OnCapExceeded p); [apply length_filter|simpl; lia]. }
      destruct (decide (j = i)) as [->|Hne].
      * specialize (Hfil hs). destruct hs as [|h hs].
        -- simpl in *. destruct (cv_exceeded (p_counters p i)); [rewrite Hex by done|]; destruct (cv_exceeded c'); lia.
        -- destruct Hhit as (-> & -> & _); [done|]. lia.
      * assert (hits_of j (onCapHit p hs) = []) as ->; [|simpl; lia].
        unfold hits_of, onCapHit. destruct (p_OnCapExceeded p); [|done].
        revert Ha. unfold allow. repeat case_match; intros; simplify_eq; try done.
        rewrite filter_cons_False; [done|]. simpl. rewrite Hn. intros Hd. apply Hne.
        symmetry. by apply counter_name_inj.
Qed.

Lemma record_post max p c p' ops hits :
  0 < max <= int64_max -> prom_ok max p -> Prometheus_record p c = (p', ops, hits) ->
  prom_post max p p' ops hits.
Proof.
  intros Hmax Hp Hc.
  assert (Hadd : forall i d vals, counter_add p i d vals = (p', ops, hits) -> prom_post max p p' ops hits)
    by (intros; by eapply counter_add_post).
  destruct c; simpl in Hc; try (by eapply Hadd);
    try (injection Hc as <- <- <-; apply prom_post_refl; [done|by repeat constructor]).
  destruct (n <=? 0); [injection Hc as <- <- <-; by apply prom_post_refl|by eapply Hadd].
Qed.

Lemma prom_post_trans max p1 p2 p3 ops1 ops2 hits1 hits2 :
  prom_post max p1 p2 ops1 hits1 -> prom_post max p2 p3 ops2 hits2 ->
  prom_post max p1 p3 (ops1 ++ ops2) (hits1 ++ hits2).
Proof.
  intros [H1 HA] [H2 HB]. split; [done|]. intros i.
  destruct (HA i) as (S1 & O1 & B1). destruct (HB i) as (S2 & O2 & B2). split_and!.
  - set_solver.
  - intros vals d [Hin|Hin]%elem_of_app; [apply S2; by eapply O1|by eapply O2].
  - unfold hits_of in *. rewrite filter_app, length_app. lia.
Qed.

Lemma run_post max cs p p' ops hits :
  0 < max <= int64_max -> prom_ok max p -> Prometheus_run p cs = (p', ops, hits) ->
  prom_post max p p' ops hits.
Proof.
  intros Hmax. revert p p' ops hits. induction cs as [|c cs IH]; intros p p' ops hits Hp; simpl.
  - intros [= <- <- <-]. by apply prom_post_refl.
  - destruct (Prometheus_record p c) as [[p1 o1] h1] eqn:E1.
    destruct (Prometheus_run p1 cs) as [[p2 o2] h2] eqn:E2. intros [= <- <- <-].
    pose proof (record_post _ _ _ _ _ _ Hmax Hp E1) as HA.
    eapply prom_post_trans; [exact HA|]. by eapply IH; [apply HA|].
Qed.

Lemma cap_ok_size max (c : capVec) : 0 < max -> cv_max c = max -> cap_ok c -> Z.of_nat (size (cv_seen c)) <= max.
Proof. intros Hmax Hm Hc. destruct Hc as (H1 & H2 & _); lia. Qed.

(** Keys of different tuples are different, so the series are no more than the
    keys. *)
Lemma tuples_le_keys (l : list (list string)) (X : gset string) :
  NoDup l -> Forall (fun vals => joinNul vals ∈ X /\ Forall no_nul vals) l -> (length l <= size X)%nat.
Proof.
  intros Hnd Hl.
  assert (Hk : NoDup (joinNul <$> l)).
  { apply NoDup_fmap_2_strong; [|done]. intros v w Hv Hw. rewrite Forall_forall in Hl.
    apply joinNul_inj; by apply Hl. }
  rewrite <- (length_fmap joinNul), <- (size_list_to_set (C := gset string)) by done.
  apply subseteq_size. intros k. rewrite elem_of_list_to_set. intros (v & -> & Hv)%list_elem_of_fmap.
  rewrite Forall_forall in Hl. by apply Hl.
Qed.

(** C37. The cardinality cap.  From a fresh recorder with a positive cap, after
    any sequence of recorder calls made one after another, no counter has more
    than the cap's number of distinct series (label values without NUL), and the
    cap of each counter is reported at most once. *)
Theorem series_capped (max : Z) (hook : bool) (cs : list rec_call) (p : Prometheus) (ops : list prom_op)
    (hits : list cap_hit) (i : counter_id) (l : list (list string)) :
  0 < max <= int64_max -> Prometheus_run (NewPrometheus max hook) cs = (p, ops, hits) ->
  NoDup l ->
  Forall (fun vals => Forall no_nul vals /\ exists delta, CounterAdd (counter_name i) vals delta ∈ ops) l ->
  Z.of_nat (length l) <= max /\ (length (hits_of i hits) <= 1)%nat.
Proof.
  intros Hmax Hrun Hnd Hl.
  assert (H0 : prom_ok max (NewPrometheus max hook)).
  { intros j. split; [apply newCap_ok|done]. }
  destruct (run_post _ _ _ _ _ _ Hmax H0 Hrun) as [Hp Hi]. destruct (Hi i) as (_ & Ho & Hb). split.
  - destruct (Hp i) as (Hc & Hm & _). pose proof (cap_ok_size max _ ltac:(lia) Hm Hc).
    assert ((length l <= size (cv_seen (p_counters p i)))%nat); [|lia].
    apply tuples_le_keys; [done|]. eapply Forall_impl; [exact Hl|].
    intros vals (Hv & d & Hd). split; [by eapply Ho|done].
  - unfold budget in Hb. simpl in Hb. lia.
Qed.

Definition demo_calls : list rec_call :=
  [IncPaymentRejection "header_missing"; IncPaymentRejection "header_invalid"; IncPaymentRejection "header_missing";
   IncPaymentRejection "debit_error"].

Lemma series_capped_witness : Z.of_nat 1 <= 1 /\ (1 <= 1)%nat.
Proof.
  refine (series_capped 1 true demo_calls
    (fst (fst (Prometheus_run (NewPrometheus 1 true) demo_calls)))
    (snd (fst (Prometheus_run (NewPrometheus 1 true) demo_calls)))
    [CapHit "payment_rejections_total" 1 1] paymentRejections [["header_missing"]] _ _ _ _).
  - int64_lia.
  - vm_compute. reflexivity.
  - apply NoDup_singleton.
  - repeat constructor. exists 1. apply list_elem_of_In. vm_compute. by left.
Defined.

(** * Concurrent calls *)

(** [allow] as its atomic operations: the load of the key, the load of the
    count, the swap of the flag, the store of the key, the addition. *)
Inductive allow_pc :=
| AIdle
| ALoad (key : string)
| ACount (key : string)
| ASwap (key : string)
| AReport (key : string)
| AStore (key : string)
| AAdd (key : string).

Record allow_shared := AllowShared {
  as_seen : gset string; as_count : Z; as_exceeded : bool; as_reports : nat }.

Section Concurrent.
Context (max : Z).

(** One goroutine's next operation; between calls it may start one with any
    labels. *)
Inductive allow_step : allow_shared * allow_pc -> allow_shared * allow_pc -> Prop :=
| al_call s vals : allow_step (s, AIdle) (s, ALoad (joinNul vals))
| al_seen s k : k ∈ as_seen s -> allow_step (s, ALoad k) (s, AIdle)
| al_new s k : k ∉ as_seen s -> allow_step (s, ALoad k) (s, ACount k)
| al_full s k : max <= as_count s -> allow_step (s, ACount k) (s, ASwap k)
| al_room s k : as_count s < max -> allow_step (s, ACount k) (s, AStore k)
| al_swap_won s k : as_exceeded s = false ->
    allow_step (s, ASwap k) (AllowShared (as_seen s) (as_count s) true (as_reports s), AReport k)
| al_swap_lost s k : as_exceeded s = true -> allow_step (s, ASwap k) (s, AIdle)
| al_report s k :
    allow_step (s, AReport k) (AllowShared (as_seen s) (as_count s) (as_exceeded s) (S (as_reports s)), AIdle)
| al_store s k :
    allow_step (s, AStore k) (AllowShared ({[k]} ∪ as_seen s) (as_count s) (as_exceeded s) (as_reports s), AAdd k)
| al_add s k :
    allow_step (s, AAdd k)
      (AllowShared (as_seen s) (wrap64 (as_count s + 1)) (as_exceeded s) (as_reports s), AIdle).

(** [n] goroutines, one operation at a time. *)
Inductive allows_step : allow_shared * list allow_pc -> allow_shared * list allow_pc -> Prop :=
| als_step s s' pcs i pc pc' :
    pcs !! i = Some pc -> allow_step (s, pc) (s', pc') -> allows_step (s, pcs) (s', <[i := pc']> pcs).

Definition allow_init : allow_shared := AllowShared ∅ 0 false 0.

(** Goroutines past the check; past the store; with the report to make. *)
Definition pending (pc : allow_pc) : nat := match pc with AStore _ | AAdd _ => 1 | _ => 0 end.
Definition stored (pc : allow_pc) : nat := match pc with AAdd _ => 1 | _ => 0 end.
Definition reporting (pc : allow_pc) : nat := match pc with AReport _ => 1 | _ => 0 end.
Fixpoint total (f : allow_pc -> nat) (pcs : list allow_pc) : nat :=
  match pcs with [] => 0%nat | pc :: pcs' => (f pc + total f pcs')%nat end.

Lemma total_insert f pcs i pc pc' :
  pcs !! i = Some pc -> (total f (<[i := pc']> pcs) + f pc = total f pcs + f pc')%nat.
Proof.
  revert i. induction pcs as [|q pcs IH]; intros [|i] H; simpl in *; simplify_eq; [lia|].
  specialize (IH i H). lia.
Qed.
Lemma total_le f pcs : (forall pc, f pc <= 1)%nat -> (total f pcs <= length pcs)%nat.
Proof. intros Hf. induction pcs as [|pc pcs IH]; simpl; [lia|]. specialize (Hf pc). lia. Qed.

Definition allows_inv (n : nat) (x : allow_shared * list allow_pc) : Prop :=
  let '(s, pcs) := x in
  length pcs = n /\ 0 <= as_count s /\
  Z.of_nat (size (as_seen s)) <= as_count s + Z.of_nat (total stored pcs) /\
  as_count s + Z.of_nat (total pending pcs) <= max - 1 + Z.of_nat n /\
  (as_reports s + total reporting pcs <= if as_exceeded s then 1 else 0)%nat.

Lemma size_add_le (k : string) (X : gset string) : (size ({[k]} ∪ X) <= S (size X))%nat.
Proof.
  destruct (decide (k ∈ X)).
  - replace ({[k]} ∪ X) with X by set_solver. lia.
  - rewrite size_union, size_singleton by set_solver. lia.
Qed.

Lemma allows_inv_step n x y :
  0 < max -> max + Z.of_nat n <= int64_max -> allows_inv n x -> allows_step x y -> allows_inv n y.
Proof.
  intros Hmax Hfit Hinv Hs. destruct Hs as [s s' pcs i pc pc' Hi Hst].
  destruct Hinv as (Hn & H0 & Hsize & Hcnt & Hrep).
  pose proof (total_insert stored pcs i pc pc' Hi) as Ts.
  pose proof (total_insert pending pcs i pc pc' Hi) as Tp.
  pose proof (total_insert reporting pcs i pc pc' Hi) as Tr.
  assert (Hle : (total pending (<[i := pc']> pcs) <= n)%nat).
  { rewrite <- Hn, <- (length_insert pcs i pc'). apply total_le. by intros []; simpl; lia. }
  unfold allows_inv. rewrite length_insert.
  inversion Hst; subst; simpl in *; split_and!; try done; try lia;
    try (rewrite wrap64_id by int64_lia; lia); try (repeat case_match; congruence || lia).
  match goal with |- context [{[?k]} ∪ ?X] => pose proof (size_add_le k X) end. lia.
Qed.
End Concurrent.

(** C38. The cap under concurrency.  When [n] goroutines record at the same time,
    a counter can go past its cap, but never by more than [n - 1] series, and the
    cap is still reported at most once. *)
Theorem series_capped_concurrently (max : Z) (n : nat) (s : allow_shared) (pcs : list allow_pc) :
  0 < max -> max + Z.of_nat n <= int64_max ->
  rtc (allows_step max) (allow_init, replicate n AIdle) (s, pcs) ->
  Z.of_nat (size (as_seen s)) <= max - 1 + Z.of_nat n /\ (as_reports s <= 1)%nat.
Proof.
  intros Hmax Hfit Hr.
  assert (H0 : allows_inv max n (allow_init, replicate n AIdle)).
  { unfold allows_inv, allow_init. cbn [as_seen as_count as_exceeded as_reports].
    assert (Ht : forall f, f AIdle = 0%nat -> total f (replicate n AIdle) = 0%nat)
      by (intros f Hf; clear -Hf; induction n; simpl; lia).
    rewrite length_replicate, !Ht, size_empty by done. split_and!; done || lia. }
  assert (Hinv : allows_inv max n (s, pcs)).
  { remember (s, pcs) as y. clear Heqy. induction Hr as [|x y z Hxy _ IH]; [done|].
    apply IH. by eapply allows_inv_step. }
  destruct Hinv as (Hn & _ & Hsize & Hcnt & Hrep). split.
  - assert ((total stored pcs <= total pending pcs)%nat); [|lia].
    clear. induction pcs as [|[] pcs IH]; simpl; lia.
  - destruct (as_exceeded s); lia.
Qed.

(** The bound is tight: two goroutines that check before either stores leave two
    series behind a cap of one. *)
Lemma hard_cap_overshoot :
  exists s pcs, rtc (allows_step 1) (allow_init, replicate 2 AIdle) (s, pcs) /\ size (as_seen s) = 2%nat.
Proof.
  eexists _, _. split.
  - eapply rtc_l; [eapply (als_step 1 _ _ _ 0%nat); [reflexivity|apply (al_call 1 _ ["a"])]|].
    eapply rtc_l; [eapply (als_step 1 _ _ _ 1%nat); [reflexivity|apply (al_call 1 _ ["b"])]|].
    eapply rtc_l; [eapply (als_step 1 _ _ _ 0%nat); [reflexivity|apply al_new; set_solver]|].
    eapply rtc_l; [eapply (als_step 1 _ _ _ 1%nat); [reflexivity|apply al_new; set_solver]|].
    eapply rtc_l; [eapply (als_step 1 _ _ _ 0%nat); [reflexivity|apply al_room; simpl; lia]|].
    eapply rtc_l; [eapply (als_step 1 _ _ _ 1%nat); [reflexivity|apply al_room; simpl; lia]|].
    eapply rtc_l; [eapply (als_step 1 _ _ _ 0%nat); [reflexivity|apply al_store]|].
    eapply rtc_l; [eapply (als_step 1 _ _ _ 1%nat); [reflexivity|apply al_store]|].
    apply rtc_refl.
  - vm_compute. reflexivity.
Qed.

Lemma series_capped_concurrently_witness :
  exists s : allow_shared, size (as_seen s) = 2%nat /\
    Z.of_nat (size (as_seen s)) <= 1 - 1 + Z.of_nat 2 /\ (as_reports s <= 1)%nat.
Proof.
  destruct hard_cap_overshoot as (s & pcs & Hr & Hsize). exists s. split; [exact Hsize|].
  exact (series_capped_concurrently 1 2 s pcs ltac:(lia) ltac:(int64_lia) Hr).
Defined.
