(* ===== verification/Registry.v ===== *)
(** [internal/providers/metrics/prometheus.go]: the vectors [NewPrometheus] builds
    and registers, and when a recorder call panics.  The client library is its
    documentation: [MustRegister] panics on a name it has, [WithLabelValues] on a
    wrong number of label values or on one that is not valid UTF-8, [Add] on a
    negative amount. *)
From stdpp Require Import base gmap strings list.
From Stdlib Require Import ZArith Lia Ascii String.
From S2P Require Import Prelude.
From S2P Require Import GoStrings.
From S2P Require Import GoUtf8.
From S2P Require Import Types.
From S2P Require Import Mux.
From S2P Require Import Metrics.

(** * The vectors *)

(** The buckets of a histogram in nanoseconds; [None] stands for the library's
    [DefBuckets]. *)
Inductive vec_kind := Counters | Histograms (buckets : option (list Z)) | Gauges.
#[export] Instance vec_kind_eq_dec : EqDecision vec_kind.
Proof. solve_decision. Defined.

Record vec := Vec { vec_name : string; vec_of : vec_kind; vec_labels : list string }.

Definition fast_buckets : list Z := [50000; 100000; 250000; 500000; 1000000; 2500000; 5000000; 10000000].

(** In the order they are registered; a gauge without labels is a vector of one
    series. *)
Definition vectors : list vec := [
  Vec "requests_total" Counters ["capability"; "model"; "outcome"];
  Vec "work_units_total" Counters ["capability"; "model"; "unit"];
  Vec "daemon_rpc_calls_total" Counters ["method"; "outcome"];
  Vec "backend_requests_total" Counters ["capability"; "model"; "outcome"];
  Vec "backend_errors_total" Counters ["capability"; "model"; "error_class"];
  Vec "tokenizer_calls_total" Counters ["model"; "outcome"];
  Vec "capacity_rejections_total" Counters ["capability"];
  Vec "payment_rejections_total" Counters ["reason"];
  Vec "request_duration_seconds" (Histograms None) ["capability"; "model"; "outcome"];
  Vec "daemon_rpc_duration_seconds" (Histograms None) ["method"; "outcome"];
  Vec "daemon_rpc_duration_seconds_fast" (Histograms (Some fast_buckets)) ["method"; "outcome"];
  Vec "backend_request_duration_seconds" (Histograms None) ["capability"; "model"];
  Vec "inflight_requests" Gauges [];
  Vec "backend_last_success_timestamp_seconds" Gauges ["capability"; "model"];
  Vec "uptime_seconds" Gauges [];
  Vec "build_info" Gauges ["version"; "protocol_version"; "go_version"];
  Vec "max_concurrent" Gauges [] ].

(** The name in the registry. *)
Definition fq_name (v : vec) : string := "livepeer_worker_" +:+ vec_name v.

(** What the library asks of a vector: distinct label names, none of them [le]
    on a histogram, and strictly increasing buckets. *)
Fixpoint increasing (l : list Z) : bool :=
  match l with x :: ((y :: _) as l') => (x <? y) && increasing l' | _ => true end.
Definition vec_wf (v : vec) : bool :=
  bool_decide (NoDup (vec_labels v)) &&
  match vec_of v with
  | Histograms b => negb (bool_decide ("le" ∈ vec_labels v)) && match b with Some b => increasing b | None => true end
  | _ => true
  end.

Definition MustRegister (reg : list vec) (v : vec) : may_panic (list vec) :=
  if existsb (fun u => String.eqb (fq_name u) (fq_name v)) reg
  then Panics ("duplicate metrics collector registration attempted: " +:+ fq_name v)
  else if vec_wf v then Normal (reg ++ [v]) else Panics ("invalid metric " +:+ fq_name v).

(** The registrations of [NewPrometheus], behind those of the Go and process
    collectors, whose names begin with [go_] and [process_]. *)
Fixpoint register_all (reg : list vec) (l : list vec) : may_panic (list vec) :=
  match l with [] => Normal reg | v :: l' => reg ← MustRegister reg v; register_all reg l' end.

Lemma vectors_registered : register_all [] vectors = Normal vectors.
Proof. vm_compute. reflexivity. Qed.

(** * Operations on series *)

Definition find_vec (reg : list vec) (name : string) : option vec :=
  List.find (fun v => String.eqb (vec_name v) name) reg.

(** [WithLabelValues(vals...)] and the operation on the series it returns. *)
Definition with_label_values (reg : list vec) (name : string) (vals : list string) : may_panic vec :=
  match find_vec reg name with
  | None => Panics "no such vector"
  | Some v =>
      if negb (length vals =? length (vec_labels v))%nat then Panics "inconsistent label cardinality"
      else if forallb ValidString vals then Normal v
      else Panics "label value is not valid UTF-8"
  end.
Definition prom_apply (reg : list vec) (o : prom_op) : may_panic unit :=
  match o with
  | CounterAdd name vals delta =>
      v ← with_label_values reg name vals;
      match vec_of v with
      | Counters => if delta <? 0 then Panics "counter cannot decrease in value" else Normal tt
      | _ => Panics "not a counter"
      end
  | HistogramObserve name vals _ =>
      v ← with_label_values reg name vals;
      match vec_of v with Histograms _ => Normal tt | _ => Panics "not a histogram" end
  | GaugeSet name vals _ =>
      v ← with_label_values reg name vals;
      match vec_of v with Gauges => Normal tt | _ => Panics "not a gauge" end
  end.

(** The operations of a call, in order, up to a panic. *)
Fixpoint apply_all (reg : list vec) (ops : list prom_op) : may_panic unit :=
  match ops with [] => Normal tt | o :: ops' => _ ← prom_apply reg o; apply_all reg ops' end.

(** A call of the recorder as its caller sees it; the tuple is counted before the
    library is asked, so the new state is kept even when the call panics. *)
Definition recorder_call (p : Prometheus) (c : rec_call) : Prometheus * list cap_hit * may_panic unit :=
  let '(p', ops, hits) := Prometheus_record p c in (p', hits, apply_all vectors ops).

(** * When a call panics *)

(** The label values of a call. *)
Definition rec_labels (c : rec_call) : list string :=
  match c with
  | IncRequest a b o | ObserveRequest a b o _ | AddWorkUnits a b o _ | IncBackendRequest a b o | IncBackendError a b o => [a; b; o]
  | IncDaemonRPC a b | ObserveDaemonRPC a b _ | ObserveBackendRequest a b _ | SetBackendLastSuccess a b _
  | IncTokenizerCall a b => [a; b]
  | IncCapacityRejection a | IncPaymentRejection a => [a]
  | SetBuildInfo a b c => [a; b; c]
  | SetInflightRequests _ | SetUptimeSeconds _ | SetMaxConcurrent _ => []
  end.
Definition labels_valid (c : rec_call) : bool := forallb ValidString (rec_labels c).

(** The counters carry their names. *)
Definition named (p : Prometheus) : Prop := forall i, cv_name (p_counters p i) = counter_name i.
Lemma NewPrometheus_named max hook : named (NewPrometheus max hook).
Proof. by intros i. Qed.

Lemma ValidString_unset v : ValidString (unset v) = ValidString v.
Proof. by destruct v. Qed.

(** Whether the cap lets the tuple of a counter call through. *)
Definition lets_through (p : Prometheus) (c : rec_call) : bool :=
  match Prometheus_record p c with (_, [], _) => false | _ => true end.

(** An operation with the right number of labels panics on their text only. *)
Lemma with_labels_iff name vals v (f : vec -> may_panic unit) :
  find_vec vectors name = Some v -> length vals = length (vec_labels v) -> f v = Normal tt ->
  (v ← with_label_values vectors name vals; f v) = Normal tt <-> forallb ValidString vals = true.
Proof.
  intros Hv Hl Hf. unfold with_label_values. rewrite Hv, Hl, Nat.eqb_refl. cbn [negb].
  destruct (forallb ValidString vals); cbn [mbind may_panic_bind]; [by rewrite Hf|done].
Qed.

Definition counter_vec (i : counter_id) : vec := default (Vec "" Gauges []) (find_vec vectors (counter_name i)).
Lemma counter_found i :
  find_vec vectors (counter_name i) = Some (counter_vec i) /\ vec_of (counter_vec i) = Counters.
Proof. by destruct i. Qed.

Lemma counter_call p i delta vals :
  named p -> 0 <= delta -> length vals = length (vec_labels (counter_vec i)) ->
  match counter_add p i delta vals with (_, ops, _) =>
    apply_all vectors ops = Normal tt <->
    match ops with [] => false | _ => true end = false \/ forallb ValidString vals = true
  end.
Proof.
  intros Hp Hd Hl. unfold counter_add, cap_add. destruct (allow _ _) as [[[] c'] hits]; [|simpl; tauto].
  cbn [apply_all prom_apply]. rewrite Hp. destruct (counter_found i) as [Hv Hk].
  assert (Hiff := with_labels_iff (counter_name i) vals _
    (fun v => match vec_of v with Counters => if delta <? 0 then Panics "counter cannot decrease in value" else Normal tt
              | _ => Panics "not a counter" end) Hv Hl ltac:(cbn beta; rewrite Hk; by rewrite (proj2 (Z.ltb_ge _ _)))).
  destruct (v ← with_label_values _ _ _; _) as [[]|msg]; cbn [mbind may_panic_bind] in *.
  - split; [intros _; right; by apply Hiff|done].
  - split; [done|]. intros [?|H]; [done|]. apply Hiff in H. done.
Qed.

Lemma named_step p c : named p -> named (fst (fst (Prometheus_record p c))).
Proof.
  intros Hp. assert (Hadd : forall i d vals, named (fst (fst (counter_add p i d vals)))).
  { intros i d vals j. unfold counter_add, cap_add, allow.
    repeat case_match; simplify_eq/=; case_match; subst; simpl; by rewrite ?Hp. }
  destruct c; simpl; try apply Hadd; try exact Hp. case_match; [exact Hp|apply Hadd].
Qed.

(** A call of one operation behind fixed names. *)
Definition op_ok (o : prom_op) : Prop := prom_apply vectors o = Normal tt.
Lemma apply_all_ok ops : apply_all vectors ops = Normal tt <-> Forall op_ok ops.
Proof.
  induction ops as [|o ops IH]; [done|]. cbn [apply_all]. rewrite Forall_cons, <- IH. unfold op_ok.
  destruct (prom_apply vectors o) as [[]|]; cbn [mbind may_panic_bind]; [tauto|]. by split; [|intros []].
Qed.
Lemma histogram_ok name vals d v b :
  find_vec vectors name = Some v -> vec_of v = Histograms b -> length vals = length (vec_labels v) ->
  op_ok (HistogramObserve name vals d) <-> forallb ValidString vals = true.
Proof. intros Hv Hk Hl. unfold op_ok. cbn [prom_apply]. apply (with_labels_iff _ _ v); [done|done|by rewrite Hk]. Qed.
Lemma gauge_ok name vals z v :
  find_vec vectors name = Some v -> vec_of v = Gauges -> length vals = length (vec_labels v) ->
  op_ok (GaugeSet name vals z) <-> forallb ValidString vals = true.
Proof. intros Hv Hk Hl. unfold op_ok. cbn [prom_apply]. apply (with_labels_iff _ _ v); [done|done|by rewrite Hk]. Qed.

Ltac series_ok :=
  rewrite ?Forall_cons, ?Forall_nil;
  repeat match goal with
  | |- context [op_ok (HistogramObserve ?n ?vals ?d)] =>
      rewrite (histogram_ok n vals d (default (Vec "" Gauges []) (find_vec vectors n)) _ eq_refl eq_refl eq_refl)
  | |- context [op_ok (GaugeSet ?n ?vals ?z)] =>
      rewrite (gauge_ok n vals z (default (Vec "" Gauges []) (find_vec vectors n)) eq_refl eq_refl eq_refl)
  end;
  cbn [forallb]; rewrite ?ValidString_unset; intuition congruence.

Lemma recorder_call_iff p c :
  named p -> snd (recorder_call p c) = Normal tt <-> lets_through p c = false \/ labels_valid c = true.
Proof.
  intros Hp. unfold recorder_call, lets_through, labels_valid.
  assert (Hcnt : forall i d vals, 0 <= d -> length vals = length (vec_labels (counter_vec i)) ->
    snd (let '(p', ops, hits) := counter_add p i d vals in (p', hits, apply_all vectors ops)) = Normal tt <->
    match counter_add p i d vals with (_, [], _) => false | _ => true end = false \/ forallb ValidString vals = true).
  { intros i d vals Hd Hl. pose proof (counter_call p i d vals Hp Hd Hl) as H.
    destruct (counter_add p i d vals) as [[p' ops] hits]. simpl. rewrite H. by destruct ops. }
  destruct c; cbn [Prometheus_record rec_labels];
    try (rewrite Hcnt by (done || lia); cbn [forallb]; by rewrite !ValidString_unset);
    try (cbn [snd]; rewrite apply_all_ok; series_ok).
  destruct (Z.leb_spec n 0); [by split; [left|]|].
  rewrite Hcnt by (done || lia). cbn [forallb]. by rewrite !ValidString_unset.
Qed.
Lemma recorder_call_ok p c : named p -> labels_valid c = true -> snd (recorder_call p c) = Normal tt.
Proof. intros Hp Hc. apply recorder_call_iff; [done|by right]. Qed.

(** C39. When recording panics.  A call of the Prometheus recorder panics exactly
    when it reaches a vector (it is not an empty amount of work units, and the cap
    lets the tuple through) with a label value that is not valid UTF-8: every vector
    it uses is registered under that name and kind, it gives each the number of label
    values the vector was made with, and no counter ever decreases. *)
Theorem recorder_panics_iff (p : Prometheus) (c : rec_call) :
  named p ->
  snd (recorder_call p c) = Normal tt <-> lets_through p c = false \/ labels_valid c = true.
Proof. apply recorder_call_iff. Qed.

Definition demo_prometheus : Prometheus := NewPrometheus 10 true.
Lemma recorder_panics_iff_witness :
  snd (recorder_call demo_prometheus (IncRequest "openai:/v1/embeddings" "caf" "2xx")) = Normal tt <->
  lets_through demo_prometheus (IncRequest "openai:/v1/embeddings" "caf" "2xx") = false \/
  labels_valid (IncRequest "openai:/v1/embeddings" "caf" "2xx") = true.
Proof. exact (recorder_panics_iff demo_prometheus _ (NewPrometheus_named 10 true)). Defined.

(** A label that is not valid UTF-8 panics, and its tuple still takes a place under
    the cap. *)
Definition bad_label : string := str1 (z_byte 255).
Example bad_label_panics :
  snd (recorder_call demo_prometheus (IncRequest "openai:/v1/images/edits" bad_label "4xx"))
  = Panics "label value is not valid UTF-8".
Proof. vm_compute. reflexivity. Qed.
Example bad_label_takes_a_place :
  cv_count (p_counters (fst (fst (recorder_call demo_prometheus (IncRequest "openai:/v1/images/edits" bad_label "4xx")))) requests) = 1.
Proof. vm_compute. reflexivity. Qed.

(** A NUL is valid in a label value, and makes two tuples share a key. *)
Example joinNul_collides :
  let a := ["x" +:+ str1 NUL +:+ "y"; "z"] in let b := ["x"; "y" +:+ str1 NUL +:+ "z"] in
  joinNul a = joinNul b /\ a <> b /\ forallb ValidString a = true /\ forallb ValidString b = true.
Proof. vm_compute. split_and!; done. Qed.

(** Calls with valid labels never panic, whatever was recorded before. *)
Lemma valid_calls_ok cs p p' ops hits :
  named p -> Forall (fun c => labels_valid c = true) cs -> Prometheus_run p cs = (p', ops, hits) ->
  apply_all vectors ops = Normal tt.
Proof.
  revert p p' ops hits. induction cs as [|c cs IH]; intros p p' ops hits Hp Hcs; cbn [Prometheus_run].
  { by intros [= <- <- <-]. }
  inversion Hcs as [|? ? Hc Hcs']; subst. pose proof (recorder_call_ok p c Hp Hc) as H1. unfold recorder_call in H1.
  pose proof (named_step p c Hp) as Hp1.
  destruct (Prometheus_record p c) as [[p1 o1] h1]. destruct (Prometheus_run p1 cs) as [[p2 o2] h2] eqn:E.
  intros [= <- <- <-]. apply apply_all_ok, Forall_app. cbn [snd fst] in *.
  split; apply apply_all_ok; [done|by eapply IH].
Qed.
