(* ===== verification/Labels.v ===== *)
(** The label values of the worker's metrics: which recorder calls a request makes,
    and that none of them panics where the model name is decoded from JSON. *)
From stdpp Require Import base gmap strings list.
From Stdlib Require Import ZArith Lia Ascii String.
From S2P Require Import Prelude.
From S2P Require Import GoStrings.
From S2P Require Import GoConv.
From S2P Require Import GoFloat.
From S2P Require Import GoUnmarshal.
From S2P Require Import GoUtf8.
From S2P Require Import Types.
From S2P Require Import Prog.
From S2P Require Import Interp.
From S2P Require Import Config.
From S2P Require Import ConfigFacts.
From S2P Require Import Payee.
From S2P Require Import Backend.
From S2P Require Import Tokenizer.
From S2P Require Import ResponseWriter.
From S2P Require Import Module.
From S2P Require Import Multipart.
From S2P Require Import MultipartFacts.
From S2P Require Import Middleware.
From S2P Require Import Session.
From S2P Require Import Stack.
From S2P Require Import Env.
From S2P Require Import Mux.
From S2P Require Import Main.
From S2P Require Import Worker.
From S2P Require Import Local.
From S2P Require Import Metrics.
From S2P Require Import Registry.
From S2P Require ChatCompletions.
From S2P Require Embeddings.
From S2P Require ImagesGenerations.
From S2P Require ImagesEdits.
From S2P Require AudioSpeech.
From S2P Require AudioTranscriptions.

(** * The law *)

(** Effects that record valid labels, if they record. *)
Definition label_eff (e : eff) : Prop := match e with ERec c => labels_valid c = true | _ => True end.

Definition model_of (c : module_call) : ModelID :=
  match c with ExtractModel _ => "" | EstimateWorkUnits _ model | Serve _ _ _ model _ => model end.

(** What a module with JSON requests promises: the models it extracts are valid
    UTF-8, and so are the labels it records for a valid model. *)
Class LabelLaws (m : Module) : Prop := {
  law_model : forall body, exists x, mod_methods m (ExtractModel body) = Ret x /\
    match x with Ok model => ValidString model = true | Err _ => True end;
  law_labels : forall c, ValidString (model_of c) = true -> emits label_eff (mod_methods m c);
  law_constants : ValidString (mod_Capability m) = true /\ ValidString (mod_Unit m) = true }.

Lemma label_rec_do rec c : labels_valid c = true -> emits label_eff (rec_do rec c).
Proof. intros H. by apply emits_rec_do. Qed.

Ltac labels_solve := unfold labels_valid; cbn [rec_labels forallb];
  repeat match goal with H : ValidString ?s = true |- context [ValidString ?s] => rewrite H end; reflexivity.

Lemma label_record rec cap model start status err :
  ValidString cap = true -> ValidString model = true ->
  emits label_eff (recordOutcome rec cap model start status err).
Proof.
  intros Hc Hm. unfold recordOutcome, since, now. apply emits_bind; [by split|intros d].
  apply emits_bind; [apply label_rec_do; labels_solve|intros _].
  destruct err as [e|].
  - apply emits_bind; [apply label_rec_do; labels_solve|intros _]. apply label_rec_do.
    unfold classifyTransportError. repeat case_match; labels_solve.
  - destruct (500 <=? status); (apply emits_bind; [apply label_rec_do; labels_solve|intros _]).
    + apply label_rec_do. labels_solve.
    + apply emits_bind; [by split|intros t]. apply label_rec_do. labels_solve.
Qed.

(** The backend call of a [Serve], then what it does with the answer. *)
Lemma label_serve {A} rec cap model c (k : backend_resp c -> prog A) :
  ValidString cap = true -> ValidString model = true -> (forall r, emits label_eff (k r)) ->
  emits label_eff (bind (backendFor iface_backend rec cap model c) k).
Proof.
  intros Hc Hm Hk. apply emits_bind; [|exact Hk]. destruct rec as [rec|]; [|by split].
  unfold backendFor, Backend.WithMetrics, Backend.meteredClient.
  destruct c; unfold metered_raw, metered_stream, now; (apply emits_bind; [by split|intros start]);
    (apply emits_bind; [by split|intros r]); (apply emits_bind; [by apply label_record|by intros]).
Qed.
Lemma label_wire {A} (p : prog A) : emits wire_eff p -> emits label_eff p.
Proof. apply emits_mono. by intros []. Qed.
Lemma label_backend_error w prefix e : emits label_eff (serve_backend_error w prefix e).
Proof. apply emits_bind; [apply label_wire, wire_http_Error|done]. Qed.
Lemma label_json w status body actual : emits label_eff (write_json w status body actual).
Proof. eapply emits_mono; [|apply wire_json]. by intros []. Qed.
Lemma label_closing {A} (p : prog A) : emits wire_eff p -> emits label_eff (with_defer p (fun _ => stream_Close)).
Proof. intros Hp. apply emits_bind; [by apply label_wire|]. intros x. by repeat (split || intros ?). Qed.

(** A tokenizer records the model it is asked for. *)
Class TokenizerLabels (tok : Tokenizer) : Prop :=
  tokenizer_labels : forall model s, ValidString model = true -> emits label_eff (CountTokensForModel tok model s).

(** The counts of tiktoken record nothing. *)
Lemma label_tiktoken {Enc} (e : Enc -> string -> list Z) d f model s :
  emits label_eff (CountTokensForModel (tiktoken_tokenizer e (NewTiktoken (Some (NewWordCount 133)) d) f) model s).
Proof.
  cbn [CountTokensForModel tiktoken_tokenizer]. unfold tiktoken_CountTokensForModel.
  destruct (str_nil s); [done|]. destruct (encodingFor _ _ _) as [enc c]. cbn [fst]. unfold count_with.
  destruct enc; [done|]. by destruct (tk_defaultEnc _).
Qed.
#[export] Instance worker_tokenizer_labels {Enc} (d : res Enc) f e rec : TokenizerLabels (worker_tokenizer d f e rec).
Proof.
  intros model s Hm. unfold worker_tokenizer, Tokenizer.WithMetrics.
  cbn [CountTokensForModel meteredTokenizer]. apply emits_bind; [apply label_tiktoken|intros n].
  apply emits_bind; [apply label_rec_do; labels_solve|done].
Qed.

(** * The modules with JSON requests *)

(** The decoder of a request keeps the model valid, its one string label. *)
Ltac keeps_model :=
  apply keeps_struct; repeat constructor;
  first [ apply (keeps_field _ (fun s => ValidString s = true)); [apply keeps_string|done|done]
        | apply (keeps_field _ (fun _ => True)); [apply keeps_any|done|done] ].

(** [parse_request], then [Model]. *)
Lemma extract_valid {R} (model : R -> ModelID) (parsed : res R) e :
  (forall r, parsed = Ok r -> ValidString (model r) = true) ->
  match (r ← parsed; if str_nil (model r) then Err e else Ok (model r)) with
  | Ok m => ValidString m = true | Err _ => True end.
Proof. intros H. destruct parsed as [r|]; [|done]. cbn [mbind res_bind]. destruct (str_nil (model r)); [done|by apply H]. Qed.
Lemma parsed_valid {R} (model : R -> ModelID) prefix (d : decoder R) zero body r :
  keeps (fun r => ValidString (model r) = true) d -> ValidString (model zero) = true ->
  wrap_err prefix (Unmarshal d zero body) = Ok r -> ValidString (model r) = true.
Proof.
  intros Hd Hz H. destruct (Unmarshal d zero body) as [r'|e] eqn:E; [|done]. injection H as ->.
  exact (Unmarshal_keeps _ d zero body r Hd Hz E).
Qed.

(** What is common to the four: [ExtractModel] is pure, the labels of the estimate
    and of [Serve] are left. *)
Lemma label_laws_intro m (extract : string -> res ModelID) :
  (forall body, mod_methods m (ExtractModel body) = Ret (extract body)) ->
  (forall body, match extract body with Ok model => ValidString model = true | Err _ => True end) ->
  ValidString (mod_Capability m) = true -> ValidString (mod_Unit m) = true ->
  (forall body model, ValidString model = true -> emits label_eff (mod_methods m (EstimateWorkUnits body model))) ->
  (forall w r body model url, ValidString model = true -> emits label_eff (mod_methods m (Serve w r body model url))) ->
  LabelLaws m.
Proof.
  intros He Hv Hc Hu Hest Hs. split; [|intros [body|body model|w r body model url] Hm|done].
  - intros body. exists (extract body). split; [apply He|apply Hv].
  - by rewrite He.
  - by apply Hest.
  - by apply Hs.
Qed.

(** The answer of a buffered call. *)
Lemma label_raw_answer w prefix (err : option error) status body actual :
  emits label_eff (match err with
    | Some e => serve_backend_error w prefix e
    | None => write_json w status body actual end).
Proof. destruct err; [apply label_backend_error|apply label_json]. Qed.

#[export] Instance images_generations_labels rec : LabelLaws (ImagesGenerations.module iface_backend rec).
Proof.
  apply (label_laws_intro _ ImagesGenerations.Module_ExtractModel); try done.
  - intros body. apply extract_valid. intros r. apply parsed_valid; [keeps_model|done].
  - intros w r body model url Hm. apply (label_serve _ _ _ (DoJSON _ _)); [done|done|]. intros rr. apply label_raw_answer.
Qed.
#[export] Instance audio_speech_labels rec : LabelLaws (AudioSpeech.module iface_backend rec).
Proof.
  apply (label_laws_intro _ AudioSpeech.Module_ExtractModel); try done.
  - intros body. apply extract_valid. intros r. apply parsed_valid; [keeps_model|done].
  - intros w r body model url Hm. apply (label_serve _ _ _ (DoStream _ _)); [done|done|]. intros sr.
    destruct (sr_err sr); [apply label_backend_error|apply label_closing, wire_pipe_stream].
Qed.

Lemma label_count_items tok `{!TokenizerLabels tok} model total items :
  ValidString model = true -> emits label_eff (Embeddings.count_items tok model total items).
Proof.
  intros Hm. revert total. induction items as [|item items IH]; intros total; cbn [Embeddings.count_items]; [done|].
  destruct item; auto. apply emits_bind; [by apply tokenizer_labels|auto].
Qed.
#[export] Instance embeddings_labels tok rec `{!TokenizerLabels tok} : LabelLaws (Embeddings.module tok iface_backend rec).
Proof.
  apply (label_laws_intro _ Embeddings.Module_ExtractModel); try done.
  - intros body. apply extract_valid. intros r. apply parsed_valid; [keeps_model|done].
  - intros body model Hm. simpl. unfold Embeddings.Module_EstimateWorkUnits.
    destruct (Embeddings.parse_request body) as [r|]; [|done]. apply emits_bind; [|done].
    unfold Embeddings.countTokens. destruct (Embeddings.Input r); try done; [by apply tokenizer_labels|by apply label_count_items].
  - intros w r body model url Hm. apply (label_serve _ _ _ (DoJSON _ _)); [done|done|]. intros rr. apply label_raw_answer.
Qed.

Lemma label_count_messages tok `{!TokenizerLabels tok} model input msgs :
  ValidString model = true -> emits label_eff (ChatCompletions.count_messages tok model input msgs).
Proof.
  intros Hm. revert input. induction msgs as [|msg msgs IH]; intros input; cbn [ChatCompletions.count_messages]; [done|].
  apply emits_bind; [by apply tokenizer_labels|intros a]. apply emits_bind; [by apply tokenizer_labels|auto].
Qed.
#[export] Instance chat_labels tok rec def `{!TokenizerLabels tok} : LabelLaws (ChatCompletions.module tok iface_backend rec def).
Proof.
  apply (label_laws_intro _ ChatCompletions.Module_ExtractModel); try done.
  - intros body. apply extract_valid. intros r. apply parsed_valid; [keeps_model|done].
  - intros body model Hm. simpl. unfold ChatCompletions.Module_EstimateWorkUnits.
    destruct (ChatCompletions.parse_request body) as [r|]; [|done]. apply emits_bind; [by apply label_count_messages|done].
  - intros w r body model url Hm. cbn [ChatCompletions.module mod_methods ChatCompletions.methods].
    unfold ChatCompletions.Module_Serve. destruct (ChatCompletions.parse_request body) as [rq|]; [|done].
    destruct (ChatCompletions.Stream rq).
    + apply (label_serve _ _ _ (DoStream _ _)); [done|done|]. intros sr.
      destruct (sr_err sr); [apply label_backend_error|apply label_closing, wire_relay_stream].
    + apply (label_serve _ _ _ (DoJSON _ _)); [done|done|]. intros rr. apply label_raw_answer.
Qed.

(** * The middleware *)

(** The labels are valid, and the module is asked about valid models only, as long
    as it extracts valid ones. *)
Definition label_mon : monitor unit := fun _ x =>
  match x with Ev e a =>
    match e return resp e -> verdict unit with
    | ERec c => fun _ => if labels_valid c then Next tt else Reject
    | EModule c =>
        match c return module_resp c -> verdict unit with
        | ExtractModel _ => fun x => match x with Ok m => if ValidString m then Next tt else Vacuous | Err _ => Next tt end
        | c => fun _ => if ValidString (model_of c) then Next tt else Reject
        end
    | _ => fun _ => Next tt
    end a
  end.

(** Effects outside the recorder and the module. *)
Definition label_free (e : eff) : Prop := match e with ERec _ | EModule _ => False | _ => True end.

Lemma labels_free {A} (p : prog A) (Q : unit -> A -> Prop) :
  emits label_free p -> (forall a, Q tt a) -> safe label_mon p Q tt.
Proof. apply emits_safe. by intros []. Qed.
Lemma labels_seq {A B} (p : prog A) (f : A -> prog B) (Q : unit -> B -> Prop) :
  emits label_free p -> (forall a, safe label_mon (f a) Q tt) -> safe label_mon (bind p f) Q tt.
Proof. intros Hp Hf. apply safe_bind. by apply labels_free. Qed.
Lemma labels_rec {B} rec c (f : unit -> prog B) (Q : unit -> B -> Prop) :
  labels_valid c = true -> safe label_mon (f tt) Q tt -> safe label_mon (bind (rec_do rec c) f) Q tt.
Proof. intros Hc Hf. destruct rec; [done|]. intros []. simpl. by rewrite Hc. Qed.
Lemma labels_rec_end rec c : labels_valid c = true -> safe label_mon (rec_do rec c) (fun _ _ => True) tt.
Proof. intros Hc. destruct rec; [done|]. intros []. simpl. by rewrite Hc. Qed.

Lemma free_error sw status code detail : emits label_free (writeJSONError sw status code detail).
Proof. by apply emits_writeJSONError. Qed.
Lemma free_log lvl msg : emits label_free (log lvl msg).
Proof. by split. Qed.
Lemma free_since start : emits label_free (since start).
Proof. by split. Qed.
#[export] Hint Resolve free_error free_log free_since : labels.

Section Middleware.
Context (deps : paidRouteDeps) (r : request).
Context (Hcap : ValidString (d_Capability deps) = true) (Hunit : ValidString (d_Unit deps) = true).

Abbreviation any := (fun _ _ => True).
(** A step: silent, or a recorder call with valid labels. *)
Ltac labels_step :=
  first [ done
        | apply labels_rec; [labels_solve|]
        | apply labels_free; [solve [auto with labels]|done]
        | apply labels_seq; [solve [auto with labels]|intros ?] ].

Lemma labels_serve sw body model route workID sender est :
  ValidString model = true ->
  safe label_mon (serve_and_reconcile deps r sw body model route workID sender est) any tt.
Proof.
  intros Hm. unfold serve_and_reconcile. apply safe_event. intros res. cbn [label_mon model_of]. rewrite Hm.
  destruct (sv_err res) as [[]|]; [by repeat labels_step..|]. apply safe_bind.
  eapply (safe_mono _ _ any); [|destruct (0 <? sv_actual res); [apply labels_rec_end; labels_solve|done]].
  intros [] _ _. destruct (est <? sv_actual res); [|done].
  apply labels_seq; [by split|]. intros []; by repeat labels_step.
Qed.

Lemma labels_debit sw body model route workID sender :
  ValidString model = true ->
  safe label_mon (debit_and_serve deps r sw body model route workID sender) any tt.
Proof.
  intros Hm. unfold debit_and_serve. apply safe_event. intros est. cbn [label_mon model_of]. rewrite Hm.
  destruct est as [est|e]; [|by repeat labels_step]. apply labels_seq; [by split|].
  intros [db|e]; [|by repeat labels_step]. destruct (db_BalanceWei db <? 0); [by repeat labels_step|by apply labels_serve].
Qed.

Lemma labels_open sw body bytes model route :
  ValidString model = true -> safe label_mon (open_and_pay deps r sw body bytes model route) any tt.
Proof.
  intros Hm. unfold open_and_pay. destruct (BigSetString _); [|by repeat labels_step].
  apply labels_seq; [by split|]. intros [os|e]; [|by repeat labels_step].
  apply labels_seq; [by split|]. intros [pp|e]; [|by repeat labels_step].
  eapply safe_seq; [by apply labels_debit|]. intros [] sw' _. unfold close_session.
  apply safe_bind. apply labels_seq; [by split|]. intros []; [done|]. by repeat labels_step.
Qed.

Lemma labels_pipeline sw : safe label_mon (pipeline deps r sw) (fun _ x => ValidString (snd x) = true) tt.
Proof.
  unfold pipeline. destruct (ReadAll _) as [body|e]; [|by repeat labels_step]. cbv zeta.
  destruct (str_nil _); [by repeat labels_step|]. destruct (base64_decode _) as [bytes|]; [|by repeat labels_step].
  apply safe_event. intros [model|e]; cbn [label_mon]; [|by repeat labels_step].
  destruct (ValidString model) eqn:Hm; [|done].
  destruct (Lookup _ _ model) as [route|]; [|by repeat labels_step].
  eapply safe_seq; [by apply labels_open|]. by intros [] sw' _.
Qed.

Lemma labels_metrics start x : ValidString (snd x) = true -> safe label_mon (request_metrics deps start x) any tt.
Proof.
  intros Hx. unfold request_metrics, classifyOutcome. intros err. cbn [label_mon bind].
  assert (Ho : ValidString (outcome_of err (sw_status (fst x))) = true)
    by (unfold outcome_of, status_bucket; repeat case_match; reflexivity).
  apply labels_rec; [labels_solve|]. apply labels_seq; [by split|intros d]. apply labels_rec_end. labels_solve.
Qed.

Lemma labels_admitted start sw : safe label_mon (admitted deps r start sw) any tt.
Proof.
  unfold admitted, with_defer. eapply safe_seq; [apply labels_pipeline|]. intros [] x Hx.
  eapply safe_seq; [by apply labels_metrics|]. done.
Qed.

Lemma labels_middleware flusher : safe label_mon (paymentMiddleware deps flusher r) any tt.
Proof.
  unfold paymentMiddleware, now. apply labels_seq; [by split|intros start].
  destruct (d_sem deps); [|apply labels_admitted].
  apply labels_seq; [by split|]. intros [|].
  - apply labels_seq; [by split|intros n]. apply labels_rec; [done|]. unfold with_defer.
    eapply safe_seq; [apply labels_admitted|]. intros [] x _. unfold release_slot. apply safe_bind.
    apply labels_seq; [by split|intros _]. apply labels_seq; [by split|intros k].
    eapply (safe_mono _ _ any); [done|by apply labels_rec_end].
  - unfold reject_capacity. repeat labels_step.
Qed.
End Middleware.

(** * Behind the interfaces *)

(** A module that keeps the law records valid labels only, whatever program asks it
    about valid models. *)
Lemma labels_interp {A} m `{!LabelLaws m} (p : prog A) Q :
  safe label_mon p Q tt -> emits label_eff (interp (module_handler (mod_methods m)) p).
Proof.
  induction p as [a|e k IH]; [done|]. intros Hs.
  assert (Hk : forall x, label_mon tt (Ev e x) = Next tt -> emits label_eff (interp (module_handler (mod_methods m)) (k x))).
  { intros x Hx. apply IH. specialize (Hs x). by rewrite Hx in Hs. }
  cbn [interp]. destruct e; try (split; [exact I|intros x; by apply Hk]).
  - split; [|intros []; apply Hk; specialize (Hs tt); cbn [label_mon] in *; by destruct (labels_valid c)].
    specialize (Hs tt). cbn [label_mon] in Hs. cbn [label_eff]. by destruct (labels_valid c).
  - cbn [module_handler]. destruct c as [body|body model|w rq body model url].
    + destruct (law_model (m := m) body) as (x & -> & Hx). cbn [bind]. apply Hk. cbn [label_mon].
      destruct x as [model|e]; [by rewrite Hx|done].
    + specialize (Hs (some_answer (EModule (EstimateWorkUnits body model)))). cbn [label_mon model_of] in *.
      destruct (ValidString model) eqn:Hm; [|done]. apply emits_bind; [by apply law_labels|]. intros x. by apply Hk.
    + specialize (Hs (some_answer (EModule (Serve w rq body model url)))). cbn [label_mon model_of] in *.
      destruct (ValidString model) eqn:Hm; [|done]. apply emits_bind; [by apply law_labels|]. intros x. by apply Hk.
Qed.

Lemma labels_route cfg rec md `{!LabelLaws md} flusher r : emits label_eff (paid_route cfg rec md flusher r).
Proof.
  apply emits_bind; [|done]. destruct law_constants as [Hc Hu]. by eapply labels_interp, labels_middleware.
Qed.

(** The clients at the root: the labels of the daemon's calls are constants. *)
Lemma label_metered {A} rec method (p : prog (res A)) :
  ValidString method = true -> emits label_eff p -> emits label_eff (metered_rpc rec method p).
Proof.
  intros Hm Hp. unfold metered_rpc, since, now. apply emits_bind; [by split|intros start].
  apply emits_bind; [exact Hp|intros x].
  assert (Ho : ValidString (if is_ok x then OutcomeOK else OutcomeError) = true) by by destruct (is_ok x).
  apply emits_bind; [apply label_rec_do; labels_solve|intros _].
  apply emits_bind; [by split|intros d]. apply emits_bind; [apply label_rec_do; labels_solve|done].
Qed.
Lemma label_root rec e : label_eff e -> emits label_eff (root_handler rec e).
Proof.
  intros He. destruct e; try (by split).
  - destruct c; apply label_metered; try done; by repeat first [exact I | split | intros ?].
  - eapply emits_mono; [|apply fetch_emits]. by intros [].
Qed.

Definition rec_calls (t : list event) : list rec_call :=
  t ≫= fun x => match x with Ev (ERec c) _ => [c] | _ => [] end.
Lemma rec_calls_valid t :
  Forall (fun x => match x with Ev e _ => label_eff e end) t -> Forall (fun c => labels_valid c = true) (rec_calls t).
Proof.
  induction 1 as [|[e a] t He Ht IH]; [constructor|]. unfold rec_calls. csimpl. apply Forall_app. split; [|exact IH].
  destruct e; try constructor; [exact He|constructor].
Qed.

(** Where the model of a request comes from its JSON. *)
Definition json_path (path : string) : Prop := path <> ImagesEdits.HTTPPath /\ path <> AudioTranscriptions.HTTPPath.

Lemma module_for_labels f path tok `{!TokenizerLabels tok} rec md :
  json_path path -> module_for f ("openai:" +:+ path) tok iface_backend rec = Some md -> LabelLaws md.
Proof.
  intros [He Ht]. unfold module_for.
  repeat (match goal with |- (if String.eqb ?capability ?c then _ else _) = _ -> _ =>
    destruct (String.eqb_spec capability c) as [Hc|_] end; [intros [= <-]|]); [..|done].
  - by apply chat_labels.
  - by apply embeddings_labels.
  - apply images_generations_labels.
  - apply audio_speech_labels.
  - change ImagesEdits.Capability with ("openai:" +:+ ImagesEdits.HTTPPath) in Hc. by apply str_app_inj in Hc.
  - change AudioTranscriptions.Capability with ("openai:" +:+ AudioTranscriptions.HTTPPath) in Hc. by apply str_app_inj in Hc.
Qed.

(** * The worker *)

Section Worker.
Context (int64_of_large : float64 -> Z).
Context (os_Open : string -> res string) (yaml_Decode : nat -> string -> res yamlConfig).
Context (grpc_NewClient : string -> res unit).
Context {Enc : Type} (default_encoding : res Enc) (first_encoding : string -> res Enc).
Context (tiktoken_Encode : Enc -> string -> list Z).
Context (version go_version : string).

Abbreviation startup := (Main.startup int64_of_large os_Open yaml_Decode
  grpc_NewClient default_encoding first_encoding tiktoken_Encode version go_version).

(** C15. Serving never panics in the metrics.  Whatever a started worker serves on a
    path whose model name is JSON (all but the image edits and the transcriptions),
    every label of every recorder call it makes is valid UTF-8, whatever bytes the
    client sent; so from any state of the Prometheus recorder, whatever the cap has
    let through before, the operations the calls make on the vectors all succeed. *)
Theorem worker_metrics_never_panic (args : option flags) (ts : list event) (w : worker) (method path : string)
    (flusher : bool) (r : request) (t : list event) (u : unit) (p p' : Prometheus) ops hits :
  Tr (startup args) ts (Normal (inr w)) -> IndexByte method " " = None -> json_path path ->
  Tr (serve_request w method path flusher r) t u ->
  named p -> Prometheus_run p (rec_calls t) = (p', ops, hits) ->
  Forall (fun c => labels_valid c = true) (rec_calls t) /\ apply_all vectors ops = Normal tt.
Proof.
  intros Hs Hm Hp Ht Hn Hrun.
  assert (Hl : emits label_eff (Handler (wk_mux w) method path flusher r)).
  { destruct (worker_dispatch _ _ _ _ _ _ _ _ _ _ _ _ method path flusher r Hs Hm)
      as [(md & _ & Hc & _ & _ & -> & Hfor)|Hu].
    - rewrite Hc in Hfor. eapply module_for_labels in Hfor; [|apply _|exact Hp]. by apply labels_route.
    - eapply emits_mono; [|exact Hu]. by intros []. }
  assert (Hv : Forall (fun c => labels_valid c = true) (rec_calls t)).
  { apply rec_calls_valid. eapply emits_Tr; [|exact Ht]. eapply emits_interp; [|exact Hl]. apply label_root. }
  split; [exact Hv|]. exact (valid_calls_ok _ _ _ _ _ Hn Hv Hrun).
Qed.
End Worker.

Lemma worker_metrics_never_panic_witness :
  Forall (fun c => labels_valid c = true) (rec_calls demo_serving_trace) /\
  apply_all vectors (snd (fst (Prometheus_run demo_prometheus (rec_calls demo_serving_trace)))) = Normal tt.
Proof.
  refine (worker_metrics_never_panic _ _ _ _ _ _ _ _ _ demo_args demo_startup_trace demo_worker "POST"
    "/v1/chat/completions" true demo_paid_request demo_serving_trace (result_of demo_env demo_serving env0)
    demo_prometheus (fst (fst (Prometheus_run demo_prometheus (rec_calls demo_serving_trace))))
    (snd (fst (Prometheus_run demo_prometheus (rec_calls demo_serving_trace))))
    (snd (Prometheus_run demo_prometheus (rec_calls demo_serving_trace)))
    demo_started eq_refl _ (trace_of_Tr _ _ _) (NewPrometheus_named 10 true) _).
  - by split.
  - by destruct (Prometheus_run demo_prometheus _) as [[p ops] hits].
Defined.
Example demo_serving_records : length (rec_calls demo_serving_trace) <> 0%nat.
Proof. vm_compute. discriminate. Qed.

(** * The two paths with forms *)

(** The model of a form is its raw bytes.  With one that is not valid UTF-8, and a
    payment header of any decodable text, the deferred request metrics panic: the
    request has no route, so the daemon has been asked nothing and nothing is paid. *)
Definition bad_model_request : request := {|
  rq_header := [("Livepeer-Payment", "AAAA")];
  rq_body := Reader (form_body "b" [("model", bad_label)]) ErrEOF |}.
Definition bad_model_trace : list event :=
  trace_of demo_env (paid_route demo_config LiveRecorder (ImagesEdits.New iface_backend (Some LiveRecorder))
    true bad_model_request) env0.
Theorem form_model_panics :
  Tr (paid_route demo_config LiveRecorder (ImagesEdits.New iface_backend (Some LiveRecorder)) true bad_model_request)
    bad_model_trace tt /\
  In (Ev (EWriteHeader 404) tt) bad_model_trace /\
  List.Forall (fun x => match x with Ev (EPayee _) _ => False | _ => True end) bad_model_trace /\
  In (IncRequest ImagesEdits.Capability bad_label OutcomeRequest4xx) (rec_calls bad_model_trace) /\
  apply_all vectors (snd (fst (Prometheus_run demo_prometheus (rec_calls bad_model_trace)))) =
    Panics "label value is not valid UTF-8".
Proof.
  split; [unfold bad_model_trace; match goal with |- Tr ?p _ _ => pose proof (trace_of_Tr demo_env p env0) as H end;
    by destruct (result_of _ _ _)|].
  split_and!; [| | |vm_compute; reflexivity].
  - vm_compute. repeat first [by left|right].
  - vm_compute. by repeat constructor.
  - vm_compute. repeat first [by left|right].
Qed.
