(* ===== verification/Tariff.v ===== *)
(** What a request is billed: the price table of the worker, as pure functions of the
    request and the backend's answer, and that the debits the daemon receives over
    gRPC follow it. *)
From stdpp Require Import base gmap strings list.
From Stdlib Require Import ZArith Lia Ascii String.
From S2P Require Import Prelude.
From S2P Require Import GoStrings.
From S2P Require Import GoConv.
From S2P Require Import GoUrl.
From S2P Require Import GoFloat.
From S2P Require Import GoUnmarshal.
From S2P Require Import Types.
From S2P Require Import Prog.
From S2P Require Import Interp.
From S2P Require Import Config.
From S2P Require Import ConfigFacts.
From S2P Require Import Payee.
From S2P Require Import Backend.
From S2P Require Import Tokenizer.
From S2P Require Import ResponseWriter.
From S2P Require Import Module.
From S2P Require Import Multipart.
From S2P Require Import Middleware.
From S2P Require Import Session.
From S2P Require Import Stack.
From S2P Require Import Env.
From S2P Require Import Mux.
From S2P Require Import Handlers.
From S2P Require Import Main.
From S2P Require Import Worker.
From S2P Require Import Local.
From S2P Require Import Daemon.
From S2P Require Import Relay.
From S2P Require Import Streaming.
From S2P Require ChatCompletions.
From S2P Require Embeddings.
From S2P Require ImagesGenerations.
From S2P Require ImagesEdits.
From S2P Require AudioSpeech.
From S2P Require AudioTranscriptions.

(** * The price table *)

(** The model a request body names, the units debited before it is served, and the
    units the text of the backend's answer reports, all as functions. *)
Record Tariff := {
  tf_model : string -> res ModelID;
  tf_estimate : string -> ModelID -> res Z;
  tf_reported : string -> string -> Z }.

(** [usage.total_tokens] of an answer, 0 without one. *)
Definition chat_reported (text : string) : Z :=
  match Unmarshal ChatCompletions.dec_response ChatCompletions.response_zero text with
  | Ok {| ChatCompletions.Usage := Some u |} => ChatCompletions.TotalTokens u
  | _ => 0
  end.
Definition embeddings_reported (text : string) : Z :=
  match Unmarshal Embeddings.dec_response {| Embeddings.Usage := None |} text with
  | Ok {| Embeddings.Usage := Some u |} => Embeddings.TotalTokens u
  | _ => 0
  end.
(** The usage of the last line of a stream that carries one. *)
Definition stream_reported (text : string) : Z :=
  ChatCompletions.usageToUnits (ChatCompletions.last_usage None (ChatCompletions.stream_pieces (Stream [text] ErrEOF))).

Section Table.
(** The token counts of a model, and the conversion of a large float. *)
Context (count : string -> string -> Z) (int64_of_large : float64 -> Z).

(** Tokens: every role and content, and the tokens the answer may have. *)
Definition chat_tariff : Tariff := {|
  tf_model := ChatCompletions.Module_ExtractModel;
  tf_estimate := fun body model =>
    r ← ChatCompletions.parse_request body;
    Ok (wrap64 (ChatCompletions.input_tokens count model (ChatCompletions.Messages r) + ChatCompletions.output_tokens 2048 r));
  tf_reported := fun body text =>
    match ChatCompletions.parse_request body with
    | Ok r => if ChatCompletions.Stream r then stream_reported text else chat_reported text
    | Err _ => 0
    end |}.
(** Tokens of the input. *)
Definition embeddings_tariff : Tariff := {|
  tf_model := Embeddings.Module_ExtractModel;
  tf_estimate := fun body model =>
    r ← Embeddings.parse_request body;
    Ok (match Embeddings.Input r with
        | AString s => count model s
        | AArr l => wrap64 (foldr (fun item n => Embeddings.item_tokens count model item + n) 0 l)
        | _ => 0
        end);
  tf_reported := fun _ text => embeddings_reported text |}.
(** Step-megapixels; characters; seconds of audio. *)
Definition images_generations_tariff : Tariff := {|
  tf_model := ImagesGenerations.Module_ExtractModel;
  tf_estimate := fun body _ => ImagesGenerations.Module_EstimateWorkUnits body;
  tf_reported := fun _ _ => 0 |}.
Definition images_edits_tariff : Tariff := {|
  tf_model := ImagesEdits.Module_ExtractModel;
  tf_estimate := fun body _ => ImagesEdits.Module_EstimateWorkUnits body;
  tf_reported := fun _ _ => 0 |}.
Definition audio_speech_tariff : Tariff := {|
  tf_model := AudioSpeech.Module_ExtractModel;
  tf_estimate := fun body _ => AudioSpeech.Module_EstimateWorkUnits body;
  tf_reported := fun _ _ => 0 |}.
Definition audio_transcriptions_tariff : Tariff := {|
  tf_model := AudioTranscriptions.Module_ExtractModel;
  tf_estimate := fun _ _ => Ok AudioTranscriptions.DefaultMaxAudioSeconds;
  tf_reported := fun _ text => AudioTranscriptions.durationFromResponse int64_of_large text |}.

Definition tariff_for (path : string) : option Tariff :=
  if String.eqb path ChatCompletions.HTTPPath then Some chat_tariff
  else if String.eqb path Embeddings.HTTPPath then Some embeddings_tariff
  else if String.eqb path ImagesGenerations.HTTPPath then Some images_generations_tariff
  else if String.eqb path ImagesEdits.HTTPPath then Some images_edits_tariff
  else if String.eqb path AudioSpeech.HTTPPath then Some audio_speech_tariff
  else if String.eqb path AudioTranscriptions.HTTPPath then Some audio_transcriptions_tariff
  else None.
End Table.

(** * The law *)

(** A backend's answer: whether it is a stream, its text if it came, and whether it can
    be relayed to its end: its status is one net/http writes, and a stream ended with
    [io.EOF]. *)
Record answer := Answer { an_stream : bool; an_text : option string; an_whole : bool }.
Definition ended (s : stream) : bool := errors_Is (st_end s) ErrEOF.
Definition raw_answer (r : raw_result) : answer :=
  match rr_err r with
  | Some _ => Answer false None false
  | None => Answer false (Some (rr_body r)) (checkWriteHeaderCode (rr_status r))
  end.
Definition stream_answer (r : stream_result) : answer :=
  match sr_err r with
  | Some _ => Answer true None false
  | None => Answer true (Some (str_concat (st_chunks (sr_stream r)))) (checkWriteHeaderCode (sr_status r) && ended (sr_stream r))
  end.
Definition answer_of (c : backend_call) : backend_resp c -> answer :=
  match c with DoStream _ _ => stream_answer | _ => raw_answer end.
Definition ev_answers (x : event) : list answer :=
  match x with Ev e a =>
    match e return resp e -> list answer with EBackend c => fun a => [answer_of c a] | _ => fun _ => [] end a
  end.
Definition answers (t : list event) : list answer := t ≫= ev_answers.

(** The second debit: what the answer reports above what was debited.  It is due when
    the answer was relayed whole; [ok] tells whether all writes to the client succeeded,
    which only a stream depends on. *)
Definition excess (due units : Z) : list Z := if due <? units then [wrap64 (units - due)] else [].
Definition second_debit (tf : Tariff) (body : string) (ok : bool) (due : Z) (a : answer) : list Z :=
  match an_text a with
  | Some text => if an_whole a && (negb (an_stream a) || ok) then excess due (tf_reported tf body text) else []
  | None => []
  end.
(** The debits [l] of a request that was debited [due], given the backend's answer. *)
Definition billed (tf : Tariff) (body : string) (ok : bool) (due : Z) (l : list Z) (a : answer) : Prop :=
  l = due :: second_debit tf body ok due a.

(** What [Serve] leaves the middleware to debit. *)
Definition reports (tf : Tariff) (body : string) (ok : bool) (res : serve_result) (a : answer) : Prop :=
  forall due, 0 <= due -> owed due res = second_debit tf body ok due a.
Definition reported_all (tf : Tariff) (body : string) (ok : bool) (l : list answer) (res : serve_result) : Prop :=
  Forall (reports tf body ok res) l /\ (l = [] -> is_Some (sv_err res)).

Class TariffLaws (m : Module) (tf : Tariff) : Prop := {
  law_tariff_model : forall body, returns (mod_methods m (ExtractModel body)) (fun x => x = tf_model tf body);
  law_tariff_estimate : forall body model,
    returns (mod_methods m (EstimateWorkUnits body model)) (fun x => x = tf_estimate tf body model);
  law_tariff_reported : forall w r body model url t res,
    sw_wrote w = false -> Tr (mod_methods m (Serve w r body model url)) t res ->
    reported_all tf body (writes_ok t) (answers t) res }.

(** * Lemmas the instances share *)

Lemma owed_failed due res : is_Some (sv_err res) -> owed due res = [].
Proof. unfold owed. by intros [e ->]. Qed.
Lemma owed_served due res : sv_err res = None -> owed due res = excess due (sv_actual res).
Proof. unfold owed, excess. by intros ->. Qed.

Lemma returns_any {A} (p : prog A) : returns p (fun _ => True).
Proof. unfold returns. induction p as [a|e k IH]; simpl; auto. Qed.

(** What is local answers nothing. *)
Lemma unanswered t : Forall (fun x => match x with Ev e _ => match e with EBackend _ => False | _ => True end end) t -> answers t = [].
Proof.
  induction 1 as [|[e a] t He _ IH]; [done|]. unfold answers in *. csimpl. rewrite IH. by destruct e.
Qed.
Lemma local_answers {A} (p : prog A) t a : emits local_eff p -> Tr p t a -> answers t = [].
Proof.
  intros Hp Ht. apply unanswered. eapply Forall_impl; [exact (emits_Tr _ _ _ _ Hp Ht)|]. intros [e b]. by destruct e.
Qed.
Lemma answers_app t1 t2 : answers (t1 ++ t2) = answers t1 ++ answers t2.
Proof. apply bind_app. Qed.

(** The backend call, metered or not. *)
Lemma backend_answers rec cap model c s a :
  Tr (backendFor iface_backend rec cap model c) s a -> answers s = [answer_of c a].
Proof.
  assert (Hone : forall s, Tr (iface_backend c) s a -> s = [Ev (EBackend c) a]) by by intros s' (x & s2 & -> & -> & ->).
  destruct rec as [rec|]; intros Ht; [|by apply Hone in Ht as ->].
  change (Tr (meteredClient iface_backend rec cap model c) s a) in Ht.
  destruct c; cbn [meteredClient] in Ht; unfold metered_raw, metered_stream in Ht;
    (apply Tr_event in Ht as (start & s1 & -> & Ht); apply Tr_bind in Ht as (s2 & s3 & x & -> & Hx & Ht);
     destruct Hx as (y & s4 & -> & -> & ->); apply Tr_bind in Ht as (s5 & s6 & [] & -> & Hrec & [-> ->]);
     rewrite app_nil_r; pose proof (local_answers _ _ _ (local_recordOutcome _ _ _ _ _ _) Hrec) as H5;
     unfold answers in *; csimpl; by rewrite H5).
Qed.

(** The shape of every [Serve]: the backend call, then what is local. *)
Lemma serve_reports tf body rec cap model c (k : backend_resp c -> prog serve_result) t res :
  (forall a, emits local_eff (k a)) ->
  (forall a t res, Tr (k a) t res -> reports tf body (writes_ok t) res (answer_of c a)) ->
  Tr (bind (backendFor iface_backend rec cap model c) k) t res ->
  reported_all tf body (writes_ok t) (answers t) res.
Proof.
  intros Hl Hk Ht. apply Tr_bind in Ht as (t1 & t2 & a & -> & Hb & Ht).
  rewrite answers_app, writes_ok_app, (backend_answers _ _ _ _ _ _ Hb), (local_answers _ _ _ (Hl a) Ht).
  destruct (backend_trace _ _ _ _ _ _ Hb) as (_ & _ & ->). split; [|done]. constructor; [by apply Hk|constructor].
Qed.

(** A [Serve] that refuses without asking a backend. *)
Lemma refused_reports tf body (p : prog serve_result) t res :
  emits local_eff p -> returns p (fun res => is_Some (sv_err res)) -> Tr p t res ->
  reported_all tf body (writes_ok t) (answers t) res.
Proof.
  intros Hl Hr Ht. rewrite (local_answers _ _ _ Hl Ht). split; [constructor|]. intros _.
  exact (returns_Tr _ _ _ _ Hr Ht).
Qed.

Lemma returns_backend_error w prefix e : returns (serve_backend_error w prefix e) (fun res => is_Some (sv_err res)).
Proof. eapply returns_bind; [apply returns_any|]. intros w' _. apply returns_ret. by eexists. Qed.
Lemma returns_json (w : statusWriter) status body actual :
  sw_wrote w = false ->
  returns (write_json w status body actual) (fun res =>
    if checkWriteHeaderCode status then sv_err res = None /\ sv_actual res = actual else is_Some (sv_err res)).
Proof.
  intros Hw. unfold write_json. eapply returns_bind; [apply returns_any|]. intros _ _.
  unfold WriteHeader_then, statusWriter_WriteHeader, header_panics. rewrite Hw, andb_true_r.
  destruct (checkWriteHeaderCode status); cbn [negb]; [|by eexists].
  by intros [] err.
Qed.

(** The answers of a buffered call: 502 and an error, or the units of its body. *)
Lemma raw_reports tf body (w : statusWriter) prefix rr actual t res :
  sw_wrote w = false -> actual = tf_reported tf body (rr_body rr) ->
  Tr (match rr_err rr with
      | Some e => serve_backend_error w prefix e
      | None => write_json w (rr_status rr) (rr_body rr) actual end) t res ->
  reports tf body (writes_ok t) res (raw_answer rr).
Proof.
  intros Hw -> Ht due _. unfold raw_answer, second_debit. destruct (rr_err rr) as [e|].
  - by apply owed_failed, (returns_Tr _ _ _ _ (returns_backend_error _ _ _) Ht).
  - pose proof (returns_Tr _ _ _ _ (returns_json _ _ _ _ Hw) Ht) as H. cbn [an_text an_whole an_stream negb orb].
    rewrite andb_true_r. destruct (checkWriteHeaderCode _); [|by apply owed_failed].
    destruct H as [Hn Ha]. by rewrite owed_served, Ha.
Qed.
Lemma local_raw w prefix (err : option error) status body actual :
  emits local_eff (match err with
    | Some e => serve_backend_error w prefix e
    | None => write_json w status body actual end).
Proof. destruct err; [apply local_backend_error|apply local_json]. Qed.

(** * The modules *)

#[export] Instance images_generations_tariff_laws rec :
  TariffLaws (ImagesGenerations.module iface_backend rec) images_generations_tariff.
Proof.
  split; [by intros; apply returns_ret..|]. intros w r body model url t res Hw.
  apply (serve_reports _ _ _ _ _ (DoJSON _ _)); [intros rr; apply local_raw|].
  intros rr t' res'. by apply raw_reports.
Qed.

(** A form is refused before the backend is asked. *)
Lemma returns_form_error (w : statusWriter) msg err :
  returns (w ← http_Error w msg 400; Ret (ServeResult w 0 (Some err))) (fun res => is_Some (sv_err res)).
Proof. eapply returns_bind; [apply returns_any|]. intros w' _. apply returns_ret. by eexists. Qed.
#[export] Instance images_edits_tariff_laws rec :
  TariffLaws (ImagesEdits.module iface_backend rec) images_edits_tariff.
Proof.
  split; [by intros; apply returns_ret..|]. intros w r body model url t res Hw.
  cbn [ImagesEdits.module mod_methods ImagesEdits.methods]. unfold ImagesEdits.Module_Serve. destruct (negb _).
  - apply refused_reports; [apply emits_bind; [apply local_wire, wire_http_Error|done]|apply returns_form_error].
  - apply (serve_reports _ _ _ _ _ (DoRaw _ _ _)); [intros rr; apply local_raw|].
    intros rr t' res'. by apply raw_reports.
Qed.
#[export] Instance audio_transcriptions_tariff_laws f rec :
  TariffLaws (AudioTranscriptions.New f iface_backend rec) (audio_transcriptions_tariff f).
Proof.
  split; [by intros; apply returns_ret..|]. intros w r body model url t res Hw.
  cbn [AudioTranscriptions.New AudioTranscriptions.module mod_methods AudioTranscriptions.methods].
  unfold AudioTranscriptions.Module_Serve. destruct (negb _).
  - apply refused_reports; [apply emits_bind; [apply local_wire, wire_http_Error|done]|apply returns_form_error].
  - apply (serve_reports _ _ _ _ _ (DoRaw _ _ _)); [intros rr; apply local_raw|].
    intros rr t' res'. by apply raw_reports.
Qed.

(** Speech is billed the estimate only: its answer reports nothing. *)
Lemma returns_pipe_stream status hs s w : returns (AudioSpeech.pipe_stream status hs s w) (fun res => sv_actual res = 0).
Proof.
  unfold AudioSpeech.pipe_stream, WriteHeader_then. eapply returns_bind; [apply returns_any|]. intros _ _.
  eapply returns_bind; [apply returns_any|]. intros [w' [msg|]] _; [by apply returns_ret|].
  eapply returns_bind; [apply returns_any|]. by intros [w'' [e|]] _; apply returns_ret.
Qed.
#[export] Instance audio_speech_tariff_laws rec :
  TariffLaws (AudioSpeech.module iface_backend rec) audio_speech_tariff.
Proof.
  split; [by intros; apply returns_ret..|]. intros w r body model url t res Hw.
  apply (serve_reports _ _ _ _ _ (DoStream _ _)).
  { intros sr. destruct (sr_err sr); [apply local_backend_error|apply local_closing, wire_pipe_stream]. }
  intros sr t' res' Ht due Hdue. cbn [answer_of]. unfold stream_answer, second_debit. destruct (sr_err sr) as [e|].
  - by apply owed_failed, (returns_Tr _ _ _ _ (returns_backend_error _ _ _) Ht).
  - apply close_trace in Ht as (t'' & -> & Ht). pose proof (returns_Tr _ _ _ _ (returns_pipe_stream _ _ _ _) Ht) as Ha.
    assert (Hex : excess due 0 = []) by (unfold excess; by destruct (Z.ltb_spec due 0); [lia|]).
    cbn [an_text audio_speech_tariff tf_reported]. rewrite Hex. unfold owed. rewrite Ha. fold (excess due 0). rewrite Hex.
    by destruct (sv_err res'), (_ && _).
Qed.

Section Tokens.
Context (tok : Tokenizer) (count : string -> string -> Z) (Hcount : ChatCompletions.counts tok count).

Lemma embeddings_tariff_estimate body model :
  returns (Embeddings.Module_EstimateWorkUnits tok body model)
    (fun x => x = tf_estimate (embeddings_tariff count) body model).
Proof.
  unfold Embeddings.Module_EstimateWorkUnits. cbn [embeddings_tariff tf_estimate].
  destruct (Embeddings.parse_request body) as [r|e]; [|done].
  cbn [mbind res_bind]. unfold Embeddings.countTokens. destruct (Embeddings.Input r) as [| | |s|l|m]; try done.
  - eapply returns_bind; [apply Hcount|]. by intros n ->.
  - eapply returns_bind; [by apply Embeddings.count_items_sum|]. intros n ->. by apply returns_ret.
Qed.
#[export] Instance embeddings_tariff_laws rec :
  TariffLaws (Embeddings.module tok iface_backend rec) (embeddings_tariff count).
Proof.
  split; [by intros; apply returns_ret|apply embeddings_tariff_estimate|]. intros w r body model url t res Hw.
  apply (serve_reports _ _ _ _ _ (DoJSON _ _)); [intros rr; apply local_raw|].
  intros rr t' res'. by apply raw_reports.
Qed.

Lemma chat_tariff_estimate body model :
  returns (ChatCompletions.Module_EstimateWorkUnits tok 2048 body model)
    (fun x => x = tf_estimate (chat_tariff count) body model).
Proof.
  unfold ChatCompletions.Module_EstimateWorkUnits. cbn [chat_tariff tf_estimate].
  destruct (ChatCompletions.parse_request body) as [r|e]; [|done]. cbn [mbind res_bind].
  eapply returns_bind; [by apply (ChatCompletions.count_messages_sum _ count)|]. intros n ->.
  apply returns_ret. by rewrite Z.add_0_l, wrap64_add_l.
Qed.

(** A relayed chat stream owes the units of its last usage, if it was relayed whole. *)
Lemma chat_stream_reports body rq status s (w : statusWriter) t res :
  sw_wrote w = false -> ChatCompletions.parse_request body = Ok rq -> ChatCompletions.Stream rq = true ->
  Tr (ChatCompletions.relay_stream status s w) t res ->
  reports (chat_tariff count) body (writes_ok t) res
    (Answer true (Some (str_concat (st_chunks s))) (checkWriteHeaderCode status && ended s)).
Proof.
  intros Hw Hp Hst Ht due _. unfold second_debit. cbn [an_text an_whole an_stream negb orb chat_tariff tf_reported].
  rewrite Hp, Hst. destruct (checkWriteHeaderCode status) eqn:Hc; cbn [andb].
  - assert (Hpan : header_panics status w = false) by (unfold header_panics; by rewrite Hc).
    pose proof (safe_sound _ _ _ _ _ _ (ChatCompletions.relay_stream_relays status s w Hpan) Ht) as H.
    rewrite ChatCompletions.relay_mon_run in H. destruct H as (_ & Hok & Hbad). cbn [snd andb] in Hok, Hbad.
    destruct (writes_ok t); [|rewrite andb_false_r; by apply owed_failed, Hbad]. rewrite andb_true_r.
    destruct (Hok eq_refl) as (_ & Ha & He). unfold ChatCompletions.stream_error in He. unfold ended.
    destruct (errors_Is (st_end s) ErrEOF); [|apply owed_failed; rewrite He; by eexists].
    rewrite (owed_served _ _ He), Ha. unfold stream_reported, ChatCompletions.stream_pieces. cbn [st_chunks str_concat].
    by rewrite str_app_nil_r.
  - unfold ChatCompletions.relay_stream in Ht. do 3 (apply Tr_event in Ht as ([] & ? & -> & Ht)).
    assert (Hpan : header_panics status w = true) by (unfold header_panics; by rewrite Hc, Hw).
    match type of Ht with Tr (WriteHeader_then _ _ ?k) _ _ => destruct (WriteHeader_then_panics status w k Hpan) as [msg E] end.
    rewrite E in Ht. destruct Ht as [_ ->]. by apply owed_failed; eexists.
Qed.
#[export] Instance chat_tariff_laws rec : TariffLaws (ChatCompletions.New tok iface_backend rec) (chat_tariff count).
Proof.
  split; [by intros; apply returns_ret|apply chat_tariff_estimate|]. intros w r body model url t res Hw.
  cbn [ChatCompletions.New ChatCompletions.module mod_methods ChatCompletions.methods].
  unfold ChatCompletions.Module_Serve. destruct (ChatCompletions.parse_request body) as [rq|e] eqn:Hp.
  2: { by apply refused_reports; [|apply returns_ret; eexists]. }
  destruct (ChatCompletions.Stream rq) eqn:Hst.
  - apply (serve_reports _ _ _ _ _ (DoStream _ _)).
    { intros sr. destruct (sr_err sr); [apply local_backend_error|apply local_closing, wire_relay_stream]. }
    intros sr t' res' Ht. cbn [answer_of]. unfold stream_answer. destruct (sr_err sr) as [e|].
    + intros due _. by apply owed_failed, (returns_Tr _ _ _ _ (returns_backend_error _ _ _) Ht).
    + apply close_trace in Ht as (t'' & -> & Ht). destruct (close_projections t'') as (_ & _ & ->).
      by apply (chat_stream_reports _ rq _ _ w).
  - apply (serve_reports _ _ _ _ _ (DoJSON _ _)); [intros rr; apply local_raw|].
    intros rr t' res'. apply raw_reports; [done|]. cbn [chat_tariff tf_reported]. by rewrite Hp, Hst.
Qed.
End Tokens.

(** * Behind the middleware *)

Section Run.
Context (deps : paidRouteDeps) (r : request).

(** An estimate is one of the request, for the model it names and a route it has. *)
Lemma estimate_step ph x ph' :
  session_step deps r ph x ph' ->
  match x with
  | Ev (EModule (EstimateWorkUnits body model)) _ => request_body r = Ok body /\ exists route sender, ph = Paid model route sender
  | _ => True
  end.
Proof. destruct 1; try done; [destruct e as [| | | | | | | | | | | |[]| | | |]; simpl in *; tauto|..]; eauto 10. Qed.

Lemma estimate_origin t ph n :
  steps (session_step deps r) Idle t ph -> estimates t = [n] ->
  exists body model route, request_body r = Ok body /\ Lookup (d_cfg deps) (d_Capability deps) model = Some route /\
    extracted body model t /\ In (Ev (EModule (EstimateWorkUnits body model)) (Ok n)) t.
Proof.
  intros Hs Hn. assert (Hin : n ∈ estimates t) by (rewrite Hn; apply list_elem_of_here).
  apply list_elem_of_bind in Hin as ([e a] & Hx & Hin). apply list_elem_of_In in Hin.
  destruct e as [| | | | | | | | | | | |c| | | |]; try by apply not_elem_of_nil in Hx.
  destruct c as [|body model|]; try by apply not_elem_of_nil in Hx. cbn in Hx.
  destruct a as [n'|e]; [|by apply not_elem_of_nil in Hx]. apply list_elem_of_singleton in Hx as <-.
  pose proof Hin as Hin'. apply in_split in Hin' as (t1 & t2 & E). rewrite E in Hs.
  apply steps_app_inv in Hs as (ph1 & H1 & H2). inversion H2 as [|? ? g1 ? ? Hx Ht2]; subst.
  apply estimate_step in Hx as (Hb & route & sender & ->).
  pose proof (run_evidence _ _ _ _ H1) as [Hl _]. pose proof (run_metered _ _ _ _ H1) as (body' & Hb' & Hex).
  assert (body' = body) as -> by congruence. exists body, model, route. split_and!; [done|done| |done].
  apply in_app_iff. by left.
Qed.
End Run.

(** The units of the debits among the daemon's calls. *)
Definition call_units (c : grpc_call * bool) : list Z :=
  match fst c with GrpcDebitBalance _ _ n => [n] | _ => [] end.
Lemma debits_calls t : payee_calls t ≫= call_units = debits t.
Proof.
  unfold payee_calls, debits. induction t as [|[e a] t IH]; [done|]. csimpl. rewrite bind_app, IH. f_equal.
  by destruct e as [| | | | | | | | | | | | |[]| | |].
Qed.

(** * Behind the module interface *)

Section Handler.
Context (m : Module) (tf : Tariff) `{!ModuleLaws m} `{!TariffLaws m tf}.

(** The debits are the middleware's. *)
Lemma module_debits t0 t : expands (module_handler (mod_methods m)) t0 t -> debits t = debits t0.
Proof. intros Hexp. by rewrite <- !debits_calls, (module_calls m _ _ Hexp). Qed.

(** The answers are those of the one [Serve], and nothing else writes. *)
Lemma quiet_answers t : quiet t -> answers t = [].
Proof. intros H. apply unanswered. eapply Forall_impl; [exact H|]. intros [e b]. by destruct e. Qed.
Lemma unserved_answers t0 t :
  serves t0 = [] -> Forall (fun x => match x with Ev e _ => middleware_eff e end) t0 ->
  expands (module_handler (mod_methods m)) t0 t -> answers t = [].
Proof.
  intros Hs Hm Hexp. destruct (unserved_quiet m t0 t Hs Hm Hexp) as [H _]. apply unanswered.
  eapply Forall_impl; [exact H|]. intros [e b]. by destruct e.
Qed.
Lemma serve_answers deps r flusher t0 x t res :
  Tr (paymentMiddleware deps flusher r) t0 x -> expands (module_handler (mod_methods m)) t0 t -> serves t0 = [res] ->
  exists w r' body model url, In (Ev (EModule (Serve w r' body model url)) res) t0 /\
    reported_all tf body (writes_ok t) (answers t) res.
Proof.
  intros Ht0 Hexp Hres.
  destruct (served_segment m _ _ _ _ _ _ _ Ht0 Hexp Hres) as (ta & s & tb & w & r' & body & model & url & -> & Hin & Hw & Hs & Ha & Hb).
  exists w, r', body, model, url. split; [done|]. destruct (quiet_stream _ Ha) as [_ Oa], (quiet_stream _ Hb) as [_ Ob].
  rewrite !answers_app, !writes_ok_app, (quiet_answers _ Ha), (quiet_answers _ Hb), Oa, Ob, app_nil_r, andb_true_r.
  by eapply law_tariff_reported.
Qed.

(** The debits of a paid request, given the answers of the backend. *)
Definition billing (ok : bool) (deps : paidRouteDeps) (r : request) (l : list Z) (as_ : list answer) : Prop :=
  (l = [] /\ as_ = []) \/
  exists body model route est, request_body r = Ok body /\ tf_model tf body = Ok model /\
    Lookup (d_cfg deps) (d_Capability deps) model = Some route /\ tf_estimate tf body model = Ok est /\
    (as_ = [] -> l = [Z.max 0 est]) /\ Forall (billed tf body ok (Z.max 0 est) l) as_.

(** What the module answers is what the table says. *)
Lemma table_answers deps r t0 t ph n :
  steps (session_step deps r) Idle t0 ph -> expands (module_handler (mod_methods m)) t0 t -> estimates t0 = [n] ->
  exists body model route, request_body r = Ok body /\ tf_model tf body = Ok model /\
    Lookup (d_cfg deps) (d_Capability deps) model = Some route /\ tf_estimate tf body model = Ok n.
Proof.
  intros Hs Hexp Hn. destruct (estimate_origin _ _ _ _ _ Hs Hn) as (body & model & route & Hb & Hl & Hx & He).
  exists body, model, route. split_and!; [done| |done|].
  - destruct (expands_event _ _ _ _ _ Hx Hexp) as (s & Hseg & _).
    symmetry. exact (returns_Tr _ _ _ _ (law_tariff_model body) Hseg).
  - destruct (expands_event _ _ _ _ _ He Hexp) as (s & Hseg & _).
    symmetry. exact (returns_Tr _ _ _ _ (law_tariff_estimate body model) Hseg).
Qed.

Lemma paid_billing deps r flusher t x :
  Tr (paid_handler m deps r flusher) t x -> billing (writes_ok t) deps r (debits t) (answers t).
Proof.
  intros Ht. apply interp_Tr in Ht as (t0 & Ht0 & Hexp). rewrite (module_debits _ _ Hexp).
  pose proof (emits_Tr _ _ _ _ (middleware_interface deps flusher r) Ht0) as Hm.
  destruct (middleware_runs _ _ _ _ _ Ht0) as (ph & Hs & Hstop).
  assert (Hset : settled t0) by (apply run_billing in Hs; destruct ph; simpl in *; try done; left; naive_solver).
  destruct Hset as [[Hnone Hd]|(n & res & Hest & Hsv & Hd)].
  - rewrite (unserved_answers _ _ Hnone Hm Hexp). destruct Hd as [Hd|(n & Hn & Hd)]; [by left|right].
    destruct (table_answers _ _ _ _ _ _ Hs Hexp Hn) as (body & model & route & ? & ? & ? & ?).
    exists body, model, route, n. by split_and!.
  - right. destruct (table_answers _ _ _ _ _ _ Hs Hexp Hest) as (body & model & route & Hb & ? & ? & ?).
    exists body, model, route, n.
    destruct (serve_answers _ _ _ _ _ _ _ Ht0 Hexp Hsv) as (w & r' & body' & model' & url & Hin & Hall & Hnil).
    assert (body' = body) as ->.
    { destruct (steps_In _ _ _ _ _ Hs Hin) as (g1 & g2 & Hstep). apply serve_step in Hstep as (-> & Hb' & _). congruence. }
    split_and!; try done.
    + intros Ha. rewrite Hd, owed_failed; [done|]. exact (Hnil Ha).
    + rewrite Hd. eapply Forall_impl; [exact Hall|]. intros a Hr. unfold billed. by rewrite (Hr (Z.max 0 n)) by lia.
Qed.
End Handler.

(** * Behind the fetch client and the gRPC client *)

(** The units of the debits the daemon is asked for. *)
Definition grpc_debits (t : list event) : list Z := grpc_calls t ≫= call_units.

(** The answer an HTTP exchange is for the worker: a stream that was asked for is read
    as far as it came, any other body to its end; the error answer to a request for a
    stream is read before it is relayed. *)
Definition exchange (rq : http_request) (ans : res http_response) : answer :=
  let stream := negb (str_nil (Header_Get (hq_headers rq) "Accept")) in
  match ans with
  | Err _ => Answer stream None false
  | Ok resp =>
      let writable := checkWriteHeaderCode (hp_status resp) in
      let refused := (hp_status resp <? 200) || (300 <=? hp_status resp) in
      let '(text, err) := stream_ReadAll (hp_body resp) in
      if stream then Answer true (Some text) (writable && (refused || ended (hp_body resp)))
      else match err with
           | None => Answer false (Some text) writable
           | Some _ => Answer false None false
           end
  end.

Definition ev_exchanges (x : event) : list answer :=
  match x with Ev e a =>
    match e return resp e -> list answer with EHttpDo rq => fun ans => [exchange rq ans] | _ => fun _ => [] end a
  end.
Definition exchanges (t : list event) : list answer := t ≫= ev_exchanges.

(** A backend call is one exchange with its answer, or none and no answer. *)
Definition exchanged (l : list answer) (a : answer) : Prop := l = [a] \/ l = [] /\ an_text a = None.

Lemma raw_exchanged url ct body s b : Tr (fetch_DoRaw url ct body) s b -> exchanged (exchanges s) (raw_answer b).
Proof.
  intros Ht. unfold fetch_DoRaw, NewRequest in Ht.
  destruct (url_Parse url); cbn [mbind res_bind] in Ht; [|right; by destruct Ht as [-> ->]].
  apply Tr_event in Ht as ([resp|e] & s1 & -> & Ht); left.
  - apply Tr_bind in Ht as (s2 & s3 & rr & -> & Hr & Hc). apply Tr_bind in Hc as (s4 & s5 & [] & -> & Hc & [-> ->]).
    destruct Hc as ([] & ? & -> & -> & _).
    destruct (stream_ReadAll (hp_body resp)) as [buf [e|]] eqn:E; destruct Hr as [-> ->]; injection E as <- E;
      unfold exchanges, exchange; csimpl; by rewrite E.
  - by destruct Ht as [-> ->].
Qed.
Lemma stream_exchanged url body s b : Tr (fetch_DoStream url body) s b -> exchanged (exchanges s) (stream_answer b).
Proof.
  intros Ht. unfold fetch_DoStream, NewRequest in Ht.
  destruct (url_Parse url); cbn [mbind res_bind] in Ht; [|right; by destruct Ht as [-> ->]].
  apply Tr_event in Ht as ([resp|e] & s1 & -> & Ht); left.
  - destruct (_ || _) eqn:E.
    + cbn [stream_ReadAll] in Ht. apply Tr_bind in Ht as (s2 & s3 & [] & -> & ([] & ? & -> & -> & _) & [-> ->]).
      unfold exchanges, exchange, stream_answer, ended. csimpl. by rewrite str_app_nil_r, E.
    + destruct Ht as [-> ->]. unfold exchanges, exchange, stream_answer. csimpl. by rewrite E.
  - by destruct Ht as [-> ->].
Qed.
Lemma fetch_exchanged c s b : Tr (fetchClient c) s b -> exchanged (exchanges s) (answer_of c b).
Proof. destruct c; [apply raw_exchanged|apply raw_exchanged|apply stream_exchanged]. Qed.

Lemma root_debits rec t0 t :
  expands (root_handler rec) t0 t -> Forall (fun x => match x with Ev e _ => interface_eff e end) t0 ->
  grpc_debits t = debits t0.
Proof. intros Hexp Hi. unfold grpc_debits. by rewrite (root_calls _ _ _ Hi Hexp), debits_calls. Qed.

(** The exchanges are the backend's answers, without those that never were. *)
Lemma payee_exchanges rec c s b : Tr (worker_payee rec c) s b -> exchanges s = [].
Proof.
  intros Hs. pose proof (emits_Tr _ _ _ _ (worker_payee_no_http rec c) Hs) as H. clear Hs.
  induction H as [|[e a] s Ha _ IH]; [done|]. unfold exchanges in *. csimpl. rewrite IH. by destruct e.
Qed.
Lemma event_exchanged rec e s b :
  interface_eff e -> Tr (root_handler rec e) s b ->
  (exchanges s = ev_answers (Ev e b)) \/ (exchanges s = [] /\ Forall (fun a => an_text a = None) (ev_answers (Ev e b))).
Proof.
  intros He Hs. destruct e; try done; try (left; by destruct Hs as (b' & s' & -> & -> & ->)).
  - left. exact (payee_exchanges rec c s b Hs).
  - destruct (fetch_exchanged _ _ _ Hs) as [H|[H Hn]]; [by left|right]. split; [done|by constructor].
Qed.
Lemma root_exchanges rec t0 t :
  Forall (fun x => match x with Ev e _ => interface_eff e end) t0 -> expands (root_handler rec) t0 t ->
  (forall a, a ∈ exchanges t -> a ∈ answers t0) /\ (forall a, a ∈ answers t0 -> a ∈ exchanges t \/ an_text a = None).
Proof.
  revert t. induction t0 as [|[e b] t0 IH]; intros t Hi.
  { intros ->. split; intros a Ha; [done|by apply not_elem_of_nil in Ha]. }
  intros (s & t' & -> & Hs & Ht). inversion Hi as [|? ? He Hi']; subst. destruct (IH t' Hi' Ht) as [H1 H2].
  assert (Hx : exchanges (s ++ t') = exchanges s ++ exchanges t') by apply bind_app. rewrite Hx.
  change (answers (Ev e b :: t0)) with (ev_answers (Ev e b) ++ answers t0).
  destruct (event_exchanged _ _ _ _ He Hs) as [->|[-> Hn]]; split; intros a; rewrite ?elem_of_app.
  - intros [?|?]; [by left|right; auto].
  - intros [?|Ha]; [tauto|]. destruct (H2 a Ha); tauto.
  - intros [Ha|Ha]; [by apply not_elem_of_nil in Ha|right; auto].
  - rewrite Forall_forall in Hn. intros [Ha|Ha]; [right; by apply Hn|]. destruct (H2 a Ha); tauto.
Qed.

(** The bill in terms of what crosses the process boundary. *)
Lemma billing_root tf ok deps r l as_ xs :
  (forall a, a ∈ xs -> a ∈ as_) -> (forall a, a ∈ as_ -> a ∈ xs \/ an_text a = None) ->
  billing tf ok deps r l as_ -> billing tf ok deps r l xs.
Proof.
  intros Hsub Hmiss [[-> ->]|(body & model & route & est & H1 & H2 & H3 & H4 & Hnil & Hall)]; [left|right].
  { split; [done|]. destruct xs as [|a xs]; [done|]. destruct (not_elem_of_nil a). apply Hsub, list_elem_of_here. }
  exists body, model, route, est. split_and!; try done.
  - intros ->. destruct as_ as [|a as_]; [by apply Hnil|].
    inversion Hall as [|? ? Ha _]; subst. unfold billed, second_debit in Ha.
    destruct (Hmiss a (list_elem_of_here _ _)) as [Hin|Hn]; [by apply not_elem_of_nil in Hin|]. by rewrite Hn in Ha.
  - rewrite Forall_forall in *. auto.
Qed.

(** An unpaid route debits nothing and asks no backend. *)
Lemma unpaid_projections t :
  Forall (fun x => match x with Ev e _ => unpaid_eff e end) t -> debits t = [] /\ answers t = [].
Proof.
  induction 1 as [|[e b] t He _ [IH1 IH2]]; [done|]. unfold debits, answers in *. csimpl. rewrite IH1, IH2.
  destruct e as [| | | | | | | | | | | | |[]| | |]; try done; by destruct He.
Qed.

(** * The worker *)

Section Worker.
Context (int64_of_large : float64 -> Z).
Context (os_Open : string -> res string) (yaml_Decode : nat -> string -> res yamlConfig).
Context (grpc_NewClient : string -> res unit).
Context {Enc : Type} (default_encoding : res Enc) (first_encoding : string -> res Enc).
Context (tiktoken_Encode : Enc -> string -> list Z).
Context (version go_version : string).

Abbreviation startup := (Main.startup int64_of_large os_Open yaml_Decode
  grpc_NewClient default_encoding first_encoding tiktoken_Encode version go_version).

(** What the worker's tokenizer counts: by the encoding of the model if the library has
    one, else by the default one, else the word count. *)
Definition worker_count (model s : string) : Z :=
  if str_nil s then 0
  else
    let own := if str_nil (TrimSpace model) then None else found (first_encoding (TrimSpace model)) in
    match own, found default_encoding with
    | Some enc, _ | None, Some enc => len_tokens tiktoken_Encode enc s
    | None, None => wordCount_CountTokens (newWordCount 133) s
    end.
Lemma worker_counts rec :
  ChatCompletions.counts
    (worker_tokenizer default_encoding first_encoding tiktoken_Encode rec) worker_count.
Proof.
  intros model s. eapply (returns_bind _ _ (fun n => n = worker_count model s)).
  2: { intros n ->. eapply returns_bind; [apply returns_any|]. by intros _ _. }
  cbn [CountTokensForModel tiktoken_tokenizer]. unfold tiktoken_CountTokensForModel, worker_count, encodingFor, count_with.
  destruct (str_nil s); [by apply returns_ret|]. rewrite lookup_empty. cbn [NewTiktoken tk_defaultEnc].
  destruct (str_nil (TrimSpace model)), (first_encoding (TrimSpace model)), default_encoding; by apply returns_ret.
Qed.

Lemma module_for_tariff path rec md :
  module_for int64_of_large ("openai:" +:+ path)
    (worker_tokenizer default_encoding first_encoding tiktoken_Encode rec) iface_backend rec = Some md ->
  exists tf, tariff_for worker_count int64_of_large path = Some tf /\ TariffLaws md tf.
Proof.
  assert (Hc : forall p, String.eqb ("openai:" +:+ path) ("openai:" +:+ p) = String.eqb path p) by done.
  unfold module_for, tariff_for.
  repeat (match goal with |- context [String.eqb ("openai:" +:+ path) ?c] =>
    first [change c with ("openai:" +:+ ChatCompletions.HTTPPath) | change c with ("openai:" +:+ Embeddings.HTTPPath)
      | change c with ("openai:" +:+ ImagesGenerations.HTTPPath) | change c with ("openai:" +:+ AudioSpeech.HTTPPath)
      | change c with ("openai:" +:+ ImagesEdits.HTTPPath) | change c with ("openai:" +:+ AudioTranscriptions.HTTPPath)];
    rewrite (Hc _) end).
  repeat (match goal with |- (if String.eqb path ?c then _ else _) = _ -> _ =>
    destruct (String.eqb_spec path c) as [->|_] end;
    [intros [= <-]; eexists; split; [reflexivity|]|]); [..|done].
  - apply chat_tariff_laws, worker_counts.
  - apply embeddings_tariff_laws, worker_counts.
  - apply images_generations_tariff_laws.
  - apply audio_speech_tariff_laws.
  - apply images_edits_tariff_laws.
  - apply audio_transcriptions_tariff_laws.
Qed.

(** C2. Billing by the table, of the whole process.  Whatever a started worker serves,
    the debits it asks the daemon for over gRPC are none at all (and then it has no
    exchange with a backend), or those of the price table: the estimate the table gives
    for the request's body and the model it names, clamped at zero, and behind it what
    the backend's answer reports above that, if the answer was relayed whole.  A request
    without an exchange with a backend, or with one that failed, that broke off or whose
    status net/http does not write, is debited the estimate only, and so is a stream
    that broke off or that the client stopped reading.
    (Three rows of the table are not the documents': they give a chat estimate at least
    2048 tokens of output, count the tokens of an embedding input given as arrays of
    token ids, and debit the last usage of an interrupted stream.) *)
Theorem billed_by_tariff (args : option flags) (ts : list event) (w : worker) (method path : string)
    (flusher : bool) (r : request) (t : list event) (u : unit) :
  Tr (startup args) ts (Normal (inr w)) -> IndexByte method " " = None ->
  Tr (serve_request w method path flusher r) t u ->
  (grpc_debits t = [] /\ exchanges t = []) \/
  exists tf body model route est,
    tariff_for worker_count int64_of_large path = Some tf /\
    request_body r = Ok body /\ tf_model tf body = Ok model /\
    Lookup (wk_cfg w) ("openai:" +:+ path) model = Some route /\ tf_estimate tf body model = Ok est /\
    (exchanges t = [] -> grpc_debits t = [Z.max 0 est]) /\
    Forall (billed tf body (writes_ok t) (Z.max 0 est) (grpc_debits t)) (exchanges t).
Proof.
  intros Hs Hm Ht. unfold serve_request in Ht. apply interp_Tr in Ht as (t0 & Ht0 & Hexp).
  destruct (worker_dispatch _ _ _ _ _ _ _ _ _ _ _ _ method path flusher r Hs Hm)
    as [(md & Hl & Hc & _ & _ & Hh & Hfor)|Hu].
  - rewrite Hh in Ht0. rewrite Hc in Hfor. apply module_for_tariff in Hfor as (tf & Htf & Hlaw).
    apply Tr_bind in Ht0 as (tp & tr & x & -> & Ht0 & [-> _]). rewrite app_nil_r in Hexp.
    pose proof (emits_Tr _ _ _ _ (paid_handler_interface md (paid_deps (wk_cfg w) (wk_recorder w) md) r flusher) Ht0) as Hi.
    pose proof (paid_billing md tf _ _ _ _ _ Ht0) as Hbill.
    destruct (root_exchanges _ _ _ Hi Hexp) as [Hsub Hmiss].
    apply (billing_root _ _ _ _ _ _ _ Hsub Hmiss) in Hbill.
    rewrite <- (root_debits _ _ _ Hexp Hi), <- (root_writes_ok _ _ _ Hexp) in Hbill.
    destruct Hbill as [?|(body & model & route & est & ? & ? & Hlook & ?)]; [by left|right].
    cbn [paid_deps d_cfg d_Capability] in Hlook. rewrite Hc in Hlook. by exists tf, body, model, route, est.
  - left. pose proof (emits_Tr _ _ _ _ Hu Ht0) as H.
    assert (Hi : Forall (fun x => match x with Ev e _ => interface_eff e end) t0)
      by (eapply Forall_impl; [exact H|]; intros [e b]; by destruct e).
    destruct (root_exchanges _ _ _ Hi Hexp) as [Hsub _]. destruct (unpaid_projections _ H) as [Hd Ha].
    rewrite (root_debits _ _ _ Hexp Hi), Hd. split; [done|]. rewrite Ha in Hsub.
    destruct (exchanges t) as [|a l]; [done|]. destruct (not_elem_of_nil a). apply Hsub, list_elem_of_here.
Qed.
End Worker.

(** A backend whose answer reports more than the estimate. *)
Definition usage_answer : string := "{" +:+ dq "usage" +:+ ":{" +:+ dq "total_tokens" +:+ ":3000}}".
Definition usage_env (e : eff) (w : env) : resp e * env :=
  match e as e return resp e * env -> resp e * env with
  | EHttpDo _ => fun _ => (Ok (HttpResponse 200 [] (Stream [usage_answer] ErrEOF)), w)
  | _ => fun x => x
  end (demo_env e w).
Definition usage_trace : list event := trace_of usage_env demo_serving env0.
Example usage_debits : grpc_debits usage_trace = [2048; 952].
Proof. vm_compute. reflexivity. Qed.

Lemma billed_by_tariff_witness :
  (grpc_debits usage_trace = [] /\ exchanges usage_trace = []) \/
  exists tf body model route est,
    tariff_for (worker_count (Ok "cl100k_base") demo_first_encoding demo_encode) (fun _ => 0)
      "/v1/chat/completions" = Some tf /\
    request_body demo_paid_request = Ok body /\ tf_model tf body = Ok model /\
    Lookup (wk_cfg demo_worker) ("openai:" +:+ "/v1/chat/completions") model = Some route /\
    tf_estimate tf body model = Ok est /\
    (exchanges usage_trace = [] -> grpc_debits usage_trace = [Z.max 0 est]) /\
    Forall (billed tf body (writes_ok usage_trace) (Z.max 0 est) (grpc_debits usage_trace)) (exchanges usage_trace).
Proof.
  exact (billed_by_tariff _ _ _ _ _ _ _ _ _ demo_args demo_startup_trace demo_worker "POST"
    "/v1/chat/completions" true demo_paid_request usage_trace (result_of usage_env demo_serving env0)
    demo_started eq_refl (trace_of_Tr _ _ _)).
Defined.

(** * Where the documents say something else *)

(** [max_tokens] below 2048 is taken as it is. *)
Example small_max_tokens :
  tf_estimate (chat_tariff (fun _ s => wordCount_CountTokens (newWordCount 133) s)) ChatCompletions.demo_chat_body "m" = Ok 15.
Proof. vm_compute. reflexivity. Qed.
(** An array of token ids counts one, whatever its length. *)
Example token_arrays_count_one :
  tf_estimate (embeddings_tariff (fun _ _ => 0))
    ("{" +:+ dq "model" +:+ ":" +:+ dq "m" +:+ "," +:+ dq "input" +:+ ":[[1,2,3],[4,5]]}") "m" = Ok 2.
Proof. vm_compute. reflexivity. Qed.
(** A stream that reports 3000 tokens and then breaks off: the estimate stays. *)
Definition broken_answer : res http_response :=
  Ok (HttpResponse 200 [] (Stream ["data: " +:+ usage_answer +:+ nl] ErrCanceled)).
Definition broken_env (e : eff) (w : env) : resp e * env :=
  match e as e return resp e * env -> resp e * env with
  | EHttpDo _ => fun _ => (broken_answer, w)
  | _ => fun x => x
  end (demo_env e w).
Example interrupted_stream_not_reconciled :
  grpc_debits (trace_of broken_env streaming env0) = [2048].
Proof. vm_compute. reflexivity. Qed.
Example finished_stream_reconciled :
  grpc_debits (trace_of (fun e w => match e as e return resp e * env -> resp e * env with
    | EHttpDo _ => fun _ => (Ok (HttpResponse 200 [] (Stream ["data: " +:+ usage_answer +:+ nl] ErrEOF)), w)
    | _ => fun x => x end (demo_env e w)) streaming env0) = [2048; 952].
Proof. vm_compute. reflexivity. Qed.
