(* ===== verification/Gate.v ===== *)
(** No unpaid inference, of the whole process: what is behind an HTTP request a started
    worker sends to a backend. *)
From stdpp Require Import base gmap strings list.
From Stdlib Require Import ZArith Lia Ascii String.
From S2P Require Import Prelude.
From S2P Require Import GoStrings.
From S2P Require Import GoConv.
From S2P Require Import GoUrl.
From S2P Require Import GoFloat.
From S2P Require Import GoUnmarshal.
From S2P Require Import Types.
From S2P Require Import Prog.
From S2P Require Import Interp.
From S2P Require Import Config.
From S2P Require Import ConfigFacts.
From S2P Require Import Payee.
From S2P Require Import Backend.
From S2P Require Import Tokenizer.
From S2P Require Import ResponseWriter.
From S2P Require Import Module.
From S2P Require Import Multipart.
From S2P Require Import Middleware.
From S2P Require Import Session.
From S2P Require Import Stack.
From S2P Require Import Env.
From S2P Require Import Mux.
From S2P Require Import Handlers.
From S2P Require Import Main.
From S2P Require Import Worker.
From S2P Require Import Local.
From S2P Require Import Daemon.
From S2P Require Import Relay.
From S2P Require Import Streaming.
From S2P Require Import Tariff.
From S2P Require ChatCompletions.
From S2P Require Embeddings.
From S2P Require ImagesGenerations.
From S2P Require ImagesEdits.
From S2P Require AudioSpeech.
From S2P Require AudioTranscriptions.

(** * What the daemon was asked before *)

(** The calls behind a backend call of a paid route, in order: the session, the payment
    and the debit of the estimate, all accepted. *)
Definition gate_calls (workID : WorkID) (bytes : string) (route : ModelRoute) (price : Z) (sender : string) (est : Z)
  : list (grpc_call * bool) :=
  [(open_call workID route price, true); (GrpcProcessPayment bytes workID, true);
   (GrpcDebitBalance sender workID est, true)].

Lemma payee_calls_app t1 t2 : payee_calls (t1 ++ t2) = payee_calls t1 ++ payee_calls t2.
Proof. apply bind_app. Qed.

Section Module.
Context (m : Module) (tf : Tariff) `{!ModuleLaws m} `{!TariffLaws m tf}.

Lemma serve_no_payee w r body model url s1 x s2 res :
  Tr (mod_methods m (Serve w r body model url)) (s1 ++ x :: s2) res -> payee_calls s1 = [].
Proof.
  intros Ht. pose proof (emits_Tr _ _ _ _ (module_serve_eff m (Serve w r body model url)) Ht) as H. apply Forall_app in H as [H _]. clear Ht.
  induction H as [|[e a] s He _ IH]; [done|]. unfold payee_calls in *. csimpl. rewrite IH. by destruct e.
Qed.

(** An event of the interface of the daemon is there in the composition. *)
Lemma module_keeps_payee t0 t c a :
  expands (module_handler (mod_methods m)) t0 t -> In (Ev (EPayee c) a) t0 -> In (Ev (EPayee c) a) t.
Proof.
  intros Hexp Hin. destruct (expands_event _ _ _ _ _ Hin Hexp) as (s & Hs & Hsub).
  destruct Hs as (b & s' & -> & -> & ->). apply Hsub. by left.
Qed.

Lemma backend_behind_calls deps flusher r t1 t2 c ans x :
  Tr (paid_handler m deps r flusher) (t1 ++ Ev (EBackend c) ans :: t2) x ->
  exists body bytes model route price sender n,
    request_body r = Ok body /\ session_of deps r model route bytes price /\
    tf_model tf body = Ok model /\ tf_estimate tf body model = Ok n /\
    backend_target c = (target_url (mr_BackendURL route) (mod_HTTPPath m), body) /\
    payee_calls t1 = gate_calls (deriveWorkID bytes) bytes route price sender (Z.max 0 n) /\
    accepted_payment bytes sender t1.
Proof.
  intros Ht. destruct (backend_paid m _ _ _ _ _ _ _ _ Ht)
    as (t0 & t1a & s1 & s2 & w & body & model & route & sender & est & res & Hrun & Hexp & -> & Hb & Htgt & Hserve).
  pose proof (run_metered _ _ _ _ Hrun) as (body' & Hb' & Hx & n & Hn & ->).
  assert (body' = body) as -> by congruence.
  pose proof (run_calls _ _ _ _ Hrun) as (bytes & price & Hses & Hcalls).
  pose proof (run_evidence _ _ _ _ Hrun) as (_ & bytes' & Hp' & _ & (pp & Hpp & Hsender) & _).
  assert (bytes' = bytes) as -> by (destruct Hses as [? _]; congruence).
  exists body, bytes, model, route, price, sender, n. split_and!; try done.
  - destruct (expands_event _ _ _ _ _ Hx Hexp) as (s & Hseg & _).
    symmetry. exact (returns_Tr _ _ _ _ (law_tariff_model body) Hseg).
  - destruct (expands_event _ _ _ _ _ Hn Hexp) as (s & Hseg & _).
    symmetry. exact (returns_Tr _ _ _ _ (law_tariff_estimate body model) Hseg).
  - by rewrite payee_calls_app, (serve_no_payee _ _ _ _ _ _ _ _ _ Hserve), app_nil_r, (module_calls m _ _ Hexp).
  - exists pp. split; [|done]. apply in_app_iff. left. by apply (module_keeps_payee _ _ _ _ Hexp).
Qed.
End Module.

(** * One exchange *)

(** A [Serve] asks the backend at most once. *)
Lemma serve_answers_once url body g t g' :
  mon_run (serve_mon url body) g t = Next g' -> (length (answers t) + (if sg_called g then 1 else 0) <= 1)%nat.
Proof.
  revert g. induction t as [|[e a] t IH]; intros g; [by destruct g as [[] ?]; simpl; lia|].
  cbn [mon_run]. intros H. assert (Hl : length (answers (Ev e a :: t)) = (length (ev_answers (Ev e a)) + length (answers t))%nat)
    by (unfold answers; csimpl; apply length_app).
  rewrite Hl. destruct (serve_mon url body g (Ev e a)) as [g1| |] eqn:E; [|done..]. specialize (IH _ H). destruct g as [called wire].
  destruct e; cbn [ev_answers length] in *; simpl in E; destruct called; repeat case_match; simplify_eq/=; lia.
Qed.
Lemma paid_answers_once (m : Module) `{!ModuleLaws m} `{!RelayLaws m} deps flusher r t x :
  Tr (paid_handler m deps r flusher) t x -> (length (answers t) <= 1)%nat.
Proof.
  intros Ht. destruct (paid_segment m _ _ _ _ _ Ht) as [Hnone|(ta & s & tb & w & r' & body & model & url & res & -> & Hw & Hs & Ha & Hb)].
  { rewrite unanswered; [simpl; lia|]. eapply Forall_impl; [exact Hnone|]. intros [e b]. by destruct e. }
  rewrite !answers_app, (quiet_answers _ Ha), (quiet_answers _ Hb), app_nil_r.
  pose proof (safe_sound _ _ _ _ _ _ (law_Serve w r' body model url) Hs) as H.
  destruct (mon_run _ _ s) as [g| |] eqn:E; [|done|].
  - pose proof (serve_answers_once _ _ _ _ _ E). simpl in *. lia.
  - exfalso. clear -E. revert E. generalize (ServeGhost false w). induction s as [|[e a] s IH]; intros g; [done|].
    cbn [mon_run]. destruct (serve_mon _ _ g (Ev e a)) eqn:E; [apply IH|done|]. destruct e; simpl in E; by repeat case_match.
Qed.
Lemma exchanges_le rec t0 t :
  Forall (fun x => match x with Ev e _ => interface_eff e end) t0 -> expands (root_handler rec) t0 t ->
  (length (exchanges t) <= length (answers t0))%nat.
Proof.
  revert t. induction t0 as [|[e b] t0 IH]; intros t Hi; [by intros ->|].
  intros (s & t' & -> & Hs & Ht). inversion Hi as [|? ? He Hi']; subst. specialize (IH t' Hi' Ht).
  unfold exchanges, answers in *. rewrite bind_app. csimpl. rewrite !length_app.
  fold (exchanges s) (exchanges t') in *. destruct (event_exchanged _ _ _ _ He Hs) as [->|[-> _]]; simpl; lia.
Qed.

(** The calls of a paid request end as the script of a session does. *)
Lemma paid_calls_end (m : Module) `{!ModuleLaws m} deps flusher r t x :
  Tr (paid_handler m deps r flusher) t x ->
  payee_calls t = [] \/ exists workID bytes route price, script workID bytes route price (payee_calls t).
Proof.
  intros Ht. apply interp_Tr in Ht as (t0 & Ht0 & Hexp). rewrite (module_calls m _ _ Hexp).
  destruct (middleware_runs _ _ _ _ _ Ht0) as (ph & Hrun & Hstop). apply run_calls in Hrun.
  destruct ph; try done; simpl in Hrun; [by left|by left|]. naive_solver.
Qed.

(** * At the root *)

Lemma fetch_no_grpc c s1 x s2 b : Tr (fetchClient c) (s1 ++ x :: s2) b -> grpc_calls s1 = [].
Proof.
  intros Ht. pose proof (emits_Tr _ _ _ _ (fetch_emits c) Ht) as H. apply Forall_app in H as [H _]. clear Ht.
  induction H as [|[e a] s He _ IH]; [done|]. unfold grpc_calls in *. csimpl. rewrite IH. by destruct e.
Qed.

(** An accepted payment is an accepted gRPC call with the same sender. *)
Lemma rooted_payment rec t0 t bytes sender :
  expands (root_handler rec) t0 t -> accepted_payment bytes sender t0 ->
  exists p, In (Ev (EGrpc (GrpcProcessPayment bytes (deriveWorkID bytes))) (Ok p)) t /\ pb_Sender p = sender.
Proof.
  intros Hexp (pp & Hin & <-). destruct (expands_event _ _ _ _ _ Hin Hexp) as (s & Hs & Hsub).
  apply (Tr_worker_payee rec (ProcessPayment bytes (deriveWorkID bytes))) in Hs as (s1 & s0 & s2 & -> & (resp & s' & -> & -> & Hr)).
  destruct resp as [p|e]; [|discriminate Hr]. exists p. injection Hr as ->. split; [|done].
  apply Hsub. rewrite !in_app_iff. right. left. by left.
Qed.

Section Worker.
Context (int64_of_large : float64 -> Z).
Context (os_Open : string -> res string) (yaml_Decode : nat -> string -> res yamlConfig).
Context (grpc_NewClient : string -> res unit).
Context {Enc : Type} (default_encoding : res Enc) (first_encoding : string -> res Enc).
Context (tiktoken_Encode : Enc -> string -> list Z).
Context (version go_version : string).

Abbreviation startup := (Main.startup int64_of_large os_Open yaml_Decode
  grpc_NewClient default_encoding first_encoding tiktoken_Encode version go_version).
Abbreviation worker_count := (Tariff.worker_count default_encoding first_encoding tiktoken_Encode).

(** An HTTP exchange of a started worker, from the paid request it belongs to. *)
Lemma exchange_behind_gate args ts w method path flusher r t1 t2 rq ans u :
  Tr (startup args) ts (Normal (inr w)) -> IndexByte method " " = None ->
  Tr (serve_request w method path flusher r) (t1 ++ Ev (EHttpDo rq) ans :: t2) u ->
  exists md tf t0 x body bytes model route price sender n,
    method = "POST" /\ ModuleLaws md /\ tariff_for worker_count int64_of_large path = Some tf /\
    request_body r = Ok body /\
    (payment_bytes r = Some bytes /\ Lookup (wk_cfg w) ("openai:" +:+ path) model = Some route /\
     BigSetString (mr_PricePerWorkUnitWei route) = Some price) /\
    tf_model tf body = Ok model /\ tf_estimate tf body model = Ok n /\
    hq_url rq = target_url (mr_BackendURL route) path /\ hq_body rq = body /\
    grpc_calls t1 = gate_calls (deriveWorkID bytes) bytes route price sender (Z.max 0 n) /\
    (exists p, In (Ev (EGrpc (GrpcProcessPayment bytes (deriveWorkID bytes))) (Ok p)) t1 /\ pb_Sender p = sender) /\
    RelayLaws md /\ Tr (paid_handler md (paid_deps (wk_cfg w) (wk_recorder w) md) r flusher) t0 x /\
    expands (root_handler (wk_recorder w)) t0 (t1 ++ Ev (EHttpDo rq) ans :: t2).
Proof.
  intros Hs Hm Ht. unfold serve_request in Ht.
  destruct (worker_dispatch _ _ _ _ _ _ _ _ _ _ _ _ method path flusher r Hs Hm) as [(md & Hl & Hc & Hp & -> & Hh & Hfor)|Hu].
  2: { destruct (http_behind_backend _ _ _ _ _ _ _ ltac:(eapply emits_mono; [|exact Hu]; by intros []) Ht)
         as (t0a & c & b & t0b & t1a & s & s' & Ht0 & _).
       pose proof (emits_Tr _ _ _ _ Hu Ht0) as H. rewrite List.Forall_forall in H.
       by destruct (H (Ev (EBackend c) b) ltac:(apply in_app_iff; right; by left)). }
  rewrite Hh in Ht. pose proof Hfor as Hrelay. apply (module_for_relay int64_of_large) in Hrelay.
  rewrite Hc in Hfor. apply module_for_tariff in Hfor as (tf & Htf & Hlaw).
  apply http_behind_backend in Ht as (t0a & c & b & t0b & t1a & s & s' & Ht0 & Htarget & Hexp & -> & Hfetch & Hall).
  2: { apply emits_bind; [by apply paid_handler_interface|by intros]. }
  apply Tr_bind in Ht0 as (tp & tr & x & E & Ht0 & [-> _]). rewrite app_nil_r in E. subst tp.
  pose proof (emits_Tr _ _ _ _ (paid_handler_interface md _ _ _) Ht0) as Hi. apply Forall_app in Hi as [Hi _].
  destruct (backend_behind_calls md tf _ _ _ _ _ _ _ _ Ht0)
    as (body & bytes & model & route & price & sender & n & Hb & (Hpay & Hlook & Hprice) & Hmod & Hest & Htgt & Hcalls & Hacc).
  cbn [paid_deps d_cfg d_Capability] in Hlook. rewrite Hc in Hlook. rewrite Htgt, Hp in Htarget.
  injection Htarget as Hurl Hbody.
  exists md, tf, (t0a ++ Ev (EBackend c) b :: t0b), x, body, bytes, model, route, price, sender, n. split_and!; try done.
  - unfold grpc_calls. rewrite bind_app. fold (grpc_calls t1a) (grpc_calls s).
    by rewrite (fetch_no_grpc _ _ _ _ _ Hfetch), app_nil_r, (root_calls _ _ _ Hi Hexp).
  - destruct (rooted_payment _ _ _ _ _ Hexp Hacc) as (p & Hin & Hsender). exists p.
    split; [apply in_app_iff; by left|done].
Qed.

(** C1. No unpaid inference, of the whole process.  Let the worker have started,
    with whatever configuration it loaded.  Whenever serving a request, of any
    method and path, hands an HTTP request for a backend to the HTTP client, the
    request is a POST to the path of a configured capability with a decodable payment;
    the HTTP request goes to the backend URL of the route of the model its body names,
    and carries that body unchanged; and the gRPC calls made until then are these
    three, in this order and all accepted: the session for that capability, model,
    price and work unit, the payment in it, and the debit, from the sender the daemon
    gave for the payment, of the estimate the price table gives for that body and
    model, clamped at zero. *)
Theorem worker_gate (args : option flags) (ts : list event) (w : worker) (method path : string)
    (flusher : bool) (r : request) (t1 t2 : list event) (rq : http_request) (ans : res http_response) (u : unit) :
  Tr (startup args) ts (Normal (inr w)) -> IndexByte method " " = None ->
  Tr (serve_request w method path flusher r) (t1 ++ Ev (EHttpDo rq) ans :: t2) u ->
  exists tf body bytes model route price sender n,
    method = "POST" /\ tariff_for worker_count int64_of_large path = Some tf /\
    request_body r = Ok body /\ payment_bytes r = Some bytes /\ tf_model tf body = Ok model /\
    Lookup (wk_cfg w) ("openai:" +:+ path) model = Some route /\
    BigSetString (mr_PricePerWorkUnitWei route) = Some price /\ tf_estimate tf body model = Ok n /\
    hq_url rq = target_url (mr_BackendURL route) path /\ hq_body rq = body /\
    grpc_calls t1 = gate_calls (deriveWorkID bytes) bytes route price sender (Z.max 0 n) /\
    (exists p, In (Ev (EGrpc (GrpcProcessPayment bytes (deriveWorkID bytes))) (Ok p)) t1 /\ pb_Sender p = sender).
Proof.
  intros Hs Hm Ht. destruct (exchange_behind_gate _ _ _ _ _ _ _ _ _ _ _ _ Hs Hm Ht) as
    (md & tf & t0 & x & body & bytes & model & route & price & sender & n & -> & _ & Htf & Hb & (Hpay & Hlook & Hprice)
     & Hmod & Hest & Hurl & Hbody & Hcalls & Hp & _).
  by exists tf, body, bytes, model, route, price, sender, n.
Qed.

(** C18. One payment, one exchange, then the settlement.  Whenever serving a request
    hands an HTTP request for a backend to the HTTP client, it is the only one of the
    request, and what follows at the daemon settles the session it was paid in: at most
    one more debit, and then the close of that session as the last call, both for the
    sender and the work id of the debit before. *)
Theorem one_exchange_then_settled (args : option flags) (ts : list event) (w : worker) (method path : string)
    (flusher : bool) (r : request) (t1 t2 : list event) (rq : http_request) (ans : res http_response) (u : unit) :
  Tr (startup args) ts (Normal (inr w)) -> IndexByte method " " = None ->
  Tr (serve_request w method path flusher r) (t1 ++ Ev (EHttpDo rq) ans :: t2) u ->
  exchanges t1 = [] /\ exchanges t2 = [] /\
  exists workID sender n debit closed,
    In (GrpcDebitBalance sender workID n, true) (grpc_calls t1) /\
    grpc_calls t2 = debit_calls sender workID debit ++ [(GrpcCloseSession sender workID, closed)] /\
    (length debit <= 1)%nat.
Proof.
  intros Hs Hm Ht. destruct (exchange_behind_gate _ _ _ _ _ _ _ _ _ _ _ _ Hs Hm Ht) as
    (md & tf & t0 & x & body & bytes & model & route & price & sender & n & _ & Hl & _ & _ & _
     & _ & _ & _ & _ & Hcalls & _ & Hrelay & Ht0 & Hexp).
  pose proof (emits_Tr _ _ _ _ (paid_handler_interface md _ _ _) Ht0) as Hi.
  pose proof (exchanges_le _ _ _ Hi Hexp) as Hle. pose proof (paid_answers_once md _ _ _ _ _ Ht0) as Hone.
  assert (Hx : exchanges (t1 ++ Ev (EHttpDo rq) ans :: t2) = exchanges t1 ++ exchange rq ans :: exchanges t2)
    by (unfold exchanges; by rewrite bind_app; csimpl).
  rewrite Hx, length_app in Hle. cbn [length] in Hle.
  assert (H1 : length (exchanges t1) = 0%nat) by lia. assert (H2 : length (exchanges t2) = 0%nat) by lia.
  apply length_zero_iff_nil in H1, H2. split_and!; [done|done|].
  pose proof (paid_calls_end md _ _ _ _ _ Ht0) as Hend. rewrite <- (root_calls _ _ _ Hi Hexp) in Hend.
  assert (Hg : grpc_calls (t1 ++ Ev (EHttpDo rq) ans :: t2) = grpc_calls t1 ++ grpc_calls t2)
    by (unfold grpc_calls; by rewrite bind_app; csimpl).
  rewrite Hg, Hcalls in Hend. clear Hg. destruct Hend as [Hend|(wid & bytes' & route' & price' & Hend)]; [done|].
  remember (_ ++ grpc_calls t2) as l eqn:E. destruct Hend as [| |sender' ds closed Hds]; [done|done|].
  cbn [gate_calls app] in E. injection E; clear E; intros E; intros; subst wid bytes'.
  destruct ds as [|d1 ds]; [by destruct (grpc_calls t2)|]. cbn [debit_calls fmap list_fmap app] in E.
  injection E; clear E; intros E; intros; subst sender'.
  exists (deriveWorkID bytes), sender, (Z.max 0 n), ds, closed. split_and!.
  - rewrite Hcalls. right. right. by left.
  - by symmetry.
  - destruct ds as [|d2 [|]]; simpl; [lia|lia|by destruct Hds].
Qed.
End Worker.

Lemma worker_gate_witness :
  exists tf body bytes model route price sender n,
    "POST" = "POST" /\
    tariff_for (Tariff.worker_count (Ok "cl100k_base") demo_first_encoding demo_encode) (fun _ => 0)
      "/v1/chat/completions" = Some tf /\
    request_body demo_paid_request = Ok body /\ payment_bytes demo_paid_request = Some bytes /\
    tf_model tf body = Ok model /\
    Lookup (wk_cfg demo_worker) ("openai:" +:+ "/v1/chat/completions") model = Some route /\
    BigSetString (mr_PricePerWorkUnitWei route) = Some price /\ tf_estimate tf body model = Ok n /\
    hq_url demo_http_request = target_url (mr_BackendURL route) "/v1/chat/completions" /\
    hq_body demo_http_request = body /\
    grpc_calls demo_http_before = gate_calls (deriveWorkID bytes) bytes route price sender (Z.max 0 n) /\
    (exists p, In (Ev (EGrpc (GrpcProcessPayment bytes (deriveWorkID bytes))) (Ok p)) demo_http_before /\
       pb_Sender p = sender).
Proof.
  refine (worker_gate _ _ _ _ _ _ _ _ _ demo_args demo_startup_trace demo_worker "POST"
    "/v1/chat/completions" true demo_paid_request demo_http_before
    (drop (S (length demo_http_before)) demo_serving_trace) demo_http_request
    (Ok (HttpResponse 200 [] (Stream ["{}"] ErrEOF))) (result_of demo_env demo_serving env0)
    demo_started eq_refl _).
  match goal with |- Tr _ ?t _ => replace t with demo_serving_trace by (vm_compute; reflexivity) end.
  apply trace_of_Tr.
Defined.

Lemma one_exchange_then_settled_witness :
  exchanges demo_http_before = [] /\ exchanges (drop (S (length demo_http_before)) demo_serving_trace) = [] /\
  exists workID sender n debit closed,
    In (GrpcDebitBalance sender workID n, true) (grpc_calls demo_http_before) /\
    grpc_calls (drop (S (length demo_http_before)) demo_serving_trace) =
      debit_calls sender workID debit ++ [(GrpcCloseSession sender workID, closed)] /\
    (length debit <= 1)%nat.
Proof.
  refine (one_exchange_then_settled _ _ _ _ _ _ _ _ _ demo_args demo_startup_trace demo_worker "POST"
    "/v1/chat/completions" true demo_paid_request demo_http_before
    (drop (S (length demo_http_before)) demo_serving_trace) demo_http_request
    (Ok (HttpResponse 200 [] (Stream ["{}"] ErrEOF))) (result_of demo_env demo_serving env0)
    demo_started eq_refl _).
  match goal with |- Tr _ ?t _ => replace t with demo_serving_trace by (vm_compute; reflexivity) end.
  apply trace_of_Tr.
Defined.
